(** * VirtualServer / VirtualServerRoute: validator and configuration generator

    A shallow embedding of
      - internal/configs/virtualserver.go   (the generator), and
      - pkg/apis/configuration/validation/validation.go   (the validator)
    of the NGINX Kubernetes ingress controller, together with the properties
    of the two that the specification states.

    Conventions of the embedding:
      - a Go [string] is a byte string: Rocq's [string] (a list of 8-bit
        [ascii]);
      - a Go [int] is a [Z]; sums of caller-supplied ints wrap around at 64
        bits ([int_add]); a counter that is bounded by the length of a slice
        (a [range] index, [len(x)-1]) cannot overflow and is plain [Z]
        arithmetic;
      - a pointer that the code tests against [nil] is an [option];
      - a Go [map] is a [gmap]; a slice is a [list];
      - a run-time panic (nil dereference, index out of range) is the result
        [None] of an [option]-valued function. *)

From Stdlib Require Import ZArith String Ascii DecimalString Lia.
From stdpp Require Import base option list strings gmap.

(** ** Go primitives *)

(** Two's complement wrap-around of a 64-bit signed [int]. *)
Definition wrap64 (z : Z) : Z := ((z + 2 ^ 63) `mod` 2 ^ 64 - 2 ^ 63)%Z.

Definition int_add (x y : Z) : Z := wrap64 (x + y).

(** [len(x)] of a slice. *)
Definition len {A} (l : list A) : Z := Z.of_nat (length l).

(** [fmt.Sprintf("%d", n)]. *)
Definition itoa (n : Z) : string := NilZero.string_of_int (Z.to_int n).

(** [for i, x := range l { st = body i x st }], the index starting at [i]. *)
Fixpoint for_range {A St} (body : Z → A → St → St) (i : Z) (l : list A) (st : St) : St :=
  match l with
  | [] => st
  | x :: l' => for_range body (i + 1) l' (body i x st)
  end.

(** The same loop when the body can panic. *)
Fixpoint for_range_opt {A St} (body : Z → A → St → option St) (i : Z) (l : list A) (st : St)
    : option St :=
  match l with
  | [] => Some st
  | x :: l' => st' ← body i x st; for_range_opt body (i + 1) l' st'
  end.

(** The list that a loop [for i, x := range l] builds when its body appends
    [f i x]. *)
Fixpoint imap_from {A B} (f : Z → A → B) (i : Z) (l : list A) : list B :=
  match l with
  | [] => []
  | x :: l' => f i x :: imap_from f (i + 1) l'
  end.

(** The part of package [strings] (and of string indexing) that the code uses. *)
Module go_strings.

Definition HasPrefix (s prefix : string) : bool := String.prefix prefix s.

Definition HasSuffix (s suffix : string) : bool :=
    (String.length suffix <=? String.length s)%nat &&
    String.eqb
      (String.substring (String.length s - String.length suffix) (String.length suffix) s)
      suffix.

  (** [s[n:]] for [n <= len(s)]. *)
Fixpoint slice_from (n : nat) (s : string) : string :=
    match n, s with
    | S n', String _ s' => slice_from n' s'
    | _, _ => s
    end.

Definition TrimPrefix (s prefix : string) : string :=
    if HasPrefix s prefix then slice_from (String.length prefix) s else s.

Definition Contains (s substr : string) : bool :=
    match String.index 0 substr s with Some _ => true | None => false end.

Fixpoint Repeat (s : string) (count : nat) : string :=
    match count with
    | O => ""
    | S n => s +:+ Repeat s n
    end.

  (** [ReplaceAll(s, old, new)] for a non-empty [old]; [skip] counts the bytes
      of a replaced occurrence that are still to be dropped. *)
Fixpoint ReplaceAll_from (old new : string) (skip : nat) (s : string) : string :=
    match s with
    | EmptyString => ""
    | String c s' =>
        match skip with
        | S k => ReplaceAll_from old new k s'
        | O =>
            if HasPrefix s old
            then new +:+ ReplaceAll_from old new (String.length old - 1) s'
            else String c (ReplaceAll_from old new 0 s')
        end
    end.

Definition ReplaceAll (s old new : string) : string := ReplaceAll_from old new 0 s.

  (** [SplitN(s, sep, 2)] for a non-empty [sep]: at most two pieces. *)
Definition SplitN2 (s sep : string) : list string :=
    match String.index 0 sep s with
    | Some n => [String.substring 0 n s; slice_from (n + String.length sep) s]
    | None => [s]
    end.

  (** [strings.Join]. *)
Definition Join (elems : list string) (sep : string) : string := String.concat sep elems.

End go_strings.

(** ** The resource types (pkg/apis/configuration/v1/types.go) *)

Module conf_v1.

Module UpstreamBuffers.
Record t := mk { Number : Z; Size : string }.
End UpstreamBuffers.

Module UpstreamTLS.
Record t := mk { Enable : bool }.
End UpstreamTLS.

Module Header.
Record t := mk { Name : string; Value : string }.
End Header.

Module HealthCheck.
Record t := mk {
      Enable : bool;
      Path : string;
      Interval : string;
      Jitter : string;
      Fails : Z;
      Passes : Z;
      Port : Z;
      TLS : option UpstreamTLS.t;
      ConnectTimeout : string;
      ReadTimeout : string;
      SendTimeout : string;
      Headers : list Header.t;
      StatusMatch : string;
    }.
End HealthCheck.

Module SessionCookie.
Record t := mk {
      Enable : bool;
      Name : string;
      Path : string;
      Expires : string;
      Domain : string;
      HTTPOnly : bool;
      Secure : bool;
    }.
End SessionCookie.

Module UpstreamQueue.
Record t := mk { Size : Z; Timeout : string }.
End UpstreamQueue.

Module Upstream.
Record t := mk {
      Name : string;
      Service : string;
      Subselector : gmap string string;
      Port : Z;  (* uint16 *)
      LBMethod : string;
      FailTimeout : string;
      MaxFails : option Z;
      MaxConns : option Z;
      Keepalive : option Z;
      ProxyConnectTimeout : string;
      ProxyReadTimeout : string;
      ProxySendTimeout : string;
      ProxyNextUpstream : string;
      ProxyNextUpstreamTimeout : string;
      ProxyNextUpstreamTries : Z;
      ProxyBuffering : option bool;
      ProxyBuffers : option UpstreamBuffers.t;
      ProxyBufferSize : string;
      ClientMaxBodySize : string;
      TLS : UpstreamTLS.t;
      HealthCheck : option HealthCheck.t;
      SlowStart : string;
      Queue : option UpstreamQueue.t;
      SessionCookie : option SessionCookie.t;
    }.

    (** The zero value, which a lookup of a missing key in a
        [map[string]Upstream] returns. *)
Definition zero : t :=
      mk "" "" ∅ 0 "" "" None None None "" "" "" "" "" 0 None None "" ""
         (UpstreamTLS.mk false) None "" None None.
End Upstream.

Module ActionRedirect.
Record t := mk { URL : string; Code : Z }.
End ActionRedirect.

Module ActionReturn.
Record t := mk { Code : Z; Type_ : string; Body : string }.
End ActionReturn.

Module Action.
Record t := mk {
      Pass : string;
      Redirect : option ActionRedirect.t;
      Return : option ActionReturn.t;
    }.
End Action.

Module Split.
Record t := mk { Weight : Z; Action : option Action.t }.
End Split.

Module Condition.
Record t := mk {
      Header : string;
      Cookie : string;
      Argument : string;
      Variable_ : string;
      Value : string;
    }.
End Condition.

Module Match.
Record t := mk {
      Conditions : list Condition.t;
      Action : option Action.t;
      Splits : list Split.t;
    }.
End Match.

Module Route.
Record t := mk {
      Path : string;
      Route : string;
      Action : option Action.t;
      Splits : list Split.t;
      Matches : list Match.t;
    }.
End Route.

Module TLSRedirect.
Record t := mk { Enable : bool; Code : option Z; BasedOn : string }.
End TLSRedirect.

Module TLS.
Record t := mk { Secret : string; Redirect : option TLSRedirect.t }.
End TLS.

Module VirtualServerSpec.
Record t := mk {
      Host : string;
      TLS : option TLS.t;
      Upstreams : list Upstream.t;
      Routes : list Route.t;
    }.
End VirtualServerSpec.

  (** [Namespace] and [Name] are the two fields of the embedded
      [metav1.ObjectMeta] that the code reads. *)
Module VirtualServer.
Record t := mk { Namespace : string; Name : string; Spec : VirtualServerSpec.t }.
End VirtualServer.

Module VirtualServerRouteSpec.
Record t := mk {
      Host : string;
      Upstreams : list Upstream.t;
      Subroutes : list Route.t;
    }.
End VirtualServerRouteSpec.

Module VirtualServerRoute.
Record t := mk { Namespace : string; Name : string; Spec : VirtualServerRouteSpec.t }.
End VirtualServerRoute.

End conf_v1.

(** ** The configuration model handed to the templates (package version2) *)

Module version2.

Module UpstreamServer.
Record t := mk { Address : string }.
End UpstreamServer.

Module Queue.
Record t := mk { Size : Z; Timeout : string }.
End Queue.

Module SessionCookie.
Record t := mk {
  Enable : bool;
  Name : string;
  Path : string;
  Expires : string;
  Domain : string;
  HTTPOnly : bool;
  Secure : bool;
}.
End SessionCookie.

Module Upstream.
Record t := mk {
  Name : string;
  Servers : list UpstreamServer.t;
  LBMethod : string;
  Resolve : bool;
  Keepalive : Z;
  MaxFails : Z;
  MaxConns : Z;
  SlowStart : string;
  FailTimeout : string;
  UpstreamZoneSize : string;
  Queue : option Queue.t;
  SessionCookie : option SessionCookie.t;
}.
End Upstream.

Module SSL.
Record t := mk {
  HTTP2 : bool;
  Certificate : string;
  CertificateKey : string;
  Ciphers : string;
}.
End SSL.

Module Return.
Record t := mk { Code : Z; Text : string }.
End Return.

Module Location.
Record t := mk {
  Path : string;
  Snippets : list string;
  ProxyConnectTimeout : string;
  ProxyReadTimeout : string;
  ProxySendTimeout : string;
  ClientMaxBodySize : string;
  ProxyMaxTempFileSize : string;
  ProxyBuffering : bool;
  ProxyBuffers : string;
  ProxyBufferSize : string;
  ProxyPass : string;
  ProxyNextUpstream : string;
  ProxyNextUpstreamTimeout : string;
  ProxyNextUpstreamTries : Z;
  HasKeepalive : bool;
  DefaultType : string;
  Return : option Return.t;
}.
End Location.

Module Distribution.
Record t := mk { Weight : string; Value : string }.
End Distribution.

Module SplitClient.
Record t := mk {
  Source : string;
  Variable_ : string;
  Distributions : list Distribution.t;
}.
End SplitClient.

Module HealthCheck.
Record t := mk {
  Name : string;
  URI : string;
  Interval : string;
  Jitter : string;
  Fails : Z;
  Passes : Z;
  Port : Z;
  ProxyPass : string;
  ProxyConnectTimeout : string;
  ProxyReadTimeout : string;
  ProxySendTimeout : string;
  Headers : gmap string string;
  Match : string;
}.
End HealthCheck.

Module TLSRedirect.
Record t := mk { Code : Z; BasedOn : string }.
End TLSRedirect.

Module InternalRedirectLocation.
Record t := mk { Path : string; Destination : string }.
End InternalRedirectLocation.

Module Parameter_.
Record t := mk { Value : string; Result : string }.
End Parameter_.

Module Map.
Record t := mk {
  Source : string;
  Variable_ : string;
  Parameters_ : list Parameter_.t;
}.
End Map.

Module StatusMatch.
Record t := mk { Name : string; Code : string }.
End StatusMatch.

Module Server.
Record t := mk {
  ServerName : string;
  StatusZone : string;
  ProxyProtocol : bool;
  SSL : option SSL.t;
  ServerTokens : string;
  RealIPHeader : string;
  SetRealIPFrom : list string;
  RealIPRecursive : bool;
  Snippets : list string;
  InternalRedirectLocations : list InternalRedirectLocation.t;
  Locations : list Location.t;
  HealthChecks : list HealthCheck.t;
  TLSRedirect : option TLSRedirect.t;
}.
End Server.

Module VirtualServerConfig.
Record t := mk {
  Server : Server.t;
  Upstreams : list Upstream.t;
  SplitClients : list SplitClient.t;
  Maps : list Map.t;
  StatusMatches : list StatusMatch.t;
}.
End VirtualServerConfig.

End version2.

(** ** The generator (internal/configs/virtualserver.go) *)

Module configs.

Import conf_v1.

Definition nginx502Server : string := "unix:/var/lib/nginx/nginx-502-server.sock".

Definition incompatibleLBMethodsForSlowStart : gmap string bool :=
  list_to_map
    [ ("random", true); ("ip_hash", true); ("random two", true);
      ("random two least_conn", true); ("random two least_time=header", true);
      ("random two least_time=last_byte", true) ].

(** Modelled from the spec: [ConfigParams] is declared in a file of package
    configs that is not among the sources. These are the fleet-wide defaults
    (section 6 of the specification) that virtualserver.go reads. *)
Module ConfigParams.
Record t := mk {
  ClientMaxBodySize : string;
  FailTimeout : string;
  HTTP2 : bool;
  Keepalive : Z;
  LBMethod : string;
  LocationSnippets : list string;
  MaxConns : Z;
  MaxFails : Z;
  ProxyBuffering : bool;
  ProxyBuffers : string;
  ProxyBufferSize : string;
  ProxyConnectTimeout : string;
  ProxyMaxTempFileSize : string;
  ProxyProtocol : bool;
  ProxyReadTimeout : string;
  ProxySendTimeout : string;
  RealIPHeader : string;
  RealIPRecursive : bool;
  ServerSnippets : list string;
  ServerTokens : string;
  SetRealIPFrom : list string;
  UpstreamZoneSize : string;
}.
End ConfigParams.

(** What the generator takes from outside the sources: the canonical
    rendering of a label set ([labels.Set(m).String()] of
    k8s.io/apimachinery) and a constant that package configs declares
    in another file. *)
Class GeneratorEnv := {
  labels_Set_String : gmap string string → string;
  pemFileNameForMissingTLSSecret : string;
}.

(** A [runtime.Object] used as the key of a warning: the identity (address)
    of a [*VirtualServer] or of a [*VirtualServerRoute]. *)
Inductive Object :=
  | VirtualServerObject (addr : positive)
  | VirtualServerRouteObject (addr : positive).

#[global] Instance Object_eq_dec : EqDecision Object.
Proof. solve_decision. Defined.

#[global] Instance Object_countable : Countable Object.
Proof.
  refine (inj_countable'
    (λ o, match o with
          | VirtualServerObject a => inl a
          | VirtualServerRouteObject a => inr a
          end)
    (λ s, match s with
          | inl a => VirtualServerObject a
          | inr a => VirtualServerRouteObject a
          end) _).
  by intros [].
Defined.

(** A non-nil pointer to a resource: its address and what it points to. *)
Record ref (A : Type) := Ref { addr : positive; deref : A }.
Arguments Ref {A} _ _.
Arguments addr {A} _.
Arguments deref {A} _.

Abbreviation Warnings := (gmap Object (list string)).

(** [TLSSecret], the fifth field of the Go struct, is never read by the
    generator and is left out. *)
Module VirtualServerEx.
Record t := mk {
  VirtualServer : ref VirtualServer.t;
  Endpoints : gmap string (list string);
  VirtualServerRoutes : list (ref VirtualServerRoute.t);
  ExternalNameSvcs : gmap string bool;
}.
End VirtualServerEx.

Definition vsObject (vs : ref VirtualServer.t) : Object := VirtualServerObject (addr vs).
Definition vsrObject (vsr : ref VirtualServerRoute.t) : Object :=
  VirtualServerRouteObject (addr vsr).

Section with_env.
Context `{GeneratorEnv}.

Definition GenerateEndpointsKey (serviceNamespace serviceName : string)
    (subselector : gmap string string) (port : Z) : string :=
  if (0 <? Z.of_nat (size subselector))%Z
  then serviceNamespace +:+ "/" +:+ serviceName +:+ "_" +:+ labels_Set_String subselector
         +:+ ":" +:+ itoa port
  else serviceNamespace +:+ "/" +:+ serviceName +:+ ":" +:+ itoa port.

End with_env.

Record upstreamNamer := { prefix : string }.

Definition newUpstreamNamerForVirtualServer (virtualServer : VirtualServer.t) : upstreamNamer :=
  {| prefix := "vs_" +:+ VirtualServer.Namespace virtualServer +:+ "_"
               +:+ VirtualServer.Name virtualServer |}.

Definition newUpstreamNamerForVirtualServerRoute (virtualServer : VirtualServer.t)
    (virtualServerRoute : VirtualServerRoute.t) : upstreamNamer :=
  {| prefix := "vs_" +:+ VirtualServer.Namespace virtualServer +:+ "_"
               +:+ VirtualServer.Name virtualServer +:+ "_vsr_"
               +:+ VirtualServerRoute.Namespace virtualServerRoute +:+ "_"
               +:+ VirtualServerRoute.Name virtualServerRoute |}.

Definition GetNameForUpstream (namer : upstreamNamer) (upstream : string) : string :=
  prefix namer +:+ "_" +:+ upstream.

Record variableNamer := { safeNsName : string }.

Definition newVariableNamer (virtualServer : VirtualServer.t) : variableNamer :=
  {| safeNsName :=
       go_strings.ReplaceAll
         (VirtualServer.Namespace virtualServer +:+ "_" +:+ VirtualServer.Name virtualServer)
         "-" "_" |}.

Definition GetNameForSplitClientVariable (namer : variableNamer) (index : Z) : string :=
  "$vs_" +:+ safeNsName namer +:+ "_splits_" +:+ itoa index.

Definition GetNameForVariableForMatchesRouteMap (namer : variableNamer)
    (matchesIndex matchIndex conditionIndex : Z) : string :=
  "$vs_" +:+ safeNsName namer +:+ "_matches_" +:+ itoa matchesIndex +:+ "_match_"
    +:+ itoa matchIndex +:+ "_cond_" +:+ itoa conditionIndex.

Definition GetNameForVariableForMatchesRouteMainMap (namer : variableNamer)
    (matchesIndex : Z) : string :=
  "$vs_" +:+ safeNsName namer +:+ "_matches_" +:+ itoa matchesIndex.

Definition generateProxyPassProtocol (enableTLS : bool) : string :=
  if enableTLS then "https" else "http".

Definition generateString (s defaultS : string) : string :=
  if String.eqb s "" then defaultS else s.

Definition generateLBMethod (method defaultMethod : string) : string :=
  if String.eqb method "" then defaultMethod
  else if String.eqb method "round_robin" then ""
  else method.

Definition generateIntFromPointer (n : option Z) (defaultN : Z) : Z :=
  match n with
  | None => defaultN
  | Some n => n
  end.

Definition upstreamHasKeepalive (upstream : Upstream.t) (cfgParams : ConfigParams.t) : bool :=
  match Upstream.Keepalive upstream with
  | Some k => negb (k =? 0)%Z
  | None => negb (ConfigParams.Keepalive cfgParams =? 0)%Z
  end.

Definition generateBuffers (s : option UpstreamBuffers.t) (defaultS : string) : string :=
  match s with
  | None => defaultS
  | Some s => itoa (UpstreamBuffers.Number s) +:+ " " +:+ UpstreamBuffers.Size s
  end.

Definition generateBool (s : option bool) (defaultS : bool) : bool :=
  match s with
  | Some s => s
  | None => defaultS
  end.

(** A string that holds one double quote. *)
Definition dquote : string := String (ascii_of_nat 34) EmptyString.

Definition generatePath (path : string) : string :=
  (* Wrap the regular expression (if present) inside double quotes *)
  if go_strings.HasPrefix path "~*"
  then "~* " +:+ dquote
         +:+ go_strings.TrimPrefix (go_strings.TrimPrefix path "~*") " " +:+ dquote
  else if go_strings.HasPrefix path "~"
  then "~ " +:+ dquote
         +:+ go_strings.TrimPrefix (go_strings.TrimPrefix path "~") " " +:+ dquote
  else path.

Definition newHealthCheckWithDefaults (upstream : Upstream.t) (upstreamName : string)
    (cfgParams : ConfigParams.t) : version2.HealthCheck.t :=
  {| version2.HealthCheck.Name := upstreamName;
     version2.HealthCheck.URI := "/";
     version2.HealthCheck.Interval := "5s";
     version2.HealthCheck.Jitter := "0s";
     version2.HealthCheck.Fails := 1;
     version2.HealthCheck.Passes := 1;
     version2.HealthCheck.Port := Upstream.Port upstream;
     version2.HealthCheck.ProxyPass :=
       generateProxyPassProtocol (UpstreamTLS.Enable (Upstream.TLS upstream))
         +:+ "://" +:+ upstreamName;
     version2.HealthCheck.ProxyConnectTimeout :=
       generateString (Upstream.ProxyConnectTimeout upstream)
         (ConfigParams.ProxyConnectTimeout cfgParams);
     version2.HealthCheck.ProxyReadTimeout :=
       generateString (Upstream.ProxyReadTimeout upstream)
         (ConfigParams.ProxyReadTimeout cfgParams);
     version2.HealthCheck.ProxySendTimeout :=
       generateString (Upstream.ProxySendTimeout upstream)
         (ConfigParams.ProxySendTimeout cfgParams);
     version2.HealthCheck.Headers := ∅;
     version2.HealthCheck.Match := "" |}.

(** The configurator: three settings and the warnings it has collected. *)
Record virtualServerConfigurator := {
  cfgParams : ConfigParams.t;
  isPlus : bool;
  isResolverConfigured : bool;
  warnings : Warnings;
}.

(** [vsc.warnings[obj] = append(vsc.warnings[obj], msg)] *)
Definition addWarningf (vsc : virtualServerConfigurator) (obj : Object) (msg : string)
    : virtualServerConfigurator :=
  {| cfgParams := cfgParams vsc;
     isPlus := isPlus vsc;
     isResolverConfigured := isResolverConfigured vsc;
     warnings := <[obj := default [] (warnings vsc !! obj) ++ [msg]]> (warnings vsc) |}.

Definition clearWarnings (vsc : virtualServerConfigurator) : virtualServerConfigurator :=
  {| cfgParams := cfgParams vsc;
     isPlus := isPlus vsc;
     isResolverConfigured := isResolverConfigured vsc;
     warnings := ∅ |}.

Definition newVirtualServerConfigurator (cfgParams : ConfigParams.t)
    (isPlus isResolverConfigured : bool) : virtualServerConfigurator :=
  {| cfgParams := cfgParams;
     isPlus := isPlus;
     isResolverConfigured := isResolverConfigured;
     warnings := ∅ |}.

(** [_, ok := m[key]] *)
Definition has_key {V} (m : gmap string V) (key : string) : bool :=
  match m !! key with Some _ => true | None => false end.

Definition GenerateExternalNameSvcKey (namespace service : string) : string :=
  namespace +:+ "/" +:+ service.

Section with_env.
Context `{GeneratorEnv}.

Definition generateEndpointsForUpstream (vsc : virtualServerConfigurator) (owner : Object)
    (namespace : string) (upstream : Upstream.t) (virtualServerEx : VirtualServerEx.t)
    : list string * virtualServerConfigurator :=
  let endpointsKey :=
    GenerateEndpointsKey namespace (Upstream.Service upstream)
      (Upstream.Subselector upstream) (Upstream.Port upstream) in
  let externalNameSvcKey := GenerateExternalNameSvcKey namespace (Upstream.Service upstream) in
  let endpoints := default [] (VirtualServerEx.Endpoints virtualServerEx !! endpointsKey) in
  if negb (isPlus vsc) && (len endpoints =? 0)%Z then ([nginx502Server], vsc)
  else
    let isExternalNameSvc :=
      has_key (VirtualServerEx.ExternalNameSvcs virtualServerEx) externalNameSvcKey in
    if isExternalNameSvc && negb (isResolverConfigured vsc)
    then
      let vsc :=
        addWarningf vsc owner
          ("Type ExternalName service " +:+ Upstream.Service upstream +:+ " in upstream "
             +:+ Upstream.Name upstream
             +:+ " will be ignored. To use ExternaName services, a resolver must be configured in the ConfigMap") in
      ([], vsc)
    else (endpoints, vsc).

End with_env.

Definition generateSlowStartForPlus (vsc : virtualServerConfigurator) (owner : Object)
    (upstream : Upstream.t) (lbMethod : string) : string * virtualServerConfigurator :=
  if String.eqb (Upstream.SlowStart upstream) "" then ("", vsc)
  else
    let isIncompatible := has_key incompatibleLBMethodsForSlowStart lbMethod in
    let isHash := go_strings.HasPrefix lbMethod "hash" in
    if isIncompatible || isHash
    then
      let vsc :=
        addWarningf vsc owner
          ("Slow start will be disabled for upstream " +:+ Upstream.Name upstream
             +:+ " because lb method '" +:+ lbMethod +:+ "' is incompatible with slow start") in
      ("", vsc)
    else (Upstream.SlowStart upstream, vsc).

Definition generateQueueForPlus (upstreamQueue : option UpstreamQueue.t)
    (defaultTimeout : string) : option version2.Queue.t :=
  match upstreamQueue with
  | None => None
  | Some q =>
      Some {| version2.Queue.Size := UpstreamQueue.Size q;
              version2.Queue.Timeout := generateString (UpstreamQueue.Timeout q) defaultTimeout |}
  end.

Definition generateSessionCookie (sc : option SessionCookie.t) : option version2.SessionCookie.t :=
  match sc with
  | None => None
  | Some sc =>
      if negb (SessionCookie.Enable sc) then None
      else
        Some {| version2.SessionCookie.Enable := true;
                version2.SessionCookie.Name := SessionCookie.Name sc;
                version2.SessionCookie.Path := SessionCookie.Path sc;
                version2.SessionCookie.Expires := SessionCookie.Expires sc;
                version2.SessionCookie.Domain := SessionCookie.Domain sc;
                version2.SessionCookie.HTTPOnly := SessionCookie.HTTPOnly sc;
                version2.SessionCookie.Secure := SessionCookie.Secure sc |}
  end.

Definition generateUpstream (vsc : virtualServerConfigurator) (owner : Object)
    (upstreamName : string) (upstream : Upstream.t) (isExternalNameSvc : bool)
    (endpoints : list string) : version2.Upstream.t * virtualServerConfigurator :=
  let upsServers := (λ e, {| version2.UpstreamServer.Address := e |}) <$> endpoints in
  let lbMethod :=
    generateLBMethod (Upstream.LBMethod upstream) (ConfigParams.LBMethod (cfgParams vsc)) in
  let ups slowStart queue sessionCookie :=
    {| version2.Upstream.Name := upstreamName;
       version2.Upstream.Servers := upsServers;
       version2.Upstream.LBMethod := lbMethod;
       version2.Upstream.Resolve := isExternalNameSvc;
       version2.Upstream.Keepalive :=
         generateIntFromPointer (Upstream.Keepalive upstream)
           (ConfigParams.Keepalive (cfgParams vsc));
       version2.Upstream.MaxFails :=
         generateIntFromPointer (Upstream.MaxFails upstream)
           (ConfigParams.MaxFails (cfgParams vsc));
       version2.Upstream.MaxConns :=
         generateIntFromPointer (Upstream.MaxConns upstream)
           (ConfigParams.MaxConns (cfgParams vsc));
       version2.Upstream.SlowStart := slowStart;
       version2.Upstream.FailTimeout :=
         generateString (Upstream.FailTimeout upstream)
           (ConfigParams.FailTimeout (cfgParams vsc));
       version2.Upstream.UpstreamZoneSize := ConfigParams.UpstreamZoneSize (cfgParams vsc);
       version2.Upstream.Queue := queue;
       version2.Upstream.SessionCookie := sessionCookie |} in
  if isPlus vsc
  then
    let '(slowStart, vsc) := generateSlowStartForPlus vsc owner upstream lbMethod in
    (ups slowStart (generateQueueForPlus (Upstream.Queue upstream) "60s")
         (generateSessionCookie (Upstream.SessionCookie upstream)),
     vsc)
  else (ups "" None None, vsc).

Definition generateStatusMatchName (upstreamName : string) : string :=
  upstreamName +:+ "_match".

Definition generateUpstreamStatusMatch (upstreamName status : string) : version2.StatusMatch.t :=
  {| version2.StatusMatch.Name := generateStatusMatchName upstreamName;
     version2.StatusMatch.Code := status |}.

Definition generateHealthCheck (upstream : Upstream.t) (upstreamName : string)
    (cfgParams : ConfigParams.t) : option version2.HealthCheck.t :=
  match Upstream.HealthCheck upstream with
  | None => None
  | Some uhc =>
      if negb (HealthCheck.Enable uhc) then None
      else
        let hc := newHealthCheckWithDefaults upstream upstreamName cfgParams in
        let nonEmpty (s d : string) := if String.eqb s "" then d else s in
        let positive (n d : Z) := if (0 <? n)%Z then n else d in
        Some
          {| version2.HealthCheck.Name := version2.HealthCheck.Name hc;
             version2.HealthCheck.URI :=
               nonEmpty (HealthCheck.Path uhc) (version2.HealthCheck.URI hc);
             version2.HealthCheck.Interval :=
               nonEmpty (HealthCheck.Interval uhc) (version2.HealthCheck.Interval hc);
             version2.HealthCheck.Jitter :=
               nonEmpty (HealthCheck.Jitter uhc) (version2.HealthCheck.Jitter hc);
             version2.HealthCheck.Fails :=
               positive (HealthCheck.Fails uhc) (version2.HealthCheck.Fails hc);
             version2.HealthCheck.Passes :=
               positive (HealthCheck.Passes uhc) (version2.HealthCheck.Passes hc);
             version2.HealthCheck.Port :=
               positive (HealthCheck.Port uhc) (version2.HealthCheck.Port hc);
             version2.HealthCheck.ProxyPass :=
               match HealthCheck.TLS uhc with
               | Some tls =>
                   generateProxyPassProtocol (UpstreamTLS.Enable tls) +:+ "://" +:+ upstreamName
               | None => version2.HealthCheck.ProxyPass hc
               end;
             version2.HealthCheck.ProxyConnectTimeout :=
               nonEmpty (HealthCheck.ConnectTimeout uhc)
                 (version2.HealthCheck.ProxyConnectTimeout hc);
             version2.HealthCheck.ProxyReadTimeout :=
               nonEmpty (HealthCheck.ReadTimeout uhc)
                 (version2.HealthCheck.ProxyReadTimeout hc);
             version2.HealthCheck.ProxySendTimeout :=
               nonEmpty (HealthCheck.SendTimeout uhc)
                 (version2.HealthCheck.ProxySendTimeout hc);
             version2.HealthCheck.Headers :=
               foldl (λ headers h, <[Header.Name h := Header.Value h]> headers)
                 (version2.HealthCheck.Headers hc) (HealthCheck.Headers uhc);
             version2.HealthCheck.Match :=
               if String.eqb (HealthCheck.StatusMatch uhc) ""
               then version2.HealthCheck.Match hc
               else generateStatusMatchName upstreamName |}
  end.

Definition generateReturnBlock (text : string) (code defaultCode : Z) : version2.Return.t :=
  {| version2.Return.Code := if (code =? 0)%Z then defaultCode else code;
     version2.Return.Text := text |}.

Definition generateLocationForProxying (path upstreamName : string) (upstream : Upstream.t)
    (cfgParams : ConfigParams.t) : version2.Location.t :=
  {| version2.Location.Path := generatePath path;
     version2.Location.Snippets := ConfigParams.LocationSnippets cfgParams;
     version2.Location.ProxyConnectTimeout :=
       generateString (Upstream.ProxyConnectTimeout upstream)
         (ConfigParams.ProxyConnectTimeout cfgParams);
     version2.Location.ProxyReadTimeout :=
       generateString (Upstream.ProxyReadTimeout upstream)
         (ConfigParams.ProxyReadTimeout cfgParams);
     version2.Location.ProxySendTimeout :=
       generateString (Upstream.ProxySendTimeout upstream)
         (ConfigParams.ProxySendTimeout cfgParams);
     version2.Location.ClientMaxBodySize :=
       generateString (Upstream.ClientMaxBodySize upstream)
         (ConfigParams.ClientMaxBodySize cfgParams);
     version2.Location.ProxyMaxTempFileSize := ConfigParams.ProxyMaxTempFileSize cfgParams;
     version2.Location.ProxyBuffering :=
       generateBool (Upstream.ProxyBuffering upstream) (ConfigParams.ProxyBuffering cfgParams);
     version2.Location.ProxyBuffers :=
       generateBuffers (Upstream.ProxyBuffers upstream) (ConfigParams.ProxyBuffers cfgParams);
     version2.Location.ProxyBufferSize :=
       generateString (Upstream.ProxyBufferSize upstream)
         (ConfigParams.ProxyBufferSize cfgParams);
     version2.Location.ProxyPass :=
       generateProxyPassProtocol (UpstreamTLS.Enable (Upstream.TLS upstream))
         +:+ "://" +:+ upstreamName;
     version2.Location.ProxyNextUpstream :=
       generateString (Upstream.ProxyNextUpstream upstream) "error timeout";
     version2.Location.ProxyNextUpstreamTimeout :=
       generateString (Upstream.ProxyNextUpstreamTimeout upstream) "0s";
     version2.Location.ProxyNextUpstreamTries := Upstream.ProxyNextUpstreamTries upstream;
     version2.Location.HasKeepalive := upstreamHasKeepalive upstream cfgParams;
     version2.Location.DefaultType := "";
     version2.Location.Return := None |}.

Definition generateLocationForReturnBlock (path : string) (locationSnippets : list string)
    (r : version2.Return.t) (defaultType : string) : version2.Location.t :=
  {| version2.Location.Path := path;
     version2.Location.Snippets := locationSnippets;
     version2.Location.ProxyConnectTimeout := "";
     version2.Location.ProxyReadTimeout := "";
     version2.Location.ProxySendTimeout := "";
     version2.Location.ClientMaxBodySize := "";
     version2.Location.ProxyMaxTempFileSize := "";
     version2.Location.ProxyBuffering := false;
     version2.Location.ProxyBuffers := "";
     version2.Location.ProxyBufferSize := "";
     version2.Location.ProxyPass := "";
     version2.Location.ProxyNextUpstream := "";
     version2.Location.ProxyNextUpstreamTimeout := "";
     version2.Location.ProxyNextUpstreamTries := 0;
     version2.Location.HasKeepalive := false;
     version2.Location.DefaultType := defaultType;
     version2.Location.Return := Some r |}.

(** [action] is a pointer that the function dereferences without a test: on
    [nil] it panics. *)
Definition generateLocation (path upstreamName : string) (upstream : Upstream.t)
    (action : option Action.t) (cfgParams : ConfigParams.t) : option version2.Location.t :=
  action ← action;
  match Action.Redirect action with
  | Some redirect =>
      let returnBlock :=
        generateReturnBlock (ActionRedirect.URL redirect) (ActionRedirect.Code redirect) 301 in
      Some (generateLocationForReturnBlock path (ConfigParams.LocationSnippets cfgParams)
              returnBlock "")
  | None =>
      match Action.Return action with
      | Some ret =>
          let defaultType :=
            if String.eqb (ActionReturn.Type_ ret) "" then "text/plain"
            else ActionReturn.Type_ ret in
          let returnBlock :=
            generateReturnBlock (ActionReturn.Body ret) (ActionReturn.Code ret) 200 in
          Some (generateLocationForReturnBlock path (ConfigParams.LocationSnippets cfgParams)
                  returnBlock defaultType)
      | None => Some (generateLocationForProxying path upstreamName upstream cfgParams)
      end
  end.

Record routingCfg := {
  Maps : list version2.Map.t;
  SplitClients : list version2.SplitClient.t;
  Locations : list version2.Location.t;
  InternalRedirectLocation : version2.InternalRedirectLocation.t;
}.

(** [crUpstreams[upstreamName]]: the zero value when the key is missing. *)
Definition crUpstreams_get (crUpstreams : gmap string Upstream.t) (upstreamName : string)
    : Upstream.t :=
  default Upstream.zero (crUpstreams !! upstreamName).

Definition generateSplits (splits : list Split.t) (upstreamNamer : upstreamNamer)
    (crUpstreams : gmap string Upstream.t) (variableNamer : variableNamer) (scIndex : Z)
    (cfgParams : ConfigParams.t) : option (version2.SplitClient.t * list version2.Location.t) :=
  let distributions :=
    for_range
      (λ i s distributions,
         let d :=
           {| version2.Distribution.Weight := itoa (Split.Weight s) +:+ "%";
              version2.Distribution.Value :=
                "@splits_" +:+ itoa scIndex +:+ "_split_" +:+ itoa i |} in
         distributions ++ [d])
      0 splits [] in
  let splitClient :=
    {| version2.SplitClient.Source := "$request_id";
       version2.SplitClient.Variable_ := GetNameForSplitClientVariable variableNamer scIndex;
       version2.SplitClient.Distributions := distributions |} in
  locations ←
    for_range_opt
      (λ i s locations,
         let path := "@splits_" +:+ itoa scIndex +:+ "_split_" +:+ itoa i in
         (* [s.Action.Pass] dereferences [s.Action] *)
         action ← Split.Action s;
         let upstreamName := GetNameForUpstream upstreamNamer (Action.Pass action) in
         let upstream := crUpstreams_get crUpstreams upstreamName in
         loc ← generateLocation path upstreamName upstream (Some action) cfgParams;
         Some (locations ++ [loc]))
      0 splits [];
  Some (splitClient, locations).

Definition generateDefaultSplitsConfig (route : Route.t) (upstreamNamer : upstreamNamer)
    (crUpstreams : gmap string Upstream.t) (variableNamer : variableNamer) (scIndex : Z)
    (cfgParams : ConfigParams.t) : option routingCfg :=
  '(sc, locs) ←
    generateSplits (Route.Splits route) upstreamNamer crUpstreams variableNamer scIndex cfgParams;
  let splitClientVarName := GetNameForSplitClientVariable variableNamer scIndex in
  let irl :=
    {| version2.InternalRedirectLocation.Path := Route.Path route;
       version2.InternalRedirectLocation.Destination := splitClientVarName |} in
  Some {| Maps := [];
          SplitClients := [sc];
          Locations := locs;
          InternalRedirectLocation := irl |}.

Definition specialMapParameters : gmap string bool :=
  list_to_map [("default", true); ("hostnames", true); ("include", true); ("volatile", true)].

(** A string that holds one backslash. *)
Definition backslash : string := String (ascii_of_nat 92) EmptyString.

Definition generateValueForMatchesRouteMap (matchedValue : string) : string * bool :=
  match matchedValue with
  | EmptyString => (dquote +:+ dquote, false)
  | String c rest =>
      let '(isNegative, matchedValue) :=
        if Ascii.eqb c "!" then (true, rest) else (false, matchedValue) in
      if has_key specialMapParameters matchedValue
      then (backslash +:+ matchedValue, isNegative)
      else (dquote +:+ matchedValue +:+ dquote, isNegative)
  end.

Definition generateParametersForMatchesRouteMap (matchedValue successfulResult : string)
    : list version2.Parameter_.t :=
  let '(value, isNegative) := generateValueForMatchesRouteMap matchedValue in
  let '(valueResult, defaultResult) :=
    if isNegative then ("0", successfulResult) else (successfulResult, "0") in
  [ {| version2.Parameter_.Value := value; version2.Parameter_.Result := valueResult |};
    {| version2.Parameter_.Value := "default"; version2.Parameter_.Result := defaultResult |} ].

Definition getNameForSourceForMatchesRouteMapFromCondition (condition : Condition.t) : string :=
  if negb (String.eqb (Condition.Header condition) "")
  then "$http_" +:+ go_strings.ReplaceAll (Condition.Header condition) "-" "_"
  else if negb (String.eqb (Condition.Cookie condition) "")
  then "$cookie_" +:+ Condition.Cookie condition
  else if negb (String.eqb (Condition.Argument condition) "")
  then "$arg_" +:+ Condition.Argument condition
  else Condition.Variable_ condition.

(** The bodies of the three loops of [generateMatchesConfig] over
    [route.Matches], each as a function of the loop index, the match, and the
    variables that the loop updates. *)

(** "Generate maps": the loop over the conditions of match [i]. *)
Definition generateMatchesConfig_maps (variableNamer : variableNamer) (index : Z)
    (i : Z) (m : Match.t) (maps : list version2.Map.t) : list version2.Map.t :=
  for_range
    (λ j c maps,
       let source := getNameForSourceForMatchesRouteMapFromCondition c in
       let variable := GetNameForVariableForMatchesRouteMap variableNamer index i j in
       let successfulResult :=
         if (j <? len (Match.Conditions m) - 1)%Z
         then GetNameForVariableForMatchesRouteMap variableNamer index i (j + 1)
         else "1" in
       let params :=
         generateParametersForMatchesRouteMap (Condition.Value c) successfulResult in
       let matchMap :=
         {| version2.Map.Source := source;
            version2.Map.Variable_ := variable;
            version2.Map.Parameters_ := params |} in
       maps ++ [matchMap])
    0 (Match.Conditions m) maps.

(** "Generate the main map": updates [source], [params] and [scLocalIndex]. *)
Definition generateMatchesConfig_mainMap (variableNamer : variableNamer) (index scIndex : Z)
    (i : Z) (m : Match.t) (st : string * list version2.Parameter_.t * Z)
    : string * list version2.Parameter_.t * Z :=
  let '(source, params, scLocalIndex) := st in
  let source := source +:+ GetNameForVariableForMatchesRouteMap variableNamer index i 0 in
  let v := "~^" +:+ go_strings.Repeat "0" (Z.to_nat i) +:+ "1" in
  let r := "@matches_" +:+ itoa index +:+ "_match_" +:+ itoa i in
  let '(r, scLocalIndex) :=
    if (0 <? len (Match.Splits m))%Z
    then (GetNameForSplitClientVariable variableNamer (int_add scIndex scLocalIndex),
          (scLocalIndex + 1)%Z)
    else (r, scLocalIndex) in
  let p := {| version2.Parameter_.Value := v; version2.Parameter_.Result := r |} in
  (source, params ++ [p], scLocalIndex).

(** "Generate locations for each match and split client": updates
    [locations], [splitClients] and [scLocalIndex]. *)
Definition generateMatchesConfig_locations (upstreamNamer : upstreamNamer)
    (crUpstreams : gmap string Upstream.t) (variableNamer : variableNamer) (index scIndex : Z)
    (cfgParams : ConfigParams.t) (i : Z) (m : Match.t)
    (st : list version2.Location.t * list version2.SplitClient.t * Z)
    : option (list version2.Location.t * list version2.SplitClient.t * Z) :=
  let '(locations, splitClients, scLocalIndex) := st in
  if (0 <? len (Match.Splits m))%Z
  then
    '(sc, locs) ←
      generateSplits (Match.Splits m) upstreamNamer crUpstreams variableNamer
        (int_add scIndex scLocalIndex) cfgParams;
    Some (locations ++ locs, splitClients ++ [sc], (scLocalIndex + 1)%Z)
  else
    let path := "@matches_" +:+ itoa index +:+ "_match_" +:+ itoa i in
    (* [m.Action.Pass] dereferences [m.Action] *)
    action ← Match.Action m;
    let upstreamName := GetNameForUpstream upstreamNamer (Action.Pass action) in
    let upstream := crUpstreams_get crUpstreams upstreamName in
    loc ← generateLocation path upstreamName upstream (Some action) cfgParams;
    Some (locations ++ [loc], splitClients, scLocalIndex).

Definition generateMatchesConfig (route : Route.t) (upstreamNamer : upstreamNamer)
    (crUpstreams : gmap string Upstream.t) (variableNamer : variableNamer) (index scIndex : Z)
    (cfgParams : ConfigParams.t) : option routingCfg :=
  (* Generate maps *)
  let maps :=
    for_range (generateMatchesConfig_maps variableNamer index) 0 (Route.Matches route) [] in
  (* Generate the main map *)
  let '(source, params, scLocalIndex) :=
    for_range (generateMatchesConfig_mainMap variableNamer index scIndex)
      0 (Route.Matches route) ("", [], 0%Z) in
  let defaultResult :=
    if (0 <? len (Route.Splits route))%Z
    then GetNameForSplitClientVariable variableNamer (int_add scIndex scLocalIndex)
    else "@matches_" +:+ itoa index +:+ "_default" in
  let defaultParam :=
    {| version2.Parameter_.Value := "default"; version2.Parameter_.Result := defaultResult |} in
  let params := params ++ [defaultParam] in
  let variable := GetNameForVariableForMatchesRouteMainMap variableNamer index in
  let mainMap :=
    {| version2.Map.Source := source;
       version2.Map.Variable_ := variable;
       version2.Map.Parameters_ := params |} in
  let maps := maps ++ [mainMap] in
  (* Generate locations for each match and split client *)
  '(locations, splitClients, scLocalIndex) ←
    for_range_opt
      (generateMatchesConfig_locations upstreamNamer crUpstreams variableNamer index scIndex
         cfgParams)
      0 (Route.Matches route) ([], [], 0%Z);
  (* Generate default splits or default action *)
  '(locations, splitClients) ←
    (if (0 <? len (Route.Splits route))%Z
     then
       '(sc, locs) ←
         generateSplits (Route.Splits route) upstreamNamer crUpstreams variableNamer
           (int_add scIndex scLocalIndex) cfgParams;
       Some (locations ++ locs, splitClients ++ [sc])
     else
       let path := "@matches_" +:+ itoa index +:+ "_default" in
       action ← Route.Action route;
       let upstreamName := GetNameForUpstream upstreamNamer (Action.Pass action) in
       let upstream := crUpstreams_get crUpstreams upstreamName in
       loc ← generateLocation path upstreamName upstream (Some action) cfgParams;
       Some (locations ++ [loc], splitClients));
  (* Generate an InternalRedirectLocation to the location defined by the main map variable *)
  let irl :=
    {| version2.InternalRedirectLocation.Path := Route.Path route;
       version2.InternalRedirectLocation.Destination := variable |} in
  Some {| Maps := maps;
          Locations := locations;
          InternalRedirectLocation := irl;
          SplitClients := splitClients |}.

Definition generateTLSRedirectBasedOn (basedOn : string) : string :=
  if String.eqb basedOn "x-forwarded-proto" then "$http_x_forwarded_proto" else "$scheme".

Definition generateTLSRedirectConfig (tls : option TLS.t) : option version2.TLSRedirect.t :=
  match tls with
  | None => None
  | Some tls =>
      match TLS.Redirect tls with
      | None => None
      | Some redirect =>
          if negb (TLSRedirect.Enable redirect) then None
          else
            Some {| version2.TLSRedirect.Code :=
                      generateIntFromPointer (TLSRedirect.Code redirect) 301;
                    version2.TLSRedirect.BasedOn :=
                      generateTLSRedirectBasedOn (TLSRedirect.BasedOn redirect) |}
      end
  end.

Section with_env.
Context `{GeneratorEnv}.

Definition generateSSLConfig (tls : option TLS.t) (tlsPemFileName : string)
    (cfgParams : ConfigParams.t) : option version2.SSL.t :=
  match tls with
  | None => None
  | Some tls =>
      if String.eqb (TLS.Secret tls) "" then None
      else
        let '(name, ciphers) :=
          if negb (String.eqb tlsPemFileName "")
          then (tlsPemFileName, "")
          else (pemFileNameForMissingTLSSecret, "NULL") in
        Some {| version2.SSL.HTTP2 := ConfigParams.HTTP2 cfgParams;
                version2.SSL.Certificate := name;
                version2.SSL.CertificateKey := name;
                version2.SSL.Ciphers := ciphers |}
  end.

(** The body of the two loops of [GenerateVirtualServerConfig] that generate
    upstreams (the one over the upstreams of the VirtualServer and the one
    over those of each VirtualServerRoute): it updates [upstreams],
    [statusMatches], [healthChecks], [crUpstreams] and the configurator. *)
Definition GenerateVirtualServerConfig_upstream (virtualServerEx : VirtualServerEx.t)
    (owner : Object) (upstreamNamer : upstreamNamer) (upstreamNamespace : string)
    (st : list version2.Upstream.t * list version2.StatusMatch.t * list version2.HealthCheck.t
          * gmap string Upstream.t * virtualServerConfigurator)
    (u : Upstream.t)
    : list version2.Upstream.t * list version2.StatusMatch.t * list version2.HealthCheck.t
      * gmap string Upstream.t * virtualServerConfigurator :=
  let '(upstreams, statusMatches, healthChecks, crUpstreams, vsc) := st in
  let upstreamName := GetNameForUpstream upstreamNamer (Upstream.Name u) in
  let '(endpoints, vsc) :=
    generateEndpointsForUpstream vsc owner upstreamNamespace u virtualServerEx in
  (* isExternalNameSvc is always false for OSS *)
  let isExternalNameSvc :=
    has_key (VirtualServerEx.ExternalNameSvcs virtualServerEx)
      (GenerateExternalNameSvcKey upstreamNamespace (Upstream.Service u)) in
  let '(ups, vsc) := generateUpstream vsc owner upstreamName u isExternalNameSvc endpoints in
  let upstreams := upstreams ++ [ups] in
  let crUpstreams : gmap string Upstream.t := <[upstreamName := u]> crUpstreams in
  match generateHealthCheck u upstreamName (cfgParams vsc) with
  | Some hc =>
      let healthChecks := healthChecks ++ [hc] in
      (* [u.HealthCheck] is not nil when [generateHealthCheck] returns a block *)
      let statusMatch := from_option HealthCheck.StatusMatch "" (Upstream.HealthCheck u) in
      let statusMatches :=
        if negb (String.eqb statusMatch "")
        then statusMatches ++ [generateUpstreamStatusMatch upstreamName statusMatch]
        else statusMatches in
      (upstreams, statusMatches, healthChecks, crUpstreams, vsc)
  | None => (upstreams, statusMatches, healthChecks, crUpstreams, vsc)
  end.

(** The body of the two loops that generate the configuration of a route
    (the one over the routes of the VirtualServer, after its test of
    [r.Route], and the one over the subroutes of each VirtualServerRoute): it
    updates [locations], [internalRedirectLocations], [splitClients], [maps]
    and [matchesRoutes]. *)
Definition GenerateVirtualServerConfig_route (crUpstreams : gmap string Upstream.t)
    (variableNamer : variableNamer) (cfgParams : ConfigParams.t)
    (upstreamNamer : upstreamNamer) (r : Route.t)
    (st : list version2.Location.t * list version2.InternalRedirectLocation.t
          * list version2.SplitClient.t * list version2.Map.t * Z)
    : option (list version2.Location.t * list version2.InternalRedirectLocation.t
              * list version2.SplitClient.t * list version2.Map.t * Z) :=
  let '(locations, internalRedirectLocations, splitClients, maps, matchesRoutes) := st in
  if (0 <? len (Route.Matches r))%Z
  then
    cfg ←
      generateMatchesConfig r upstreamNamer crUpstreams variableNamer matchesRoutes
        (len splitClients) cfgParams;
    Some (locations ++ Locations cfg,
          internalRedirectLocations ++ [InternalRedirectLocation cfg],
          splitClients ++ SplitClients cfg,
          maps ++ Maps cfg,
          (matchesRoutes + 1)%Z)
  else if (0 <? len (Route.Splits r))%Z
  then
    cfg ←
      generateDefaultSplitsConfig r upstreamNamer crUpstreams variableNamer
        (len splitClients) cfgParams;
    Some (locations ++ Locations cfg,
          internalRedirectLocations ++ [InternalRedirectLocation cfg],
          splitClients ++ SplitClients cfg,
          maps,
          matchesRoutes)
  else
    (* [r.Action.Pass] dereferences [r.Action] *)
    action ← Route.Action r;
    let upstreamName := GetNameForUpstream upstreamNamer (Action.Pass action) in
    let upstream := crUpstreams_get crUpstreams upstreamName in
    loc ← generateLocation (Route.Path r) upstreamName upstream (Some action) cfgParams;
    Some (locations ++ [loc], internalRedirectLocations, splitClients, maps, matchesRoutes).

(** The result is the configuration, the warnings that are returned with it,
    and the configurator as the call leaves it ([vsc.warnings] is the map
    that is returned). [None] is a panic. *)
Definition GenerateVirtualServerConfig (vsc : virtualServerConfigurator)
    (virtualServerEx : VirtualServerEx.t) (tlsPemFileName : string)
    : option (version2.VirtualServerConfig.t * Warnings * virtualServerConfigurator) :=
  let vsc := clearWarnings vsc in
  let virtualServer := deref (VirtualServerEx.VirtualServer virtualServerEx) in
  let spec := VirtualServer.Spec virtualServer in
  let ssl := generateSSLConfig (VirtualServerSpec.TLS spec) tlsPemFileName (cfgParams vsc) in
  let tlsRedirectConfig := generateTLSRedirectConfig (VirtualServerSpec.TLS spec) in
  let virtualServerUpstreamNamer := newUpstreamNamerForVirtualServer virtualServer in
  (* generate upstreams for VirtualServer *)
  let st :=
    foldl
      (GenerateVirtualServerConfig_upstream virtualServerEx
         (vsObject (VirtualServerEx.VirtualServer virtualServerEx))
         virtualServerUpstreamNamer (VirtualServer.Namespace virtualServer))
      ([], [], [], ∅, vsc) (VirtualServerSpec.Upstreams spec) in
  (* generate upstreams for each VirtualServerRoute *)
  let '(upstreams, statusMatches, healthChecks, crUpstreams, vsc) :=
    foldl
      (λ st vsr,
         let upstreamNamer :=
           newUpstreamNamerForVirtualServerRoute virtualServer (deref vsr) in
         foldl
           (GenerateVirtualServerConfig_upstream virtualServerEx (vsrObject vsr) upstreamNamer
              (VirtualServerRoute.Namespace (deref vsr)))
           st (VirtualServerRouteSpec.Upstreams (VirtualServerRoute.Spec (deref vsr))))
      st (VirtualServerEx.VirtualServerRoutes virtualServerEx) in
  let variableNamer := newVariableNamer virtualServer in
  (* generates config for VirtualServer routes *)
  st ←
    for_range_opt
      (λ _ r st,
         (* ignore routes that reference VirtualServerRoute *)
         if negb (String.eqb (Route.Route r) "") then Some st
         else
           GenerateVirtualServerConfig_route crUpstreams variableNamer (cfgParams vsc)
             virtualServerUpstreamNamer r st)
      0 (VirtualServerSpec.Routes spec) ([], [], [], [], 0%Z);
  (* generate config for subroutes of each VirtualServerRoute *)
  '(locations, internalRedirectLocations, splitClients, maps, _) ←
    for_range_opt
      (λ _ vsr st,
         let upstreamNamer :=
           newUpstreamNamerForVirtualServerRoute virtualServer (deref vsr) in
         for_range_opt
           (λ _ r st,
              GenerateVirtualServerConfig_route crUpstreams variableNamer (cfgParams vsc)
                upstreamNamer r st)
           0 (VirtualServerRouteSpec.Subroutes (VirtualServerRoute.Spec (deref vsr))) st)
      0 (VirtualServerEx.VirtualServerRoutes virtualServerEx) st;
  let vscfg :=
    {| version2.VirtualServerConfig.Upstreams := upstreams;
       version2.VirtualServerConfig.SplitClients := splitClients;
       version2.VirtualServerConfig.Maps := maps;
       version2.VirtualServerConfig.StatusMatches := statusMatches;
       version2.VirtualServerConfig.Server :=
         {| version2.Server.ServerName := VirtualServerSpec.Host spec;
            version2.Server.StatusZone := VirtualServerSpec.Host spec;
            version2.Server.ProxyProtocol := ConfigParams.ProxyProtocol (cfgParams vsc);
            version2.Server.SSL := ssl;
            version2.Server.ServerTokens := ConfigParams.ServerTokens (cfgParams vsc);
            version2.Server.SetRealIPFrom := ConfigParams.SetRealIPFrom (cfgParams vsc);
            version2.Server.RealIPHeader := ConfigParams.RealIPHeader (cfgParams vsc);
            version2.Server.RealIPRecursive := ConfigParams.RealIPRecursive (cfgParams vsc);
            version2.Server.Snippets := ConfigParams.ServerSnippets (cfgParams vsc);
            version2.Server.InternalRedirectLocations := internalRedirectLocations;
            version2.Server.Locations := locations;
            version2.Server.HealthChecks := healthChecks;
            version2.Server.TLSRedirect := tlsRedirectConfig |} |} in
  Some (vscfg, warnings vsc, vsc).

Definition createEndpointsFromUpstream (upstream : version2.Upstream.t) : list string :=
  foldl (λ endpoints server, endpoints ++ [version2.UpstreamServer.Address server])
    [] (version2.Upstream.Servers upstream).

(** The body of the two loops of [createUpstreamsForPlus]: it updates
    [upstreams] and the local configurator; an upstream on an ExternalName
    service is passed over ([continue]). [isExternalNameSvc] is the value
    that the map holds under the key, [false] when the key is missing. *)
Definition createUpstreamsForPlus_upstream (virtualServerEx : VirtualServerEx.t)
    (owner : Object) (upstreamNamer : upstreamNamer) (upstreamNamespace : string)
    (st : list version2.Upstream.t * virtualServerConfigurator) (u : Upstream.t)
    : list version2.Upstream.t * virtualServerConfigurator :=
  let '(upstreams, vsc) := st in
  let isExternalNameSvc :=
    default false
      (VirtualServerEx.ExternalNameSvcs virtualServerEx
         !! GenerateExternalNameSvcKey upstreamNamespace (Upstream.Service u)) in
  if isExternalNameSvc then (upstreams, vsc)
  else
    let upstreamName := GetNameForUpstream upstreamNamer (Upstream.Name u) in
    let endpointsKey :=
      GenerateEndpointsKey upstreamNamespace (Upstream.Service u) (Upstream.Subselector u)
        (Upstream.Port u) in
    let endpoints := default [] (VirtualServerEx.Endpoints virtualServerEx !! endpointsKey) in
    let '(ups, vsc) := generateUpstream vsc owner upstreamName u isExternalNameSvc endpoints in
    (upstreams ++ [ups], vsc).

Definition createUpstreamsForPlus (virtualServerEx : VirtualServerEx.t)
    (baseCfgParams : ConfigParams.t) : list version2.Upstream.t :=
  let virtualServer := deref (VirtualServerEx.VirtualServer virtualServerEx) in
  let isPlus := true in
  let upstreamNamer := newUpstreamNamerForVirtualServer virtualServer in
  let vsc := newVirtualServerConfigurator baseCfgParams isPlus false in
  let st :=
    foldl
      (createUpstreamsForPlus_upstream virtualServerEx
         (vsObject (VirtualServerEx.VirtualServer virtualServerEx)) upstreamNamer
         (VirtualServer.Namespace virtualServer))
      ([], vsc) (VirtualServerSpec.Upstreams (VirtualServer.Spec virtualServer)) in
  let '(upstreams, _) :=
    foldl
      (λ st vsr,
         let upstreamNamer :=
           newUpstreamNamerForVirtualServerRoute virtualServer (deref vsr) in
         foldl
           (createUpstreamsForPlus_upstream virtualServerEx (vsrObject vsr) upstreamNamer
              (VirtualServerRoute.Namespace (deref vsr)))
           st (VirtualServerRouteSpec.Upstreams (VirtualServerRoute.Spec (deref vsr))))
      st (VirtualServerEx.VirtualServerRoutes virtualServerEx) in
  upstreams.

End with_env.

(** warnings.go *)
Definition newWarnings : Warnings := ∅.

(** The loop [for k, v := range warnings { w[k] = v }] of [Warnings.Add], when
    [range] visits the entries of [warnings] in the order [entries]. *)
Definition Warnings_Add_range (w : Warnings) (entries : list (Object * list string))
    : Warnings :=
  foldl (λ w '(k, v), <[k := v]> w) w entries.

(** Add adds new Warnings to the map. (One order of the entries; the
    language leaves the order open.) *)
Definition Warnings_Add (w warnings : Warnings) : Warnings :=
  Warnings_Add_range w (map_to_list warnings).

End configs.

(** ** Field paths and validation errors *)

(** Modelled from the spec: package [field] of k8s.io/apimachinery is not among
    the sources. Section 7 of the specification lists the error kinds
    (Required, Invalid, Duplicate, NotFound, Forbidden); section 4.2 says that
    every error is attached to a structured field path, written as in
    [spec.routes[2].matches[0].conditions[1].header]. *)
Module field.

Inductive Path :=
  | NewPath (name : string)
  | Child (parent : Path) (name : string)
  | Index (parent : Path) (index : Z).

Fixpoint Path_String (p : Path) : string :=
  match p with
  | NewPath name => name
  | Child parent name => Path_String parent +:+ "." +:+ name
  | Index parent index => Path_String parent +:+ "[" +:+ itoa index +:+ "]"
  end.

Inductive ErrorType :=
  | ErrorTypeNotFound
  | ErrorTypeRequired
  | ErrorTypeDuplicate
  | ErrorTypeInvalid
  | ErrorTypeForbidden.

#[global] Instance ErrorType_eq_dec : EqDecision ErrorType.
Proof. solve_decision. Defined.

(** The [interface{}] that an error carries as its bad value. *)
Inductive Value :=
  | StringValue (s : string)
  | IntValue (n : Z)
  | IntPointerValue (pointee : Z).

Record Error := {
  Type_ : ErrorType;
  Field : string;
  BadValue : Value;
  Detail : string;
}.

Abbreviation ErrorList := (list Error).

Definition Invalid (field : Path) (value : Value) (detail : string) : Error :=
  {| Type_ := ErrorTypeInvalid; Field := Path_String field; BadValue := value;
     Detail := detail |}.

Definition Required (field : Path) (detail : string) : Error :=
  {| Type_ := ErrorTypeRequired; Field := Path_String field; BadValue := StringValue "";
     Detail := detail |}.

Definition Duplicate (field : Path) (value : Value) : Error :=
  {| Type_ := ErrorTypeDuplicate; Field := Path_String field; BadValue := value;
     Detail := "" |}.

Definition NotFound (field : Path) (value : Value) : Error :=
  {| Type_ := ErrorTypeNotFound; Field := Path_String field; BadValue := value;
     Detail := "" |}.

Definition Forbidden (field : Path) (detail : string) : Error :=
  {| Type_ := ErrorTypeForbidden; Field := Path_String field; BadValue := StringValue "";
     Detail := detail |}.

End field.

(** Modelled from the spec: three helpers of k8s.io/apimachinery's package
    [validation], which is not among the sources. The specification fixes
    their ranges: ports are 1-65535 inclusive, split weights 1-99, and an
    out-of-range value is reported by one message. *)
Module k8s_validation.

Definition InclusiveRangeError (lo hi : Z) : string :=
  "must be between " +:+ itoa lo +:+ " and " +:+ itoa hi +:+ ", inclusive".

Definition IsInRange (value min max : Z) : list string :=
  if (min <=? value)%Z && (value <=? max)%Z then [] else [InclusiveRangeError min max].

Definition IsValidPortNum (port : Z) : list string :=
  if (1 <=? port)%Z && (port <=? 65535)%Z then [] else [InclusiveRangeError 1 65535].

End k8s_validation.

(** ** The validator (pkg/apis/configuration/validation/validation.go) *)

Module validation.

Import conf_v1 field k8s_validation.

(** What the validator takes from outside the sources. None of it decides a
    property proved below: the properties hold for every choice. *)
Class ValidatorEnv := {
  (* package regexp: [regexp.MustCompile(pattern).MatchString(s)] and the
     error text of a failing [regexp.Compile(pattern)] *)
  regexp_MatchString : string → string → bool;
  regexp_Compile_error : string → option string;
  (* package validation of k8s.io/apimachinery *)
  IsDNS1123Subdomain : string → list string;
  IsDNS1035Label : string → list string;
  IsHTTPHeaderName : string → list string;
  IsQualifiedName : string → list string;
  IsValidLabelValue : string → list string;
  RegexError : string → string → list string → string;
  (* package configs, parsing helpers: the error text when parsing fails *)
  ParseTime_error : string → option string;
  ParseLBMethod_error : string → option string;
  ParseLBMethodForPlus_error : string → option string;
  (* the Go library: [strings.Fields], [strings.Split],
     [strconv.ParseInt(s, 10, 64)] *)
  strings_Fields : string → list string;
  strings_Split : string → string → list string;
  strconv_ParseInt : string → option Z;
  (* the order in which [range] visits the entries of a map *)
  map_range : ∀ {V}, gmap string V → list (string * V);
}.

(** [for _, msg := range msgs { allErrs = append(allErrs, mk(msg)) }] *)
Definition append_each {A} (allErrs : ErrorList) (mk : A → Error) (msgs : list A) : ErrorList :=
  foldl (λ allErrs msg, allErrs ++ [mk msg]) allErrs msgs.

Definition escapedStringsFmt : string :=
  "([^" +:+ configs.dquote +:+ "\\]|\\.)*".
Definition escapedStringsErrMsg : string :=
  "must have all '" +:+ configs.dquote
    +:+ "' (double quotes) escaped and must not end with an unescaped '\' (backslash)".

Section with_env.
Context `{ValidatorEnv}.

Definition escapedStringsFmtRegexp_MatchString (s : string) : bool :=
  regexp_MatchString ("^" +:+ escapedStringsFmt +:+ "$") s.

Definition validateHost (host : string) (fieldPath : Path) : ErrorList :=
  let allErrs := [] in
  if String.eqb host "" then allErrs ++ [Required fieldPath ""]
  else
    append_each allErrs (λ msg, Invalid fieldPath (StringValue host) msg)
      (IsDNS1123Subdomain host).

(** validateSecretName checks if a secret name is valid. *)
Definition validateSecretName (name : string) (fieldPath : Path) : ErrorList :=
  let allErrs := [] in
  if String.eqb name "" then allErrs
  else
    append_each allErrs (λ msg, Invalid fieldPath (StringValue name) msg)
      (IsDNS1123Subdomain name).

Definition validRedirectStatusCodes : list Z := [301; 302; 307; 308]%Z.

Definition validateRedirectStatusCode (code : Z) (fieldPath : Path) : ErrorList :=
  let allErrs := [] in
  if bool_decide (code ∈ validRedirectStatusCodes) then allErrs
  else
    allErrs ++
      [Invalid fieldPath (IntValue code)
         "status code out of accepted range. accepted values are '301', '302', '307', '308'"].

Definition validateTLSRedirect (redirect : option TLSRedirect.t) (fieldPath : Path) : ErrorList :=
  let allErrs := [] in
  match redirect with
  | None => allErrs
  | Some redirect =>
      let allErrs :=
        match TLSRedirect.Code redirect with
        | Some code => allErrs ++ validateRedirectStatusCode code (Child fieldPath "code")
        | None => allErrs
        end in
      let basedOn := TLSRedirect.BasedOn redirect in
      if negb (String.eqb basedOn "") && negb (String.eqb basedOn "scheme")
         && negb (String.eqb basedOn "x-forwarded-proto")
      then
        allErrs ++
          [Invalid (Child fieldPath "basedOn") (StringValue basedOn)
             "accepted values are 'scheme', 'x-forwarded-proto'"]
      else allErrs
  end.

Definition validateTLS (tls : option TLS.t) (fieldPath : Path) : ErrorList :=
  let allErrs := [] in
  match tls with
  | None => allErrs (* valid case - tls is not defined *)
  | Some tls =>
      let allErrs := allErrs ++ validateSecretName (TLS.Secret tls) (Child fieldPath "secret") in
      allErrs ++ validateTLSRedirect (TLS.Redirect tls) (Child fieldPath "redirect")
  end.

Definition validatePositiveIntOrZero (n : Z) (fieldPath : Path) : ErrorList :=
  let allErrs := [] in
  if (n <? 0)%Z then allErrs ++ [Invalid fieldPath (IntValue n) "must be positive"]
  else allErrs.

Definition validatePositiveIntOrZeroFromPointer (n : option Z) (fieldPath : Path) : ErrorList :=
  let allErrs := [] in
  match n with
  | None => allErrs
  | Some v =>
      if (v <? 0)%Z
      then allErrs ++ [Invalid fieldPath (IntPointerValue v) "must be positive or zero"]
      else allErrs
  end.

Definition validateTime (time : string) (fieldPath : Path) : ErrorList :=
  let allErrs := [] in
  if String.eqb time "" then allErrs
  else
    match ParseTime_error time with
    | Some err => allErrs ++ [Invalid fieldPath (StringValue time) err]
    | None => allErrs
    end.

(* http://nginx.org/en/docs/syntax.html *)
Definition offsetFmt : string := "\d+[kKmMgG]?".
Definition offsetErrMsg : string :=
  "must consist of numeric characters followed by a valid size suffix. 'k|K|m|M|g|G".

Definition validateOffset (offset : string) (fieldPath : Path) : ErrorList :=
  let allErrs := [] in
  if String.eqb offset "" then allErrs
  else if negb (regexp_MatchString ("^" +:+ offsetFmt +:+ "$") offset)
  then
    let msg := RegexError offsetErrMsg offsetFmt ["16"; "32k"; "64M"] in
    allErrs ++ [Invalid fieldPath (StringValue offset) msg]
  else allErrs.

Definition sizeFmt : string := "\d+[kKmM]?".
Definition sizeErrMsg : string :=
  "must consist of numeric characters followed by a valid size suffix. 'k|K|m|M".

Definition validateSize (size : string) (fieldPath : Path) : ErrorList :=
  let allErrs := [] in
  if String.eqb size "" then allErrs
  else if negb (regexp_MatchString ("^" +:+ sizeFmt +:+ "$") size)
  then
    let msg := RegexError sizeErrMsg sizeFmt ["16"; "32k"; "64M"] in
    allErrs ++ [Invalid fieldPath (StringValue size) msg]
  else allErrs.

Definition validateBuffer (buff : option UpstreamBuffers.t) (fieldPath : Path) : ErrorList :=
  let allErrs := [] in
  match buff with
  | None => allErrs
  | Some buff =>
      let allErrs :=
        if (UpstreamBuffers.Number buff <=? 0)%Z
        then
          allErrs ++
            [Invalid (Child fieldPath "number") (IntValue (UpstreamBuffers.Number buff))
               "must be positive"]
        else allErrs in
      if String.eqb (UpstreamBuffers.Size buff) ""
      then allErrs ++ [Required (Child fieldPath "size") "cannot be empty"]
      else allErrs ++ validateSize (UpstreamBuffers.Size buff) (Child fieldPath "size")
  end.

Definition validateUpstreamLBMethod (lBMethod : string) (fieldPath : Path) (isPlus : bool)
    : ErrorList :=
  let allErrs := [] in
  if String.eqb lBMethod "" then allErrs
  else if isPlus
  then
    match ParseLBMethodForPlus_error lBMethod with
    | Some err => allErrs ++ [Invalid fieldPath (StringValue lBMethod) err]
    | None => allErrs
    end
  else
    match ParseLBMethod_error lBMethod with
    | Some err => allErrs ++ [Invalid fieldPath (StringValue lBMethod) err]
    | None => allErrs
    end.

Definition pathFmt : string := "/[^\s{};]*".
Definition pathErrMsg : string :=
  "must start with / and must not include any whitespace character, `{`, `}` or `;`".

Definition validatePath (path : string) (fieldPath : Path) : ErrorList :=
  let allErrs := [] in
  if String.eqb path "" then allErrs ++ [Required fieldPath ""]
  else if negb (regexp_MatchString ("^" +:+ pathFmt +:+ "$") path)
  then
    let msg := RegexError pathErrMsg pathFmt ["/"; "/path"; "/path/subpath-123"] in
    allErrs ++ [Invalid fieldPath (StringValue path) msg]
  else allErrs.

Definition validateIntFromString (number : string) : Z * string :=
  match strconv_ParseInt number with
  | None => (0%Z, number +:+ " must be a valid integer")
  | Some numberInt => (numberInt, "")
  end.

Definition validateStatusCode (status : string) : string :=
  let '(code, errMsg) := validateIntFromString status in
  if negb (String.eqb errMsg "") then errMsg
  else if (code <? 100)%Z || (999 <? code)%Z then InclusiveRangeError 100 999
  else "".

Definition validateStatusCodeRange (statusRangeStr : string) : string :=
  match strings_Split statusRangeStr "-" with
  | [lo; hi] =>
      let statusRange := [lo; hi] in
      let '(min, msg) := validateIntFromString lo in
      if negb (String.eqb msg "") then msg
      else
        let '(max, msg) := validateIntFromString hi in
        if negb (String.eqb msg "") then msg
        else
          match
            list_find (λ msg, msg ≠ "") (validateStatusCode <$> statusRange)
          with
          | Some (_, msg) => msg
          | None =>
              if (max <=? min)%Z
              then "range limits must be " +:+ itoa min +:+ " < " +:+ itoa max
              else ""
          end
  | _ => "ranges must only have 2 numbers"
  end.

Definition validateStatusMatch (s : string) (fieldPath : Path) : ErrorList :=
  let allErrs := [] in
  if String.eqb s "" then allErrs
  else
    let allErrs :=
      if go_strings.HasPrefix s "!" && negb (go_strings.HasPrefix s "! ")
      then
        allErrs ++
          [Invalid fieldPath (StringValue s) "must have an space character after the `!`"]
      else allErrs in
    let statuses := strings_Split s " " in
    for_range
      (λ i value allErrs,
         if String.eqb value "!"
         then
           if negb (i =? 0)%Z
           then
             allErrs ++
               [Invalid fieldPath (StringValue s) "`!` can only appear once at the beginning"]
           else allErrs
         else if go_strings.Contains value "-"
         then
           let msg := validateStatusCodeRange value in
           if negb (String.eqb msg "")
           then allErrs ++ [Invalid fieldPath (StringValue s) msg]
           else allErrs
         else
           let msg := validateStatusCode value in
           if negb (String.eqb msg "")
           then allErrs ++ [Invalid fieldPath (StringValue s) msg]
           else allErrs)
      0 statuses allErrs.

Definition headerValueFmt : string := "([^" +:+ configs.dquote +:+ "$\\]|\\[^$])*".
Definition headerValueFmtErrMsg : string :=
  "a valid header must have all '" +:+ configs.dquote
    +:+ "' escaped and must not contain any '$' or end with an unescaped '\'".

Definition isValidHeaderValue (s : string) : list string :=
  if negb (regexp_MatchString ("^" +:+ headerValueFmt +:+ "$") s)
  then [RegexError headerValueFmtErrMsg headerValueFmt ["my.service"; "foo"]]
  else [].

Definition validateHeader (h : Header.t) (fieldPath : Path) : ErrorList :=
  let allErrs := [] in
  let allErrs :=
    if String.eqb (Header.Name h) "" then allErrs ++ [Required (Child fieldPath "name") ""]
    else allErrs in
  let allErrs :=
    append_each allErrs (λ msg, Invalid (Child fieldPath "name") (StringValue (Header.Name h)) msg)
      (IsHTTPHeaderName (Header.Name h)) in
  append_each allErrs (λ msg, Invalid (Child fieldPath "value") (StringValue (Header.Value h)) msg)
    (isValidHeaderValue (Header.Value h)).

Definition validateUpstreamHealthCheck (hc : option HealthCheck.t) (fieldPath : Path)
    : ErrorList :=
  let allErrs := [] in
  match hc with
  | None => allErrs
  | Some hc =>
      let allErrs :=
        if negb (String.eqb (HealthCheck.Path hc) "")
        then allErrs ++ validatePath (HealthCheck.Path hc) (Child fieldPath "path")
        else allErrs in
      let allErrs := allErrs ++ validateTime (HealthCheck.Interval hc) (Child fieldPath "interval") in
      let allErrs := allErrs ++ validateTime (HealthCheck.Jitter hc) (Child fieldPath "jitter") in
      let allErrs :=
        allErrs ++ validatePositiveIntOrZero (HealthCheck.Fails hc) (Child fieldPath "fails") in
      let allErrs :=
        allErrs ++ validatePositiveIntOrZero (HealthCheck.Passes hc) (Child fieldPath "passes") in
      let allErrs :=
        allErrs ++ validateTime (HealthCheck.ConnectTimeout hc) (Child fieldPath "connect-timeout") in
      let allErrs :=
        allErrs ++ validateTime (HealthCheck.ReadTimeout hc) (Child fieldPath "read-timeout") in
      let allErrs :=
        allErrs ++ validateTime (HealthCheck.SendTimeout hc) (Child fieldPath "send-timeout") in
      let allErrs :=
        allErrs ++ validateStatusMatch (HealthCheck.StatusMatch hc) (Child fieldPath "statusMatch") in
      let allErrs :=
        for_range
          (λ i header allErrs,
             let idxPath := Index (Child fieldPath "headers") i in
             allErrs ++ validateHeader header idxPath)
          0 (HealthCheck.Headers hc) allErrs in
      if (0 <? HealthCheck.Port hc)%Z
      then
        append_each allErrs
          (λ msg, Invalid (Child fieldPath "port") (IntValue (HealthCheck.Port hc)) msg)
          (IsValidPortNum (HealthCheck.Port hc))
      else allErrs
  end.

Definition cookieNameFmt : string := "[_A-Za-z0-9]+".
Definition cookieNameErrMsg : string :=
  "a valid cookie name must consist of alphanumeric characters or '_'".

Definition isCookieName (value : string) : list string :=
  if negb (regexp_MatchString ("^" +:+ cookieNameFmt +:+ "$") value)
  then [RegexError cookieNameErrMsg cookieNameFmt ["my_cookie_123"]]
  else [].

Definition argumentNameFmt : string := "[_A-Za-z0-9]+".
Definition argumentNameErrMsg : string :=
  "a valid argument name must consist of alphanumeric characters or '_'".

Definition isArgumentName (value : string) : list string :=
  if negb (regexp_MatchString ("^" +:+ argumentNameFmt +:+ "$") value)
  then [RegexError argumentNameErrMsg argumentNameFmt ["argument_123"]]
  else [].

Definition validateSessionCookie (sc : option SessionCookie.t) (fieldPath : Path) : ErrorList :=
  let allErrs := [] in
  match sc with
  | None => allErrs
  | Some sc =>
      let allErrs :=
        if String.eqb (SessionCookie.Name sc) ""
        then allErrs ++ [Required (Child fieldPath "name") ""]
        else
          append_each allErrs
            (λ msg, Invalid (Child fieldPath "name") (StringValue (SessionCookie.Name sc)) msg)
            (isCookieName (SessionCookie.Name sc)) in
      let allErrs :=
        if negb (String.eqb (SessionCookie.Path sc) "")
        then allErrs ++ validatePath (SessionCookie.Path sc) (Child fieldPath "path")
        else allErrs in
      let allErrs :=
        if negb (String.eqb (SessionCookie.Expires sc) "max")
        then allErrs ++ validateTime (SessionCookie.Expires sc) (Child fieldPath "expires")
        else allErrs in
      if negb (String.eqb (SessionCookie.Domain sc) "")
      then
        (* A Domain prefix of "." is allowed. *)
        let domain := go_strings.TrimPrefix (SessionCookie.Domain sc) "." in
        append_each allErrs
          (λ msg, Invalid (Child fieldPath "domain") (StringValue (SessionCookie.Domain sc)) msg)
          (IsDNS1123Subdomain domain)
      else allErrs
  end.

Definition validateDNS1035Label (name : string) (fieldPath : Path) : ErrorList :=
  let allErrs := [] in
  if String.eqb name "" then allErrs ++ [Required fieldPath ""]
  else append_each allErrs (λ msg, Invalid fieldPath (StringValue name) msg) (IsDNS1035Label name).

(** validateUpstreamName checks is an upstream name is valid. *)
Definition validateUpstreamName (name : string) (fieldPath : Path) : ErrorList :=
  validateDNS1035Label name fieldPath.

(** validateServiceName checks if a service name is valid. *)
Definition validateServiceName (name : string) (fieldPath : Path) : ErrorList :=
  validateDNS1035Label name fieldPath.

Definition validNextUpstreamParams : gmap string bool :=
  list_to_map
    [ ("error", true); ("timeout", true); ("invalid_header", true); ("http_500", true);
      ("http_502", true); ("http_503", true); ("http_504", true); ("http_403", true);
      ("http_404", true); ("http_429", true); ("non_idempotent", true); ("off", true);
      ("", true) ].

(** [m[key]] of a [map[string]bool]: [false] when the key is missing. *)
Definition bool_map_get (m : gmap string bool) (key : string) : bool :=
  default false (m !! key).

(** validateNextUpstream checks the values given for passing queries to a upstream *)
Definition validateNextUpstream (nextUpstream : string) (fieldPath : Path) : ErrorList :=
  let allErrs := [] in
  let allParams : gset string := ∅ in
  if String.eqb nextUpstream "" then allErrs
  else
    let params := strings_Fields nextUpstream in
    fst
      (foldl
         (λ '(allErrs, allParams) para,
            let allErrs :=
              if negb (bool_map_get validNextUpstreamParams para)
              then allErrs ++ [Invalid fieldPath (StringValue para) "not a valid parameter"]
              else allErrs in
            if bool_decide (para ∈ allParams)
            then
              (allErrs ++
                 [Invalid fieldPath (StringValue para) "can not have duplicate parameters"],
               allParams)
            else (allErrs, {[para]} ∪ allParams))
         (allErrs, allParams) params).

(** isValidLabelName checks if a label name is valid. *)
Definition isValidLabelName (labelName : string) (fieldPath : Path) : ErrorList :=
  let allErrs := [] in
  append_each allErrs (λ msg, Invalid fieldPath (StringValue labelName) msg)
    (IsQualifiedName labelName).

(** validateLabels validates that a set of labels are correctly defined. *)
Definition validateLabels (labels : gmap string string) (fieldPath : Path) : ErrorList :=
  let allErrs := [] in
  foldl
    (λ allErrs '(labelName, labelValue),
       let allErrs := allErrs ++ isValidLabelName labelName fieldPath in
       append_each allErrs (λ msg, Invalid fieldPath (StringValue labelValue) msg)
         (IsValidLabelValue labelValue))
    allErrs (map_range labels).

Definition validateQueue (queue : option UpstreamQueue.t) (fieldPath : Path) : ErrorList :=
  let allErrs := [] in
  match queue with
  | None => allErrs
  | Some queue =>
      let allErrs :=
        allErrs ++ validateTime (UpstreamQueue.Timeout queue) (Child fieldPath "timeout") in
      if (UpstreamQueue.Size queue <=? 0)%Z
      then allErrs ++ [Required (Child fieldPath "size") "must be positive"]
      else allErrs
  end.

Definition rejectPlusResourcesInOSS (upstream : Upstream.t) (idxPath : Path) (isPlus : bool)
    : ErrorList :=
  let allErrs := [] in
  if isPlus then allErrs
  else
    let allErrs :=
      match Upstream.HealthCheck upstream with
      | Some _ =>
          allErrs ++
            [Forbidden (Child idxPath "healthCheck")
               "active health checks are only supported in NGINX Plus"]
      | None => allErrs
      end in
    let allErrs :=
      if negb (String.eqb (Upstream.SlowStart upstream) "")
      then
        allErrs ++
          [Forbidden (Child idxPath "slow-start") "slow start is only supported in NGINX Plus"]
      else allErrs in
    let allErrs :=
      match Upstream.SessionCookie upstream with
      | Some _ =>
          allErrs ++
            [Forbidden (Child idxPath "sessionCookie")
               "sticky cookies are only supported in NGINX Plus"]
      | None => allErrs
      end in
    match Upstream.Queue upstream with
    | Some _ =>
        allErrs ++ [Forbidden (Child idxPath "queue") "queue is only supported in NGINX Plus"]
    | None => allErrs
    end.

(** The body of the loop of [validateUpstreams]: it updates [allErrs] and
    [upstreamNames]. *)
Definition validateUpstreams_upstream (fieldPath : Path) (isPlus : bool) (i : Z)
    (u : Upstream.t) (st : ErrorList * gset string) : ErrorList * gset string :=
  let '(allErrs, upstreamNames) := st in
  let idxPath := Index fieldPath i in
  let upstreamErrors := validateUpstreamName (Upstream.Name u) (Child idxPath "name") in
  let '(allErrs, upstreamNames) :=
    if (0 <? len upstreamErrors)%Z then (allErrs ++ upstreamErrors, upstreamNames)
    else if bool_decide (Upstream.Name u ∈ upstreamNames)
    then (allErrs ++ [Duplicate (Child idxPath "name") (StringValue (Upstream.Name u))],
          upstreamNames)
    else (allErrs, {[Upstream.Name u]} ∪ upstreamNames) in
  let allErrs :=
    allErrs ++ validateServiceName (Upstream.Service u) (Child idxPath "service") in
  let allErrs :=
    allErrs ++ validateLabels (Upstream.Subselector u) (Child idxPath "subselector") in
  let allErrs :=
    allErrs ++ validateTime (Upstream.ProxyConnectTimeout u) (Child idxPath "connect-timeout") in
  let allErrs :=
    allErrs ++ validateTime (Upstream.ProxyReadTimeout u) (Child idxPath "read-timeout") in
  let allErrs :=
    allErrs ++ validateTime (Upstream.ProxySendTimeout u) (Child idxPath "send-timeout") in
  let allErrs :=
    allErrs ++ validateNextUpstream (Upstream.ProxyNextUpstream u)
                 (Child idxPath "next-upstream") in
  let allErrs :=
    allErrs ++ validateTime (Upstream.ProxyNextUpstreamTimeout u)
                 (Child idxPath "next-upstream-timeout") in
  let allErrs :=
    allErrs ++ validatePositiveIntOrZeroFromPointer (Some (Upstream.ProxyNextUpstreamTries u))
                 (Child idxPath "next-upstream-tries") in
  let allErrs :=
    allErrs ++ validateUpstreamLBMethod (Upstream.LBMethod u) (Child idxPath "lb-method")
                 isPlus in
  let allErrs :=
    allErrs ++ validateTime (Upstream.FailTimeout u) (Child idxPath "fail-timeout") in
  let allErrs :=
    allErrs ++ validatePositiveIntOrZeroFromPointer (Upstream.MaxFails u)
                 (Child idxPath "max-fails") in
  let allErrs :=
    allErrs ++ validatePositiveIntOrZeroFromPointer (Upstream.Keepalive u)
                 (Child idxPath "keepalive") in
  let allErrs :=
    allErrs ++ validatePositiveIntOrZeroFromPointer (Upstream.MaxConns u)
                 (Child idxPath "max-conns") in
  let allErrs :=
    allErrs ++ validateOffset (Upstream.ClientMaxBodySize u)
                 (Child idxPath "client-max-body-size") in
  let allErrs :=
    allErrs ++ validateUpstreamHealthCheck (Upstream.HealthCheck u)
                 (Child idxPath "healthCheck") in
  let allErrs :=
    allErrs ++ validateTime (Upstream.SlowStart u) (Child idxPath "slow-start") in
  let allErrs :=
    allErrs ++ validateBuffer (Upstream.ProxyBuffers u) (Child idxPath "buffers") in
  let allErrs :=
    allErrs ++ validateSize (Upstream.ProxyBufferSize u) (Child idxPath "buffer-size") in
  let allErrs := allErrs ++ validateQueue (Upstream.Queue u) (Child idxPath "queue") in
  let allErrs :=
    allErrs ++ validateSessionCookie (Upstream.SessionCookie u)
                 (Child idxPath "sessionCookie") in
  let allErrs :=
    append_each allErrs
      (λ msg, Invalid (Child idxPath "port") (IntValue (Upstream.Port u)) msg)
      (IsValidPortNum (Upstream.Port u)) in
  let allErrs := allErrs ++ rejectPlusResourcesInOSS u idxPath isPlus in
  (allErrs, upstreamNames).

Definition validateUpstreams (upstreams : list Upstream.t) (fieldPath : Path) (isPlus : bool)
    : ErrorList * gset string :=
  for_range (validateUpstreams_upstream fieldPath isPlus) 0 upstreams ([], ∅).

Definition countActions (action : Action.t) : Z :=
  let count := 0%Z in
  let count := if negb (String.eqb (Action.Pass action) "") then (count + 1)%Z else count in
  let count := if Action.Redirect action is Some _ then (count + 1)%Z else count in
  let count := if Action.Return action is Some _ then (count + 1)%Z else count in
  count.

Definition validateReferencedUpstream (name : string) (fieldPath : Path)
    (upstreamNames : gset string) : ErrorList :=
  let allErrs := [] in
  let upstreamErrs := validateUpstreamName name fieldPath in
  if (0 <? len upstreamErrs)%Z then allErrs ++ upstreamErrs
  else if negb (bool_decide (name ∈ upstreamNames))
  then allErrs ++ [NotFound fieldPath (StringValue name)]
  else allErrs.

(** [nginxVariableRegexp.FindAllStringSubmatch(s, -1)], each match reduced to
    its one group. The pattern is a dollar sign, an opening brace, a group of
    any number of characters other than a closing brace, and a closing
    brace: a match starts at
    the leftmost dollar sign that is followed by an opening brace and, later,
    by a closing brace; it ends at the first closing brace, and the search
    goes on behind it. [skip] counts the bytes of a match still to pass. *)
Fixpoint captureVariables_from (skip : nat) (s : string) : list string :=
  match s with
  | EmptyString => []
  | String _ s' =>
      match skip with
      | S k => captureVariables_from k s'
      | O =>
          if go_strings.HasPrefix s "${"
          then
            match String.index 2 "}" s with
            | Some close => String.substring 2 (close - 2) s :: captureVariables_from close s'
            | None => captureVariables_from 0 s'
            end
          else captureVariables_from 0 s'
      end
  end.

(** captureVariables returns a slice of vars enclosed in ${}. *)
Definition captureVariables (s : string) : list string := captureVariables_from 0 s.

(** validRedirectVariableNames includes NGINX variables allowed to be used in redirects. *)
Definition validRedirectVariableNames : gmap string bool :=
  list_to_map
    [("scheme", true); ("http_x_forwarded_proto", true); ("request_uri", true); ("host", true)].

Definition mapToPrettyString (m : gmap string bool) : string :=
  go_strings.Join (fst <$> map_range m) ", ".

Definition validateVariable (nVar : string) (validVars : gmap string bool) (fieldPath : Path)
    : ErrorList :=
  let allErrs := [] in
  if negb (bool_map_get validVars nVar)
  then
    let msg :=
      "'" +:+ nVar +:+ "' contains an invalid NGINX variable. Accepted variables are: "
        +:+ mapToPrettyString validVars in
    allErrs ++ [Invalid fieldPath (StringValue nVar) msg]
  else allErrs.

Definition isValidSpecialVariableHeader (header : string) : list string :=
  (* underscores in $http_ variable represent '-'. *)
  let errMsgs := IsHTTPHeaderName (go_strings.ReplaceAll header "_" "-") in
  if (1 <=? len errMsgs)%Z || go_strings.Contains header "-"
  then ["a valid HTTP header must consist of alphanumeric characters or '_'"]
  else [].

(** [value[1]] panics when [SplitN] returns a single piece. *)
Definition validateSpecialVariable (nVar : string) (fieldPath : Path) : option ErrorList :=
  let allErrs := [] in
  let value := go_strings.SplitN2 nVar "_" in
  value0 ← value !! 0%nat;
  if String.eqb value0 "arg"
  then
    value1 ← value !! 1%nat;
    Some (append_each allErrs (λ msg, Invalid fieldPath (StringValue nVar) msg)
            (isArgumentName value1))
  else if String.eqb value0 "http"
  then
    value1 ← value !! 1%nat;
    Some (append_each allErrs (λ msg, Invalid fieldPath (StringValue nVar) msg)
            (isValidSpecialVariableHeader value1))
  else if String.eqb value0 "cookie"
  then
    value1 ← value !! 1%nat;
    Some (append_each allErrs (λ msg, Invalid fieldPath (StringValue nVar) msg)
            (isCookieName value1))
  else Some allErrs.

(** The value of a byte. *)
Definition byte_val (c : ascii) : Z := Z.of_N (N_of_ascii c).

(** The rune and the width in bytes that a [range] over a string reads at the
    head of a non-empty [s]: an ASCII byte is itself, anything else goes
    through the runtime's [decoderune], which answers [RuneError] and width 1
    for every malformed or truncated sequence. *)
Definition decoderune (s : string) : Z * nat :=
  let runeError := 0xFFFD%Z in
  let locb := 0x80%Z in
  let hicb := 0xBF%Z in
  let maskx := 0x3F%Z in
  let cont (b : Z) := (locb <=? b)%Z && (b <=? hicb)%Z in
  match s with
  | EmptyString => (runeError, 1%nat)
  | String c0 s1 =>
      let s0 := byte_val c0 in
      if (s0 <? 0x80)%Z then (s0, 1%nat)
      else if (0xC0 <=? s0)%Z && (s0 <? 0xE0)%Z
      then (* 0080-07FF two byte sequence *)
        match s1 with
        | String c1 _ =>
            let r := Z.lor (Z.shiftl (Z.land s0 0x1F) 6) (Z.land (byte_val c1) maskx) in
            if cont (byte_val c1) && (0x7F <? r)%Z then (r, 2%nat) else (runeError, 1%nat)
        | _ => (runeError, 1%nat)
        end
      else if (0xE0 <=? s0)%Z && (s0 <? 0xF0)%Z
      then (* 0800-FFFF three byte sequence *)
        match s1 with
        | String c1 (String c2 _) =>
            let r :=
              Z.lor (Z.lor (Z.shiftl (Z.land s0 0x0F) 12)
                           (Z.shiftl (Z.land (byte_val c1) maskx) 6))
                    (Z.land (byte_val c2) maskx) in
            if cont (byte_val c1) && cont (byte_val c2) && (0x7FF <? r)%Z
               && negb ((0xD800 <=? r)%Z && (r <=? 0xDFFF)%Z)
            then (r, 3%nat) else (runeError, 1%nat)
        | _ => (runeError, 1%nat)
        end
      else if (0xF0 <=? s0)%Z && (s0 <? 0xF8)%Z
      then (* 10000-1FFFFF four byte sequence *)
        match s1 with
        | String c1 (String c2 (String c3 _)) =>
            let r :=
              Z.lor (Z.lor (Z.lor (Z.shiftl (Z.land s0 0x07) 18)
                                  (Z.shiftl (Z.land (byte_val c1) maskx) 12))
                           (Z.shiftl (Z.land (byte_val c2) maskx) 6))
                    (Z.land (byte_val c3) maskx) in
            if cont (byte_val c1) && cont (byte_val c2) && cont (byte_val c3)
               && (0xFFFF <? r)%Z && (r <=? 0x10FFFF)%Z
            then (r, 4%nat) else (runeError, 1%nat)
        | _ => (runeError, 1%nat)
        end
      else (runeError, 1%nat)
  end.

(** The loop [for i, c := range str] of [validateStringWithVariables]: [rest]
    is [str[i:]] and [skip] counts the bytes of the current rune that are
    still to pass. The result is [None] when [str[i+1]] is out of range,
    [Some (Some errs)] when the loop returns [errs], and [Some None] when it
    runs to its end. *)
Fixpoint validateStringWithVariables_range (str : string) (fieldPath : Path)
    (i skip : nat) (rest : string) : option (option ErrorList) :=
  match rest with
  | EmptyString => Some None
  | String _ rest' =>
      match skip with
      | S k => validateStringWithVariables_range str fieldPath (S i) k rest'
      | O =>
          let '(c, width) := decoderune rest in
          if (c =? 36)%Z (* '$' *)
          then
            let msg := "variables must be enclosed in curly braces, for example ${host}" in
            b ← String.get (i + 1) str;
            if negb (Ascii.eqb b "{")
            then Some (Some ([] ++ [Invalid fieldPath (StringValue str) msg]))
            else if negb (go_strings.Contains (go_strings.slice_from (i + 1) str) "}")
            then Some (Some ([] ++ [Invalid fieldPath (StringValue str) msg]))
            else validateStringWithVariables_range str fieldPath (S i) (width - 1) rest'
          else validateStringWithVariables_range str fieldPath (S i) (width - 1) rest'
      end
  end.

Definition validateStringWithVariables (str : string) (fieldPath : Path)
    (validVars : gmap string bool) (specialVars : list string) : option ErrorList :=
  let allErrs := [] in
  if go_strings.HasSuffix str "$"
  then Some (allErrs ++ [Invalid fieldPath (StringValue str) "must not end with $"])
  else
    returned ← validateStringWithVariables_range str fieldPath 0 0 str;
    match returned with
    | Some errs => Some errs
    | None =>
        let nginxVars := captureVariables str in
        for_range_opt
          (λ _ nVar allErrs,
             let special :=
               existsb (λ specialVar, go_strings.HasPrefix nVar specialVar) specialVars in
             if special
             then errs ← validateSpecialVariable nVar fieldPath; Some (allErrs ++ errs)
             else Some (allErrs ++ validateVariable nVar validVars fieldPath))
          0 nginxVars allErrs
    end.

Definition validateRedirectURL (redirectURL : string) (fieldPath : Path) : option ErrorList :=
  let allErrs := [] in
  if String.eqb redirectURL "" then Some (allErrs ++ [Required fieldPath "must specify a url"])
  else if negb (escapedStringsFmtRegexp_MatchString redirectURL)
  then
    let msg :=
      RegexError escapedStringsErrMsg escapedStringsFmt
        ["http://www.nginx.com"; "${scheme}://${host}/green/";
         "\" +:+ configs.dquote +:+ "http://www.nginx.com\" +:+ configs.dquote] in
    Some (allErrs ++ [Invalid fieldPath (StringValue redirectURL) msg])
  else
    errs ← validateStringWithVariables redirectURL fieldPath validRedirectVariableNames [];
    Some (allErrs ++ errs).

Definition validateActionRedirect (redirect : ActionRedirect.t) (fieldPath : Path)
    : option ErrorList :=
  let allErrs := [] in
  errs ← validateRedirectURL (ActionRedirect.URL redirect) (Child fieldPath "url");
  let allErrs := allErrs ++ errs in
  if negb (ActionRedirect.Code redirect =? 0)%Z
  then Some (allErrs ++ validateRedirectStatusCode (ActionRedirect.Code redirect)
                          (Child fieldPath "code"))
  else Some allErrs.

Definition validateActionReturnCode (code : Z) (fieldPath : Path) : ErrorList :=
  let allErrs := [] in
  if ((200 <=? code)%Z && (code <=? 299)%Z) || ((400 <=? code)%Z && (code <=? 599)%Z)
  then allErrs
  else
    let msg := "must be a valid status code either 2XX, 4XX or 5XX, for example, 200 or 402." in
    allErrs ++ [Invalid fieldPath (IntValue code) msg].

(** returnBodyVariables includes NGINX variables allowed to be used in a return body. *)
Definition returnBodyVariables : gmap string bool :=
  list_to_map
    [ ("request_uri", true); ("request_method", true); ("request_body", true);
      ("scheme", true); ("args", true); ("host", true); ("request_time", true);
      ("request_length", true); ("nginx_version", true); ("pid", true);
      ("connection", true); ("remote_addr", true); ("remote_port", true);
      ("time_iso8601", true); ("time_local", true); ("server_addr", true);
      ("server_port", true); ("server_name", true); ("server_protocol", true);
      ("connections_active", true); ("connections_reading", true);
      ("connections_writing", true); ("connections_waiting", true) ].

Definition returnBodySpecialVariables : list string := ["arg_"; "http_"; "cookie_"].

Definition validateActionReturnBody (body : string) (fieldPath : Path) : option ErrorList :=
  let allErrs := [] in
  let allErrs :=
    if negb (escapedStringsFmtRegexp_MatchString body)
    then
      let msg :=
        RegexError escapedStringsErrMsg escapedStringsFmt
          ["Hello World! \n";
           "\" +:+ configs.dquote +:+ "${request_uri}\" +:+ configs.dquote
             +:+ " is unavailable. \n"] in
      allErrs ++ [Invalid fieldPath (StringValue body) msg]
    else allErrs in
  errs ← validateStringWithVariables body fieldPath returnBodyVariables
           returnBodySpecialVariables;
  Some (allErrs ++ errs).

Definition actionReturnTypeFmt : string :=
  "([^;\{\}" +:+ configs.dquote +:+ "\\]|\\.)*".
Definition actionReturnTypeErr : string :=
  "must have all '" +:+ configs.dquote
    +:+ "' (double quotes), '{', '}' or ';' escaped and must not end with an unescaped '\' (backslash)".

Definition validateActionReturnType (returnType : string) (fieldPath : Path) : ErrorList :=
  let allErrs := [] in
  if negb (regexp_MatchString ("^" +:+ actionReturnTypeFmt +:+ "$") returnType)
  then
    let msg :=
      RegexError actionReturnTypeErr actionReturnTypeFmt ["type/subtype"; "application/json"] in
    allErrs ++ [Invalid fieldPath (StringValue returnType) msg]
  else allErrs.

Definition validateActionReturn (r : ActionReturn.t) (fieldPath : Path) : option ErrorList :=
  let allErrs := [] in
  if String.eqb (ActionReturn.Body r) "" then Some (allErrs ++ [Required (Child fieldPath "body") ""])
  else
    errs ← validateActionReturnBody (ActionReturn.Body r) (Child fieldPath "body");
    let allErrs := allErrs ++ errs in
    let allErrs :=
      if negb (String.eqb (ActionReturn.Type_ r) "")
      then allErrs ++ validateActionReturnType (ActionReturn.Type_ r) (Child fieldPath "type")
      else allErrs in
    if negb (ActionReturn.Code r =? 0)%Z
    then Some (allErrs ++ validateActionReturnCode (ActionReturn.Code r) (Child fieldPath "code"))
    else Some allErrs.

Definition validateAction (action : Action.t) (fieldPath : Path) (upstreamNames : gset string)
    : option ErrorList :=
  let allErrs := [] in
  if negb (countActions action =? 1)%Z
  then
    Some (allErrs ++
            [Required fieldPath
               "action must specify exactly one of `pass`, `redirect` or `return`"])
  else
    let allErrs :=
      if negb (String.eqb (Action.Pass action) "")
      then allErrs ++ validateReferencedUpstream (Action.Pass action) (Child fieldPath "pass")
                        upstreamNames
      else allErrs in
    allErrs ←
      match Action.Redirect action with
      | Some redirect =>
          errs ← validateActionRedirect redirect (Child fieldPath "redirect");
          Some (allErrs ++ errs)
      | None => Some allErrs
      end;
    match Action.Return action with
    | Some ret =>
        errs ← validateActionReturn ret (Child fieldPath "return");
        Some (allErrs ++ errs)
    | None => Some allErrs
    end.

Definition validateRouteField (value : string) (fieldPath : Path) : ErrorList :=
  let allErrs := [] in
  append_each allErrs (λ msg, Invalid fieldPath (StringValue value) msg) (IsQualifiedName value).

(** The body of the loop of [validateSplits]: it updates [allErrs] and
    [totalWeight]. *)
Definition validateSplits_split (fieldPath : Path) (upstreamNames : gset string)
    (i : Z) (s : Split.t) (st : ErrorList * Z) : option (ErrorList * Z) :=
  let '(allErrs, totalWeight) := st in
  let idxPath := Index fieldPath i in
  let allErrs :=
    append_each allErrs
      (λ msg, Invalid (Child idxPath "weight") (IntValue (Split.Weight s)) msg)
      (IsInRange (Split.Weight s) 1 99) in
  allErrs ←
    match Split.Action s with
    | None => Some (allErrs ++ [Required (Child idxPath "action") ""])
    | Some action =>
        errs ← validateAction action (Child idxPath "action") upstreamNames;
        Some (allErrs ++ errs)
    end;
  let totalWeight := int_add totalWeight (Split.Weight s) in
  Some (allErrs, totalWeight).

Definition validateSplits (splits : list Split.t) (fieldPath : Path)
    (upstreamNames : gset string) : option ErrorList :=
  let allErrs := [] in
  if (len splits <? 2)%Z
  then Some (allErrs ++ [Invalid fieldPath (StringValue "") "must include at least 2 splits"])
  else
    let totalWeight := 0%Z in
    '(allErrs, totalWeight) ←
      for_range_opt (validateSplits_split fieldPath upstreamNames) 0 splits
        (allErrs, totalWeight);
    if negb (totalWeight =? 100)%Z
    then
      Some (allErrs ++
              [Invalid fieldPath (StringValue "")
                 "the sum of the weights of all splits must be equal to 100"])
    else Some allErrs.

Definition validateRegexPath (path : string) (fieldPath : Path) : ErrorList :=
  let allErrs := [] in
  match regexp_Compile_error path with
  | Some err =>
      allErrs ++
        [Invalid fieldPath (StringValue path) ("must be a valid regular expression: " +:+ err)]
  | None =>
      if negb (escapedStringsFmtRegexp_MatchString path)
      then
        let msg :=
          RegexError escapedStringsErrMsg escapedStringsFmt ["*.jpg"; "^/images/image_*.png$"] in
        allErrs ++ [Invalid fieldPath (StringValue path) msg]
      else allErrs
  end.

(** We support prefix-based NGINX locations, positive case-sensitive/insensitive
    regular expressions matches and exact matches. *)
Definition validateRoutePath (path : string) (fieldPath : Path) : ErrorList :=
  let allErrs := [] in
  if String.eqb path "" then allErrs ++ [Required fieldPath ""]
  else if go_strings.HasPrefix path "~" then allErrs ++ validateRegexPath path fieldPath
  else if go_strings.HasPrefix path "/" then allErrs ++ validatePath path fieldPath
  else if go_strings.HasPrefix path "="
  then allErrs ++ validatePath (go_strings.TrimPrefix path "=") fieldPath
  else allErrs ++ [Invalid fieldPath (StringValue path) "must start with /, ~ or ="].

(** validVariableNames includes NGINX variables allowed to be used in conditions. *)
Definition validVariableNames : gmap string bool :=
  list_to_map
    [ ("$args", true); ("$http2", true); ("$https", true); ("$remote_addr", true);
      ("$remote_port", true); ("$query_string", true); ("$request", true);
      ("$request_body", true); ("$request_uri", true); ("$request_method", true);
      ("$scheme", true) ].

Definition validateVariableName (name : string) (fieldPath : Path) : ErrorList :=
  let allErrs := [] in
  if negb (go_strings.HasPrefix name "$")
  then allErrs ++ [Invalid fieldPath (StringValue name) "must start with `$`"]
  else if negb (configs.has_key validVariableNames name)
  then
    allErrs ++
      [Invalid fieldPath (StringValue name) "is not allowed or is not an NGINX variable"]
  else allErrs.

Definition isValidMatchValue (value : string) : list string :=
  if negb (escapedStringsFmtRegexp_MatchString value)
  then [RegexError escapedStringsErrMsg escapedStringsFmt ["value-123"]]
  else [].

Definition validateCondition (condition : Condition.t) (fieldPath : Path) : ErrorList :=
  let allErrs := [] in
  let fieldCount := 0%Z in
  let '(allErrs, fieldCount) :=
    if negb (String.eqb (Condition.Header condition) "")
    then
      (append_each allErrs
         (λ msg, Invalid (Child fieldPath "header") (StringValue (Condition.Header condition)) msg)
         (IsHTTPHeaderName (Condition.Header condition)),
       (fieldCount + 1)%Z)
    else (allErrs, fieldCount) in
  let '(allErrs, fieldCount) :=
    if negb (String.eqb (Condition.Cookie condition) "")
    then
      (append_each allErrs
         (λ msg, Invalid (Child fieldPath "cookie") (StringValue (Condition.Cookie condition)) msg)
         (isCookieName (Condition.Cookie condition)),
       (fieldCount + 1)%Z)
    else (allErrs, fieldCount) in
  let '(allErrs, fieldCount) :=
    if negb (String.eqb (Condition.Argument condition) "")
    then
      (append_each allErrs
         (λ msg,
            Invalid (Child fieldPath "argument") (StringValue (Condition.Argument condition)) msg)
         (isArgumentName (Condition.Argument condition)),
       (fieldCount + 1)%Z)
    else (allErrs, fieldCount) in
  let '(allErrs, fieldCount) :=
    if negb (String.eqb (Condition.Variable_ condition) "")
    then
      (allErrs ++ validateVariableName (Condition.Variable_ condition) (Child fieldPath "variable"),
       (fieldCount + 1)%Z)
    else (allErrs, fieldCount) in
  let allErrs :=
    if negb (fieldCount =? 1)%Z
    then
      allErrs ++
        [Invalid fieldPath (StringValue "")
           "must specify exactly one of: `header`, `cookie`, `argument` or `variable`"]
    else allErrs in
  append_each allErrs
    (λ msg, Invalid (Child fieldPath "value") (StringValue (Condition.Value condition)) msg)
    (isValidMatchValue (Condition.Value condition)).

Definition validateMatch (match_ : Match.t) (fieldPath : Path) (upstreamNames : gset string)
    : option ErrorList :=
  let allErrs := [] in
  let allErrs :=
    if (len (Match.Conditions match_) =? 0)%Z
    then
      allErrs ++
        [Required (Child fieldPath "conditions") "must specify at least one condition"]
    else
      for_range
        (λ i c allErrs,
           allErrs ++ validateCondition c (Index (Child fieldPath "conditions") i))
        0 (Match.Conditions match_) allErrs in
  let fieldCount := 0%Z in
  '(allErrs, fieldCount) ←
    match Match.Action match_ with
    | Some action =>
        errs ← validateAction action (Child fieldPath "action") upstreamNames;
        Some (allErrs ++ errs, (fieldCount + 1)%Z)
    | None => Some (allErrs, fieldCount)
    end;
  '(allErrs, fieldCount) ←
    (if (0 <? len (Match.Splits match_))%Z
     then
       errs ← validateSplits (Match.Splits match_) (Child fieldPath "splits") upstreamNames;
       Some (allErrs ++ errs, (fieldCount + 1)%Z)
     else Some (allErrs, fieldCount));
  if negb (fieldCount =? 1)%Z
  then
    Some (allErrs ++
            [Invalid fieldPath (StringValue "") "must specify exactly one of `action` or `splits`"])
  else Some allErrs.

Definition validateRoute (route : Route.t) (fieldPath : Path) (upstreamNames : gset string)
    (isRouteFieldForbidden : bool) : option ErrorList :=
  let allErrs := [] in
  let allErrs := allErrs ++ validateRoutePath (Route.Path route) (Child fieldPath "path") in
  let fieldCount := 0%Z in
  '(allErrs, fieldCount) ←
    match Route.Action route with
    | Some action =>
        errs ← validateAction action (Child fieldPath "action") upstreamNames;
        Some (allErrs ++ errs, (fieldCount + 1)%Z)
    | None => Some (allErrs, fieldCount)
    end;
  '(allErrs, fieldCount) ←
    (if (0 <? len (Route.Splits route))%Z
     then
       errs ← validateSplits (Route.Splits route) (Child fieldPath "splits") upstreamNames;
       Some (allErrs ++ errs, (fieldCount + 1)%Z)
     else Some (allErrs, fieldCount));
  (* Matches are optional. that's why we don't do fieldCount++ *)
  allErrs ←
    (if (0 <? len (Route.Matches route))%Z
     then
       for_range_opt
         (λ i m allErrs,
            errs ← validateMatch m (Index (Child fieldPath "matches") i) upstreamNames;
            Some (allErrs ++ errs))
         0 (Route.Matches route) allErrs
     else Some allErrs);
  let '(allErrs, fieldCount) :=
    if negb (String.eqb (Route.Route route) "")
    then
      if isRouteFieldForbidden
      then (allErrs ++ [Forbidden (Child fieldPath "route") "is not allowed"], fieldCount)
      else (allErrs ++ validateRouteField (Route.Route route) (Child fieldPath "route"),
            (fieldCount + 1)%Z)
    else (allErrs, fieldCount) in
  if negb (fieldCount =? 1)%Z
  then
    let msg :=
      if isRouteFieldForbidden || (0 <? len (Route.Matches route))%Z
      then "must specify exactly one of `action` or `splits`"
      else "must specify exactly one of `action`, `splits` or `route`" in
    Some (allErrs ++ [Invalid fieldPath (StringValue "") msg])
  else Some allErrs.

Definition validateVirtualServerRoutes (routes : list Route.t) (fieldPath : Path)
    (upstreamNames : gset string) : option ErrorList :=
  let allErrs := [] in
  let allPaths : gset string := ∅ in
  fst <$>
    for_range_opt
      (λ i r '(allErrs, allPaths),
         let idxPath := Index fieldPath i in
         let isRouteFieldForbidden := false in
         routeErrs ← validateRoute r idxPath upstreamNames isRouteFieldForbidden;
         if (0 <? len routeErrs)%Z then Some (allErrs ++ routeErrs, allPaths)
         else if bool_decide (Route.Path r ∈ allPaths)
         then Some (allErrs ++ [Duplicate (Child idxPath "path") (StringValue (Route.Path r))],
                    allPaths)
         else Some (allErrs, {[Route.Path r]} ∪ allPaths))
      0 routes (allErrs, allPaths).

(** validateVirtualServerSpec validates a VirtualServerSpec. *)
Definition validateVirtualServerSpec (spec : VirtualServerSpec.t) (fieldPath : Path)
    (isPlus : bool) : option ErrorList :=
  let allErrs := [] in
  let allErrs := allErrs ++ validateHost (VirtualServerSpec.Host spec) (Child fieldPath "host") in
  let allErrs := allErrs ++ validateTLS (VirtualServerSpec.TLS spec) (Child fieldPath "tls") in
  let '(upstreamErrs, upstreamNames) :=
    validateUpstreams (VirtualServerSpec.Upstreams spec) (Child fieldPath "upstreams") isPlus in
  let allErrs := allErrs ++ upstreamErrs in
  errs ←
    validateVirtualServerRoutes (VirtualServerSpec.Routes spec) (Child fieldPath "routes")
      upstreamNames;
  Some (allErrs ++ errs).

(** ValidateVirtualServer validates a VirtualServer. The Go function returns
    [allErrs.ToAggregate()], which is [nil] exactly when the list is empty;
    the model returns the list. *)
Definition ValidateVirtualServer (virtualServer : VirtualServer.t) (isPlus : bool)
    : option ErrorList :=
  validateVirtualServerSpec (VirtualServer.Spec virtualServer) (NewPath "spec") isPlus.

Definition validateVirtualServerRouteHost (host virtualServerHost : string) (fieldPath : Path)
    : ErrorList :=
  let allErrs := [] in
  let allErrs := allErrs ++ validateHost host fieldPath in
  if negb (String.eqb virtualServerHost "") && negb (String.eqb host virtualServerHost)
  then
    let msg := "must be equal to '" +:+ virtualServerHost +:+ "'" in
    allErrs ++ [Invalid fieldPath (StringValue host) msg]
  else allErrs.

Definition isRegexOrExactMatch (path : string) : bool :=
  go_strings.HasPrefix path "~" || go_strings.HasPrefix path "=".

(** The body of the loop of [validateVirtualServerRouteSubroutes]: it updates
    [allErrs] and [allPaths]. *)
Definition validateVirtualServerRouteSubroutes_route (fieldPath : Path)
    (upstreamNames : gset string) (vsPath : string) (i : Z) (r : Route.t)
    (st : ErrorList * gset string) : option (ErrorList * gset string) :=
  let '(allErrs, allPaths) := st in
  let idxPath := Index fieldPath i in
  let isRouteFieldForbidden := true in
  routeErrs ← validateRoute r idxPath upstreamNames isRouteFieldForbidden;
  let routeErrs :=
    if negb (String.eqb vsPath "") && negb (go_strings.HasPrefix (Route.Path r) vsPath)
       && negb (isRegexOrExactMatch (Route.Path r))
    then
      let msg := "must start with '" +:+ vsPath +:+ "'" in
      routeErrs ++ [Invalid idxPath (StringValue (Route.Path r)) msg]
    else routeErrs in
  if (0 <? len routeErrs)%Z then Some (allErrs ++ routeErrs, allPaths)
  else if bool_decide (Route.Path r ∈ allPaths)
  then Some (allErrs ++ [Duplicate (Child idxPath "path") (StringValue (Route.Path r))],
             allPaths)
  else Some (allErrs, {[Route.Path r]} ∪ allPaths).

Definition validateVirtualServerRouteSubroutes (routes : list Route.t) (fieldPath : Path)
    (upstreamNames : gset string) (vsPath : string) : option ErrorList :=
  let allErrs := [] in
  let allPaths : gset string := ∅ in
  if isRegexOrExactMatch vsPath
  then
    match routes with
    | [route0] =>
        let idxPath := Index fieldPath 0 in
        if negb (String.eqb (Route.Path route0) vsPath)
        then
          Some (allErrs ++
                  [Invalid (Child idxPath "path") (StringValue (Route.Path route0))
                     "must have the same path as the referenced VirtualServer route path"])
        else validateRoute route0 idxPath upstreamNames true
    | _ =>
        (* len(routes) != 1 *)
        Some (allErrs ++
                [Invalid fieldPath (StringValue "subroutes")
                   "must have only one subroute if regex match or exact match are being used"])
    end
  else
    fst <$>
      for_range_opt (validateVirtualServerRouteSubroutes_route fieldPath upstreamNames vsPath)
        0 routes (allErrs, allPaths).

Definition validateVirtualServerRouteSpec (spec : VirtualServerRouteSpec.t) (fieldPath : Path)
    (virtualServerHost vsPath : string) (isPlus : bool) : option ErrorList :=
  let allErrs := [] in
  let allErrs :=
    allErrs ++ validateVirtualServerRouteHost (VirtualServerRouteSpec.Host spec) virtualServerHost
                 (Child fieldPath "host") in
  let '(upstreamErrs, upstreamNames) :=
    validateUpstreams (VirtualServerRouteSpec.Upstreams spec) (Child fieldPath "upstreams")
      isPlus in
  let allErrs := allErrs ++ upstreamErrs in
  errs ←
    validateVirtualServerRouteSubroutes (VirtualServerRouteSpec.Subroutes spec)
      (Child fieldPath "subroutes") upstreamNames vsPath;
  Some (allErrs ++ errs).

(** ValidateVirtualServerRoute validates a VirtualServerRoute; the list stands
    for its aggregate, as in [ValidateVirtualServer]. *)
Definition ValidateVirtualServerRoute (virtualServerRoute : VirtualServerRoute.t)
    (isPlus : bool) : option ErrorList :=
  validateVirtualServerRouteSpec (VirtualServerRoute.Spec virtualServerRoute) (NewPath "spec")
    "" "/" isPlus.

(** ValidateVirtualServerRouteForVirtualServer validates a VirtualServerRoute for
    a VirtualServer represented by its host and path prefix. *)
Definition ValidateVirtualServerRouteForVirtualServer
    (virtualServerRoute : VirtualServerRoute.t) (virtualServerHost vsPath : string)
    (isPlus : bool) : option ErrorList :=
  validateVirtualServerRouteSpec (VirtualServerRoute.Spec virtualServerRoute) (NewPath "spec")
    virtualServerHost vsPath isPlus.

End with_env.

End validation.

(** ** The vocabulary of the statements *)

Module spec.

Import conf_v1.

(** "The upstream's explicitly set value when the pointer is non-nil, and the
    fleet default otherwise." *)
Definition pointer_or_default (explicit : option Z) (fleet_default : Z) : Z :=
  match explicit with
  | Some n => n
  | None => fleet_default
  end.

(** The value form of section 4.4 of the specification: "Value form for
    special map tokens (default, hostnames, include, volatile): prefix the
    bare word with a backslash. Otherwise double-quote the string. Empty
    string becomes" two double quotes. *)
Definition value_form (s : string) : string :=
  if String.eqb s "" then configs.dquote +:+ configs.dquote
  else if bool_decide (s ∈ ["default"; "hostnames"; "include"; "volatile"])
  then configs.backslash +:+ s
  else configs.dquote +:+ s +:+ configs.dquote.

(** A condition value is negated when it begins with an exclamation mark;
    [unnegated] removes that mark. *)
Definition negated (value : string) : bool := go_strings.HasPrefix value "!".

Definition unnegated (value : string) : string :=
  if negated value then go_strings.slice_from 1 value else value.

Definition has_splits (m : Match.t) : bool := (0 <? len (Match.Splits m))%Z.

(** How many of the first [k] matches have splits: the position, among the
    split-clients of a route, of the nested split-client of match [k]. *)
Definition nested_before (matches : list Match.t) (k : nat) : nat :=
  length (filter (λ m, has_splits m = true) (take k matches)).

(** How many conditions the first [k] matches have: the position of the first
    per-condition map of match [k]. *)
Definition conditions_before (matches : list Match.t) (k : nat) : nat :=
  length (concat (Match.Conditions <$> take k matches)).

(** The parameter of the main map for match [k] of a route whose matches
    route has index [index] and whose first split-client has index
    [scIndex]: the pattern is a circumflex, [k] zeros and a one; the result is
    the named location of the match or, when the match has splits, the
    variable of its nested split-client. *)
Definition main_map_parameter (namer : configs.variableNamer) (index scIndex : Z)
    (matches : list Match.t) (k : nat) (m : Match.t) : version2.Parameter_.t :=
  {| version2.Parameter_.Value := "~^" +:+ go_strings.Repeat "0" k +:+ "1";
     version2.Parameter_.Result :=
       if has_splits m
       then configs.GetNameForSplitClientVariable namer
              (int_add scIndex (Z.of_nat (nested_before matches k)))
       else "@matches_" +:+ itoa index +:+ "_match_" +:+ itoa (Z.of_nat k) |}.

(** The parameters that the matches [ms], which stand at the positions from
    [i] on, contribute to the main map when [sc] matches before them have
    splits. *)
Fixpoint main_map_parameters_from (namer : configs.variableNamer) (index scIndex : Z)
    (i sc : Z) (ms : list Match.t) : list version2.Parameter_.t :=
  match ms with
  | [] => []
  | m :: ms' =>
      {| version2.Parameter_.Value := "~^" +:+ go_strings.Repeat "0" (Z.to_nat i) +:+ "1";
         version2.Parameter_.Result :=
           if has_splits m
           then configs.GetNameForSplitClientVariable namer (int_add scIndex sc)
           else "@matches_" +:+ itoa index +:+ "_match_" +:+ itoa i |}
      :: main_map_parameters_from namer index scIndex (i + 1)
           (if has_splits m then sc + 1 else sc)%Z ms'
  end.

(** The last parameter of the main map: the result is the default named
    location or, when the route has top-level splits, the variable of the
    split-client of those splits, which comes after the nested ones. *)
Definition main_map_default (namer : configs.variableNamer) (index scIndex : Z)
    (route : Route.t) : version2.Parameter_.t :=
  {| version2.Parameter_.Value := "default";
     version2.Parameter_.Result :=
       if (0 <? len (Route.Splits route))%Z
       then configs.GetNameForSplitClientVariable namer
              (int_add scIndex
                 (Z.of_nat (nested_before (Route.Matches route)
                              (length (Route.Matches route)))))
       else "@matches_" +:+ itoa index +:+ "_default" |}.

(** The two parameters of the map of a condition, given the result of its
    success: the value form of the value maps to that result and [default]
    to 0; when the value is negated, the two results are swapped and the
    value form is that of the value without its exclamation mark. *)
Definition condition_parameters (value successful_result : string)
    : list version2.Parameter_.t :=
  if negated value
  then
    [ {| version2.Parameter_.Value := value_form (unnegated value);
         version2.Parameter_.Result := "0" |};
      {| version2.Parameter_.Value := "default";
         version2.Parameter_.Result := successful_result |} ]
  else
    [ {| version2.Parameter_.Value := value_form value;
         version2.Parameter_.Result := successful_result |};
      {| version2.Parameter_.Value := "default"; version2.Parameter_.Result := "0" |} ].

(** The result of the success of condition [j] of match [i]: 1 for the last
    condition, otherwise the variable of the next condition. *)
Definition successful_result (namer : configs.variableNamer) (index : Z) (i : nat)
    (m : Match.t) (j : nat) : string :=
  if decide (S j = length (Match.Conditions m)) then "1"
  else configs.GetNameForVariableForMatchesRouteMap namer index (Z.of_nat i) (Z.of_nat (S j)).

(** Every action that the generator dereferences is there: each split has
    one, and so has each match and each route that has no splits. *)
Definition splits_have_actions (splits : list Split.t) : Prop :=
  Forall (λ s, is_Some (Split.Action s)) splits.

Definition match_has_actions (m : Match.t) : Prop :=
  if has_splits m then splits_have_actions (Match.Splits m) else is_Some (Match.Action m).

Definition route_has_actions (r : Route.t) : Prop :=
  Forall match_has_actions (Route.Matches r) ∧
  if (0 <? len (Route.Splits r))%Z then splits_have_actions (Route.Splits r)
  else is_Some (Route.Action r).

(** The sum of the weights of a splits block. *)
Definition weight_sum (splits : list Split.t) : Z :=
  foldr (λ s acc, (Split.Weight s + acc)%Z) 0%Z splits.

(** A splits block is valid: it has at least two splits, every weight lies
    between 1 and 99, every split has an action that [validateAction]
    accepts, and the weights sum to 100. *)
Definition valid_splits `{validation.ValidatorEnv} (splits : list Split.t)
    (fieldPath : field.Path) (upstreamNames : gset string) : Prop :=
  (2 ≤ len splits)%Z ∧
  (∀ k s, splits !! k = Some s →
     (1 ≤ Split.Weight s ≤ 99)%Z ∧
     ∃ action, Split.Action s = Some action ∧
       validation.validateAction action
         (field.Child (field.Index fieldPath (Z.of_nat k)) "action") upstreamNames
       = Some []) ∧
  weight_sum splits = 100%Z.

(** No error of the list is of the kind Forbidden. *)
Definition not_forbidden (errs : list field.Error) : Prop :=
  Forall (λ e, field.Type_ e ≠ field.ErrorTypeForbidden) errs.

(** Two configurators with the same three settings; their warnings may differ. *)
Definition same_settings (vsc1 vsc2 : configs.virtualServerConfigurator) : Prop :=
  configs.cfgParams vsc1 = configs.cfgParams vsc2 ∧
  configs.isPlus vsc1 = configs.isPlus vsc2 ∧
  configs.isResolverConfigured vsc1 = configs.isResolverConfigured vsc2.

(** The load-balancing methods that slow start cannot be used with: the six
    methods that the generator lists and every hash method. *)
Definition incompatible_with_slow_start (lbMethod : string) : Prop :=
  lbMethod ∈ [ "random"; "ip_hash"; "random two"; "random two least_conn";
                "random two least_time=header"; "random two least_time=last_byte" ]
  ∨ go_strings.HasPrefix lbMethod "hash" = true.

(** A name that the validator takes for the name of an upstream or of a
    service: it is not empty and the library has nothing to say against it
    as a DNS label. *)
Definition valid_label `{validation.ValidatorEnv} (name : string) : Prop :=
  name ≠ "" ∧ validation.IsDNS1035Label name = [].

(** The resources that own the upstreams of a snapshot, as the keys of
    warnings: the VirtualServer and its VirtualServerRoutes. *)
Definition owners (virtualServerEx : configs.VirtualServerEx.t) : list configs.Object :=
  configs.vsObject (configs.VirtualServerEx.VirtualServer virtualServerEx)
  :: (configs.vsrObject <$> configs.VirtualServerEx.VirtualServerRoutes virtualServerEx).

End spec.

(** ** An environment to run the model in

    The label set is rendered pair by pair; every check of the outside
    libraries passes and every regular expression matches. *)

Module example.

Import conf_v1.

#[global] Instance generator_env : configs.GeneratorEnv := {|
  configs.labels_Set_String :=
    λ m, go_strings.Join ((λ kv, kv.1 +:+ "=" +:+ kv.2) <$> map_to_list m) ",";
  configs.pemFileNameForMissingTLSSecret := "/etc/nginx/secrets/default";
|}.

#[global] Instance validator_env : validation.ValidatorEnv := {|
  validation.regexp_MatchString := λ _ _, true;
  validation.regexp_Compile_error := λ _, None;
  validation.IsDNS1123Subdomain := λ _, [];
  validation.IsDNS1035Label := λ _, [];
  validation.IsHTTPHeaderName := λ _, [];
  validation.IsQualifiedName := λ _, [];
  validation.IsValidLabelValue := λ _, [];
  validation.RegexError := λ msg _ _, msg;
  validation.ParseTime_error := λ _, None;
  validation.ParseLBMethod_error := λ _, None;
  validation.ParseLBMethodForPlus_error := λ _, None;
  validation.strings_Fields := λ s, [s];
  validation.strings_Split := λ s _, [s];
  validation.strconv_ParseInt := λ _, None;
  validation.map_range := λ V m, map_to_list m;
|}.

Definition cfgParams : configs.ConfigParams.t :=
  configs.ConfigParams.mk "1m" "10s" true 16 "" [] 0 1 false "8 4k" "4k" "60s" "1024m" false
    "60s" "60s" "X-Real-IP" false [] "on" [] "256k".

Definition pass (upstream : string) : option Action.t := Some (Action.mk upstream None None).

Definition split (weight : Z) (upstream : string) : Split.t := Split.mk weight (pass upstream).

Definition upstream (name service : string) (port : Z) : Upstream.t :=
  Upstream.mk name service ∅ port "" "" None None None "" "" "" "" "" 0 None None "" ""
    (UpstreamTLS.mk false) None "" None None.

(** The VirtualServer default/cafe, at address 1. *)
Definition cafe (upstreams : list Upstream.t) (routes : list Route.t)
    : configs.ref VirtualServer.t :=
  configs.Ref 1 (VirtualServer.mk "default" "cafe"
                   (VirtualServerSpec.mk "cafe.example.com" None upstreams routes)).

(** An OSS configurator with no resolver, and a snapshot in which the service
    test-namespace/test is an ExternalName service with no endpoints. *)
Definition oss_without_resolver : configs.virtualServerConfigurator :=
  configs.newVirtualServerConfigurator cfgParams false false.

Definition externalname_snapshot (endpoints : gmap string (list string))
    : configs.VirtualServerEx.t :=
  configs.VirtualServerEx.mk (cafe [] []) endpoints [] {[ "test-namespace/test" := true ]}.

(** A matches route: the first match has two conditions (the second one
    negated) and 30/70 splits, the second match has one condition and an
    action; the default is a 99/1 split. *)
Definition matches_route : Route.t :=
  Route.mk "/tea" "" None [split 99 "tea-v1"; split 1 "tea-v2"]
    [ Match.mk
        [ Condition.mk "x-version" "" "" "" "v2"; Condition.mk "" "user" "" "" "!default" ]
        None [split 30 "tea-v1"; split 70 "tea-v2"];
      Match.mk [ Condition.mk "" "" "" "$request_method" "POST" ] (pass "tea-v2") [] ].

Definition cafe_upstreamNamer : configs.upstreamNamer :=
  {| configs.prefix := "vs_default_cafe" |}.

Definition cafe_variableNamer : configs.variableNamer :=
  {| configs.safeNsName := "default_cafe" |}.

(** A snapshot of default/cafe: three upstreams, the last one on an
    ExternalName service; the matches route and a plain route. *)
Definition snapshot : configs.VirtualServerEx.t :=
  configs.VirtualServerEx.mk
    (cafe
       [ upstream "tea-v1" "tea-v1-svc" 80; upstream "tea-v2" "tea-v2-svc" 80;
         upstream "ext" "test" 80 ]
       [ matches_route; Route.mk "/ext" "" (pass "ext") [] [] ])
    {[ "default/tea-v1-svc:80" := ["10.0.0.1:80"] ]} [] {[ "default/test" := true ]}.

(** An upstream that uses the commercial tier: the method [ip_hash], a
    health check with two headers of one name and a status match, a slow
    start and a queue. *)
Definition tea_plus : Upstream.t :=
  Upstream.mk "tea" "tea-svc" ∅ 80 "ip_hash" "" None None None "" "" "" "" "" 0 None None "" ""
    (UpstreamTLS.mk false)
    (Some (HealthCheck.mk true "" "" "" 0 3 0 None "" "" ""
             [Header.mk "Host" "a.example.com"; Header.mk "Host" "b.example.com"] "! 500"))
    "10s" (Some (UpstreamQueue.mk 10 "")) None.

(** The VirtualServerRoute default/coffee, at address 2: one upstream and
    two subroutes, the second one with splits. *)
Definition coffee : configs.ref VirtualServerRoute.t :=
  configs.Ref 2
    (VirtualServerRoute.mk "default" "coffee"
       (VirtualServerRouteSpec.mk "cafe.example.com" [upstream "coffee" "coffee-svc" 80]
          [ Route.mk "/coffee" "" (pass "coffee") [] [];
            Route.mk "/coffee/beta" "" None [split 50 "coffee"; split 50 "coffee"] [] ])).

(** A snapshot of default/cafe with default/coffee: the upstream of the
    commercial tier and one on an ExternalName service; a plain route, the
    matches route and a route that delegates to default/coffee. *)
Definition plus_snapshot : configs.VirtualServerEx.t :=
  configs.VirtualServerEx.mk
    (cafe
       [ tea_plus; upstream "tea-v1" "tea-v1-svc" 80; upstream "tea-v2" "tea-v2-svc" 80;
         upstream "ext" "test" 80 ]
       [ Route.mk "/plain" "" (pass "tea") [] []; matches_route;
         Route.mk "/coffee" "default/coffee" None [] [] ])
    {[ "default/tea-svc:80" := ["10.0.0.1:80"; "10.0.0.2:80"];
       "default/coffee-svc:80" := ["10.0.0.3:80"] ]}
    [coffee] {[ "default/test" := true ]}.

(** The same resources in a snapshot without ExternalName services. *)
Definition oss_snapshot : configs.VirtualServerEx.t :=
  configs.VirtualServerEx.mk
    (cafe [ upstream "tea" "tea-svc" 80; upstream "tea-v1" "tea-v1-svc" 80 ]
       [ Route.mk "/plain" "" (pass "tea") [] [];
         Route.mk "/coffee" "default/coffee" None [] [] ])
    {[ "default/tea-svc:80" := ["10.0.0.1:80"; "10.0.0.2:80"];
       "default/coffee-svc:80" := ["10.0.0.3:80"] ]}
    [coffee] ∅.

End example.

(** * Properties *)

Import conf_v1 configs.

#[local] Arguments itoa : simpl never.
#[local] Arguments int_add : simpl never.
#[local] Arguments generateLocation : simpl never.
#[local] Arguments generateSplits : simpl never.
#[local] Arguments GetNameForSplitClientVariable : simpl never.
#[local] Arguments GetNameForVariableForMatchesRouteMap : simpl never.
#[local] Arguments GetNameForUpstream : simpl never.

(** ** Lowering primitives *)

Section lowering.
Context `{GeneratorEnv}.

(** C3. [generateSSLConfig] returns no SSL block exactly when the TLS block is
    nil or its secret name is empty. With a TLS block and a non-empty secret:
    an empty pem filename gives a block whose certificate and key are the
    missing-secret sentinel and whose ciphers are NULL; a non-empty pem
    filename gives a block whose certificate and key are that filename and
    whose ciphers are empty. *)
Theorem generateSSLConfig_cases (tls : option TLS.t) (tlsPemFileName : string)
    (cfgParams : ConfigParams.t) :
  (generateSSLConfig tls tlsPemFileName cfgParams = None ↔
     tls = None ∨ TLS.Secret <$> tls = Some "") ∧
  (∀ t, tls = Some t → TLS.Secret t ≠ "" →
     (tlsPemFileName = "" →
        generateSSLConfig tls tlsPemFileName cfgParams =
          Some {| version2.SSL.HTTP2 := ConfigParams.HTTP2 cfgParams;
                  version2.SSL.Certificate := pemFileNameForMissingTLSSecret;
                  version2.SSL.CertificateKey := pemFileNameForMissingTLSSecret;
                  version2.SSL.Ciphers := "NULL" |}) ∧
     (tlsPemFileName ≠ "" →
        generateSSLConfig tls tlsPemFileName cfgParams =
          Some {| version2.SSL.HTTP2 := ConfigParams.HTTP2 cfgParams;
                  version2.SSL.Certificate := tlsPemFileName;
                  version2.SSL.CertificateKey := tlsPemFileName;
                  version2.SSL.Ciphers := "" |})).
Proof.
  unfold generateSSLConfig. split.
  - destruct tls as [t|]; simpl.
    + destruct (String.eqb_spec (TLS.Secret t) "") as [Hs|Hs].
      * rewrite Hs. split; [intros _; by right | done].
      * split; [| intros [?|[=]]; congruence].
        by destruct (String.eqb tlsPemFileName "").
    + split; [intros _; by left | done].
  - intros t -> Hsecret.
    destruct (String.eqb_spec (TLS.Secret t) "") as [|_]; [done|].
    split; intros Hpem.
    + by rewrite Hpem.
    + by destruct (String.eqb_spec tlsPemFileName "").
Qed.

(** A warning added for [owner] is appended to the warnings of [owner] and
    leaves those of every other resource alone. *)
Lemma addWarningf_lookup (vsc : virtualServerConfigurator) (owner o : Object) (msg : string) :
  warnings (addWarningf vsc owner msg) !! o =
    if decide (owner = o) then Some (default [] (warnings vsc !! owner) ++ [msg])
    else warnings vsc !! o.
Proof. unfold addWarningf; simpl. apply lookup_insert. Qed.

(** C2, as amended. For an upstream whose service is in the ExternalName set,
    with no resolver configured, and in the commercial tier or with at least
    one endpoint under the upstream's key: [generateEndpointsForUpstream]
    returns the empty list and appends exactly one warning to those of the
    owning resource. *)
Theorem generateEndpointsForUpstream_externalname_no_resolver
    (vsc : virtualServerConfigurator) (owner : Object) (namespace : string)
    (upstream : Upstream.t) (virtualServerEx : VirtualServerEx.t) :
  has_key (VirtualServerEx.ExternalNameSvcs virtualServerEx)
    (GenerateExternalNameSvcKey namespace (Upstream.Service upstream)) = true →
  isResolverConfigured vsc = false →
  isPlus vsc = true ∨
    default [] (VirtualServerEx.Endpoints virtualServerEx !!
                  GenerateEndpointsKey namespace (Upstream.Service upstream)
                    (Upstream.Subselector upstream) (Upstream.Port upstream)) ≠ [] →
  ∃ msg vsc',
    generateEndpointsForUpstream vsc owner namespace upstream virtualServerEx = ([], vsc') ∧
    warnings vsc' !! owner = Some (default [] (warnings vsc !! owner) ++ [msg]) ∧
    (∀ o, o ≠ owner → warnings vsc' !! o = warnings vsc !! o) ∧
    cfgParams vsc' = cfgParams vsc ∧ isPlus vsc' = isPlus vsc ∧
    isResolverConfigured vsc' = isResolverConfigured vsc.
Proof.
  intros Hext Hres Hcase. unfold generateEndpointsForUpstream.
  rewrite Hext, Hres. simpl.
  match goal with |- context [negb ?a && ?b] => replace (negb a && b) with false end.
  - eexists _, _. split; [reflexivity|].
    split; [| split; [| done]].
    + rewrite addWarningf_lookup. by rewrite decide_True.
    + intros o Ho. rewrite addWarningf_lookup. by rewrite decide_False.
  - symmetry. destruct Hcase as [-> | Hne]; [done|].
    apply andb_false_intro2. apply Z.eqb_neq. unfold len.
    destruct (default [] _); [done | simpl; lia].
Qed.

End lowering.

(** C2, the witness: the commercial tier, an ExternalName service with one
    endpoint, no resolver. *)
Lemma generateEndpointsForUpstream_externalname_no_resolver_witness :
  ∃ msg vsc',
    generateEndpointsForUpstream
      (newVirtualServerConfigurator example.cfgParams true false) (VirtualServerObject 1)
      "test-namespace" (example.upstream "test" "test" 80)
      (example.externalname_snapshot {[ "test-namespace/test:80" := ["example.com:80"] ]})
    = ([], vsc') ∧
    warnings vsc' !! VirtualServerObject 1 = Some ([] ++ [msg]) ∧
    (∀ o, o ≠ VirtualServerObject 1 → warnings vsc' !! o = None) ∧
    cfgParams vsc' = example.cfgParams ∧ isPlus vsc' = true ∧
    isResolverConfigured vsc' = false.
Proof.
  apply (generateEndpointsForUpstream_externalname_no_resolver
           (newVirtualServerConfigurator example.cfgParams true false) (VirtualServerObject 1)
           "test-namespace" (example.upstream "test" "test" 80)
           (example.externalname_snapshot {[ "test-namespace/test:80" := ["example.com:80"] ]})).
  - vm_compute. reflexivity.
  - reflexivity.
  - left. reflexivity.
Defined.

(** C2, the counterexample: in the OSS tier, an ExternalName service with no
    endpoints and no resolver gets the one unreachable server and no
    warning. *)
Lemma generateEndpointsForUpstream_oss_externalname_without_endpoints :
  has_key (VirtualServerEx.ExternalNameSvcs (example.externalname_snapshot ∅))
    (GenerateExternalNameSvcKey "test-namespace" "test") = true ∧
  isResolverConfigured example.oss_without_resolver = false ∧
  generateEndpointsForUpstream example.oss_without_resolver (VirtualServerObject 1)
    "test-namespace" (example.upstream "test" "test" 80) (example.externalname_snapshot ∅)
  = ([nginx502Server], example.oss_without_resolver) ∧
  warnings example.oss_without_resolver = ∅ ∧
  ¬ ∃ msg vsc',
      generateEndpointsForUpstream example.oss_without_resolver (VirtualServerObject 1)
        "test-namespace" (example.upstream "test" "test" 80) (example.externalname_snapshot ∅)
      = ([], vsc') ∧
      warnings vsc' !! VirtualServerObject 1 = Some [msg].
Proof.
  split; [by vm_compute|]. split; [done|]. split; [by vm_compute|]. split; [done|].
  intros (msg & vsc' & Hgen & _). vm_compute in Hgen. discriminate Hgen.
Qed.

(** C9. In a generated upstream, keepalive, max-fails and max-conns are the
    explicit value of the upstream when its pointer is not nil (an explicit 0
    included) and the fleet default otherwise; the HasKeepalive flag of a
    generated location is true exactly when this effective keepalive is not
    zero. *)
Theorem pointer_or_default_honored (vsc : virtualServerConfigurator) (owner : Object)
    (upstreamName path : string) (upstream : Upstream.t) (isExternalNameSvc : bool)
    (endpoints : list string) :
  version2.Upstream.Keepalive
    (generateUpstream vsc owner upstreamName upstream isExternalNameSvc endpoints).1
  = spec.pointer_or_default (Upstream.Keepalive upstream)
      (ConfigParams.Keepalive (cfgParams vsc)) ∧
  version2.Upstream.MaxFails
    (generateUpstream vsc owner upstreamName upstream isExternalNameSvc endpoints).1
  = spec.pointer_or_default (Upstream.MaxFails upstream)
      (ConfigParams.MaxFails (cfgParams vsc)) ∧
  version2.Upstream.MaxConns
    (generateUpstream vsc owner upstreamName upstream isExternalNameSvc endpoints).1
  = spec.pointer_or_default (Upstream.MaxConns upstream)
      (ConfigParams.MaxConns (cfgParams vsc)) ∧
  (version2.Location.HasKeepalive
     (generateLocationForProxying path upstreamName upstream (cfgParams vsc)) = true
   ↔ spec.pointer_or_default (Upstream.Keepalive upstream)
       (ConfigParams.Keepalive (cfgParams vsc)) ≠ 0%Z) ∧
  (generateLocation path upstreamName upstream (Some (Action.mk upstreamName None None))
     (cfgParams vsc)
   = Some (generateLocationForProxying path upstreamName upstream (cfgParams vsc))) ∧
  (Upstream.Keepalive upstream = Some 0%Z →
     version2.Upstream.Keepalive
       (generateUpstream vsc owner upstreamName upstream isExternalNameSvc endpoints).1 = 0%Z ∧
     version2.Location.HasKeepalive
       (generateLocationForProxying path upstreamName upstream (cfgParams vsc)) = false).
Proof.
  assert (Hfields :
    ∀ P : version2.Upstream.t → Prop,
      (∀ slowStart queue sessionCookie a b c d e f,
         P (version2.Upstream.mk a b c d
              (generateIntFromPointer (Upstream.Keepalive upstream)
                 (ConfigParams.Keepalive (cfgParams vsc)))
              (generateIntFromPointer (Upstream.MaxFails upstream)
                 (ConfigParams.MaxFails (cfgParams vsc)))
              (generateIntFromPointer (Upstream.MaxConns upstream)
                 (ConfigParams.MaxConns (cfgParams vsc)))
              slowStart e f queue sessionCookie)) →
      P (generateUpstream vsc owner upstreamName upstream isExternalNameSvc endpoints).1).
  { intros P HP. unfold generateUpstream. destruct (isPlus vsc).
    - destruct (generateSlowStartForPlus _ _ _ _) as [slowStart vsc']. apply HP.
    - apply HP. }
  unfold spec.pointer_or_default.
  repeat split.
  - apply Hfields. intros. simpl. by destruct (Upstream.Keepalive upstream).
  - apply Hfields. intros. simpl. by destruct (Upstream.MaxFails upstream).
  - apply Hfields. intros. simpl. by destruct (Upstream.MaxConns upstream).
  - simpl. unfold upstreamHasKeepalive.
    destruct (Upstream.Keepalive upstream) as [k|]; intros Hk%negb_true_iff%Z.eqb_neq; done.
  - simpl. unfold upstreamHasKeepalive.
    destruct (Upstream.Keepalive upstream) as [k|]; intros Hk; by apply negb_true_iff, Z.eqb_neq.
  - apply Hfields. intros. simpl. by rewrite H.
  - simpl. unfold upstreamHasKeepalive. by rewrite H.
Qed.

(** C9, the witness: an explicit keepalive of 0 under a fleet default of 16. *)
Lemma pointer_or_default_honored_witness :
  version2.Upstream.Keepalive
    (generateUpstream (newVirtualServerConfigurator example.cfgParams true false)
       (VirtualServerObject 1) "vs_default_cafe_tea"
       (Upstream.mk "tea" "tea-svc" ∅ 80 "" "" None None (Some 0%Z) "" "" "" "" "" 0 None None
          "" "" (UpstreamTLS.mk false) None "" None None)
       false ["10.0.0.20:80"]).1 = 0%Z ∧
  version2.Location.HasKeepalive
    (generateLocationForProxying "/tea" "vs_default_cafe_tea"
       (Upstream.mk "tea" "tea-svc" ∅ 80 "" "" None None (Some 0%Z) "" "" "" "" "" 0 None None
          "" "" (UpstreamTLS.mk false) None "" None None)
       example.cfgParams) = false.
Proof.
  apply (pointer_or_default_honored (newVirtualServerConfigurator example.cfgParams true false)
           (VirtualServerObject 1) "vs_default_cafe_tea" "/tea"
           (Upstream.mk "tea" "tea-svc" ∅ 80 "" "" None None (Some 0%Z) "" "" "" "" "" 0 None
              None "" "" (UpstreamTLS.mk false) None "" None None)
           false ["10.0.0.20:80"]).
  reflexivity.
Defined.

(** ** Loops that append *)

Section loops.
Context {A B : Type}.

Lemma for_range_append (f : Z → A → B) (body : Z → A → list B → list B) :
  (∀ i x acc, body i x acc = acc ++ [f i x]) →
  ∀ l i acc, for_range body i l acc = acc ++ imap_from f i l.
Proof.
  intros Hbody l. induction l as [|x l IH]; intros i acc; simpl.
  - by rewrite app_nil_r.
  - by rewrite Hbody, IH, <- app_assoc.
Qed.

Lemma for_range_append_list (g : Z → A → list B) (body : Z → A → list B → list B) :
  (∀ i x acc, body i x acc = acc ++ g i x) →
  ∀ l i acc, for_range body i l acc = acc ++ concat (imap_from g i l).
Proof.
  intros Hbody l. induction l as [|x l IH]; intros i acc; simpl.
  - by rewrite app_nil_r.
  - by rewrite Hbody, IH, <- app_assoc.
Qed.

Lemma length_imap_from (f : Z → A → B) (i : Z) (l : list A) :
  length (imap_from f i l) = length l.
Proof. revert i. induction l as [|x l IH]; intros i; simpl; [done | by rewrite IH]. Qed.

Lemma imap_from_lookup (f : Z → A → B) (i : Z) (l : list A) (k : nat) (x : A) :
  l !! k = Some x → imap_from f i l !! k = Some (f (i + Z.of_nat k)%Z x).
Proof.
  revert i k. induction l as [|y l IH]; intros i k Hk; [done|].
  destruct k as [|k]; simpl in *.
  - injection Hk as ->. by rewrite Z.add_0_r.
  - rewrite (IH (i + 1)%Z k Hk). do 2 f_equal. lia.
Qed.

Lemma concat_imap_from_lookup {C : Type} (g : Z → A → list B) (h : A → list C)
    (i : Z) (l : list A) (k j : nat) (x : A) (y : B) :
  (∀ i x, length (g i x) = length (h x)) →
  l !! k = Some x →
  g (i + Z.of_nat k)%Z x !! j = Some y →
  concat (imap_from g i l) !! (length (concat (h <$> take k l)) + j)%nat = Some y.
Proof.
  intros Hlen. revert i k. induction l as [|x0 l IH]; intros i k Hk Hj; [done|].
  destruct k as [|k].
  - simpl in *. injection Hk as ->. rewrite Z.add_0_r in Hj. by apply lookup_app_l_Some.
  - cbn [imap_from take]. rewrite fmap_cons. cbn [concat].
    rewrite length_app, lookup_app_r; rewrite Hlen; [|lia].
    replace (length (h x0) + length (concat (h <$> take k l)) + j - length (h x0))%nat
      with (length (concat (h <$> take k l)) + j)%nat by lia.
    apply IH; [done|]. by replace (i + 1 + Z.of_nat k)%Z with (i + Z.of_nat (S k))%Z by lia.
Qed.

End loops.

(** ** The maps of a matches route *)

Lemma has_key_specialMapParameters (s : string) :
  has_key specialMapParameters s = bool_decide (s ∈ ["default"; "hostnames"; "include"; "volatile"]).
Proof.
  destruct (decide (s ∈ ["default"; "hostnames"; "include"; "volatile"])) as [Hin|Hnin].
  - rewrite (bool_decide_eq_true_2 _ Hin).
    set_unfold in Hin. by destruct Hin as [->|[->|[->|[->|[]]]]].
  - rewrite (bool_decide_eq_false_2 _ Hnin).
    unfold has_key, specialMapParameters. simpl.
    rewrite !lookup_insert_ne, lookup_empty; [done|..]; intros <-; set_solver.
Qed.

Lemma prefix_bang (c : ascii) (rest : string) :
  String.prefix "!" (String c rest) = Ascii.eqb c "!".
Proof.
  change (String.prefix "!" (String c rest))
    with (if ascii_dec "!" c then String.prefix "" rest else false).
  destruct (ascii_dec "!" c) as [<-|Hne]; [by destruct rest|].
  symmetry. apply Ascii.eqb_neq. congruence.
Qed.

(** The value that [generateValueForMatchesRouteMap] computes is the value
    form of the specification, taken of the value without its exclamation
    mark; the flag says whether there was one. *)
Lemma generateValueForMatchesRouteMap_value_form (matchedValue : string) :
  generateValueForMatchesRouteMap matchedValue
  = (spec.value_form (spec.unnegated matchedValue), spec.negated matchedValue).
Proof.
  unfold generateValueForMatchesRouteMap, spec.unnegated, spec.negated, go_strings.HasPrefix.
  destruct matchedValue as [|c rest]; [done|].
  rewrite prefix_bang.
  assert (Hform : ∀ s, s ≠ "" →
    (if has_key specialMapParameters s then backslash +:+ s else dquote +:+ s +:+ dquote)
    = spec.value_form s).
  { intros s Hs. unfold spec.value_form. rewrite has_key_specialMapParameters.
    by destruct (String.eqb_spec s ""). }
  destruct (Ascii.eqb c "!") eqn:Hc; simpl.
  - destruct rest as [|c' rest']; [done|].
    rewrite <- (Hform (String c' rest')) by done.
    by destruct (has_key specialMapParameters (String c' rest')).
  - rewrite <- (Hform (String c rest)) by done.
    by destruct (has_key specialMapParameters (String c rest)).
Qed.

Lemma generateParametersForMatchesRouteMap_spec (matchedValue successfulResult : string) :
  generateParametersForMatchesRouteMap matchedValue successfulResult
  = spec.condition_parameters matchedValue successfulResult.
Proof.
  unfold generateParametersForMatchesRouteMap, spec.condition_parameters.
  rewrite generateValueForMatchesRouteMap_value_form.
  destruct (spec.negated matchedValue) eqn:Hneg; [done|].
  unfold spec.unnegated. by rewrite Hneg.
Qed.

Lemma generateMatchesConfig_maps_append (variableNamer : variableNamer) (index i : Z)
    (m : Match.t) (maps : list version2.Map.t) :
  generateMatchesConfig_maps variableNamer index i m maps
  = maps ++
    imap_from
      (λ j c,
         {| version2.Map.Source := getNameForSourceForMatchesRouteMapFromCondition c;
            version2.Map.Variable_ :=
              GetNameForVariableForMatchesRouteMap variableNamer index i j;
            version2.Map.Parameters_ :=
              generateParametersForMatchesRouteMap (Condition.Value c)
                (if (j <? len (Match.Conditions m) - 1)%Z
                 then GetNameForVariableForMatchesRouteMap variableNamer index i (j + 1)
                 else "1") |})
      0 (Match.Conditions m).
Proof. unfold generateMatchesConfig_maps. by apply for_range_append. Qed.

Lemma nested_before_cons (m : Match.t) (ms : list Match.t) (k : nat) :
  spec.nested_before (m :: ms) (S k)
  = ((if spec.has_splits m then 1 else 0) + spec.nested_before ms k)%nat.
Proof.
  unfold spec.nested_before. cbn [take]. rewrite filter_cons.
  destruct (decide (spec.has_splits m = true)) as [->|Hno]; [done|].
  by destruct (spec.has_splits m).
Qed.

Lemma nested_before_all (ms : list Match.t) :
  spec.nested_before ms (length ms) = length (filter (λ m, spec.has_splits m = true) ms).
Proof. unfold spec.nested_before. by rewrite firstn_all. Qed.

Lemma length_filter_cons (m : Match.t) (ms : list Match.t) :
  Z.of_nat (length (filter (λ m, spec.has_splits m = true) (m :: ms)))
  = ((if spec.has_splits m then 1 else 0)
     + Z.of_nat (length (filter (λ m, spec.has_splits m = true) ms)))%Z.
Proof.
  rewrite filter_cons.
  destruct (decide (spec.has_splits m = true)) as [->|Hno]; [simpl; lia|].
  by destruct (spec.has_splits m).
Qed.

Lemma generateMatchesConfig_mainMap_loop (variableNamer : variableNamer) (index scIndex : Z)
    (ms : list Match.t) :
  ∀ (i : Z) (source : string) (params : list version2.Parameter_.t) (sc : Z),
    ∃ source',
      for_range (generateMatchesConfig_mainMap variableNamer index scIndex) i ms
        (source, params, sc)
      = (source',
         params ++ spec.main_map_parameters_from variableNamer index scIndex i sc ms,
         (sc + Z.of_nat (length (filter (λ m, spec.has_splits m = true) ms)))%Z).
Proof.
  induction ms as [|m ms IH]; intros i source params sc.
  - exists source. simpl. by rewrite app_nil_r, Z.add_0_r.
  - cbn [for_range spec.main_map_parameters_from]. rewrite length_filter_cons.
    unfold generateMatchesConfig_mainMap at 2. fold (spec.has_splits m).
    destruct (spec.has_splits m).
    + destruct (IH (i + 1)%Z (source +:+ GetNameForVariableForMatchesRouteMap variableNamer index i 0)
                  (params ++
                     [{| version2.Parameter_.Value :=
                           "~^" +:+ go_strings.Repeat "0" (Z.to_nat i) +:+ "1";
                         version2.Parameter_.Result :=
                           GetNameForSplitClientVariable variableNamer (int_add scIndex sc) |}])
                  (sc + 1)%Z) as [source' ->].
      exists source'. rewrite <- app_assoc. f_equal. lia.
    + destruct (IH (i + 1)%Z (source +:+ GetNameForVariableForMatchesRouteMap variableNamer index i 0)
                  (params ++
                     [{| version2.Parameter_.Value :=
                           "~^" +:+ go_strings.Repeat "0" (Z.to_nat i) +:+ "1";
                         version2.Parameter_.Result :=
                           "@matches_" +:+ itoa index +:+ "_match_" +:+ itoa i |}])
                  sc) as [source' ->].
      exists source'. rewrite <- app_assoc. f_equal.
Qed.

Lemma main_map_parameters_from_length (variableNamer : variableNamer) (index scIndex : Z)
    (ms : list Match.t) (i sc : Z) :
  length (spec.main_map_parameters_from variableNamer index scIndex i sc ms) = length ms.
Proof. revert i sc. induction ms as [|m ms IH]; intros i sc; simpl; [done | by rewrite IH]. Qed.

Lemma main_map_parameters_from_lookup (variableNamer : variableNamer) (index scIndex : Z)
    (ms : list Match.t) (i sc : Z) (k : nat) (m : Match.t) :
  ms !! k = Some m →
  spec.main_map_parameters_from variableNamer index scIndex i sc ms !! k
  = Some
      {| version2.Parameter_.Value :=
           "~^" +:+ go_strings.Repeat "0" (Z.to_nat (i + Z.of_nat k)) +:+ "1";
         version2.Parameter_.Result :=
           if spec.has_splits m
           then GetNameForSplitClientVariable variableNamer
                  (int_add scIndex (sc + Z.of_nat (spec.nested_before ms k)))
           else "@matches_" +:+ itoa index +:+ "_match_" +:+ itoa (i + Z.of_nat k) |}.
Proof.
  revert i sc k. induction ms as [|m0 ms IH]; intros i sc k Hk; [done|].
  destruct k as [|k].
  - simpl in Hk. injection Hk as ->. cbn [spec.main_map_parameters_from lookup list_lookup].
    unfold spec.nested_before. cbn [take filter list_filter length Z.of_nat].
    by rewrite !Z.add_0_r.
  - cbn [spec.main_map_parameters_from]. rewrite lookup_cons_ne_0 by done. cbn [Nat.pred].
    rewrite (IH _ _ k Hk), nested_before_cons.
    replace (i + 1 + Z.of_nat k)%Z with (i + Z.of_nat (S k))%Z by lia.
    assert (((if spec.has_splits m0 then sc + 1 else sc) + Z.of_nat (spec.nested_before ms k)
             = sc + Z.of_nat ((if spec.has_splits m0 then 1 else 0) + spec.nested_before ms k))%Z)
      as -> by (destruct (spec.has_splits m0); lia).
    done.
Qed.

Lemma for_range_opt_is_Some {A St} (body : Z → A → St → option St) (l : list A) :
  (∀ i x st, x ∈ l → is_Some (body i x st)) →
  ∀ i st, is_Some (for_range_opt body i l st).
Proof.
  induction l as [|x l IH]; intros Hbody i st; simpl; [done|].
  destruct (Hbody i x st) as [st' ->]; [by left|]. simpl.
  apply IH. intros j y st'' Hy. apply Hbody. by right.
Qed.

Lemma generateLocation_is_Some (path upstreamName : string) (upstream : Upstream.t)
    (action : Action.t) (cfgParams : ConfigParams.t) :
  is_Some (generateLocation path upstreamName upstream (Some action) cfgParams).
Proof.
  unfold generateLocation. cbn [mbind option_bind].
  destruct (Action.Redirect action); [done|]. by destruct (Action.Return action).
Qed.

Lemma generateSplits_is_Some (splits : list Split.t) (upstreamNamer : upstreamNamer)
    (crUpstreams : gmap string Upstream.t) (variableNamer : variableNamer) (scIndex : Z)
    (cfgParams : ConfigParams.t) :
  spec.splits_have_actions splits →
  is_Some (generateSplits splits upstreamNamer crUpstreams variableNamer scIndex cfgParams).
Proof.
  intros Hactions. unfold generateSplits.
  match goal with |- context [for_range_opt ?body 0 splits []] =>
    destruct (for_range_opt_is_Some body splits) with (i := 0%Z) (st := @nil version2.Location.t)
      as [locations ->]
  end; [|done].
  intros i s st Hs.
  destruct (proj1 (Forall_forall _ _) Hactions s Hs) as [action ->]. simpl.
  by destruct (generateLocation_is_Some
                 ("@splits_" +:+ itoa scIndex +:+ "_split_" +:+ itoa i)
                 (GetNameForUpstream upstreamNamer (Action.Pass action))
                 (crUpstreams_get crUpstreams
                    (GetNameForUpstream upstreamNamer (Action.Pass action)))
                 action cfgParams) as [loc ->].
Qed.

Lemma generateSplits_variable (splits : list Split.t) (upstreamNamer : upstreamNamer)
    (crUpstreams : gmap string Upstream.t) (variableNamer : variableNamer) (scIndex : Z)
    (cfgParams : ConfigParams.t) (sc : version2.SplitClient.t)
    (locs : list version2.Location.t) :
  generateSplits splits upstreamNamer crUpstreams variableNamer scIndex cfgParams
  = Some (sc, locs) →
  version2.SplitClient.Variable_ sc = GetNameForSplitClientVariable variableNamer scIndex.
Proof.
  unfold generateSplits. destruct (for_range_opt _ _ _ _); simpl; [|done].
  by intros [= <- _].
Qed.

(** The loop over the matches that generates locations and split-clients
    adds one split-client for each match that has splits, in order, the
    [t]-th of them under the index [scIndex + t]. *)
Lemma generateMatchesConfig_locations_loop (upstreamNamer : upstreamNamer)
    (crUpstreams : gmap string Upstream.t) (variableNamer : variableNamer) (index scIndex : Z)
    (cfgParams : ConfigParams.t) (ms : list Match.t) :
  ∀ (i : Z) (locations : list version2.Location.t) (splitClients : list version2.SplitClient.t)
    (sc : Z) locations' splitClients' sc',
    for_range_opt
      (generateMatchesConfig_locations upstreamNamer crUpstreams variableNamer index scIndex
         cfgParams)
      i ms (locations, splitClients, sc)
    = Some (locations', splitClients', sc') →
    sc' = (sc + Z.of_nat (length (filter (λ m, spec.has_splits m = true) ms)))%Z ∧
    version2.SplitClient.Variable_ <$> splitClients'
    = (version2.SplitClient.Variable_ <$> splitClients) ++
      imap_from (λ t _, GetNameForSplitClientVariable variableNamer (int_add scIndex t))
        sc (filter (λ m, spec.has_splits m = true) ms).
Proof.
  induction ms as [|m ms IH]; intros i locations splitClients sc locations' splitClients' sc'.
  - simpl. intros [= <- <- <-]. by rewrite app_nil_r, Z.add_0_r.
  - cbn [for_range_opt]. rewrite length_filter_cons, filter_cons.
    unfold generateMatchesConfig_locations at 2. fold (spec.has_splits m).
    destruct (spec.has_splits m) eqn:Hsplits.
    + rewrite decide_True by done.
      destruct (generateSplits _ _ _ _ _ _) as [[scl locs]|] eqn:Hgen; [|done].
      simpl. intros [-> Hvars]%IH. split; [lia|].
      rewrite Hvars, fmap_app, <- app_assoc. simpl.
      by rewrite (generateSplits_variable _ _ _ _ _ _ _ _ Hgen).
    + rewrite decide_False by done.
      destruct (Match.Action m) as [action|]; [|done]. simpl.
      destruct (generateLocation _ _ _ _ _) as [loc|]; [|done]. simpl.
      intros [-> Hvars]%IH. split; [lia | done].
Qed.

Lemma generateMatchesConfig_locations_is_Some (upstreamNamer : upstreamNamer)
    (crUpstreams : gmap string Upstream.t) (variableNamer : variableNamer) (index scIndex : Z)
    (cfgParams : ConfigParams.t) (ms : list Match.t) i st :
  Forall spec.match_has_actions ms →
  is_Some
    (for_range_opt
       (generateMatchesConfig_locations upstreamNamer crUpstreams variableNamer index scIndex
          cfgParams)
       i ms st).
Proof.
  intros Hactions. apply for_range_opt_is_Some.
  intros j m [[locations splitClients] sc] Hm.
  pose proof (proj1 (Forall_forall _ _) Hactions m Hm) as Hma.
  unfold spec.match_has_actions in Hma. unfold generateMatchesConfig_locations.
  fold (spec.has_splits m). destruct (spec.has_splits m).
  - by destruct (generateSplits_is_Some (Match.Splits m) upstreamNamer crUpstreams
                   variableNamer (int_add scIndex sc) cfgParams Hma) as [[scl locs] ->].
  - destruct Hma as [action ->]. simpl.
    by destruct (generateLocation_is_Some
                   ("@matches_" +:+ itoa index +:+ "_match_" +:+ itoa j)
                   (GetNameForUpstream upstreamNamer (Action.Pass action))
                   (crUpstreams_get crUpstreams
                      (GetNameForUpstream upstreamNamer (Action.Pass action)))
                   action cfgParams) as [loc ->].
Qed.

Lemma filter_nested_lookup (ms : list Match.t) (k : nat) (m : Match.t) :
  ms !! k = Some m → spec.has_splits m = true →
  filter (λ m, spec.has_splits m = true) ms !! spec.nested_before ms k = Some m.
Proof.
  revert k. induction ms as [|m0 ms IH]; intros k Hk Hm; [done|].
  destruct k as [|k].
  - simpl in Hk. injection Hk as ->. rewrite filter_cons, decide_True by done. done.
  - rewrite nested_before_cons, filter_cons.
    destruct (decide (spec.has_splits m0 = true)) as [->|Hno].
    + by apply IH.
    + destruct (spec.has_splits m0); [done|]. by apply IH.
Qed.

(** What a call of [generateMatchesConfig] that returns has built. *)
Lemma generateMatchesConfig_inv (route : Route.t) (upstreamNamer : upstreamNamer)
    (crUpstreams : gmap string Upstream.t) (variableNamer : variableNamer) (index scIndex : Z)
    (cfgParams : ConfigParams.t) (cfg : routingCfg) :
  generateMatchesConfig route upstreamNamer crUpstreams variableNamer index scIndex cfgParams
  = Some cfg →
  ∃ source,
    Maps cfg
    = concat
        (imap_from
           (λ i m,
              imap_from
                (λ j c,
                   {| version2.Map.Source := getNameForSourceForMatchesRouteMapFromCondition c;
                      version2.Map.Variable_ :=
                        GetNameForVariableForMatchesRouteMap variableNamer index i j;
                      version2.Map.Parameters_ :=
                        generateParametersForMatchesRouteMap (Condition.Value c)
                          (if (j <? len (Match.Conditions m) - 1)%Z
                           then GetNameForVariableForMatchesRouteMap variableNamer index i (j + 1)
                           else "1") |})
                0 (Match.Conditions m))
           0 (Route.Matches route))
      ++ [ {| version2.Map.Source := source;
              version2.Map.Variable_ :=
                GetNameForVariableForMatchesRouteMainMap variableNamer index;
              version2.Map.Parameters_ :=
                spec.main_map_parameters_from variableNamer index scIndex 0 0
                  (Route.Matches route)
                ++ [spec.main_map_default variableNamer index scIndex route] |} ] ∧
    version2.SplitClient.Variable_ <$> SplitClients cfg
    = imap_from (λ t _, GetNameForSplitClientVariable variableNamer (int_add scIndex t))
        0 (filter (λ m, spec.has_splits m = true) (Route.Matches route))
      ++ (if (0 <? len (Route.Splits route))%Z
          then [version2.Parameter_.Result (spec.main_map_default variableNamer index scIndex route)]
          else []).
Proof.
  intros Hgen. unfold generateMatchesConfig in Hgen.
  destruct (generateMatchesConfig_mainMap_loop variableNamer index scIndex
              (Route.Matches route) 0 "" [] 0) as [source Hmain].
  rewrite Hmain in Hgen. cbn [app] in Hgen. rewrite Z.add_0_l in Hgen.
  rewrite (for_range_append_list _ _ (generateMatchesConfig_maps_append variableNamer index))
    in Hgen.
  destruct (for_range_opt _ _ _ _) as [[[locations splitClients] sc']|] eqn:Hloc; [|done].
  apply generateMatchesConfig_locations_loop in Hloc as [-> Hvars].
  rewrite Z.add_0_l in Hgen. cbn [mbind option_bind] in Hgen.
  exists source. unfold spec.main_map_default. rewrite nested_before_all.
  destruct (0 <? len (Route.Splits route))%Z.
  - destruct (generateSplits _ _ _ _ _ _) as [[scl locs]|] eqn:Hsplits; [|done].
    cbn [mbind option_bind] in Hgen. injection Hgen as <-. cbn [Maps SplitClients].
    split; [done|]. rewrite fmap_app, Hvars. cbn [fmap list_fmap app].
    by rewrite (generateSplits_variable _ _ _ _ _ _ _ _ Hsplits).
  - destruct (Route.Action route) as [action|]; [|done]. cbn [mbind option_bind] in Hgen.
    destruct (generateLocation _ _ _ _ _) as [loc|]; [|done].
    cbn [mbind option_bind] in Hgen. injection Hgen as <-. cbn [Maps SplitClients].
    split; [done|]. by rewrite Hvars, app_nil_r.
Qed.

Lemma generateMatchesConfig_is_Some (route : Route.t) (upstreamNamer : upstreamNamer)
    (crUpstreams : gmap string Upstream.t) (variableNamer : variableNamer) (index scIndex : Z)
    (cfgParams : ConfigParams.t) :
  spec.route_has_actions route →
  is_Some
    (generateMatchesConfig route upstreamNamer crUpstreams variableNamer index scIndex
       cfgParams).
Proof.
  intros [Hmatches Hdefault]. unfold generateMatchesConfig.
  destruct (for_range (generateMatchesConfig_mainMap _ _ _) _ _ _) as [[source params] sc].
  destruct (generateMatchesConfig_locations_is_Some upstreamNamer crUpstreams variableNamer
              index scIndex cfgParams (Route.Matches route) 0
              (@nil version2.Location.t, @nil version2.SplitClient.t, 0%Z) Hmatches)
    as [[[locations splitClients] sc'] ->].
  cbn [mbind option_bind].
  destruct (0 <? len (Route.Splits route))%Z.
  - by destruct (generateSplits_is_Some (Route.Splits route) upstreamNamer crUpstreams
                   variableNamer (int_add scIndex sc') cfgParams Hdefault) as [[scl locs] ->].
  - destruct Hdefault as [action ->]. cbn [mbind option_bind].
    by destruct (generateLocation_is_Some
                   ("@matches_" +:+ itoa index +:+ "_default")
                   (GetNameForUpstream upstreamNamer (Action.Pass action))
                   (crUpstreams_get crUpstreams
                      (GetNameForUpstream upstreamNamer (Action.Pass action)))
                   action cfgParams) as [loc ->].
Qed.

(** C1. For a route with [n] matches, the main map (the last map that
    [generateMatchesConfig] returns) has [n+1] parameters, in order: for match
    [k] the pattern is a circumflex, [k] zeros and a one, and the result is
    the named location of match [k] or, when the match has splits, the
    variable of its nested split-client; the last parameter has the pattern
    [default], and its result is the default named location or, when the
    route has top-level splits, the variable of the split-client of those.
    The call returns whenever every action that it dereferences is there. *)
Theorem generateMatchesConfig_main_map (route : Route.t) (upstreamNamer : upstreamNamer)
    (crUpstreams : gmap string Upstream.t) (variableNamer : variableNamer) (index scIndex : Z)
    (cfgParams : ConfigParams.t) :
  (spec.route_has_actions route →
   is_Some (generateMatchesConfig route upstreamNamer crUpstreams variableNamer index scIndex
              cfgParams)) ∧
  ∀ cfg,
    generateMatchesConfig route upstreamNamer crUpstreams variableNamer index scIndex cfgParams
    = Some cfg →
    ∃ mainMap,
      last (Maps cfg) = Some mainMap ∧
      version2.Map.Variable_ mainMap
      = GetNameForVariableForMatchesRouteMainMap variableNamer index ∧
      length (version2.Map.Parameters_ mainMap) = S (length (Route.Matches route)) ∧
      (∀ k m, Route.Matches route !! k = Some m →
         version2.Map.Parameters_ mainMap !! k
         = Some (spec.main_map_parameter variableNamer index scIndex (Route.Matches route) k m)) ∧
      version2.Map.Parameters_ mainMap !! length (Route.Matches route)
      = Some (spec.main_map_default variableNamer index scIndex route) ∧
      (∀ k m, Route.Matches route !! k = Some m → spec.has_splits m = true →
         version2.SplitClient.Variable_ <$>
           SplitClients cfg !! spec.nested_before (Route.Matches route) k
         = Some (version2.Parameter_.Result
                   (spec.main_map_parameter variableNamer index scIndex
                      (Route.Matches route) k m))) ∧
      ((0 < len (Route.Splits route))%Z →
         version2.SplitClient.Variable_ <$>
           SplitClients cfg !!
             spec.nested_before (Route.Matches route) (length (Route.Matches route))
         = Some (version2.Parameter_.Result
                   (spec.main_map_default variableNamer index scIndex route))).
Proof.
  split; [apply generateMatchesConfig_is_Some|].
  intros cfg (source & Hmaps & Hvars)%generateMatchesConfig_inv.
  eexists. split; [rewrite Hmaps; apply last_snoc|]. cbn [version2.Map.Variable_ version2.Map.Parameters_].
  split; [done|].
  split; [rewrite length_app, main_map_parameters_from_length; simpl; lia|].
  split; [|split; [|split]].
  - intros k m Hk. apply lookup_app_l_Some.
    rewrite (main_map_parameters_from_lookup _ _ _ _ _ _ _ _ Hk).
    unfold spec.main_map_parameter. by rewrite !Z.add_0_l, Nat2Z.id.
  - rewrite lookup_app_r; rewrite main_map_parameters_from_length; [|done].
    by rewrite Nat.sub_diag.
  - intros k m Hk Hsplits. rewrite <- list_lookup_fmap, Hvars.
    apply lookup_app_l_Some.
    rewrite (imap_from_lookup _ _ _ _ _ (filter_nested_lookup _ _ _ Hk Hsplits)).
    unfold spec.main_map_parameter. cbn [version2.Parameter_.Result].
    by rewrite Hsplits, Z.add_0_l.
  - intros Hsplits%Z.ltb_lt. rewrite <- list_lookup_fmap, Hvars, Hsplits.
    rewrite lookup_app_r; rewrite length_imap_from, nested_before_all; [|done].
    by rewrite Nat.sub_diag.
Qed.

(** C1, the witness: the route of the example, as matches route 1, its first
    split-client being number 2. *)
Lemma generateMatchesConfig_main_map_witness :
  is_Some (generateMatchesConfig example.matches_route example.cafe_upstreamNamer ∅
             example.cafe_variableNamer 1 2 example.cfgParams).
Proof.
  apply (generateMatchesConfig_main_map example.matches_route example.cafe_upstreamNamer ∅
           example.cafe_variableNamer 1 2 example.cfgParams).
  split; [|repeat constructor; by eexists].
  repeat constructor; by eexists.
Defined.

(** C5. For a match with conditions [c_0 .. c_(n-1)], the map of condition
    [j] has exactly two parameters: the value form of the value of [c_j] with
    the result of success, and [default] with 0. The result of success is 1
    for the last condition and the variable of condition [j+1] otherwise.
    When the value begins with an exclamation mark the two results are
    swapped and the value form is that of the value without the mark. The
    maps of the conditions come first in the list of maps, match by match. *)
Theorem generateMatchesConfig_condition_maps (route : Route.t) (upstreamNamer : upstreamNamer)
    (crUpstreams : gmap string Upstream.t) (variableNamer : variableNamer) (index scIndex : Z)
    (cfgParams : ConfigParams.t) (cfg : routingCfg) (i j : nat) (m : Match.t)
    (c : Condition.t) :
  generateMatchesConfig route upstreamNamer crUpstreams variableNamer index scIndex cfgParams
  = Some cfg →
  Route.Matches route !! i = Some m →
  Match.Conditions m !! j = Some c →
  Maps cfg !! (spec.conditions_before (Route.Matches route) i + j)%nat
  = Some
      {| version2.Map.Source := getNameForSourceForMatchesRouteMapFromCondition c;
         version2.Map.Variable_ :=
           GetNameForVariableForMatchesRouteMap variableNamer index (Z.of_nat i) (Z.of_nat j);
         version2.Map.Parameters_ :=
           spec.condition_parameters (Condition.Value c)
             (spec.successful_result variableNamer index i m j) |}.
Proof.
  intros (source & Hmaps & _)%generateMatchesConfig_inv Hi Hj.
  rewrite Hmaps. apply lookup_app_l_Some. unfold spec.conditions_before.
  apply (concat_imap_from_lookup _ Match.Conditions 0 _ i j m); [|done|].
  { intros. apply length_imap_from. }
  rewrite (imap_from_lookup _ _ _ _ _ Hj), !Z.add_0_l.
  rewrite generateParametersForMatchesRouteMap_spec. do 3 f_equal.
  unfold spec.successful_result, len. apply lookup_lt_Some in Hj.
  destruct (Z.ltb_spec (Z.of_nat j) (Z.of_nat (length (Match.Conditions m)) - 1)) as [Hlt|Hge];
    case_decide; try lia; [|done].
  by replace (Z.of_nat j + 1)%Z with (Z.of_nat (S j)) by lia.
Qed.

(** C5, the witness: the second, negated condition of the first match of the
    route of the example. *)
Lemma generateMatchesConfig_condition_maps_witness :
  ∃ cfg,
    generateMatchesConfig example.matches_route example.cafe_upstreamNamer ∅
      example.cafe_variableNamer 1 2 example.cfgParams = Some cfg ∧
    Maps cfg !! 1%nat
    = Some
        {| version2.Map.Source := "$cookie_user";
           version2.Map.Variable_ := "$vs_default_cafe_matches_1_match_0_cond_1";
           version2.Map.Parameters_ :=
             [ {| version2.Parameter_.Value := backslash +:+ "default";
                  version2.Parameter_.Result := "0" |};
               {| version2.Parameter_.Value := "default";
                  version2.Parameter_.Result := "1" |} ] |}.
Proof.
  destruct (generateMatchesConfig example.matches_route example.cafe_upstreamNamer ∅
              example.cafe_variableNamer 1 2 example.cfgParams) as [cfg|] eqn:Hgen;
    [|by vm_compute in Hgen].
  exists cfg. split; [done|].
  exact (generateMatchesConfig_condition_maps example.matches_route
           example.cafe_upstreamNamer ∅ example.cafe_variableNamer 1 2 example.cfgParams cfg
           0 1 _ _ Hgen eq_refl eq_refl).
Defined.

(** ** The configurator keeps nothing from one call to the next *)

Lemma same_settings_refl (vsc : virtualServerConfigurator) : spec.same_settings vsc vsc.
Proof. by repeat split. Qed.

Lemma same_settings_sym (vsc1 vsc2 : virtualServerConfigurator) :
  spec.same_settings vsc1 vsc2 → spec.same_settings vsc2 vsc1.
Proof. intros (? & ? & ?). by repeat split. Qed.

Lemma same_settings_trans (vsc1 vsc2 vsc3 : virtualServerConfigurator) :
  spec.same_settings vsc1 vsc2 → spec.same_settings vsc2 vsc3 → spec.same_settings vsc1 vsc3.
Proof. intros (? & ? & ?) (? & ? & ?). repeat split; congruence. Qed.

Lemma clearWarnings_same_settings (vsc1 vsc2 : virtualServerConfigurator) :
  spec.same_settings vsc1 vsc2 → clearWarnings vsc1 = clearWarnings vsc2.
Proof. intros (Hc & Hp & Hr). unfold clearWarnings. by rewrite Hc, Hp, Hr. Qed.

Lemma addWarningf_same_settings (vsc : virtualServerConfigurator) (obj : Object) (msg : string) :
  spec.same_settings (addWarningf vsc obj msg) vsc.
Proof. by repeat split. Qed.

Lemma generateUpstream_same_settings (vsc : virtualServerConfigurator) (owner : Object)
    (upstreamName : string) (upstream : Upstream.t) (isExternalNameSvc : bool)
    (endpoints : list string) :
  spec.same_settings
    (generateUpstream vsc owner upstreamName upstream isExternalNameSvc endpoints).2 vsc.
Proof.
  unfold generateUpstream. destruct (isPlus vsc); [|apply same_settings_refl].
  unfold generateSlowStartForPlus.
  destruct (String.eqb _ _); [apply same_settings_refl|].
  destruct (_ || _); [apply addWarningf_same_settings | apply same_settings_refl].
Qed.

Section determinism.
Context `{GeneratorEnv}.

Lemma generateEndpointsForUpstream_same_settings (vsc : virtualServerConfigurator)
    (owner : Object) (namespace : string) (upstream : Upstream.t)
    (virtualServerEx : VirtualServerEx.t) :
  spec.same_settings
    (generateEndpointsForUpstream vsc owner namespace upstream virtualServerEx).2 vsc.
Proof.
  unfold generateEndpointsForUpstream.
  destruct (_ && _); [apply same_settings_refl|].
  destruct (_ && _); [apply addWarningf_same_settings | apply same_settings_refl].
Qed.

Lemma GenerateVirtualServerConfig_upstream_same_settings (virtualServerEx : VirtualServerEx.t)
    (owner : Object) (upstreamNamer : upstreamNamer) (upstreamNamespace : string) st
    (u : Upstream.t) :
  spec.same_settings
    (GenerateVirtualServerConfig_upstream virtualServerEx owner upstreamNamer
       upstreamNamespace st u).2
    st.2.
Proof.
  destruct st as [[[[upstreams statusMatches] healthChecks] crUpstreams] vsc].
  unfold GenerateVirtualServerConfig_upstream.
  pose proof (generateEndpointsForUpstream_same_settings vsc owner upstreamNamespace u
                virtualServerEx) as Hendpoints.
  destruct (generateEndpointsForUpstream _ _ _ _ _) as [endpoints vsc1].
  pose proof (generateUpstream_same_settings vsc1 owner
                (GetNameForUpstream upstreamNamer (Upstream.Name u)) u
                (has_key (VirtualServerEx.ExternalNameSvcs virtualServerEx)
                   (GenerateExternalNameSvcKey upstreamNamespace (Upstream.Service u)))
                endpoints) as Hupstream.
  destruct (generateUpstream _ _ _ _ _ _) as [ups vsc2].
  destruct (generateHealthCheck _ _ _); by eapply same_settings_trans.
Qed.

Lemma foldl_same_settings {A St} (f : St * virtualServerConfigurator → A →
                                      St * virtualServerConfigurator) (l : list A) :
  (∀ st x, spec.same_settings (f st x).2 st.2) →
  ∀ st, spec.same_settings (foldl f st l).2 st.2.
Proof.
  intros Hf. induction l as [|x l IH]; intros st; simpl; [apply same_settings_refl|].
  eapply same_settings_trans; [apply IH | apply Hf].
Qed.

(** C8. [GenerateVirtualServerConfig] is deterministic: on the same snapshot
    and pem filename, two configurators with the same parameters and flags,
    whatever warnings earlier calls have left in them, produce the same
    configuration and the same warnings; and a second call on the
    configurator that a first call has used produces what the first call
    produced. *)
Theorem GenerateVirtualServerConfig_deterministic (vsc1 vsc2 : virtualServerConfigurator)
    (virtualServerEx : VirtualServerEx.t) (tlsPemFileName : string) :
  spec.same_settings vsc1 vsc2 →
  GenerateVirtualServerConfig vsc1 virtualServerEx tlsPemFileName
  = GenerateVirtualServerConfig vsc2 virtualServerEx tlsPemFileName ∧
  ∀ vscfg warns vsc',
    GenerateVirtualServerConfig vsc1 virtualServerEx tlsPemFileName = Some (vscfg, warns, vsc') →
    warns = warnings vsc' ∧
    spec.same_settings vsc' vsc1 ∧
    GenerateVirtualServerConfig vsc' virtualServerEx tlsPemFileName = Some (vscfg, warns, vsc').
Proof.
  assert (Hclear : ∀ vsc vsc',
    spec.same_settings vsc vsc' →
    GenerateVirtualServerConfig vsc virtualServerEx tlsPemFileName
    = GenerateVirtualServerConfig vsc' virtualServerEx tlsPemFileName).
  { intros vsc vsc' Hsame. unfold GenerateVirtualServerConfig.
    by rewrite (clearWarnings_same_settings vsc vsc' Hsame). }
  intros Hsame. split; [by apply Hclear|].
  intros vscfg warns vsc' Hgen.
  assert (warns = warnings vsc' ∧ spec.same_settings vsc' vsc1) as [Hwarns Hsettings].
  { unfold GenerateVirtualServerConfig in Hgen.
    match type of Hgen with
    | context [foldl ?f (foldl ?g ?st0 ?us) ?vsrs] =>
        pose proof (foldl_same_settings f vsrs) as Hroutes;
        pose proof (foldl_same_settings g us
                      (λ st x, GenerateVirtualServerConfig_upstream_same_settings _ _ _ _ st x)
                      st0) as Hvs;
        destruct (foldl f (foldl g st0 us) vsrs)
          as [[[[upstreams statusMatches] healthChecks] crUpstreams] vscf] eqn:Hfold
    end.
    destruct (for_range_opt _ _ _ _) as [st|]; [|done]. cbn [mbind option_bind] in Hgen.
    destruct (for_range_opt _ _ _ _) as [[[[[locations irls] splitClients] maps] n]|]; [|done].
    cbn [mbind option_bind] in Hgen. injection Hgen as <- <- <-. split; [done|].
    change vscf with (upstreams, statusMatches, healthChecks, crUpstreams, vscf).2.
    rewrite <- Hfold.
    eapply same_settings_trans; [apply Hroutes|].
    - intros acc vsr. apply foldl_same_settings.
      intros acc' u. apply GenerateVirtualServerConfig_upstream_same_settings.
    - eapply same_settings_trans; [apply Hvs|]. by repeat split. }
  split; [done|]. split; [done|]. by rewrite (Hclear vsc' vsc1 Hsettings).
Qed.

End determinism.

(** C8, the witness: a fresh commercial configurator and the same one with a
    stale warning, on the snapshot of the example. *)
Lemma GenerateVirtualServerConfig_deterministic_witness :
  GenerateVirtualServerConfig (newVirtualServerConfigurator example.cfgParams true false)
    example.snapshot ""
  = GenerateVirtualServerConfig
      (addWarningf (newVirtualServerConfigurator example.cfgParams true false)
         (VirtualServerObject 7) "stale")
      example.snapshot "".
Proof.
  apply (GenerateVirtualServerConfig_deterministic
           (newVirtualServerConfigurator example.cfgParams true false)
           (addWarningf (newVirtualServerConfigurator example.cfgParams true false)
              (VirtualServerObject 7) "stale")
           example.snapshot "").
  by repeat split.
Defined.

(** ** Strings with variables *)

Import field k8s_validation validation.

#[local] Arguments String.get : simpl nomatch.

(** Only the byte of a dollar sign is read as the rune of a dollar sign. *)
Lemma decoderune_dollar (s : string) :
  (decoderune s).1 = 36%Z → ∃ s', s = String "$" s'.
Proof.
  unfold decoderune. destruct s as [|c0 s1]; [done|].
  destruct (byte_val c0 <? 128)%Z eqn:Hascii.
  - cbn [fst]. intros Hc. exists s1. f_equal.
    rewrite <- (ascii_N_embedding c0). unfold byte_val in Hc.
    by replace (N_of_ascii c0) with 36%N by lia.
  - repeat
      match goal with
      | |- context [if ?b then _ else _] => destruct b eqn:?
      | |- context [match ?s with EmptyString => _ | String _ _ => _ end] => destruct s
      end;
      cbn [fst]; try done;
      repeat match goal with
             | Hb : _ && _ = true |- _ => apply andb_true_iff in Hb as [? ?]
             | Hb : (_ <? _)%Z = true |- _ => apply Z.ltb_lt in Hb
             end;
      lia.
Qed.

Lemma HasSuffix_dollar_cons (c : ascii) (s : string) :
  s ≠ "" → go_strings.HasSuffix (String c s) "$" = go_strings.HasSuffix s "$".
Proof.
  intros Hs. destruct s as [|c' s']; [done|].
  unfold go_strings.HasSuffix. cbn [String.length Nat.leb Nat.sub andb].
  by rewrite Nat.sub_0_r.
Qed.

(** In a string that does not end with a dollar sign, every dollar sign has a
    byte behind it. *)
Lemma byte_after_dollar (str : string) (i : nat) :
  go_strings.HasSuffix str "$" = false →
  String.get i str = Some "$"%char →
  is_Some (String.get (i + 1) str).
Proof.
  revert i. induction str as [|c s IH]; intros i Hsuffix Hget; [done|].
  destruct i as [|i].
  - simpl in Hget. injection Hget as ->. destruct s as [|c' s']; [done|]. by eexists.
  - simpl in Hget. assert (s ≠ "") as Hs by (by intros ->).
    rewrite HasSuffix_dollar_cons in Hsuffix by done.
    apply (IH i Hsuffix Hget).
Qed.

Lemma validateStringWithVariables_range_is_Some (str : string) (fieldPath : Path) :
  go_strings.HasSuffix str "$" = false →
  ∀ rest i skip,
    (∀ k, String.get k rest = String.get (i + k) str) →
    is_Some (validateStringWithVariables_range str fieldPath i skip rest).
Proof.
  intros Hsuffix rest. induction rest as [|b rest IH]; intros i skip Hrest; [done|].
  assert (Hnext : ∀ k, String.get k rest = String.get (S i + k) str).
  { intros k. specialize (Hrest (S k)). cbn [String.get] in Hrest. rewrite Hrest.
    f_equal. lia. }
  cbn [validateStringWithVariables_range]. destruct skip as [|skip]; [|by apply IH].
  destruct (decoderune (String b rest)) as [c width] eqn:Hrune.
  destruct (c =? 36)%Z eqn:Hc; [|by apply IH].
  apply Z.eqb_eq in Hc. destruct (decoderune_dollar (String b rest)) as [s' [= -> ->]].
  { by rewrite Hrune. }
  destruct (byte_after_dollar str i Hsuffix) as [b1 ->].
  { by rewrite <- (Nat.add_0_r i), <- Hrest. }
  cbn [mbind option_bind]. destruct (negb _); [done|]. destruct (negb _); [done|]. by apply IH.
Qed.

Lemma Contains_char_cons (c b : ascii) (s : string) :
  go_strings.Contains (String b s) (String c "")
  = if ascii_dec c b then true else go_strings.Contains s (String c "").
Proof.
  unfold go_strings.Contains. cbn [String.index].
  change (String.prefix (String c "") (String b s))
    with (if ascii_dec c b then String.prefix "" s else false).
  destruct (ascii_dec c b); [by destruct s|].
  by destruct (String.index 0 (String c "") s).
Qed.

Lemma Contains_char_append (c : ascii) (s rest : string) :
  go_strings.Contains s (String c "") = true →
  go_strings.Contains (s +:+ rest) (String c "") = true.
Proof.
  induction s as [|b s IH]; [done|].
  change (String b s +:+ rest) with (String b (s +:+ rest)).
  rewrite !Contains_char_cons. by destruct (ascii_dec c b).
Qed.

Lemma prefix_append (s1 s2 : string) :
  String.prefix s1 s2 = true → ∃ rest, s2 = s1 +:+ rest.
Proof.
  revert s2. induction s1 as [|a s1 IH]; intros s2 Hprefix; [by exists s2|].
  destruct s2 as [|b s2]; [done|].
  change (String.prefix (String a s1) (String b s2))
    with (if ascii_dec a b then String.prefix s1 s2 else false) in Hprefix.
  destruct (ascii_dec a b) as [->|]; [|done].
  destruct (IH s2 Hprefix) as [rest ->]. by exists rest.
Qed.

Section strings_with_variables.
Context `{ValidatorEnv}.

Lemma validateSpecialVariable_is_Some (nVar : string) (fieldPath : Path) :
  go_strings.Contains nVar "_" = true →
  is_Some (validateSpecialVariable nVar fieldPath).
Proof.
  unfold go_strings.Contains, validateSpecialVariable, go_strings.SplitN2.
  destruct (String.index 0 "_" nVar) as [n|]; [intros _|done].
  cbn [lookup list_lookup mbind option_bind].
  repeat (destruct (String.eqb _ _); [done|]). done.
Qed.

Lemma validateStringWithVariables_is_Some (str : string) (fieldPath : Path)
    (validVars : gmap string bool) (specialVars : list string) :
  Forall (λ specialVar, go_strings.Contains specialVar "_" = true) specialVars →
  is_Some (validateStringWithVariables str fieldPath validVars specialVars).
Proof.
  intros Hspecial. unfold validateStringWithVariables.
  destruct (go_strings.HasSuffix str "$") eqn:Hsuffix; [done|].
  destruct (validateStringWithVariables_range_is_Some str fieldPath Hsuffix str 0 0)
    as [returned ->]; [done|].
  cbn [mbind option_bind]. destruct returned as [errs|]; [done|].
  apply for_range_opt_is_Some. intros _ nVar allErrs _.
  destruct (existsb _ specialVars) eqn:Hexists; [|done].
  apply existsb_exists in Hexists as (specialVar & Hin & Hprefix).
  apply prefix_append in Hprefix as [rest ->].
  destruct (validateSpecialVariable_is_Some (specialVar +:+ rest) fieldPath) as [errs ->];
    [|done].
  apply Contains_char_append.
  by apply (proj1 (Forall_forall _ _) Hspecial), list_elem_of_In.
Qed.

(** C10. [validateStringWithVariables] is total. A string that ends with a
    dollar sign is rejected by the suffix check before the scan. In any other
    string every dollar sign has a byte behind it, so the access to
    [str[i+1]] in the scan is in range and the scan does not panic. The
    function returns an error list for every string, for the special
    variables of both of its call sites (none, and the three prefixes of the
    return body) and for any list of special variables that each hold an
    underscore. *)
Theorem validateStringWithVariables_total (str : string) (fieldPath : Path)
    (validVars : gmap string bool) (specialVars : list string) :
  (go_strings.HasSuffix str "$" = true →
   validateStringWithVariables str fieldPath validVars specialVars
   = Some [Invalid fieldPath (StringValue str) "must not end with $"]) ∧
  (go_strings.HasSuffix str "$" = false →
   (∀ i, String.get i str = Some "$"%char → is_Some (String.get (i + 1) str)) ∧
   is_Some (validateStringWithVariables_range str fieldPath 0 0 str)) ∧
  (Forall (λ specialVar, go_strings.Contains specialVar "_" = true) specialVars →
   is_Some (validateStringWithVariables str fieldPath validVars specialVars)) ∧
  is_Some (validateStringWithVariables str fieldPath validVars []) ∧
  is_Some (validateStringWithVariables str fieldPath validVars returnBodySpecialVariables).
Proof.
  split; [|split; [|split; [|split]]].
  - intros Hsuffix. unfold validateStringWithVariables. by rewrite Hsuffix.
  - intros Hsuffix. split.
    + intros i. by apply byte_after_dollar.
    + by apply validateStringWithVariables_range_is_Some.
  - apply validateStringWithVariables_is_Some.
  - by apply validateStringWithVariables_is_Some.
  - apply validateStringWithVariables_is_Some. by repeat constructor.
Qed.

End strings_with_variables.

(** C10, the witness: a return body with a special variable and a variable
    of the list. *)
Lemma validateStringWithVariables_total_witness :
  is_Some (validateStringWithVariables "${arg_user} costs 5${host}" (NewPath "body")
             returnBodyVariables returnBodySpecialVariables).
Proof.
  apply (validateStringWithVariables_total "${arg_user} costs 5${host}" (NewPath "body")
           returnBodyVariables returnBodySpecialVariables).
Defined.

(** ** The validator returns *)

Section validator_returns.
Context `{ValidatorEnv}.

Lemma validateRedirectURL_is_Some (redirectURL : string) (fieldPath : Path) :
  is_Some (validateRedirectURL redirectURL fieldPath).
Proof.
  unfold validateRedirectURL. destruct (String.eqb _ _); [done|]. destruct (negb _); [done|].
  by destruct (validateStringWithVariables_is_Some redirectURL fieldPath
                 validRedirectVariableNames [] (Forall_nil_2 _)) as [errs ->].
Qed.

Lemma validateActionRedirect_is_Some (redirect : ActionRedirect.t) (fieldPath : Path) :
  is_Some (validateActionRedirect redirect fieldPath).
Proof.
  unfold validateActionRedirect.
  destruct (validateRedirectURL_is_Some (ActionRedirect.URL redirect) (Child fieldPath "url"))
    as [errs ->].
  cbn [mbind option_bind]. by destruct (negb _).
Qed.

Lemma validateActionReturn_is_Some (r : ActionReturn.t) (fieldPath : Path) :
  is_Some (validateActionReturn r fieldPath).
Proof.
  unfold validateActionReturn, validateActionReturnBody. destruct (String.eqb _ _); [done|].
  destruct (validateStringWithVariables_is_Some (ActionReturn.Body r) (Child fieldPath "body")
              returnBodyVariables returnBodySpecialVariables) as [errs ->].
  { by repeat constructor. }
  cbn [mbind option_bind]. by destruct (negb (ActionReturn.Code r =? 0)%Z).
Qed.

Lemma validateAction_is_Some (action : Action.t) (fieldPath : Path)
    (upstreamNames : gset string) :
  is_Some (validateAction action fieldPath upstreamNames).
Proof.
  unfold validateAction. destruct (negb (countActions action =? 1)%Z); [done|].
  destruct (Action.Redirect action) as [redirect|].
  - destruct (validateActionRedirect_is_Some redirect (Child fieldPath "redirect"))
      as [errs ->].
    cbn [mbind option_bind]. destruct (Action.Return action) as [ret|]; [|done].
    by destruct (validateActionReturn_is_Some ret (Child fieldPath "return")) as [errs' ->].
  - cbn [mbind option_bind]. destruct (Action.Return action) as [ret|]; [|done].
    by destruct (validateActionReturn_is_Some ret (Child fieldPath "return")) as [errs' ->].
Qed.

Lemma append_each_app {A} (allErrs : ErrorList) (mk : A → Error) (msgs : list A) :
  append_each allErrs mk msgs = allErrs ++ (mk <$> msgs).
Proof.
  unfold append_each. revert allErrs.
  induction msgs as [|msg msgs IH]; intros allErrs; simpl; [by rewrite app_nil_r|].
  by rewrite IH, <- app_assoc.
Qed.

(** One round of the loop of [validateSplits]: it adds the weight to the
    total, and what it appends to the errors is empty exactly when the weight
    is in range and the action is there and valid. *)
Lemma validateSplits_split_spec (fieldPath : Path) (upstreamNames : gset string) (i : Z)
    (s : Split.t) :
  ∃ errs,
    (∀ allErrs totalWeight,
       validateSplits_split fieldPath upstreamNames i s (allErrs, totalWeight)
       = Some (allErrs ++ errs, int_add totalWeight (Split.Weight s))) ∧
    (errs = [] ↔
       (1 ≤ Split.Weight s ≤ 99)%Z ∧
       ∃ action, Split.Action s = Some action ∧
         validateAction action (Child (Index fieldPath i) "action") upstreamNames = Some []).
Proof.
  assert (Hrange : IsInRange (Split.Weight s) 1 99 = [] ↔ (1 ≤ Split.Weight s ≤ 99)%Z).
  { unfold IsInRange.
    destruct (Z.leb_spec 1 (Split.Weight s)), (Z.leb_spec (Split.Weight s) 99); simpl;
      split; try done; lia. }
  unfold validateSplits_split. destruct (Split.Action s) as [action|].
  - destruct (validateAction_is_Some action (Child (Index fieldPath i) "action") upstreamNames)
      as [aerrs Haction].
    eexists. split.
    + intros allErrs totalWeight. rewrite Haction, append_each_app. cbn [mbind option_bind].
      by rewrite <- app_assoc.
    + rewrite <- Hrange. split.
      * intros [Hw ->]%app_eq_nil. apply fmap_nil_inv in Hw. eauto.
      * intros [-> (a & [= <-] & Ha)]. rewrite Haction in Ha. by injection Ha as ->.
  - eexists. split.
    + intros allErrs totalWeight. rewrite append_each_app. cbn [mbind option_bind].
      by rewrite <- app_assoc.
    + split; [by intros [_ ?]%app_eq_nil | by intros [_ (a & ? & _)]].
Qed.

Lemma wrap64_small (z : Z) : (- 2 ^ 63 ≤ z < 2 ^ 63)%Z → wrap64 z = z.
Proof. intros Hz. unfold wrap64. rewrite Z.mod_small; lia. Qed.

(** The total weight does not wrap around when the weights are not negative
    and their sum fits. *)
Lemma total_weight_no_overflow (splits : list Split.t) :
  ∀ totalWeight,
    (0 ≤ totalWeight)%Z →
    Forall (λ s, (0 ≤ Split.Weight s)%Z) splits →
    (totalWeight + spec.weight_sum splits < 2 ^ 63)%Z →
    foldl (λ totalWeight s, int_add totalWeight (Split.Weight s)) totalWeight splits
    = (totalWeight + spec.weight_sum splits)%Z.
Proof.
  induction splits as [|s splits IH]; intros totalWeight Htotal Hweights Hsum; simpl in *.
  - lia.
  - apply Forall_cons in Hweights as [Hs Hweights].
    assert (0 ≤ spec.weight_sum splits)%Z as Hrest.
    { clear -Hweights. induction Hweights; simpl; lia. }
    unfold int_add at 2. rewrite wrap64_small by lia. rewrite IH; [lia | lia | done | lia].
Qed.

Lemma weight_sum_bounds (splits : list Split.t) :
  Forall (λ s, (1 ≤ Split.Weight s ≤ 99)%Z) splits →
  (len splits ≤ spec.weight_sum splits ≤ 99 * len splits)%Z.
Proof. unfold len. induction 1; simpl; lia. Qed.

Lemma validateSplits_loop (fieldPath : Path) (upstreamNames : gset string)
    (splits : list Split.t) :
  ∀ i allErrs totalWeight,
    ∃ errs,
      for_range_opt (validateSplits_split fieldPath upstreamNames) i splits
        (allErrs, totalWeight)
      = Some (allErrs ++ errs,
              foldl (λ totalWeight s, int_add totalWeight (Split.Weight s)) totalWeight splits) ∧
      (errs = [] ↔
         ∀ k s, splits !! k = Some s →
           (1 ≤ Split.Weight s ≤ 99)%Z ∧
           ∃ action, Split.Action s = Some action ∧
             validateAction action (Child (Index fieldPath (i + Z.of_nat k)) "action")
               upstreamNames = Some []).
Proof.
  induction splits as [|s splits IH]; intros i allErrs totalWeight.
  - exists []. split; [by rewrite app_nil_r | done].
  - destruct (validateSplits_split_spec fieldPath upstreamNames i s) as (errs1 & Hround & Hiff1).
    destruct (IH (i + 1)%Z (allErrs ++ errs1) (int_add totalWeight (Split.Weight s)))
      as (errs2 & Hloop & Hiff2).
    exists (errs1 ++ errs2). split.
    + cbn [for_range_opt foldl]. rewrite Hround. cbn [mbind option_bind].
      by rewrite Hloop, app_assoc.
    + split.
      * intros [Herrs1 Herrs2]%app_eq_nil k s' Hk. destruct k as [|k].
        -- injection Hk as <-. rewrite Z.add_0_r. by apply Hiff1.
        -- replace (i + Z.of_nat (S k))%Z with (i + 1 + Z.of_nat k)%Z by lia.
           by apply (proj1 Hiff2 Herrs2 k s').
      * intros Hall. rewrite (proj2 Hiff1), (proj2 Hiff2); [done| |].
        -- intros k s' Hk. specialize (Hall (S k) s' Hk).
           by replace (i + Z.of_nat (S k))%Z with (i + 1 + Z.of_nat k)%Z in Hall by lia.
        -- specialize (Hall 0%nat s eq_refl). by rewrite Z.add_0_r in Hall.
Qed.

Lemma validateSplits_is_Some (splits : list Split.t) (fieldPath : Path)
    (upstreamNames : gset string) :
  is_Some (validateSplits splits fieldPath upstreamNames).
Proof.
  destruct (validateSplits_loop fieldPath upstreamNames splits 0 [] 0) as (errs & Hloop & _).
  unfold validateSplits. rewrite Hloop. cbn [mbind option_bind].
  destruct (len splits <? 2)%Z; [done|]. by destruct (negb _).
Qed.

(** C4. [validateSplits] returns an error list, and the list is empty exactly
    when the block is valid: at least two splits, every weight between 1 and
    99, every split with a valid action, and a weight sum of 100. A block
    with fewer than two splits gets the one error that says so, and a weight
    sum other than 100 gets the error of the sum. (A total weight is a 64-bit
    integer: where the statement goes from the code to the sum of the
    weights, the sum is one that fits.) *)
Theorem validateSplits_accepts_iff_valid (splits : list Split.t) (fieldPath : Path)
    (upstreamNames : gset string) :
  is_Some (validateSplits splits fieldPath upstreamNames) ∧
  ((len splits < 2)%Z →
   validateSplits splits fieldPath upstreamNames
   = Some [Invalid fieldPath (StringValue "") "must include at least 2 splits"]) ∧
  (spec.valid_splits splits fieldPath upstreamNames →
   validateSplits splits fieldPath upstreamNames = Some []) ∧
  ((99 * len splits < 2 ^ 63)%Z →
   validateSplits splits fieldPath upstreamNames = Some [] →
   spec.valid_splits splits fieldPath upstreamNames) ∧
  (∀ errs,
     validateSplits splits fieldPath upstreamNames = Some errs →
     (2 ≤ len splits)%Z →
     Forall (λ s, (0 ≤ Split.Weight s)%Z) splits →
     (spec.weight_sum splits < 2 ^ 63)%Z →
     spec.weight_sum splits ≠ 100%Z →
     Invalid fieldPath (StringValue "")
       "the sum of the weights of all splits must be equal to 100" ∈ errs).
Proof.
  destruct (validateSplits_loop fieldPath upstreamNames splits 0 [] 0)
    as (errs & Hloop & Hiff).
  setoid_rewrite Z.add_0_l in Hiff.
  split; [apply validateSplits_is_Some|].
  unfold validateSplits. rewrite Hloop. cbn [mbind option_bind app].
  split; [|split; [|split]].
  - intros Hlen%Z.ltb_lt. by rewrite Hlen.
  - intros (Hlen & Hall & Hsum).
    destruct (Z.ltb_spec (len splits) 2); [lia|].
    rewrite (proj2 Hiff Hall).
    rewrite total_weight_no_overflow, Hsum; [done | done | | lia].
    apply Forall_lookup. intros k s Hk. destruct (Hall k s Hk). lia.
  - intros Hfits. destruct (Z.ltb_spec (len splits) 2) as [|Hlen]; [done|].
    destruct (negb _) eqn:Htotal; [by intros [= [_ ?]%app_eq_nil]|].
    intros [= ->]. pose proof (proj1 Hiff eq_refl) as Hall.
    assert (Forall (λ s, (1 ≤ Split.Weight s ≤ 99)%Z) splits) as Hweights.
    { apply Forall_lookup. intros k s Hk. by destruct (Hall k s Hk). }
    pose proof (weight_sum_bounds splits Hweights) as Hbounds.
    rewrite total_weight_no_overflow in Htotal; [| done | | lia].
    + apply negb_false_iff, Z.eqb_eq in Htotal. split; [done|]. split; [done | lia].
    + eapply Forall_impl; [done|]. simpl. lia.
  - intros errs'. destruct (Z.ltb_spec (len splits) 2) as [|_]; [lia|].
    intros Hres _ Hweights Hfits Hsum. rewrite total_weight_no_overflow in Hres by done.
    destruct (Z.eqb_spec (0 + spec.weight_sum splits) 100) as [|_]; [lia|].
    injection Hres as <-. apply elem_of_app. right. by left.
Qed.

End validator_returns.

(** C4, the witness: a 90/10 block under spec.routes[0].splits validates. *)
Lemma validateSplits_accepts_iff_valid_witness :
  validateSplits [example.split 90 "tea-v1"; example.split 10 "tea-v2"]
    (Child (Index (Child (NewPath "spec") "routes") 0) "splits") {[ "tea-v1"; "tea-v2" ]}
  = Some [].
Proof.
  apply (validateSplits_accepts_iff_valid
           [example.split 90 "tea-v1"; example.split 10 "tea-v2"]
           (Child (Index (Child (NewPath "spec") "routes") 0) "splits") {[ "tea-v1"; "tea-v2" ]}).
  split; [done|]. split; [|done].
  intros [|[|k]] s [= <-]; (split; [simpl; lia|]); eexists; (split; [done|]); by vm_compute.
Defined.

(** ** The subroutes of a VirtualServerRoute against the path of its parent *)

Section subroutes.
Context `{ValidatorEnv}.

Lemma validateMatch_is_Some (match_ : Match.t) (fieldPath : Path)
    (upstreamNames : gset string) :
  is_Some (validateMatch match_ fieldPath upstreamNames).
Proof.
  unfold validateMatch.
  assert (Haction :
    ∀ allErrs (fieldCount : Z),
      is_Some (match Match.Action match_ with
               | Some action =>
                   errs ← validateAction action (Child fieldPath "action") upstreamNames;
                   Some (allErrs ++ errs, (fieldCount + 1)%Z)
               | None => Some (allErrs, fieldCount)
               end)).
  { intros allErrs fieldCount. destruct (Match.Action match_) as [action|]; [|done].
    by destruct (validateAction_is_Some action (Child fieldPath "action") upstreamNames)
      as [errs ->]. }
  match goal with |- context [match Match.Action match_ with Some _ => _ | None => ?n end] =>
    match n with Some (?allErrs, ?fieldCount) =>
      destruct (Haction allErrs fieldCount) as [[allErrs1 fieldCount1] ->]
    end
  end.
  cbn [mbind option_bind]. destruct (0 <? len (Match.Splits match_))%Z.
  - destruct (validateSplits_is_Some (Match.Splits match_) (Child fieldPath "splits")
                upstreamNames) as [errs ->].
    cbn [mbind option_bind]. by destruct (negb _).
  - cbn [mbind option_bind]. by destruct (negb _).
Qed.

Lemma validateRoute_is_Some (route : Route.t) (fieldPath : Path)
    (upstreamNames : gset string) (isRouteFieldForbidden : bool) :
  is_Some (validateRoute route fieldPath upstreamNames isRouteFieldForbidden).
Proof.
  unfold validateRoute.
  assert (Haction :
    ∀ allErrs (fieldCount : Z),
      is_Some (match Route.Action route with
               | Some action =>
                   errs ← validateAction action (Child fieldPath "action") upstreamNames;
                   Some (allErrs ++ errs, (fieldCount + 1)%Z)
               | None => Some (allErrs, fieldCount)
               end)).
  { intros allErrs fieldCount. destruct (Route.Action route) as [action|]; [|done].
    by destruct (validateAction_is_Some action (Child fieldPath "action") upstreamNames)
      as [errs ->]. }
  match goal with |- context [match Route.Action route with Some _ => _ | None => ?n end] =>
    match n with Some (?allErrs, ?fieldCount) =>
      destruct (Haction allErrs fieldCount) as [[allErrs1 fieldCount1] ->]
    end
  end.
  cbn [mbind option_bind].
  assert (Hsplits :
    is_Some (if (0 <? len (Route.Splits route))%Z
             then
               errs ← validateSplits (Route.Splits route) (Child fieldPath "splits")
                        upstreamNames;
               Some (allErrs1 ++ errs, (fieldCount1 + 1)%Z)
             else Some (allErrs1, fieldCount1))).
  { destruct (0 <? len (Route.Splits route))%Z; [|done].
    by destruct (validateSplits_is_Some (Route.Splits route) (Child fieldPath "splits")
                   upstreamNames) as [errs ->]. }
  destruct Hsplits as [[allErrs2 fieldCount2] ->]. cbn [mbind option_bind].
  assert (Hmatches :
    is_Some (if (0 <? len (Route.Matches route))%Z
             then
               for_range_opt
                 (λ i m allErrs,
                    errs ← validateMatch m (Index (Child fieldPath "matches") i) upstreamNames;
                    Some (allErrs ++ errs))
                 0 (Route.Matches route) allErrs2
             else Some allErrs2)).
  { destruct (0 <? len (Route.Matches route))%Z; [|done].
    apply for_range_opt_is_Some. intros i m allErrs _.
    by destruct (validateMatch_is_Some m (Index (Child fieldPath "matches") i) upstreamNames)
      as [errs ->]. }
  destruct Hmatches as [allErrs3 ->]. cbn [mbind option_bind].
  destruct (negb (String.eqb (Route.Route route) "")); [destruct isRouteFieldForbidden|];
    by destruct (negb _).
Qed.

(** One round of the loop over the subroutes returns, only appends to the
    errors, and appends the error of the prefix when the path of the
    subroute, not itself a regex or an exact match, does not start with the
    non-empty path of the parent. *)
Lemma validateVirtualServerRouteSubroutes_route_spec (fieldPath : Path)
    (upstreamNames : gset string) (vsPath : string) (i : Z) (r : Route.t)
    (allErrs : ErrorList) (allPaths : gset string) :
  ∃ errs allPaths',
    validateVirtualServerRouteSubroutes_route fieldPath upstreamNames vsPath i r
      (allErrs, allPaths)
    = Some (allErrs ++ errs, allPaths') ∧
    (vsPath ≠ "" → go_strings.HasPrefix (Route.Path r) vsPath = false →
     isRegexOrExactMatch (Route.Path r) = false →
     Invalid (Index fieldPath i) (StringValue (Route.Path r))
       ("must start with '" +:+ vsPath +:+ "'") ∈ errs).
Proof.
  unfold validateVirtualServerRouteSubroutes_route.
  destruct (validateRoute_is_Some r (Index fieldPath i) upstreamNames true) as [routeErrs ->].
  cbn [mbind option_bind].
  destruct (negb (String.eqb vsPath "") && negb (go_strings.HasPrefix (Route.Path r) vsPath)
            && negb (isRegexOrExactMatch (Route.Path r))) eqn:Hviolation.
  - replace (0 <? len (routeErrs ++ _))%Z with true.
    + eexists _, _. split; [done|]. intros _ _ _. apply elem_of_app. right. by left.
    + symmetry. apply Z.ltb_lt. unfold len. rewrite length_app. simpl. lia.
  - assert (Hno : vsPath ≠ "" → go_strings.HasPrefix (Route.Path r) vsPath = false →
                  isRegexOrExactMatch (Route.Path r) = false → False).
    { intros Hne Hprefix Hregex. rewrite Hprefix, Hregex in Hviolation.
      by destruct (String.eqb_spec vsPath ""). }
    destruct (0 <? len routeErrs)%Z; [|destruct (bool_decide _)].
    + eexists _, _. split; [done|]. intros. by exfalso; apply Hno.
    + eexists _, _. split; [done|]. intros. by exfalso; apply Hno.
    + exists [], ({[Route.Path r]} ∪ allPaths). rewrite app_nil_r. split; [done|].
      intros. by exfalso; apply Hno.
Qed.

Lemma validateVirtualServerRouteSubroutes_loop (fieldPath : Path)
    (upstreamNames : gset string) (vsPath : string) (routes : list Route.t) :
  ∀ i allErrs allPaths,
    ∃ errs allPaths',
      for_range_opt (validateVirtualServerRouteSubroutes_route fieldPath upstreamNames vsPath)
        i routes (allErrs, allPaths)
      = Some (allErrs ++ errs, allPaths') ∧
      (∀ k r, routes !! k = Some r →
         vsPath ≠ "" → go_strings.HasPrefix (Route.Path r) vsPath = false →
         isRegexOrExactMatch (Route.Path r) = false →
         Invalid (Index fieldPath (i + Z.of_nat k)) (StringValue (Route.Path r))
           ("must start with '" +:+ vsPath +:+ "'") ∈ errs).
Proof.
  induction routes as [|r routes IH]; intros i allErrs allPaths.
  - exists [], allPaths. split; [by rewrite app_nil_r | done].
  - destruct (validateVirtualServerRouteSubroutes_route_spec fieldPath upstreamNames vsPath
                i r allErrs allPaths) as (errs1 & allPaths1 & Hround & Hviolation1).
    destruct (IH (i + 1)%Z (allErrs ++ errs1) allPaths1)
      as (errs2 & allPaths2 & Hloop & Hviolation2).
    exists (errs1 ++ errs2), allPaths2. split.
    + cbn [for_range_opt]. rewrite Hround. cbn [mbind option_bind].
      by rewrite Hloop, app_assoc.
    + intros k r' Hk Hne Hprefix Hregex. apply elem_of_app. destruct k as [|k].
      * injection Hk as <-. left. rewrite Z.add_0_r. by apply Hviolation1.
      * right. replace (i + Z.of_nat (S k))%Z with (i + 1 + Z.of_nat k)%Z by lia.
        by apply (Hviolation2 k r').
Qed.

(** C7. Validation of the subroutes of a VirtualServerRoute against the path
    of the VirtualServer route that refers to it. When that path is a regex
    or an exact match, validation succeeds only if there is exactly one
    subroute and its path equals the parent path: any other number of
    subroutes, and a different path, each get an error. Otherwise, for a
    non-empty parent path, every subroute whose path is not itself a regex or
    an exact match must have the parent path as a prefix of its path: a
    subroute that has not gets an error at its field path (the index of the
    subroute under [fieldPath]), with its path as the bad value. *)
Theorem validateVirtualServerRouteSubroutes_parent_path (routes : list Route.t)
    (fieldPath : Path) (upstreamNames : gset string) (vsPath : string) :
  is_Some (validateVirtualServerRouteSubroutes routes fieldPath upstreamNames vsPath) ∧
  (isRegexOrExactMatch vsPath = true →
   (validateVirtualServerRouteSubroutes routes fieldPath upstreamNames vsPath = Some [] →
    ∃ r, routes = [r] ∧ Route.Path r = vsPath) ∧
   (length routes ≠ 1%nat →
    validateVirtualServerRouteSubroutes routes fieldPath upstreamNames vsPath
    = Some [Invalid fieldPath (StringValue "subroutes")
              "must have only one subroute if regex match or exact match are being used"]) ∧
   (∀ r, routes = [r] → Route.Path r ≠ vsPath →
      validateVirtualServerRouteSubroutes routes fieldPath upstreamNames vsPath
      = Some [Invalid (Child (Index fieldPath 0) "path") (StringValue (Route.Path r))
                "must have the same path as the referenced VirtualServer route path"]) ∧
   (∀ r, routes = [r] → Route.Path r = vsPath →
      validateVirtualServerRouteSubroutes routes fieldPath upstreamNames vsPath
      = validateRoute r (Index fieldPath 0) upstreamNames true)) ∧
  (isRegexOrExactMatch vsPath = false → vsPath ≠ "" →
   ∃ errs,
     validateVirtualServerRouteSubroutes routes fieldPath upstreamNames vsPath = Some errs ∧
     (∀ k r, routes !! k = Some r →
        isRegexOrExactMatch (Route.Path r) = false →
        go_strings.HasPrefix (Route.Path r) vsPath = false →
        Invalid (Index fieldPath (Z.of_nat k)) (StringValue (Route.Path r))
          ("must start with '" +:+ vsPath +:+ "'") ∈ errs) ∧
     (errs = [] →
      ∀ k r, routes !! k = Some r →
        isRegexOrExactMatch (Route.Path r) = false →
        go_strings.HasPrefix (Route.Path r) vsPath = true)).
Proof.
  destruct (validateVirtualServerRouteSubroutes_loop fieldPath upstreamNames vsPath routes
              0 [] ∅) as (errs & allPaths & Hloop & Hviolation).
  setoid_rewrite Z.add_0_l in Hviolation.
  unfold validateVirtualServerRouteSubroutes. rewrite Hloop.
  split; [|split].
  - destruct (isRegexOrExactMatch vsPath); [|done].
    destruct routes as [|r [|r' routes]]; [done| |done].
    destruct (negb _); [done|]. apply validateRoute_is_Some.
  - intros ->. split; [|split; [|split]].
    + destruct routes as [|r [|r' routes]]; [done| |done].
      destruct (String.eqb_spec (Route.Path r) vsPath) as [Hpath|Hpath]; [|done].
      intros _. by exists r.
    + intros Hlen. by destruct routes as [|r [|r' routes]].
    + intros r -> Hpath. by destruct (String.eqb_spec (Route.Path r) vsPath).
    + intros r -> Hpath. by destruct (String.eqb_spec (Route.Path r) vsPath).
  - intros -> Hne. exists errs. split; [done|]. split.
    + intros k r Hk Hregex Hprefix. by apply (Hviolation k r).
    + intros -> k r Hk Hregex.
      destruct (go_strings.HasPrefix (Route.Path r) vsPath) eqn:Hprefix; [done|].
      by destruct (not_elem_of_nil _ (Hviolation k r Hk Hne Hprefix Hregex)).
Qed.

End subroutes.

(** C7, the witness: under the parent path /coffee, the subroute /tea gets
    the error of the prefix at [spec.subroutes[0]]. *)
Lemma validateVirtualServerRouteSubroutes_parent_path_witness :
  ∃ errs,
    validateVirtualServerRouteSubroutes [Route.mk "/tea" "" (example.pass "tea") [] []]
      (Child (NewPath "spec") "subroutes") {[ "tea" ]} "/coffee" = Some errs ∧
    (∀ k r, [Route.mk "/tea" "" (example.pass "tea") [] []] !! k = Some r →
       isRegexOrExactMatch (Route.Path r) = false →
       go_strings.HasPrefix (Route.Path r) "/coffee" = false →
       Invalid (Index (Child (NewPath "spec") "subroutes") (Z.of_nat k))
         (StringValue (Route.Path r)) ("must start with '" +:+ "/coffee" +:+ "'") ∈ errs) ∧
    (errs = [] →
     ∀ k r, [Route.mk "/tea" "" (example.pass "tea") [] []] !! k = Some r →
       isRegexOrExactMatch (Route.Path r) = false →
       go_strings.HasPrefix (Route.Path r) "/coffee" = true).
Proof.
  apply (validateVirtualServerRouteSubroutes_parent_path
           [Route.mk "/tea" "" (example.pass "tea") [] []]
           (Child (NewPath "spec") "subroutes") {[ "tea" ]} "/coffee");
    [reflexivity | discriminate].
Defined.

(** ** Commercial-only fields of an upstream *)

Lemma for_range_invariant {A St} (P : St → Prop) (body : Z → A → St → St) (l : list A) :
  (∀ i x st, P st → P (body i x st)) → ∀ i st, P st → P (for_range body i l st).
Proof.
  intros Hbody. induction l as [|x l IH]; intros i st Hst; simpl; [done|].
  by apply IH, Hbody.
Qed.

Lemma foldl_invariant {A St} (P : St → Prop) (f : St → A → St) (l : list A) :
  (∀ st x, P st → P (f st x)) → ∀ st, P st → P (foldl f st l).
Proof.
  intros Hf. induction l as [|x l IH]; intros st Hst; simpl; [done|].
  by apply IH, Hf.
Qed.

Lemma not_forbidden_app (errs1 errs2 : ErrorList) :
  spec.not_forbidden errs1 → spec.not_forbidden errs2 → spec.not_forbidden (errs1 ++ errs2).
Proof. apply Forall_app_2. Qed.

Lemma not_forbidden_append_each {A} (allErrs : ErrorList) (mk : A → Error) (msgs : list A) :
  spec.not_forbidden allErrs →
  (∀ msg, Type_ (mk msg) ≠ ErrorTypeForbidden) →
  spec.not_forbidden (append_each allErrs mk msgs).
Proof.
  intros Hall Hmk. rewrite append_each_app. apply not_forbidden_app; [done|].
  apply Forall_fmap, Forall_forall. intros msg _. apply Hmk.
Qed.

(** Goals [spec.not_forbidden errs] where [errs] is built from errors of the
    other kinds by appending and by case distinctions. *)
Ltac not_forbidden :=
  repeat first
    [ assumption
    | apply Forall_nil_2
    | apply not_forbidden_app
    | apply not_forbidden_append_each; [|intros; discriminate]
    | apply Forall_cons_2; [discriminate|]
    | match goal with
      | |- spec.not_forbidden (if ?b then _ else _) => destruct b
      | |- spec.not_forbidden (match ?o with Some _ => _ | None => _ end) => destruct o
      | |- spec.not_forbidden (let _ := _ in _) => cbv zeta
      end ].

Section upstream_fields.
Context `{ValidatorEnv}.

Lemma validateDNS1035Label_not_forbidden (name : string) (fieldPath : Path) :
  spec.not_forbidden (validateDNS1035Label name fieldPath).
Proof. unfold validateDNS1035Label. not_forbidden. Qed.

Lemma validateTime_not_forbidden (time : string) (fieldPath : Path) :
  spec.not_forbidden (validateTime time fieldPath).
Proof. unfold validateTime. not_forbidden. Qed.

Lemma validatePositiveIntOrZeroFromPointer_not_forbidden (n : option Z) (fieldPath : Path) :
  spec.not_forbidden (validatePositiveIntOrZeroFromPointer n fieldPath).
Proof. unfold validatePositiveIntOrZeroFromPointer. not_forbidden. Qed.

Lemma validateSize_not_forbidden (size : string) (fieldPath : Path) :
  spec.not_forbidden (validateSize size fieldPath).
Proof. unfold validateSize. not_forbidden. Qed.

Lemma validatePath_not_forbidden (path : string) (fieldPath : Path) :
  spec.not_forbidden (validatePath path fieldPath).
Proof. unfold validatePath. not_forbidden. Qed.

Lemma validateLabels_not_forbidden (labels : gmap string string) (fieldPath : Path) :
  spec.not_forbidden (validateLabels labels fieldPath).
Proof.
  unfold validateLabels. apply foldl_invariant; [|by not_forbidden].
  intros allErrs [labelName labelValue] Hall. unfold isValidLabelName. not_forbidden.
Qed.

Lemma validateNextUpstream_not_forbidden (nextUpstream : string) (fieldPath : Path) :
  spec.not_forbidden (validateNextUpstream nextUpstream fieldPath).
Proof.
  unfold validateNextUpstream. destruct (String.eqb _ _); [by not_forbidden|].
  apply (foldl_invariant (λ st, spec.not_forbidden st.1)); [|by not_forbidden].
  intros [allErrs allParams] para Hall. simpl in Hall.
  destruct (negb _), (bool_decide _); simpl; not_forbidden.
Qed.

Lemma validateStatusMatch_not_forbidden (s : string) (fieldPath : Path) :
  spec.not_forbidden (validateStatusMatch s fieldPath).
Proof.
  unfold validateStatusMatch. destruct (String.eqb _ _); [by not_forbidden|].
  apply for_range_invariant; [|by not_forbidden].
  intros i value allErrs Hall. not_forbidden.
Qed.

Lemma validateUpstreamHealthCheck_not_forbidden (hc : option HealthCheck.t)
    (fieldPath : Path) :
  spec.not_forbidden (validateUpstreamHealthCheck hc fieldPath).
Proof.
  unfold validateUpstreamHealthCheck. destruct hc as [hc|]; [|by not_forbidden].
  assert (spec.not_forbidden
            (for_range
               (λ i header allErrs,
                  allErrs ++ validateHeader header (Index (Child fieldPath "headers") i))
               0 (HealthCheck.Headers hc)
               ((((((((([] ++
                  (if negb (String.eqb (HealthCheck.Path hc) "")
                   then [] ++ validatePath (HealthCheck.Path hc) (Child fieldPath "path")
                   else [])) ++
                  validateTime (HealthCheck.Interval hc) (Child fieldPath "interval")) ++
                  validateTime (HealthCheck.Jitter hc) (Child fieldPath "jitter")) ++
                  validatePositiveIntOrZero (HealthCheck.Fails hc) (Child fieldPath "fails")) ++
                  validatePositiveIntOrZero (HealthCheck.Passes hc) (Child fieldPath "passes")) ++
                  validateTime (HealthCheck.ConnectTimeout hc)
                    (Child fieldPath "connect-timeout")) ++
                  validateTime (HealthCheck.ReadTimeout hc) (Child fieldPath "read-timeout")) ++
                  validateTime (HealthCheck.SendTimeout hc) (Child fieldPath "send-timeout")) ++
                  validateStatusMatch (HealthCheck.StatusMatch hc)
                    (Child fieldPath "statusMatch")))) as Hloop.
  { apply for_range_invariant.
    - intros i header allErrs Hall. unfold validateHeader. not_forbidden.
    - pose proof validateTime_not_forbidden. pose proof validatePath_not_forbidden.
      pose proof validateStatusMatch_not_forbidden.
      unfold validatePositiveIntOrZero. not_forbidden; done. }
  cbv zeta. destruct (negb (String.eqb (HealthCheck.Path hc) "")) eqn:Hpath;
    cbn [app] in *; destruct (0 <? HealthCheck.Port hc)%Z; not_forbidden.
Qed.

Lemma validateSessionCookie_not_forbidden (sc : option SessionCookie.t) (fieldPath : Path) :
  spec.not_forbidden (validateSessionCookie sc fieldPath).
Proof.
  pose proof validateTime_not_forbidden. pose proof validatePath_not_forbidden.
  unfold validateSessionCookie. not_forbidden; done.
Qed.

Lemma validateQueue_not_forbidden (queue : option UpstreamQueue.t) (fieldPath : Path) :
  spec.not_forbidden (validateQueue queue fieldPath).
Proof.
  pose proof validateTime_not_forbidden. unfold validateQueue. not_forbidden; done.
Qed.

Lemma validateBuffer_not_forbidden (buff : option UpstreamBuffers.t) (fieldPath : Path) :
  spec.not_forbidden (validateBuffer buff fieldPath).
Proof.
  pose proof validateSize_not_forbidden. unfold validateBuffer. not_forbidden; done.
Qed.

Lemma validateUpstreamLBMethod_not_forbidden (lBMethod : string) (fieldPath : Path)
    (isPlus : bool) :
  spec.not_forbidden (validateUpstreamLBMethod lBMethod fieldPath isPlus).
Proof. unfold validateUpstreamLBMethod. not_forbidden. Qed.

Lemma validateOffset_not_forbidden (offset : string) (fieldPath : Path) :
  spec.not_forbidden (validateOffset offset fieldPath).
Proof. unfold validateOffset. not_forbidden. Qed.

(** The errors of [rejectPlusResourcesInOSS]: none in the commercial tier;
    in the OSS tier one Forbidden error for each commercial-only field that
    is there, at the path of the field, in this order. *)
Lemma rejectPlusResourcesInOSS_errors (upstream : Upstream.t) (idxPath : Path) (isPlus : bool) :
  rejectPlusResourcesInOSS upstream idxPath isPlus
  = if isPlus then []
    else
      (if Upstream.HealthCheck upstream is Some _
       then [Forbidden (Child idxPath "healthCheck")
               "active health checks are only supported in NGINX Plus"]
       else []) ++
      (if negb (String.eqb (Upstream.SlowStart upstream) "")
       then [Forbidden (Child idxPath "slow-start") "slow start is only supported in NGINX Plus"]
       else []) ++
      (if Upstream.SessionCookie upstream is Some _
       then [Forbidden (Child idxPath "sessionCookie")
               "sticky cookies are only supported in NGINX Plus"]
       else []) ++
      (if Upstream.Queue upstream is Some _
       then [Forbidden (Child idxPath "queue") "queue is only supported in NGINX Plus"]
       else []).
Proof.
  unfold rejectPlusResourcesInOSS. destruct isPlus; [done|].
  by destruct (Upstream.HealthCheck upstream), (negb _), (Upstream.SessionCookie upstream),
    (Upstream.Queue upstream).
Qed.

(** One round of the loop of [validateUpstreams] only appends to the errors;
    what it appends holds the errors of [rejectPlusResourcesInOSS] for the
    upstream and, besides them, no Forbidden error. *)
Lemma validateUpstreams_upstream_spec (fieldPath : Path) (isPlus : bool) (i : Z)
    (u : Upstream.t) (allErrs : ErrorList) (upstreamNames : gset string) :
  ∃ others upstreamNames',
    validateUpstreams_upstream fieldPath isPlus i u (allErrs, upstreamNames)
    = (allErrs ++ others ++ rejectPlusResourcesInOSS u (Index fieldPath i) isPlus,
       upstreamNames') ∧
    spec.not_forbidden others.
Proof.
  unfold validateUpstreams_upstream. cbv zeta.
  pose proof (validateDNS1035Label_not_forbidden (Upstream.Name u)
                (Child (Index fieldPath i) "name")) as Hname.
  fold (validateUpstreamName (Upstream.Name u) (Child (Index fieldPath i) "name")) in Hname.
  set (reject := rejectPlusResourcesInOSS u (Index fieldPath i) isPlus).
  assert (spec.not_forbidden
            ((λ msg, Invalid (Child (Index fieldPath i) "port") (IntValue (Upstream.Port u)) msg)
               <$> IsValidPortNum (Upstream.Port u))) as Hport.
  { apply Forall_fmap, Forall_forall. by intros. }
  pose proof validateDNS1035Label_not_forbidden. pose proof validateTime_not_forbidden.
  pose proof validateLabels_not_forbidden. pose proof validateNextUpstream_not_forbidden.
  pose proof validatePositiveIntOrZeroFromPointer_not_forbidden.
  pose proof validateUpstreamLBMethod_not_forbidden. pose proof validateOffset_not_forbidden.
  pose proof validateUpstreamHealthCheck_not_forbidden. pose proof validateBuffer_not_forbidden.
  pose proof validateSize_not_forbidden. pose proof validateQueue_not_forbidden.
  pose proof validateSessionCookie_not_forbidden.
  destruct (0 <? len (validateUpstreamName _ _))%Z; [|destruct (bool_decide _)];
    rewrite append_each_app, <- !app_assoc;
    match goal with
    | |- ∃ _ _, (allErrs ++ ?rest, ?names) = _ ∧ _ =>
        match rest with
        | context C [reject] =>
            let others := context C [@nil Error] in
            exists others, names
        end
    | |- ∃ _ _, (?rest, ?names) = _ ∧ _ =>
        match rest with
        | context C [reject] =>
            let others := context C [@nil Error] in
            exists others, names
        end
    end.
  all: split; [by rewrite <- ?app_assoc, ?app_nil_r | unfold validateServiceName; not_forbidden; done].
Qed.

Lemma validateUpstreams_loop (fieldPath : Path) (isPlus : bool) (upstreams : list Upstream.t) :
  ∀ i allErrs upstreamNames,
    ∃ errs upstreamNames',
      for_range (validateUpstreams_upstream fieldPath isPlus) i upstreams
        (allErrs, upstreamNames)
      = (allErrs ++ errs, upstreamNames') ∧
      (isPlus = true → spec.not_forbidden errs) ∧
      (∀ k u e, upstreams !! k = Some u →
         e ∈ rejectPlusResourcesInOSS u (Index fieldPath (i + Z.of_nat k)) isPlus →
         e ∈ errs).
Proof.
  induction upstreams as [|u upstreams IH]; intros i allErrs upstreamNames.
  - exists [], upstreamNames. split; [by rewrite app_nil_r|]. split; [by constructor | done].
  - destruct (validateUpstreams_upstream_spec fieldPath isPlus i u allErrs upstreamNames)
      as (others & names1 & Hround & Hothers).
    destruct (IH (i + 1)%Z
                (allErrs ++ others ++ rejectPlusResourcesInOSS u (Index fieldPath i) isPlus)
                names1) as (errs & names2 & Hloop & Hplus & Hreject).
    exists ((others ++ rejectPlusResourcesInOSS u (Index fieldPath i) isPlus) ++ errs), names2.
    split; [|split].
    + cbn [for_range]. by rewrite Hround, Hloop, <- !app_assoc.
    + intros ->. repeat apply not_forbidden_app; [done | | by apply Hplus].
      rewrite rejectPlusResourcesInOSS_errors. by constructor.
    + intros k u' e Hk He. apply elem_of_app. destruct k as [|k].
      * injection Hk as <-. left. apply elem_of_app. right. by rewrite Z.add_0_r in He.
      * right. apply (Hreject k u' e Hk).
        by replace (i + 1 + Z.of_nat k)%Z with (i + Z.of_nat (S k))%Z by lia.
Qed.

(** C6. Validation of upstreams in the OSS tier produces, for every upstream
    and for each of its commercial-only fields that is there (a health check,
    a non-empty slow start, a session cookie, a queue), a Forbidden error at
    the path of that field. In the commercial tier the validation of
    upstreams produces no Forbidden error at all, whatever fields are
    there. *)
Theorem rejectPlusResourcesInOSS_gating (upstreams : list Upstream.t) (fieldPath : Path) :
  (∀ k u, upstreams !! k = Some u →
     (is_Some (Upstream.HealthCheck u) →
      Forbidden (Child (Index fieldPath (Z.of_nat k)) "healthCheck")
        "active health checks are only supported in NGINX Plus"
      ∈ (validateUpstreams upstreams fieldPath false).1) ∧
     (Upstream.SlowStart u ≠ "" →
      Forbidden (Child (Index fieldPath (Z.of_nat k)) "slow-start")
        "slow start is only supported in NGINX Plus"
      ∈ (validateUpstreams upstreams fieldPath false).1) ∧
     (is_Some (Upstream.SessionCookie u) →
      Forbidden (Child (Index fieldPath (Z.of_nat k)) "sessionCookie")
        "sticky cookies are only supported in NGINX Plus"
      ∈ (validateUpstreams upstreams fieldPath false).1) ∧
     (is_Some (Upstream.Queue u) →
      Forbidden (Child (Index fieldPath (Z.of_nat k)) "queue")
        "queue is only supported in NGINX Plus"
      ∈ (validateUpstreams upstreams fieldPath false).1)) ∧
  (∀ e, e ∈ (validateUpstreams upstreams fieldPath true).1 → Type_ e ≠ ErrorTypeForbidden) ∧
  (∀ u idxPath, rejectPlusResourcesInOSS u idxPath true = []).
Proof.
  split; [|split].
  - intros k u Hk. unfold validateUpstreams.
    destruct (validateUpstreams_loop fieldPath false upstreams 0 [] ∅)
      as (errs & names & -> & _ & Hreject).
    cbn [fst app]. specialize (Hreject k u). rewrite Z.add_0_l in Hreject.
    setoid_rewrite rejectPlusResourcesInOSS_errors in Hreject.
    repeat split.
    + intros [hc Hhc]. apply Hreject; [done|]. rewrite Hhc. by left.
    + intros Hslow. apply Hreject; [done|].
      destruct (String.eqb_spec (Upstream.SlowStart u) ""); [done|].
      apply elem_of_app. right. by left.
    + intros [sc Hsc]. apply Hreject; [done|]. rewrite Hsc.
      do 2 (apply elem_of_app; right). by left.
    + intros [q Hq]. apply Hreject; [done|]. rewrite Hq.
      do 3 (apply elem_of_app; right). by left.
  - unfold validateUpstreams.
    destruct (validateUpstreams_loop fieldPath true upstreams 0 [] ∅)
      as (errs & names & -> & Hplus & _).
    cbn [fst app]. intros e He. by apply (proj1 (Forall_forall _ _) (Hplus eq_refl) e).
  - done.
Qed.

End upstream_fields.

(** C6, the witness: an upstream with a slow start and a queue, validated as
    [spec.upstreams[0]] in the OSS tier. *)
Lemma rejectPlusResourcesInOSS_gating_witness :
  Forbidden (Child (Index (Child (NewPath "spec") "upstreams") 0) "slow-start")
    "slow start is only supported in NGINX Plus"
  ∈ (validateUpstreams
       [Upstream.mk "tea" "tea-svc" ∅ 80 "" "" None None None "" "" "" "" "" 0 None None "" ""
          (UpstreamTLS.mk false) None "10s" (Some (UpstreamQueue.mk 10 "")) None]
       (Child (NewPath "spec") "upstreams") false).1.
Proof.
  destruct (proj1 (rejectPlusResourcesInOSS_gating
                     [Upstream.mk "tea" "tea-svc" ∅ 80 "" "" None None None "" "" "" "" "" 0
                        None None "" "" (UpstreamTLS.mk false) None "10s"
                        (Some (UpstreamQueue.mk 10 "")) None]
                     (Child (NewPath "spec") "upstreams")) 0%nat _ eq_refl)
    as (_ & Hslow & _).
  apply Hslow. discriminate.
Defined.

(** ** Tests of the repository, replayed on the model *)

(** TestGenerateValueForMatchesRouteMap *)
Example test_generateValueForMatchesRouteMap :
  generateValueForMatchesRouteMap <$>
    ["default"; "!default"; "hostnames"; "include"; "volatile"; "abc"; "!abc"; ""; "!"]
  = [ (backslash +:+ "default", false); (backslash +:+ "default", true);
      (backslash +:+ "hostnames", false); (backslash +:+ "include", false);
      (backslash +:+ "volatile", false); (dquote +:+ "abc" +:+ dquote, false);
      (dquote +:+ "abc" +:+ dquote, true); (dquote +:+ dquote, false);
      (dquote +:+ dquote, true) ].
Proof. reflexivity. Qed.

(** TestGeneratePath *)
Example test_generatePath :
  generatePath <$> ["/"; "=/exact/match"; "~ *\\.jpg"; "~* *\\.PNG"]
  = [ "/"; "=/exact/match"; "~ " +:+ dquote +:+ "*\\.jpg" +:+ dquote;
      "~* " +:+ dquote +:+ "*\\.PNG" +:+ dquote ].
Proof. reflexivity. Qed.

(** TestVariableNamerSafeNsName and TestVariableNamer *)
Example test_variableNamer :
  safeNsName (newVariableNamer (VirtualServer.mk "default" "cafe-test"
                                  (VirtualServerSpec.mk "" None [] [])))
  = "default_cafe_test" ∧
  GetNameForSplitClientVariable example.cafe_variableNamer 0 = "$vs_default_cafe_splits_0" ∧
  GetNameForVariableForMatchesRouteMap example.cafe_variableNamer 1 2 3
  = "$vs_default_cafe_matches_1_match_2_cond_3" ∧
  GetNameForVariableForMatchesRouteMainMap example.cafe_variableNamer 2
  = "$vs_default_cafe_matches_2".
Proof. by vm_compute. Qed.

(** TestGenerateEndpointsForUpstream: the ExternalName service with and
    without a resolver, the service with endpoints, and the service with no
    endpoints in each of the tiers. *)
Example test_generateEndpointsForUpstream :
  (generateEndpointsForUpstream (newVirtualServerConfigurator example.cfgParams true true)
     (VirtualServerObject 1) "test-namespace" (example.upstream "" "test" 80)
     (example.externalname_snapshot {[ "test-namespace/test:80" := ["example.com:80"] ]})).1
  = ["example.com:80"] ∧
  (generateEndpointsForUpstream (newVirtualServerConfigurator example.cfgParams true false)
     (VirtualServerObject 1) "test-namespace" (example.upstream "" "test" 80)
     (example.externalname_snapshot {[ "test-namespace/test:80" := ["example.com:80"] ]})).1
  = [] ∧
  (generateEndpointsForUpstream (newVirtualServerConfigurator example.cfgParams false false)
     (VirtualServerObject 1) "test-namespace" (example.upstream "" "test" 8080)
     (VirtualServerEx.mk (example.cafe [] [])
        {[ "test-namespace/test:8080" := ["192.168.10.10:8080"] ]} [] ∅)).1
  = ["192.168.10.10:8080"] ∧
  (generateEndpointsForUpstream (newVirtualServerConfigurator example.cfgParams false false)
     (VirtualServerObject 1) "test-namespace" (example.upstream "" "test" 8080)
     (VirtualServerEx.mk (example.cafe [] []) ∅ [] ∅)).1
  = [nginx502Server] ∧
  (generateEndpointsForUpstream (newVirtualServerConfigurator example.cfgParams true false)
     (VirtualServerObject 1) "test-namespace" (example.upstream "" "test" 8080)
     (VirtualServerEx.mk (example.cafe [] []) ∅ [] ∅)).1
  = [].
Proof. by vm_compute. Qed.

(** TestGenerateMatchesConfigWithMultipleSplits (scenario 4 of the
    specification): two matches with splits and default splits, the first
    split-client being number 2; the results of the main map are the
    variables of the split-clients 2, 3 and 4. *)
Example test_generateMatchesConfig_multiple_splits :
  (λ cfg, (version2.Parameter_.Result <$>
             from_option version2.Map.Parameters_ [] (last (Maps cfg)),
           version2.SplitClient.Variable_ <$> SplitClients cfg)) <$>
    generateMatchesConfig
      (Route.mk "/test" "" None [example.split 99 "tea-v1"; example.split 1 "tea-v2"]
         [ Match.mk [Condition.mk "x-version" "" "" "" "v1"] None
             [example.split 30 "tea-v1"; example.split 70 "tea-v2"];
           Match.mk [Condition.mk "x-version" "" "" "" "v2"] None
             [example.split 90 "coffee-v1"; example.split 10 "coffee-v2"] ])
      example.cafe_upstreamNamer ∅ example.cafe_variableNamer 1 2 example.cfgParams
  = Some ([ "$vs_default_cafe_splits_2"; "$vs_default_cafe_splits_3";
            "$vs_default_cafe_splits_4" ],
          [ "$vs_default_cafe_splits_2"; "$vs_default_cafe_splits_3";
            "$vs_default_cafe_splits_4" ]).
Proof. by vm_compute. Qed.

(** * Further properties of the generator and of the validator *)

(** ** The upstreams that the generator writes *)

Lemma foldl_snoc_fmap {A B} (f : A → B) (l : list A) (acc : list B) :
  foldl (λ acc x, acc ++ [f x]) acc l = acc ++ (f <$> l).
Proof.
  revert acc. induction l as [|x l IH]; intros acc; simpl; [by rewrite app_nil_r|].
  by rewrite IH, <- app_assoc.
Qed.

(** What [generateUpstream] returns is one of two records, which differ in
    the three fields of the commercial tier. *)
Lemma generateUpstream_fields (vsc : virtualServerConfigurator) (owner : Object)
    (upstreamName : string) (upstream : Upstream.t) (isExternalNameSvc : bool)
    (endpoints : list string) (P : version2.Upstream.t → Prop) :
  (∀ slowStart queue sessionCookie,
     P {| version2.Upstream.Name := upstreamName;
          version2.Upstream.Servers :=
            (λ e, {| version2.UpstreamServer.Address := e |}) <$> endpoints;
          version2.Upstream.LBMethod :=
            generateLBMethod (Upstream.LBMethod upstream) (ConfigParams.LBMethod (cfgParams vsc));
          version2.Upstream.Resolve := isExternalNameSvc;
          version2.Upstream.Keepalive :=
            generateIntFromPointer (Upstream.Keepalive upstream)
              (ConfigParams.Keepalive (cfgParams vsc));
          version2.Upstream.MaxFails :=
            generateIntFromPointer (Upstream.MaxFails upstream)
              (ConfigParams.MaxFails (cfgParams vsc));
          version2.Upstream.MaxConns :=
            generateIntFromPointer (Upstream.MaxConns upstream)
              (ConfigParams.MaxConns (cfgParams vsc));
          version2.Upstream.SlowStart := slowStart;
          version2.Upstream.FailTimeout :=
            generateString (Upstream.FailTimeout upstream)
              (ConfigParams.FailTimeout (cfgParams vsc));
          version2.Upstream.UpstreamZoneSize := ConfigParams.UpstreamZoneSize (cfgParams vsc);
          version2.Upstream.Queue := queue;
          version2.Upstream.SessionCookie := sessionCookie |}) →
  P (generateUpstream vsc owner upstreamName upstream isExternalNameSvc endpoints).1.
Proof.
  intros HP. unfold generateUpstream. destruct (isPlus vsc).
  - destruct (generateSlowStartForPlus _ _ _ _) as [slowStart vsc']. apply HP.
  - apply HP.
Qed.

(** X1. The endpoints that [createEndpointsFromUpstream] reads back from an
    upstream that [generateUpstream] has built are the endpoints that the
    upstream was built from, in the same order, in both tiers. *)
Theorem createEndpointsFromUpstream_generateUpstream (vsc : virtualServerConfigurator)
    (owner : Object) (upstreamName : string) (upstream : Upstream.t)
    (isExternalNameSvc : bool) (endpoints : list string) :
  createEndpointsFromUpstream
    (generateUpstream vsc owner upstreamName upstream isExternalNameSvc endpoints).1
  = endpoints.
Proof.
  apply generateUpstream_fields. intros slowStart queue sessionCookie.
  unfold createEndpointsFromUpstream. rewrite foldl_snoc_fmap. cbn [version2.Upstream.Servers app].
  rewrite <- list_fmap_compose. apply list_fmap_id.
Qed.

Lemma has_key_incompatibleLBMethodsForSlowStart (lbMethod : string) :
  has_key incompatibleLBMethodsForSlowStart lbMethod
  = bool_decide
      (lbMethod ∈ [ "random"; "ip_hash"; "random two"; "random two least_conn";
                     "random two least_time=header"; "random two least_time=last_byte" ]).
Proof.
  unfold has_key, incompatibleLBMethodsForSlowStart.
  destruct (decide (lbMethod ∈ [ "random"; "ip_hash"; "random two"; "random two least_conn";
                                  "random two least_time=header";
                                  "random two least_time=last_byte" ])) as [Hin|Hnin].
  - rewrite (bool_decide_eq_true_2 _ Hin).
    set_unfold. by destruct Hin as [->|[->|[->|[->|[->|[->|[]]]]]]].
  - rewrite (bool_decide_eq_false_2 _ Hnin). set_unfold.
    simpl. rewrite !lookup_insert_ne by naive_solver. done.
Qed.

(** X2. Slow start in the commercial tier. For an upstream that sets a slow
    start, what counts is the effective load-balancing method (the method of
    the upstream, the fleet default when the upstream names none, and none
    for [round_robin]). When that method is incompatible with slow start,
    the generated upstream has no slow start and one warning, which names
    the upstream and the method, is appended to the warnings of the owner,
    the warnings of every other resource being left alone; otherwise the slow
    start of the upstream is taken over and no warning is added. *)
Theorem generateUpstream_slow_start (vsc : virtualServerConfigurator) (owner : Object)
    (upstreamName : string) (upstream : Upstream.t) (isExternalNameSvc : bool)
    (endpoints : list string) :
  isPlus vsc = true →
  Upstream.SlowStart upstream ≠ "" →
  let lbMethod :=
    generateLBMethod (Upstream.LBMethod upstream) (ConfigParams.LBMethod (cfgParams vsc)) in
  let result := generateUpstream vsc owner upstreamName upstream isExternalNameSvc endpoints in
  (spec.incompatible_with_slow_start lbMethod →
   version2.Upstream.SlowStart result.1 = "" ∧
   warnings result.2 !! owner
   = Some (default [] (warnings vsc !! owner) ++
           ["Slow start will be disabled for upstream " +:+ Upstream.Name upstream
              +:+ " because lb method '" +:+ lbMethod +:+ "' is incompatible with slow start"]) ∧
   ∀ o, o ≠ owner → warnings result.2 !! o = warnings vsc !! o) ∧
  (¬ spec.incompatible_with_slow_start lbMethod →
   version2.Upstream.SlowStart result.1 = Upstream.SlowStart upstream ∧ result.2 = vsc).
Proof.
  intros Hplus Hslow lbMethod result. subst result. unfold generateUpstream.
  rewrite Hplus. fold lbMethod. unfold generateSlowStartForPlus.
  destruct (String.eqb_spec (Upstream.SlowStart upstream) "") as [|_]; [done|].
  rewrite has_key_incompatibleLBMethodsForSlowStart.
  unfold spec.incompatible_with_slow_start.
  destruct (bool_decide_reflect
              (lbMethod ∈ [ "random"; "ip_hash"; "random two"; "random two least_conn";
                             "random two least_time=header";
                             "random two least_time=last_byte" ])) as [Hin|Hnin];
    [|destruct (go_strings.HasPrefix lbMethod "hash") eqn:Hhash]; cbn [orb fst snd].
  - split; [|by intros []; left]. intros _. split; [done|].
    rewrite addWarningf_lookup, decide_True by done. split; [done|].
    intros o Ho. by rewrite addWarningf_lookup, decide_False.
  - split; [|by intros []; right]. intros _. split; [done|].
    rewrite addWarningf_lookup, decide_True by done. split; [done|].
    intros o Ho. by rewrite addWarningf_lookup, decide_False.
  - split; [|done]. by intros [|].
Qed.

(** X2, the witness: a slow start of 10s under the method [ip_hash]. *)
Lemma generateUpstream_slow_start_witness :
  version2.Upstream.SlowStart
    (generateUpstream (newVirtualServerConfigurator example.cfgParams true false)
       (VirtualServerObject 1) "vs_default_cafe_tea"
       (Upstream.mk "tea" "tea-svc" ∅ 80 "ip_hash" "" None None None "" "" "" "" "" 0 None None
          "" "" (UpstreamTLS.mk false) None "10s" None None)
       false ["10.0.0.20:80"]).1 = "" ∧
  warnings
    (generateUpstream (newVirtualServerConfigurator example.cfgParams true false)
       (VirtualServerObject 1) "vs_default_cafe_tea"
       (Upstream.mk "tea" "tea-svc" ∅ 80 "ip_hash" "" None None None "" "" "" "" "" 0 None None
          "" "" (UpstreamTLS.mk false) None "10s" None None)
       false ["10.0.0.20:80"]).2 !! VirtualServerObject 1
  = Some ["Slow start will be disabled for upstream tea because lb method 'ip_hash' is incompatible with slow start"].
Proof.
  destruct (proj1 (generateUpstream_slow_start
                     (newVirtualServerConfigurator example.cfgParams true false)
                     (VirtualServerObject 1) "vs_default_cafe_tea"
                     (Upstream.mk "tea" "tea-svc" ∅ 80 "ip_hash" "" None None None "" "" "" ""
                        "" 0 None None "" "" (UpstreamTLS.mk false) None "10s" None None)
                     false ["10.0.0.20:80"] eq_refl ltac:(discriminate)))
    as (Hslow & Hwarn & _).
  - left. by vm_compute; set_solver.
  - split; [exact Hslow | exact Hwarn].
Defined.

(** ** Invariants of the loops over the upstreams *)

Section upstream_loops.
Context `{GeneratorEnv}.

(** An invariant of the variables of the loops that generate upstreams,
    which every round keeps for the upstreams of the VirtualServer (under its
    own name as owner) and for those of each VirtualServerRoute, holds of what
    [GenerateVirtualServerConfig] returns. *)
Lemma GenerateVirtualServerConfig_upstreams_invariant
    (Inv : list version2.Upstream.t * list version2.StatusMatch.t
           * list version2.HealthCheck.t * gmap string Upstream.t * virtualServerConfigurator
           → Prop)
    (vsc : virtualServerConfigurator) (virtualServerEx : VirtualServerEx.t)
    (tlsPemFileName : string) vscfg warns vsc' :
  Inv ([], [], [], ∅, clearWarnings vsc) →
  (∀ owner upstreamNamer upstreamNamespace st u,
     owner ∈ spec.owners virtualServerEx → Inv st →
     Inv (GenerateVirtualServerConfig_upstream virtualServerEx owner upstreamNamer
            upstreamNamespace st u)) →
  GenerateVirtualServerConfig vsc virtualServerEx tlsPemFileName = Some (vscfg, warns, vsc') →
  warns = warnings vsc' ∧
  ∃ crUpstreams,
    Inv (version2.VirtualServerConfig.Upstreams vscfg,
         version2.VirtualServerConfig.StatusMatches vscfg,
         version2.Server.HealthChecks (version2.VirtualServerConfig.Server vscfg),
         crUpstreams, vsc').
Proof.
  intros Hinit Hstep Hgen. unfold GenerateVirtualServerConfig in Hgen.
  match type of Hgen with
  | context [foldl ?f (foldl ?g ?st0 ?us) ?vsrs] =>
      assert (Inv (foldl f (foldl g st0 us) vsrs)) as Hinv;
      [|destruct (foldl f (foldl g st0 us) vsrs)
          as [[[[upstreams statusMatches] healthChecks] crUpstreams] vscf]]
  end.
  { assert (∀ vsrs st,
      vsrs ⊆ VirtualServerEx.VirtualServerRoutes virtualServerEx → Inv st →
      Inv (foldl
             (λ st vsr,
                foldl
                  (GenerateVirtualServerConfig_upstream virtualServerEx (vsrObject vsr)
                     (newUpstreamNamerForVirtualServerRoute
                        (deref (VirtualServerEx.VirtualServer virtualServerEx)) (deref vsr))
                     (VirtualServerRoute.Namespace (deref vsr)))
                  st (VirtualServerRouteSpec.Upstreams (VirtualServerRoute.Spec (deref vsr))))
             st vsrs)) as Hroutes.
    { induction vsrs as [|vsr vsrs IH]; intros st Hsub Hst; simpl; [done|].
      apply IH; [set_solver|]. apply foldl_invariant; [|done].
      intros st' u. apply Hstep. unfold spec.owners. right.
      apply list_elem_of_fmap_2. apply Hsub. by left. }
    apply Hroutes; [done|]. apply foldl_invariant; [|done].
    intros st u. apply Hstep. by left. }
  destruct (for_range_opt _ _ _ _) as [st|]; [|done]. cbn [mbind option_bind] in Hgen.
  destruct (for_range_opt _ _ _ _) as [[[[[locations irls] splitClients] maps] n]|]; [|done].
  cbn [mbind option_bind] in Hgen. injection Hgen as <- <- <-. split; [done|].
  by exists crUpstreams.
Qed.

(** The tier and the parameters of the configurator that a round of the loop
    leaves behind are those it found. *)
Lemma GenerateVirtualServerConfig_upstream_isPlus (virtualServerEx : VirtualServerEx.t)
    (owner : Object) (upstreamNamer : upstreamNamer) (upstreamNamespace : string) st
    (u : Upstream.t) :
  isPlus (GenerateVirtualServerConfig_upstream virtualServerEx owner upstreamNamer
            upstreamNamespace st u).2
  = isPlus st.2.
Proof.
  by destruct (GenerateVirtualServerConfig_upstream_same_settings virtualServerEx owner
                 upstreamNamer upstreamNamespace st u) as (_ & ? & _).
Qed.

(** What a round of the loop appends to [upstreams] is the upstream that
    [generateUpstream] builds from the endpoints of
    [generateEndpointsForUpstream]. *)
Lemma GenerateVirtualServerConfig_upstream_upstreams (virtualServerEx : VirtualServerEx.t)
    (owner : Object) (upstreamNamer : upstreamNamer) (upstreamNamespace : string)
    upstreams statusMatches healthChecks crUpstreams vsc (u : Upstream.t) :
  let endpoints :=
    generateEndpointsForUpstream vsc owner upstreamNamespace u virtualServerEx in
  let ups :=
    generateUpstream endpoints.2 owner (GetNameForUpstream upstreamNamer (Upstream.Name u)) u
      (has_key (VirtualServerEx.ExternalNameSvcs virtualServerEx)
         (GenerateExternalNameSvcKey upstreamNamespace (Upstream.Service u)))
      endpoints.1 in
  let st' :=
    GenerateVirtualServerConfig_upstream virtualServerEx owner upstreamNamer upstreamNamespace
      (upstreams, statusMatches, healthChecks, crUpstreams, vsc) u in
  st'.1.1.1.1 = upstreams ++ [ups.1] ∧ st'.2 = ups.2.
Proof.
  cbv zeta. unfold GenerateVirtualServerConfig_upstream.
  destruct (generateEndpointsForUpstream _ _ _ _ _) as [endpoints vsc1]. cbn [fst snd].
  destruct (generateUpstream _ _ _ _ _ _) as [ups vsc2]. cbn [fst snd].
  by destruct (generateHealthCheck _ _ _).
Qed.

(** X3. In the OSS tier no upstream of a generated configuration carries a
    field of the commercial tier: its slow start is empty, and it has neither
    a queue nor a session cookie, whatever the resources ask for. *)
Theorem GenerateVirtualServerConfig_oss_upstreams (vsc : virtualServerConfigurator)
    (virtualServerEx : VirtualServerEx.t) (tlsPemFileName : string) vscfg warns vsc' :
  isPlus vsc = false →
  GenerateVirtualServerConfig vsc virtualServerEx tlsPemFileName = Some (vscfg, warns, vsc') →
  Forall
    (λ ups,
       version2.Upstream.SlowStart ups = "" ∧ version2.Upstream.Queue ups = None ∧
       version2.Upstream.SessionCookie ups = None)
    (version2.VirtualServerConfig.Upstreams vscfg).
Proof.
  intros Hoss Hgen.
  destruct (GenerateVirtualServerConfig_upstreams_invariant
              (λ st,
                 isPlus st.2 = false ∧
                 Forall
                   (λ ups,
                      version2.Upstream.SlowStart ups = "" ∧
                      version2.Upstream.Queue ups = None ∧
                      version2.Upstream.SessionCookie ups = None)
                   st.1.1.1.1)
              vsc virtualServerEx tlsPemFileName vscfg warns vsc') as (_ & cr & _ & Hall);
    [by split | | done | done].
  intros owner upstreamNamer upstreamNamespace
    [[[[upstreams statusMatches] healthChecks] crUpstreams] vsc0] u _ [Hoss0 Hall].
  cbn [fst snd] in Hoss0, Hall.
  rewrite GenerateVirtualServerConfig_upstream_isPlus. split; [done|].
  destruct (GenerateVirtualServerConfig_upstream_upstreams virtualServerEx owner upstreamNamer
              upstreamNamespace upstreams statusMatches healthChecks crUpstreams vsc0 u)
    as [-> _].
  apply Forall_app_2; [done|]. apply Forall_singleton.
  unfold generateUpstream.
  destruct (generateEndpointsForUpstream_same_settings vsc0 owner upstreamNamespace u
              virtualServerEx) as (_ & -> & _).
  by rewrite Hoss0.
Qed.

End upstream_loops.

(** X3, the witness: in the OSS tier, a snapshot with an upstream that asks
    for a slow start and for a queue. *)
Lemma GenerateVirtualServerConfig_oss_upstreams_witness :
  ∃ vscfg warns vsc',
    GenerateVirtualServerConfig example.oss_without_resolver example.plus_snapshot ""
    = Some (vscfg, warns, vsc') ∧
    Forall
      (λ ups,
         version2.Upstream.SlowStart ups = "" ∧ version2.Upstream.Queue ups = None ∧
         version2.Upstream.SessionCookie ups = None)
      (version2.VirtualServerConfig.Upstreams vscfg).
Proof.
  destruct (GenerateVirtualServerConfig example.oss_without_resolver example.plus_snapshot "")
    as [[[vscfg warns] vsc']|] eqn:Hgen; [|by vm_compute in Hgen].
  exists vscfg, warns, vsc'. split; [done|].
  exact (GenerateVirtualServerConfig_oss_upstreams example.oss_without_resolver
           example.plus_snapshot "" vscfg warns vsc' eq_refl Hgen).
Defined.

Section upstream_invariants.
Context `{GeneratorEnv}.

(** X4. In the OSS tier, for a snapshot without ExternalName services (the
    generator notes that there are none in this tier), every upstream of the
    generated configuration has at least one server (the endpoints of the
    service or, when it has none, the 502 server) and does not ask for
    resolving; and the configuration comes without a warning. *)
Theorem GenerateVirtualServerConfig_oss_servers (vsc : virtualServerConfigurator)
    (virtualServerEx : VirtualServerEx.t) (tlsPemFileName : string) vscfg warns vsc' :
  isPlus vsc = false →
  VirtualServerEx.ExternalNameSvcs virtualServerEx = ∅ →
  GenerateVirtualServerConfig vsc virtualServerEx tlsPemFileName = Some (vscfg, warns, vsc') →
  warns = ∅ ∧
  Forall
    (λ ups, version2.Upstream.Servers ups ≠ [] ∧ version2.Upstream.Resolve ups = false)
    (version2.VirtualServerConfig.Upstreams vscfg).
Proof.
  intros Hoss Hext Hgen.
  destruct (GenerateVirtualServerConfig_upstreams_invariant
              (λ st,
                 (isPlus st.2 = false ∧ warnings st.2 = ∅) ∧
                 Forall
                   (λ ups,
                      version2.Upstream.Servers ups ≠ [] ∧
                      version2.Upstream.Resolve ups = false)
                   st.1.1.1.1)
              vsc virtualServerEx tlsPemFileName vscfg warns vsc')
    as (-> & cr & [_ Hwarns] & Hall); [by repeat split | | done | done].
  intros owner upstreamNamer upstreamNamespace
    [[[[upstreams statusMatches] healthChecks] crUpstreams] vsc0] u _ [[Hoss0 Hwarns0] Hall].
  cbn [fst snd] in Hoss0, Hwarns0, Hall.
  destruct (GenerateVirtualServerConfig_upstream_upstreams virtualServerEx owner upstreamNamer
              upstreamNamespace upstreams statusMatches healthChecks crUpstreams vsc0 u)
    as [-> ->].
  assert (∃ endpoints,
    generateEndpointsForUpstream vsc0 owner upstreamNamespace u virtualServerEx
    = (endpoints, vsc0) ∧ endpoints ≠ []) as (endpoints & -> & Hendpoints).
  { unfold generateEndpointsForUpstream. rewrite Hoss0, Hext. cbn [negb andb].
    destruct (default [] _) as [|e endpoints]; [by eexists | by eexists]. }
  cbn [fst snd]. unfold generateUpstream. rewrite Hoss0. cbn [fst snd].
  split; [done|]. apply Forall_app_2; [done|]. apply Forall_singleton.
  cbn [version2.Upstream.Servers version2.Upstream.Resolve]. rewrite Hext.
  split; [by destruct endpoints | done].
Qed.

(** What [generateHealthCheck] returns is named after the upstream, and it
    refers to a status match, by the name that the generator gives to the
    status match of the upstream, exactly when the health check of the
    upstream has a status match. *)
Lemma generateHealthCheck_inv (upstream : Upstream.t) (upstreamName : string)
    (cfgParams : ConfigParams.t) (hc : version2.HealthCheck.t) :
  generateHealthCheck upstream upstreamName cfgParams = Some hc →
  version2.HealthCheck.Name hc = upstreamName ∧
  version2.HealthCheck.Match hc
  = if String.eqb (from_option HealthCheck.StatusMatch "" (Upstream.HealthCheck upstream)) ""
    then "" else generateStatusMatchName upstreamName.
Proof.
  unfold generateHealthCheck. destruct (Upstream.HealthCheck upstream) as [uhc|]; [|done].
  destruct (negb _); [done|]. by intros [= <-].
Qed.

(** X5. The references of a generated configuration among its upstreams,
    health checks and status matches resolve: every health check carries the
    name of an upstream of the configuration; every health check that refers
    to a status match refers to one of the configuration; and every status
    match of the configuration is referred to by one of its health checks. *)
Theorem GenerateVirtualServerConfig_health_checks (vsc : virtualServerConfigurator)
    (virtualServerEx : VirtualServerEx.t) (tlsPemFileName : string) vscfg warns vsc' :
  GenerateVirtualServerConfig vsc virtualServerEx tlsPemFileName = Some (vscfg, warns, vsc') →
  let healthChecks := version2.Server.HealthChecks (version2.VirtualServerConfig.Server vscfg) in
  (∀ hc, hc ∈ healthChecks →
     (∃ ups, ups ∈ version2.VirtualServerConfig.Upstreams vscfg ∧
        version2.Upstream.Name ups = version2.HealthCheck.Name hc) ∧
     (version2.HealthCheck.Match hc ≠ "" →
      ∃ sm, sm ∈ version2.VirtualServerConfig.StatusMatches vscfg ∧
        version2.StatusMatch.Name sm = version2.HealthCheck.Match hc)) ∧
  (∀ sm, sm ∈ version2.VirtualServerConfig.StatusMatches vscfg →
     ∃ hc, hc ∈ healthChecks ∧ version2.HealthCheck.Match hc = version2.StatusMatch.Name sm).
Proof.
  intros Hgen healthChecks. subst healthChecks.
  destruct (GenerateVirtualServerConfig_upstreams_invariant
              (λ '(upstreams, statusMatches, healthChecks, _, _),
                 (∀ hc, hc ∈ healthChecks →
                    (∃ ups, ups ∈ upstreams ∧
                       version2.Upstream.Name ups = version2.HealthCheck.Name hc) ∧
                    (version2.HealthCheck.Match hc ≠ "" →
                     ∃ sm, sm ∈ statusMatches ∧
                       version2.StatusMatch.Name sm = version2.HealthCheck.Match hc)) ∧
                 (∀ sm, sm ∈ statusMatches →
                    ∃ hc, hc ∈ healthChecks ∧
                      version2.HealthCheck.Match hc = version2.StatusMatch.Name sm))
              vsc virtualServerEx tlsPemFileName vscfg warns vsc') as (_ & cr & Hinv);
    [by split; intros ? ?%elem_of_nil | | done | done].
  clear Hgen.
  intros owner upstreamNamer upstreamNamespace
    [[[[upstreams statusMatches] healthChecks] crUpstreams] vsc0] u _ [Hhc Hsm].
  unfold GenerateVirtualServerConfig_upstream.
  destruct (generateEndpointsForUpstream _ _ _ _ _) as [endpoints vsc1].
  pose proof (generateUpstream_fields vsc1 owner
                (GetNameForUpstream upstreamNamer (Upstream.Name u)) u
                (has_key (VirtualServerEx.ExternalNameSvcs virtualServerEx)
                   (GenerateExternalNameSvcKey upstreamNamespace (Upstream.Service u)))
                endpoints
                (λ ups, version2.Upstream.Name ups
                        = GetNameForUpstream upstreamNamer (Upstream.Name u))
                (λ _ _ _, eq_refl)) as Hname.
  destruct (generateUpstream _ _ _ _ _ _) as [ups vsc2]. cbn [fst] in Hname.
  assert (Hold : ∀ hc, hc ∈ healthChecks →
            (∃ ups', ups' ∈ upstreams ++ [ups] ∧
               version2.Upstream.Name ups' = version2.HealthCheck.Name hc)).
  { intros hc [(ups' & ? & ?) _]%Hhc. exists ups'. split; [|done]. apply elem_of_app. by left. }
  destruct (generateHealthCheck _ _ _) as [hc|] eqn:Hgenhc.
  - apply generateHealthCheck_inv in Hgenhc as [Hhcname Hmatch].
    destruct (String.eqb_spec
                (from_option HealthCheck.StatusMatch "" (Upstream.HealthCheck u)) "")
      as [Hempty|Hstatus]; cbn [negb].
    + split.
      * intros hc' [Hin| ->%list_elem_of_singleton]%elem_of_app.
        -- split; [by apply Hold | by apply Hhc].
        -- split; [|done]. exists ups. split; [|congruence]. apply elem_of_app. right. by left.
      * intros sm (hc' & ? & ?)%Hsm. exists hc'. split; [|done]. apply elem_of_app. by left.
    + split.
      * intros hc' [Hin| ->%list_elem_of_singleton]%elem_of_app.
        -- split; [by apply Hold|]. intros (sm & ? & ?)%(proj2 (Hhc hc' Hin)).
           exists sm. split; [|done]. apply elem_of_app. by left.
        -- split.
           ++ exists ups. split; [|congruence]. apply elem_of_app. right. by left.
           ++ intros _. eexists. split; [apply elem_of_app; right; by left|]. by rewrite Hmatch.
      * intros sm [(hc' & ? & ?)%Hsm| ->%list_elem_of_singleton]%elem_of_app.
        -- exists hc'. split; [|done]. apply elem_of_app. by left.
        -- exists hc. split; [|done]. apply elem_of_app. right. by left.
  - split; [|done]. intros hc Hin. split; [by apply Hold | by apply Hhc].
Qed.

(** X6. Every warning that comes with a generated configuration is filed
    under the VirtualServer of the snapshot or under one of its
    VirtualServerRoutes: no other resource gets one, whatever warnings the
    configurator held before the call. *)
Theorem GenerateVirtualServerConfig_warnings_owners (vsc : virtualServerConfigurator)
    (virtualServerEx : VirtualServerEx.t) (tlsPemFileName : string) vscfg warns vsc' :
  GenerateVirtualServerConfig vsc virtualServerEx tlsPemFileName = Some (vscfg, warns, vsc') →
  ∀ obj, is_Some (warns !! obj) → obj ∈ spec.owners virtualServerEx.
Proof.
  intros Hgen.
  destruct (GenerateVirtualServerConfig_upstreams_invariant
              (λ st, ∀ obj, is_Some (warnings st.2 !! obj) → obj ∈ spec.owners virtualServerEx)
              vsc virtualServerEx tlsPemFileName vscfg warns vsc') as (-> & cr & Hinv);
    [by intros obj [? ?] | | done | done].
  clear Hgen.
  intros owner upstreamNamer upstreamNamespace
    [[[[upstreams statusMatches] healthChecks] crUpstreams] vsc0] u Howner Hinv.
  cbn [snd] in Hinv.
  destruct (GenerateVirtualServerConfig_upstream_upstreams virtualServerEx owner upstreamNamer
              upstreamNamespace upstreams statusMatches healthChecks crUpstreams vsc0 u)
    as [_ ->].
  assert (Hadd : ∀ vsc1 msg,
    (∀ obj, is_Some (warnings vsc1 !! obj) → obj ∈ spec.owners virtualServerEx) →
    ∀ obj, is_Some (warnings (addWarningf vsc1 owner msg) !! obj) →
           obj ∈ spec.owners virtualServerEx).
  { intros vsc1 msg Hvsc1 obj. rewrite addWarningf_lookup.
    destruct (decide (owner = obj)) as [<-|]; [done | apply Hvsc1]. }
  assert (∀ obj,
    is_Some (warnings
               (generateEndpointsForUpstream vsc0 owner upstreamNamespace u virtualServerEx).2
             !! obj) → obj ∈ spec.owners virtualServerEx) as Hendpoints.
  { unfold generateEndpointsForUpstream. destruct (_ && _); [done|].
    destruct (_ && _); [by apply Hadd | done]. }
  destruct (generateEndpointsForUpstream _ _ _ _ _) as [endpoints vsc1]. cbn [fst snd] in *.
  unfold generateUpstream. destruct (isPlus vsc1); [|done].
  unfold generateSlowStartForPlus. destruct (String.eqb _ _); [done|].
  destruct (_ || _); [by apply Hadd | done].
Qed.

End upstream_invariants.

(** X4, the witness: a snapshot without ExternalName services, in which one
    service has endpoints and two have none. *)
Lemma GenerateVirtualServerConfig_oss_servers_witness :
  ∃ vscfg warns vsc',
    GenerateVirtualServerConfig example.oss_without_resolver example.oss_snapshot ""
    = Some (vscfg, warns, vsc') ∧
    warns = ∅ ∧
    Forall
      (λ ups, version2.Upstream.Servers ups ≠ [] ∧ version2.Upstream.Resolve ups = false)
      (version2.VirtualServerConfig.Upstreams vscfg).
Proof.
  destruct (GenerateVirtualServerConfig example.oss_without_resolver example.oss_snapshot "")
    as [[[vscfg warns] vsc']|] eqn:Hgen; [|by vm_compute in Hgen].
  exists vscfg, warns, vsc'. split; [done|].
  exact (GenerateVirtualServerConfig_oss_servers example.oss_without_resolver
           example.oss_snapshot "" vscfg warns vsc' eq_refl eq_refl Hgen).
Defined.

(** X5, the witness: the commercial tier on a snapshot with a health check
    that has a status match. *)
Lemma GenerateVirtualServerConfig_health_checks_witness :
  ∃ vscfg warns vsc',
    GenerateVirtualServerConfig (newVirtualServerConfigurator example.cfgParams true false)
      example.plus_snapshot ""
    = Some (vscfg, warns, vsc') ∧
    ∀ sm, sm ∈ version2.VirtualServerConfig.StatusMatches vscfg →
      ∃ hc, hc ∈ version2.Server.HealthChecks (version2.VirtualServerConfig.Server vscfg) ∧
        version2.HealthCheck.Match hc = version2.StatusMatch.Name sm.
Proof.
  destruct (GenerateVirtualServerConfig
              (newVirtualServerConfigurator example.cfgParams true false)
              example.plus_snapshot "")
    as [[[vscfg warns] vsc']|] eqn:Hgen; [|by vm_compute in Hgen].
  exists vscfg, warns, vsc'. split; [done|].
  exact (proj2 (GenerateVirtualServerConfig_health_checks
                  (newVirtualServerConfigurator example.cfgParams true false)
                  example.plus_snapshot "" vscfg warns vsc' Hgen)).
Defined.

(** X6, the witness: the commercial tier, without a resolver, on a snapshot
    with an ExternalName service, and a configurator that holds a warning of
    an earlier call for a resource that is not of the snapshot. *)
Lemma GenerateVirtualServerConfig_warnings_owners_witness :
  ∃ vscfg warns vsc',
    GenerateVirtualServerConfig
      (addWarningf (newVirtualServerConfigurator example.cfgParams true false)
         (VirtualServerObject 7) "stale")
      example.plus_snapshot ""
    = Some (vscfg, warns, vsc') ∧
    ∀ obj, is_Some (warns !! obj) → obj ∈ spec.owners example.plus_snapshot.
Proof.
  destruct (GenerateVirtualServerConfig
              (addWarningf (newVirtualServerConfigurator example.cfgParams true false)
                 (VirtualServerObject 7) "stale")
              example.plus_snapshot "")
    as [[[vscfg warns] vsc']|] eqn:Hgen; [|by vm_compute in Hgen].
  exists vscfg, warns, vsc'. split; [done|].
  exact (GenerateVirtualServerConfig_warnings_owners
           (addWarningf (newVirtualServerConfigurator example.cfgParams true false)
              (VirtualServerObject 7) "stale")
           example.plus_snapshot "" vscfg warns vsc' Hgen).
Defined.

(** ** Health checks *)

(** X7. A health check that the generator writes is complete, whatever the
    resource leaves out: it is named after the upstream, its URI, interval
    and jitter are not empty, its numbers of fails and of passes are at least
    1, its port is positive when that of the upstream is, and it probes the
    upstream over http or https. There is a health check exactly when the
    upstream has one that is enabled. *)
Theorem generateHealthCheck_complete (upstream : Upstream.t) (upstreamName : string)
    (cfgParams : ConfigParams.t) :
  (is_Some (generateHealthCheck upstream upstreamName cfgParams)
   ↔ ∃ uhc, Upstream.HealthCheck upstream = Some uhc ∧ HealthCheck.Enable uhc = true) ∧
  ∀ hc, generateHealthCheck upstream upstreamName cfgParams = Some hc →
    version2.HealthCheck.Name hc = upstreamName ∧
    version2.HealthCheck.URI hc ≠ "" ∧
    version2.HealthCheck.Interval hc ≠ "" ∧
    version2.HealthCheck.Jitter hc ≠ "" ∧
    (1 ≤ version2.HealthCheck.Fails hc)%Z ∧
    (1 ≤ version2.HealthCheck.Passes hc)%Z ∧
    ((0 < Upstream.Port upstream)%Z → (0 < version2.HealthCheck.Port hc)%Z) ∧
    (version2.HealthCheck.ProxyPass hc = "http://" +:+ upstreamName ∨
     version2.HealthCheck.ProxyPass hc = "https://" +:+ upstreamName).
Proof.
  unfold generateHealthCheck. destruct (Upstream.HealthCheck upstream) as [uhc|].
  - destruct (HealthCheck.Enable uhc) eqn:Henable; cbn [negb].
    + split; [split; [by exists uhc | done]|]. intros hc [= <-].
      cbn [version2.HealthCheck.Name version2.HealthCheck.URI version2.HealthCheck.Interval
           version2.HealthCheck.Jitter version2.HealthCheck.Fails version2.HealthCheck.Passes
           version2.HealthCheck.Port version2.HealthCheck.ProxyPass newHealthCheckWithDefaults].
      repeat split.
      * by destruct (String.eqb_spec (HealthCheck.Path uhc) "").
      * by destruct (String.eqb_spec (HealthCheck.Interval uhc) "").
      * by destruct (String.eqb_spec (HealthCheck.Jitter uhc) "").
      * destruct (Z.ltb_spec 0 (HealthCheck.Fails uhc)); lia.
      * destruct (Z.ltb_spec 0 (HealthCheck.Passes uhc)); lia.
      * destruct (Z.ltb_spec 0 (HealthCheck.Port uhc)); lia.
      * destruct (HealthCheck.TLS uhc) as [[[]]|];
          [by right | by left | destruct (UpstreamTLS.Enable (Upstream.TLS upstream))];
          [by right | by left].
    + split; [|done]. split; [by intros [] | by intros (? & [= <-] & ?); congruence].
  - split; [|done]. split; [by intros [] | by intros (? & ? & _)].
Qed.

(** X7, the witness: the health check of the example sets the number of
    passes and leaves the rest to the defaults. *)
Lemma generateHealthCheck_complete_witness :
  ∃ hc,
    generateHealthCheck example.tea_plus "vs_default_cafe_tea" example.cfgParams = Some hc ∧
    version2.HealthCheck.URI hc ≠ "" ∧ (1 ≤ version2.HealthCheck.Fails hc)%Z.
Proof.
  destruct (generateHealthCheck example.tea_plus "vs_default_cafe_tea" example.cfgParams)
    as [hc|] eqn:Hgen; [|by vm_compute in Hgen].
  exists hc. split; [done|].
  destruct (proj2 (generateHealthCheck_complete example.tea_plus "vs_default_cafe_tea"
                     example.cfgParams) hc Hgen) as (_ & Huri & _ & _ & Hfails & _).
  by split.
Defined.

(** The map that a loop of insertions builds: under a key stands the value
    that the last entry of that key brings, and where no entry has the key,
    what the map held before. *)
Lemma foldl_insert_lookup (headers : list Header.t) (m : gmap string string) (name : string) :
  foldl (λ m h, <[Header.Name h := Header.Value h]> m) m headers !! name
  = match last (filter (λ h, Header.Name h = name) headers) with
    | Some h => Some (Header.Value h)
    | None => m !! name
    end.
Proof.
  revert m. induction headers as [|h headers IH]; intros m; [done|].
  cbn [foldl]. rewrite IH, filter_cons.
  destruct (decide (Header.Name h = name)) as [<-|Hne].
  - rewrite last_cons. destruct (last (filter _ headers)); [done|]. by rewrite lookup_insert_eq.
  - destruct (last (filter _ headers)); [done|]. by rewrite lookup_insert_ne.
Qed.

(** X8. The headers of a generated health check: under each header name
    stands the value of the last header of that name in the health check of
    the upstream, so that of several headers with one name the last one
    wins, and a name that no header has is not in the map. *)
Theorem generateHealthCheck_headers (upstream : Upstream.t) (upstreamName : string)
    (cfgParams : ConfigParams.t) (uhc : HealthCheck.t) (hc : version2.HealthCheck.t) :
  Upstream.HealthCheck upstream = Some uhc →
  generateHealthCheck upstream upstreamName cfgParams = Some hc →
  ∀ name,
    version2.HealthCheck.Headers hc !! name
    = Header.Value <$> last (filter (λ h, Header.Name h = name) (HealthCheck.Headers uhc)).
Proof.
  unfold generateHealthCheck. intros ->. destruct (negb _); [done|]. intros [= <-] name.
  cbn [version2.HealthCheck.Headers newHealthCheckWithDefaults].
  rewrite foldl_insert_lookup. by destruct (last _).
Qed.

(** X8, the witness: of the two Host headers of the example, the second one
    is written. *)
Lemma generateHealthCheck_headers_witness :
  ∃ hc,
    generateHealthCheck example.tea_plus "vs_default_cafe_tea" example.cfgParams = Some hc ∧
    version2.HealthCheck.Headers hc !! "Host" = Some "b.example.com".
Proof.
  destruct (generateHealthCheck example.tea_plus "vs_default_cafe_tea" example.cfgParams)
    as [hc|] eqn:Hgen; [|by vm_compute in Hgen].
  exists hc. split; [done|].
  exact (generateHealthCheck_headers example.tea_plus "vs_default_cafe_tea" example.cfgParams
           _ hc eq_refl Hgen "Host").
Defined.

(** ** Merging warnings *)

Lemma Warnings_Add_range_union (w : Warnings) (entries : list (Object * list string)) :
  NoDup entries.*1 → Warnings_Add_range w entries = list_to_map entries ∪ w.
Proof.
  unfold Warnings_Add_range. revert w.
  induction entries as [|[k v] entries IH]; intros w Hnodup.
  - cbn [foldl list_to_map foldr]. by rewrite (left_id_L ∅ (∪)).
  - rewrite fmap_cons in Hnodup. apply NoDup_cons in Hnodup as [Hk Hnodup].
    cbn [foldl list_to_map foldr uncurry]. rewrite IH by done.
    rewrite <- insert_union_l. symmetry. apply insert_union_r.
    by apply not_elem_of_list_to_map_1.
Qed.

(** X9. [Warnings.Add] merges key by key and replaces: after [w.Add(warnings)]
    a resource that has an entry in [warnings] has exactly the messages of
    that entry (those that [w] held for it are gone, not appended to), and
    every other resource has what it had in [w]. This holds for every order
    in which the loop may visit the entries of [warnings]. *)
Theorem Warnings_Add_lookup (w warnings : Warnings) (entries : list (Object * list string))
    (obj : Object) :
  entries ≡ₚ map_to_list warnings →
  Warnings_Add_range w entries !! obj
  = match warnings !! obj with
    | Some msgs => Some msgs
    | None => w !! obj
    end.
Proof.
  intros Hentries.
  assert (NoDup entries.*1) as Hnodup.
  { rewrite Hentries. apply NoDup_fst_map_to_list. }
  rewrite Warnings_Add_range_union by done.
  rewrite (list_to_map_proper _ _ Hnodup Hentries).
  rewrite list_to_map_to_list, lookup_union. by destruct (warnings !! obj), (w !! obj).
Qed.

(** X9, the witness: the warnings of one resource replaced, those of another
    kept, with the entries in the order of [Warnings_Add]. *)
Lemma Warnings_Add_lookup_witness :
  Warnings_Add {[ VirtualServerObject 1 := ["old"]; VirtualServerRouteObject 2 := ["kept"] ]}
    {[ VirtualServerObject 1 := ["new"] ]} !! VirtualServerObject 1
  = Some ["new"].
Proof.
  exact (Warnings_Add_lookup
           {[ VirtualServerObject 1 := ["old"]; VirtualServerRouteObject 2 := ["kept"] ]}
           {[ VirtualServerObject 1 := ["new"] ]}
           (map_to_list {[ VirtualServerObject 1 := ["new"] ]})
           (VirtualServerObject 1) (reflexivity _)).
Defined.

(** ** The upstreams that are updated through the API *)

Lemma foldl_related {A St1 St2} (R : St1 → St2 → Prop) (f : St1 → A → St1) (g : St2 → A → St2)
    (l : list A) :
  (∀ st1 st2 x, R st1 st2 → R (f st1 x) (g st2 x)) →
  ∀ st1 st2, R st1 st2 → R (foldl f st1 l) (foldl g st2 l).
Proof.
  intros Hstep. induction l as [|x l IH]; intros st1 st2 HR; simpl; [done|].
  by apply IH, Hstep.
Qed.

(** The upstream that [generateUpstream] builds depends on the configurator
    through its parameters and its tier only. *)
Lemma generateUpstream_settings (vsc1 vsc2 : virtualServerConfigurator) (owner : Object)
    (upstreamName : string) (upstream : Upstream.t) (isExternalNameSvc : bool)
    (endpoints : list string) :
  cfgParams vsc1 = cfgParams vsc2 → isPlus vsc1 = isPlus vsc2 →
  (generateUpstream vsc1 owner upstreamName upstream isExternalNameSvc endpoints).1
  = (generateUpstream vsc2 owner upstreamName upstream isExternalNameSvc endpoints).1.
Proof.
  intros Hparams Hplus. unfold generateUpstream. rewrite Hparams, Hplus.
  destruct (isPlus vsc2); [|done]. unfold generateSlowStartForPlus.
  destruct (String.eqb _ _); [done|]. by destruct (_ || _).
Qed.

Section api_upstreams.
Context `{GeneratorEnv}.

(** The upstreams, status matches and health checks of a generated
    configuration are what the two loops over the upstreams leave. *)
Lemma GenerateVirtualServerConfig_upstreams_fold (vsc : virtualServerConfigurator)
    (virtualServerEx : VirtualServerEx.t) (tlsPemFileName : string) vscfg warns vsc' :
  GenerateVirtualServerConfig vsc virtualServerEx tlsPemFileName = Some (vscfg, warns, vsc') →
  let virtualServer := deref (VirtualServerEx.VirtualServer virtualServerEx) in
  ∃ crUpstreams,
    foldl
      (λ st vsr,
         foldl
           (GenerateVirtualServerConfig_upstream virtualServerEx (vsrObject vsr)
              (newUpstreamNamerForVirtualServerRoute virtualServer (deref vsr))
              (VirtualServerRoute.Namespace (deref vsr)))
           st (VirtualServerRouteSpec.Upstreams (VirtualServerRoute.Spec (deref vsr))))
      (foldl
         (GenerateVirtualServerConfig_upstream virtualServerEx
            (vsObject (VirtualServerEx.VirtualServer virtualServerEx))
            (newUpstreamNamerForVirtualServer virtualServer)
            (VirtualServer.Namespace virtualServer))
         ([], [], [], ∅, clearWarnings vsc)
         (VirtualServerSpec.Upstreams (VirtualServer.Spec virtualServer)))
      (VirtualServerEx.VirtualServerRoutes virtualServerEx)
    = (version2.VirtualServerConfig.Upstreams vscfg,
       version2.VirtualServerConfig.StatusMatches vscfg,
       version2.Server.HealthChecks (version2.VirtualServerConfig.Server vscfg),
       crUpstreams, vsc').
Proof.
  intros Hgen virtualServer. subst virtualServer. unfold GenerateVirtualServerConfig in Hgen.
  destruct (foldl _ (foldl _ _ _) _)
    as [[[[upstreams statusMatches] healthChecks] crUpstreams] vscf].
  destruct (for_range_opt _ _ _ _) as [st|]; [|done]. cbn [mbind option_bind] in Hgen.
  destruct (for_range_opt _ _ _ _) as [[[[[locations irls] splitClients] maps] n]|]; [|done].
  cbn [mbind option_bind] in Hgen. injection Hgen as <- <- <-. by exists crUpstreams.
Qed.

(** X10. In the commercial tier, when every entry of the ExternalName set of
    the snapshot is set, the upstreams that [createUpstreamsForPlus] returns
    (those whose servers are updated through the API) are the upstreams of
    the configuration that [GenerateVirtualServerConfig] generates from the
    same snapshot and parameters, in the same order, less the upstreams that
    are left to the resolver; whether a resolver is configured, and which
    warnings the configurator holds, does not matter. *)
Theorem createUpstreamsForPlus_generated (vsc : virtualServerConfigurator)
    (virtualServerEx : VirtualServerEx.t) (tlsPemFileName : string) vscfg warns vsc' :
  isPlus vsc = true →
  map_Forall (λ _ set, set = true) (VirtualServerEx.ExternalNameSvcs virtualServerEx) →
  GenerateVirtualServerConfig vsc virtualServerEx tlsPemFileName = Some (vscfg, warns, vsc') →
  createUpstreamsForPlus virtualServerEx (cfgParams vsc)
  = filter (λ ups, version2.Upstream.Resolve ups = false)
      (version2.VirtualServerConfig.Upstreams vscfg).
Proof.
  intros Hplus Hext Hgen.
  destruct (GenerateVirtualServerConfig_upstreams_fold vsc virtualServerEx tlsPemFileName
              vscfg warns vsc' Hgen) as [crUpstreams Hfold].
  unfold createUpstreamsForPlus.
  set (R := λ (st1 : list version2.Upstream.t * list version2.StatusMatch.t
                     * list version2.HealthCheck.t * gmap string Upstream.t
                     * virtualServerConfigurator)
              (st2 : list version2.Upstream.t * virtualServerConfigurator),
              st2.1 = filter (λ ups, version2.Upstream.Resolve ups = false) st1.1.1.1.1 ∧
              cfgParams st1.2 = cfgParams st2.2 ∧ isPlus st1.2 = true ∧ isPlus st2.2 = true).
  assert (Hstep : ∀ owner upstreamNamer upstreamNamespace st1 st2 u,
    R st1 st2 →
    R (GenerateVirtualServerConfig_upstream virtualServerEx owner upstreamNamer
         upstreamNamespace st1 u)
      (createUpstreamsForPlus_upstream virtualServerEx owner upstreamNamer upstreamNamespace
         st2 u)).
  { intros owner upstreamNamer upstreamNamespace
      [[[[upstreams statusMatches] healthChecks] cr] vsc1] [upstreams2 vsc2] u
      (Hups & Hparams & Hplus1 & Hplus2).
    cbn [fst snd] in Hups, Hparams, Hplus1, Hplus2. subst upstreams2.
    pose proof (GenerateVirtualServerConfig_upstream_same_settings virtualServerEx owner
                  upstreamNamer upstreamNamespace (upstreams, statusMatches, healthChecks, cr, vsc1)
                  u) as (Hparams1 & Hplus1' & _).
    destruct (GenerateVirtualServerConfig_upstream_upstreams virtualServerEx owner
                upstreamNamer upstreamNamespace upstreams statusMatches healthChecks cr vsc1 u)
      as [Hups1 _].
    unfold R. rewrite Hups1, Hparams1, Hplus1'. cbn [snd]. clear Hups1 Hparams1 Hplus1'.
    rewrite filter_app. unfold createUpstreamsForPlus_upstream, has_key.
    assert (generateEndpointsForUpstream vsc1 owner upstreamNamespace u virtualServerEx
            = generateEndpointsForUpstream vsc1 owner upstreamNamespace u virtualServerEx)
      as Hendpoints by done.
    unfold generateEndpointsForUpstream at 2 in Hendpoints. rewrite Hplus1 in Hendpoints.
    cbn [negb andb] in Hendpoints. unfold has_key in Hendpoints.
    destruct (VirtualServerEx.ExternalNameSvcs virtualServerEx
                !! GenerateExternalNameSvcKey upstreamNamespace (Upstream.Service u))
      as [set|] eqn:Hkey.
    - rewrite (Hext _ _ Hkey). cbn [default fst snd].
      rewrite filter_cons_False, filter_nil, app_nil_r; [done|].
      apply generateUpstream_fields. by intros.
    - cbn [default fst snd andb] in *. rewrite Hendpoints. cbn [fst snd].
      pose proof (generateUpstream_same_settings vsc2 owner
                    (GetNameForUpstream upstreamNamer (Upstream.Name u)) u false
                    (default [] (VirtualServerEx.Endpoints virtualServerEx
                                   !! GenerateEndpointsKey upstreamNamespace (Upstream.Service u)
                                        (Upstream.Subselector u) (Upstream.Port u))))
        as (Hparams2 & Hplus2' & _).
      rewrite (generateUpstream_settings vsc1 vsc2) by congruence.
      destruct (generateUpstream vsc2 _ _ _ _ _) as [ups vsc2'] eqn:Hgenups.
      cbn [fst snd] in *. rewrite filter_cons_True, filter_nil.
      + repeat split; congruence.
      + replace ups with (generateUpstream vsc2 owner
                            (GetNameForUpstream upstreamNamer (Upstream.Name u)) u false
                            (default [] (VirtualServerEx.Endpoints virtualServerEx
                               !! GenerateEndpointsKey upstreamNamespace (Upstream.Service u)
                                    (Upstream.Subselector u) (Upstream.Port u)))).1
          by by rewrite Hgenups.
        apply generateUpstream_fields. by intros. }
  match goal with
  | |- (let '(upstreams, _) := foldl ?g2 (foldl ?g1 ?st2 ?us) ?vsrs in upstreams) = _ =>
      assert (R (version2.VirtualServerConfig.Upstreams vscfg,
                 version2.VirtualServerConfig.StatusMatches vscfg,
                 version2.Server.HealthChecks (version2.VirtualServerConfig.Server vscfg),
                 crUpstreams, vsc')
                (foldl g2 (foldl g1 st2 us) vsrs)) as HR
  end.
  { rewrite <- Hfold. apply foldl_related.
    - intros st1 st2 vsr HR. apply foldl_related; [|done]. intros st1' st2' u. apply Hstep.
    - apply foldl_related; [intros st1 st2 u; apply Hstep|]. by repeat split. }
  destruct (foldl _ (foldl _ _ _) _) as [upstreams2 vsc2]. by destruct HR as [? _].
Qed.

End api_upstreams.

(** X10, the witness: of the five upstreams of the snapshot of the example,
    the one on the ExternalName service is left out. *)
Lemma createUpstreamsForPlus_generated_witness :
  ∃ vscfg warns vsc',
    GenerateVirtualServerConfig (newVirtualServerConfigurator example.cfgParams true true)
      example.plus_snapshot ""
    = Some (vscfg, warns, vsc') ∧
    createUpstreamsForPlus example.plus_snapshot example.cfgParams
    = filter (λ ups, version2.Upstream.Resolve ups = false)
        (version2.VirtualServerConfig.Upstreams vscfg).
Proof.
  destruct (GenerateVirtualServerConfig
              (newVirtualServerConfigurator example.cfgParams true true)
              example.plus_snapshot "")
    as [[[vscfg warns] vsc']|] eqn:Hgen; [|by vm_compute in Hgen].
  exists vscfg, warns, vsc'. split; [done|].
  apply (createUpstreamsForPlus_generated
           (newVirtualServerConfigurator example.cfgParams true true)
           example.plus_snapshot "" vscfg warns vsc' eq_refl); [|done].
  intros key set. unfold example.plus_snapshot. cbn [VirtualServerEx.ExternalNameSvcs].
  by intros [_ <-]%lookup_singleton_Some.
Defined.

(** ** Named locations, split-clients and internal redirects *)

Lemma for_range_opt_invariant {A St} (P : St → Prop) (body : Z → A → St → option St)
    (l : list A) :
  (∀ i x st st', P st → body i x st = Some st' → P st') →
  ∀ i st st', P st → for_range_opt body i l st = Some st' → P st'.
Proof.
  intros Hbody. induction l as [|x l IH]; intros i st st' Hst; simpl.
  - by intros [= <-].
  - destruct (body i x st) as [st1|] eqn:Hround; [|done]. simpl.
    apply IH. by eapply Hbody.
Qed.

(** A loop that appends to a list what a function, which can fail, makes of
    each element. *)
Lemma for_range_opt_append {A B} (g : Z → A → option B)
    (body : Z → A → list B → option (list B)) :
  (∀ i x acc, body i x acc = y ← g i x; Some (acc ++ [y])) →
  ∀ l i acc res,
    for_range_opt body i l acc = Some res →
    ∃ ys, res = acc ++ ys ∧ length ys = length l ∧
      ∀ k x, l !! k = Some x → ∃ y, ys !! k = Some y ∧ g (i + Z.of_nat k)%Z x = Some y.
Proof.
  intros Hbody l. induction l as [|x l IH]; intros i acc res; simpl.
  - intros [= <-]. exists []. by rewrite app_nil_r.
  - rewrite Hbody. destruct (g i x) as [y|] eqn:Hy; [|done]. simpl.
    intros (ys & -> & Hlen & Hys)%IH. exists (y :: ys). rewrite <- app_assoc.
    split; [done|]. split; [by rewrite <- Hlen|].
    intros [|k] x' Hk; simpl in Hk.
    + injection Hk as <-. exists y. by rewrite Z.add_0_r.
    + destruct (Hys k x' Hk) as (y' & ? & Hg). exists y'. split; [done|].
      by replace (i + Z.of_nat (S k))%Z with (i + 1 + Z.of_nat k)%Z by lia.
Qed.

(** A path that starts with an at sign is not a regular expression:
    [generatePath] leaves it as it is. *)
Lemma generatePath_named (name : string) : generatePath ("@" +:+ name) = "@" +:+ name.
Proof. done. Qed.

(** The path of a location that [generateLocation] generates for a named
    location is the name. *)
Lemma generateLocation_named (name upstreamName : string) (upstream : Upstream.t)
    (action : option Action.t) (cfgParams : ConfigParams.t) (loc : version2.Location.t) :
  generateLocation ("@" +:+ name) upstreamName upstream action cfgParams = Some loc →
  version2.Location.Path loc = "@" +:+ name.
Proof.
  unfold generateLocation. destruct action as [action|]; [|done]. cbn [mbind option_bind].
  destruct (Action.Redirect action); [by intros [= <-]|].
  destruct (Action.Return action); by intros [= <-].
Qed.

(** X11. What [generateSplits] returns for a block of splits hangs together:
    the split-client reads the request id and sets the variable of its
    index; it has one distribution for each split, in order, with the weight
    of the split as a percentage; there is one location for each split, in
    order; and the value of the distribution of a split is the path of the
    location of that split, the named location of the split-client index and
    of the position of the split. *)
Theorem generateSplits_named_locations (splits : list Split.t) (upstreamNamer : upstreamNamer)
    (crUpstreams : gmap string Upstream.t) (variableNamer : variableNamer) (scIndex : Z)
    (cfgParams : ConfigParams.t) (sc : version2.SplitClient.t)
    (locs : list version2.Location.t) :
  generateSplits splits upstreamNamer crUpstreams variableNamer scIndex cfgParams
  = Some (sc, locs) →
  version2.SplitClient.Source sc = "$request_id" ∧
  version2.SplitClient.Variable_ sc = GetNameForSplitClientVariable variableNamer scIndex ∧
  length (version2.SplitClient.Distributions sc) = length splits ∧
  length locs = length splits ∧
  ∀ k s, splits !! k = Some s →
    ∃ d loc,
      version2.SplitClient.Distributions sc !! k = Some d ∧ locs !! k = Some loc ∧
      version2.Distribution.Weight d = itoa (Split.Weight s) +:+ "%" ∧
      version2.Distribution.Value d = version2.Location.Path loc ∧
      version2.Location.Path loc
      = "@splits_" +:+ itoa scIndex +:+ "_split_" +:+ itoa (Z.of_nat k).
Proof.
  unfold generateSplits.
  rewrite (for_range_append
             (λ i s,
                {| version2.Distribution.Weight := itoa (Split.Weight s) +:+ "%";
                   version2.Distribution.Value :=
                     "@splits_" +:+ itoa scIndex +:+ "_split_" +:+ itoa i |}))
    by done.
  destruct (for_range_opt _ _ _ _) as [locations|] eqn:Hloop; [|done].
  apply (for_range_opt_append
           (λ i s,
              action ← Split.Action s;
              generateLocation ("@splits_" +:+ itoa scIndex +:+ "_split_" +:+ itoa i)
                (GetNameForUpstream upstreamNamer (Action.Pass action))
                (crUpstreams_get crUpstreams
                   (GetNameForUpstream upstreamNamer (Action.Pass action)))
                (Some action) cfgParams)) in Hloop as (ys & -> & Hlen & Hys).
  2:{ intros i s acc. by destruct (Split.Action s). }
  cbn [mbind option_bind app]. intros [= <- <-].
  cbn [version2.SplitClient.Source version2.SplitClient.Variable_
       version2.SplitClient.Distributions].
  split; [done|]. split; [done|]. split; [apply length_imap_from|]. split; [done|].
  intros k s Hk. destruct (Hys k s Hk) as (loc & Hloc & Hgen).
  eexists _, loc. split; [by apply imap_from_lookup|]. split; [done|].
  cbn [version2.Distribution.Weight version2.Distribution.Value]. rewrite Z.add_0_l in *.
  destruct (Split.Action s) as [action|]; [|done]. cbn [mbind option_bind] in Hgen.
  apply generateLocation_named in Hgen. by rewrite Hgen.
Qed.

(** X11, the witness: the 50/50 block of the example under the index 2. *)
Lemma generateSplits_named_locations_witness :
  ∃ sc locs,
    generateSplits [example.split 50 "coffee"; example.split 50 "coffee"]
      example.cafe_upstreamNamer ∅ example.cafe_variableNamer 2 example.cfgParams
    = Some (sc, locs) ∧
    version2.Distribution.Value <$> version2.SplitClient.Distributions sc
    = ["@splits_2_split_0"; "@splits_2_split_1"] ∧
    length locs = 2%nat.
Proof.
  destruct (generateSplits [example.split 50 "coffee"; example.split 50 "coffee"]
              example.cafe_upstreamNamer ∅ example.cafe_variableNamer 2 example.cfgParams)
    as [[sc locs]|] eqn:Hgen; [|by vm_compute in Hgen].
  exists sc, locs. split; [done|].
  destruct (generateSplits_named_locations _ _ _ _ _ _ sc locs Hgen)
    as (_ & _ & Hlen & Hlocs & Hall).
  split; [|done].
  destruct (Hall 0%nat _ eq_refl) as (d0 & loc0 & Hd0 & _ & _ & Hv0 & Hp0).
  destruct (Hall 1%nat _ eq_refl) as (d1 & loc1 & Hd1 & _ & _ & Hv1 & Hp1).
  destruct (version2.SplitClient.Distributions sc) as [|d0' [|d1' [|]]]; try done.
  injection Hd0 as ->. injection Hd1 as ->. cbn [fmap list_fmap].
  by rewrite Hv0, Hp0, Hv1, Hp1.
Defined.

(** The list that a loop builds from the index alone. *)
Lemma imap_from_seq {A B} (f : Z → B) (i : Z) (l : list A) :
  imap_from (λ t _, f t) i l = (λ k, f (i + Z.of_nat k)%Z) <$> seq 0 (length l).
Proof.
  revert i. induction l as [|x l IH]; intros i; [done|].
  cbn [imap_from length seq fmap list_fmap]. rewrite Z.add_0_r. f_equal.
  rewrite IH, <- fmap_S_seq, <- list_fmap_compose. apply list_fmap_ext.
  intros _ k _. simpl. f_equal. lia.
Qed.

Lemma int_add_small (x y : Z) : (0 ≤ x)%Z → (0 ≤ y)%Z → (x + y < 2 ^ 63)%Z → int_add x y = (x + y)%Z.
Proof. intros Hx Hy Hsum. unfold int_add. apply wrap64_small. lia. Qed.

(** The internal redirect of a matches route goes to the variable of its main
    map. *)
Lemma generateMatchesConfig_internal_redirect (route : Route.t) (upstreamNamer : upstreamNamer)
    (crUpstreams : gmap string Upstream.t) (variableNamer : variableNamer) (index scIndex : Z)
    (cfgParams : ConfigParams.t) (cfg : routingCfg) :
  generateMatchesConfig route upstreamNamer crUpstreams variableNamer index scIndex cfgParams
  = Some cfg →
  InternalRedirectLocation cfg
  = {| version2.InternalRedirectLocation.Path := Route.Path route;
       version2.InternalRedirectLocation.Destination :=
         GetNameForVariableForMatchesRouteMainMap variableNamer index |}.
Proof.
  unfold generateMatchesConfig.
  destruct (for_range (generateMatchesConfig_mainMap _ _ _) _ _ _) as [[source params] sc].
  destruct (for_range_opt _ _ _ _) as [[[locations splitClients] sc']|]; [|done].
  cbn [mbind option_bind].
  destruct (0 <? len (Route.Splits route))%Z.
  - destruct (generateSplits _ _ _ _ _ _) as [[scl locs]|]; [|done]. by intros [= <-].
  - destruct (Route.Action route) as [action|]; [|done]. cbn [mbind option_bind].
    destruct (generateLocation _ _ _ _ _) as [loc|]; [|done]. by intros [= <-].
Qed.

(** What one route adds to the configuration. It only appends to the
    locations, the internal redirects, the split-clients and the maps; an
    internal redirect that it adds goes to the variable of a map or of a
    split-client that it adds; and the split-clients that it adds set the
    variables of the indices that follow the number of split-clients that
    were there (where these indices fit in an [int]). *)
Lemma GenerateVirtualServerConfig_route_inv (crUpstreams : gmap string Upstream.t)
    (variableNamer : variableNamer) (cfgParams : ConfigParams.t)
    (upstreamNamer : upstreamNamer) (r : Route.t) locations irls splitClients maps
    (matchesRoutes : Z) st' :
  GenerateVirtualServerConfig_route crUpstreams variableNamer cfgParams upstreamNamer r
    (locations, irls, splitClients, maps, matchesRoutes) = Some st' →
  ∃ locations' irls' splitClients' maps' matchesRoutes',
    st' = (locations ++ locations', irls ++ irls', splitClients ++ splitClients',
           maps ++ maps', matchesRoutes') ∧
    (∀ irl, irl ∈ irls' →
       version2.InternalRedirectLocation.Destination irl
         ∈ version2.Map.Variable_ <$> maps' ∨
       version2.InternalRedirectLocation.Destination irl
         ∈ version2.SplitClient.Variable_ <$> splitClients') ∧
    ((len (splitClients ++ splitClients') < 2 ^ 63)%Z →
     version2.SplitClient.Variable_ <$> splitClients'
     = (λ k, GetNameForSplitClientVariable variableNamer (len splitClients + Z.of_nat k))
         <$> seq 0 (length splitClients')).
Proof.
  unfold GenerateVirtualServerConfig_route.
  destruct (0 <? len (Route.Matches r))%Z; [|destruct (0 <? len (Route.Splits r))%Z].
  - destruct (generateMatchesConfig _ _ _ _ _ _ _) as [cfg|] eqn:Hgen; [|done].
    cbn [mbind option_bind]. intros [= <-].
    exists (Locations cfg), [InternalRedirectLocation cfg], (SplitClients cfg), (Maps cfg),
      (matchesRoutes + 1)%Z.
    split; [done|].
    pose proof (generateMatchesConfig_internal_redirect _ _ _ _ _ _ _ _ Hgen) as Hirl.
    destruct (generateMatchesConfig_inv _ _ _ _ _ _ _ _ Hgen) as (source & Hmaps & Hvars).
    split.
    + intros irl ->%list_elem_of_singleton. left. rewrite Hirl, Hmaps, fmap_app.
      apply elem_of_app. right. by left.
    + intros Hfits.
      assert (length (SplitClients cfg)
              = length (version2.SplitClient.Variable_ <$> SplitClients cfg)) as Hlen
        by by rewrite length_fmap.
      rewrite Hvars in Hlen |- *. rewrite length_app, length_imap_from in Hlen.
      unfold len in Hfits. rewrite length_app in Hfits.
      rewrite imap_from_seq, Hlen, seq_app, fmap_app. f_equal.
      * apply list_fmap_ext. intros i k [-> Hk]%lookup_seq. f_equal.
        apply int_add_small; unfold len; lia.
      * unfold spec.main_map_default. cbn [version2.Parameter_.Result].
        rewrite nested_before_all.
        destruct (0 <? len (Route.Splits r))%Z; [|done]. cbn [length seq fmap list_fmap].
        cbn [length] in Hlen. do 2 f_equal. rewrite Nat.add_0_l.
        apply int_add_small; unfold len; lia.
  - destruct (generateDefaultSplitsConfig _ _ _ _ _ _) as [cfg|] eqn:Hgen; [|done].
    cbn [mbind option_bind]. intros [= <-].
    exists (Locations cfg), [InternalRedirectLocation cfg], (SplitClients cfg), [],
      matchesRoutes.
    rewrite app_nil_r. split; [done|].
    unfold generateDefaultSplitsConfig in Hgen.
    destruct (generateSplits _ _ _ _ _ _) as [[sc locs]|] eqn:Hsplits; [|done].
    apply generateSplits_variable in Hsplits. cbn [mbind option_bind] in Hgen.
    injection Hgen as <-. cbn [InternalRedirectLocation SplitClients].
    split.
    + intros irl ->%list_elem_of_singleton. right.
      cbn [version2.InternalRedirectLocation.Destination fmap list_fmap].
      rewrite Hsplits. by left.
    + intros _. cbn [length seq fmap list_fmap]. by rewrite Hsplits, Z.add_0_r.
  - destruct (Route.Action r) as [action|]; [|done]. cbn [mbind option_bind].
    destruct (generateLocation _ _ _ _ _) as [loc|]; [|done]. cbn [mbind option_bind].
    intros [= <-]. exists [loc], [], [], [], matchesRoutes. rewrite !app_nil_r.
    split; [done|]. split; [by intros irl ?%elem_of_nil | done].
Qed.

Section route_loops.
Context `{GeneratorEnv}.

(** An invariant of the variables of the loops that generate the
    configuration of the routes, which every route keeps, holds of what
    [GenerateVirtualServerConfig] returns. *)
Lemma GenerateVirtualServerConfig_routes_invariant
    (Inv : list version2.Location.t * list version2.InternalRedirectLocation.t
           * list version2.SplitClient.t * list version2.Map.t * Z → Prop)
    (vsc : virtualServerConfigurator) (virtualServerEx : VirtualServerEx.t)
    (tlsPemFileName : string) vscfg warns vsc' :
  Inv ([], [], [], [], 0%Z) →
  (∀ crUpstreams cfgParams upstreamNamer r st st',
     Inv st →
     GenerateVirtualServerConfig_route crUpstreams
       (newVariableNamer (deref (VirtualServerEx.VirtualServer virtualServerEx)))
       cfgParams upstreamNamer r st = Some st' →
     Inv st') →
  GenerateVirtualServerConfig vsc virtualServerEx tlsPemFileName = Some (vscfg, warns, vsc') →
  ∃ matchesRoutes,
    Inv (version2.Server.Locations (version2.VirtualServerConfig.Server vscfg),
         version2.Server.InternalRedirectLocations (version2.VirtualServerConfig.Server vscfg),
         version2.VirtualServerConfig.SplitClients vscfg,
         version2.VirtualServerConfig.Maps vscfg, matchesRoutes).
Proof.
  intros Hinit Hstep Hgen. unfold GenerateVirtualServerConfig in Hgen.
  destruct (foldl _ (foldl _ _ _) _)
    as [[[[upstreams statusMatches] healthChecks] crUpstreams] vscf].
  destruct (for_range_opt _ _ _ _) as [st|] eqn:Hroutes; [|done].
  cbn [mbind option_bind] in Hgen.
  destruct (for_range_opt _ _ _ st)
    as [[[[[locations irls] splitClients] maps] n]|] eqn:Hsubroutes; [|done].
  cbn [mbind option_bind] in Hgen. injection Hgen as <- <- <-.
  exists n. cbn [version2.VirtualServerConfig.Server version2.Server.Locations
                 version2.Server.InternalRedirectLocations
                 version2.VirtualServerConfig.SplitClients version2.VirtualServerConfig.Maps].
  eapply for_range_opt_invariant; [| |exact Hsubroutes].
  - intros i vsr st1 st2 Hst1. cbv beta. apply for_range_opt_invariant; [|done].
    intros j r st3 st4. cbv beta. apply Hstep.
  - eapply for_range_opt_invariant; [|exact Hinit|exact Hroutes].
    intros i r st1 st2 Hst1. cbv beta. destruct (negb _); [by intros [= <-]|]. by apply Hstep.
Qed.

(** X12. In a generated configuration every internal redirect goes to a
    variable that the configuration defines: the variable of one of its maps
    or of one of its split-clients. *)
Theorem GenerateVirtualServerConfig_internal_redirects (vsc : virtualServerConfigurator)
    (virtualServerEx : VirtualServerEx.t) (tlsPemFileName : string) vscfg warns vsc' :
  GenerateVirtualServerConfig vsc virtualServerEx tlsPemFileName = Some (vscfg, warns, vsc') →
  ∀ irl,
    irl ∈ version2.Server.InternalRedirectLocations (version2.VirtualServerConfig.Server vscfg) →
    version2.InternalRedirectLocation.Destination irl
      ∈ version2.Map.Variable_ <$> version2.VirtualServerConfig.Maps vscfg ∨
    version2.InternalRedirectLocation.Destination irl
      ∈ version2.SplitClient.Variable_ <$> version2.VirtualServerConfig.SplitClients vscfg.
Proof.
  intros Hgen.
  destruct (GenerateVirtualServerConfig_routes_invariant
              (λ '(_, irls, splitClients, maps, _),
                 ∀ irl, irl ∈ irls →
                   version2.InternalRedirectLocation.Destination irl
                     ∈ version2.Map.Variable_ <$> maps ∨
                   version2.InternalRedirectLocation.Destination irl
                     ∈ version2.SplitClient.Variable_ <$> splitClients)
              vsc virtualServerEx tlsPemFileName vscfg warns vsc') as [n Hinv];
    [by intros irl ?%elem_of_nil | | done | done].
  clear Hgen.
  intros crUpstreams cfgParams upstreamNamer r [[[[locations irls] splitClients] maps] n] st'
    Hinv (locations' & irls' & splitClients' & maps' & n' & -> & Hnew & _)
           %GenerateVirtualServerConfig_route_inv.
  intros irl [Hold|Hirl]%elem_of_app; rewrite !fmap_app, !elem_of_app.
  - destruct (Hinv irl Hold); [left | right]; by left.
  - destruct (Hnew irl Hirl); [left | right]; by right.
Qed.

(** X13. The split-clients of a generated configuration are numbered in the
    order in which they stand: the split-client at position [k] (counted from
    0, over the routes of the VirtualServer and the subroutes of its
    VirtualServerRoutes) sets the split-client variable of the index [k] of
    the VirtualServer. (The number of split-clients is one that fits in an
    [int].) *)
Theorem GenerateVirtualServerConfig_split_clients (vsc : virtualServerConfigurator)
    (virtualServerEx : VirtualServerEx.t) (tlsPemFileName : string) vscfg warns vsc' :
  GenerateVirtualServerConfig vsc virtualServerEx tlsPemFileName = Some (vscfg, warns, vsc') →
  (len (version2.VirtualServerConfig.SplitClients vscfg) < 2 ^ 63)%Z →
  ∀ k sc, version2.VirtualServerConfig.SplitClients vscfg !! k = Some sc →
    version2.SplitClient.Variable_ sc
    = GetNameForSplitClientVariable
        (newVariableNamer (deref (VirtualServerEx.VirtualServer virtualServerEx)))
        (Z.of_nat k).
Proof.
  intros Hgen.
  set (variableNamer := newVariableNamer (deref (VirtualServerEx.VirtualServer virtualServerEx))).
  destruct (GenerateVirtualServerConfig_routes_invariant
              (λ '(_, _, splitClients, _, _),
                 (len splitClients < 2 ^ 63)%Z →
                 version2.SplitClient.Variable_ <$> splitClients
                 = (λ k, GetNameForSplitClientVariable variableNamer (Z.of_nat k))
                     <$> seq 0 (length splitClients))
              vsc virtualServerEx tlsPemFileName vscfg warns vsc') as [n Hinv];
    [done | | done |].
  - clear Hgen.
    intros crUpstreams cfgParams upstreamNamer r [[[[locations irls] splitClients] maps] n] st'
      Hinv (locations' & irls' & splitClients' & maps' & n' & -> & _ & Hnew)
             %GenerateVirtualServerConfig_route_inv.
    intros Hfits. rewrite fmap_app, length_app, seq_app, fmap_app.
    rewrite Hnew by done. rewrite Hinv.
    + f_equal. replace (0 + length splitClients)%nat with (length splitClients + 0)%nat by lia.
      rewrite <- fmap_add_seq, <- list_fmap_compose. apply list_fmap_ext.
      intros _ k _. simpl. f_equal. unfold len. lia.
    + unfold len in *. rewrite length_app in Hfits. lia.
  - intros Hfits k sc Hk. specialize (Hinv Hfits).
    assert ((version2.SplitClient.Variable_ <$> version2.VirtualServerConfig.SplitClients vscfg)
              !! k = Some (version2.SplitClient.Variable_ sc)) as Hvar
      by by rewrite list_lookup_fmap, Hk.
    rewrite Hinv, list_lookup_fmap in Hvar.
    rewrite lookup_seq_lt in Hvar by by eapply lookup_lt_Some.
    by injection Hvar as ->.
Qed.

End route_loops.

(** X12, the witness: the two internal redirects of the example, one to the
    variable of a main map and one to that of a split-client. *)
Lemma GenerateVirtualServerConfig_internal_redirects_witness :
  ∃ vscfg warns vsc',
    GenerateVirtualServerConfig (newVirtualServerConfigurator example.cfgParams true false)
      example.plus_snapshot ""
    = Some (vscfg, warns, vsc') ∧
    ∀ irl,
      irl ∈ version2.Server.InternalRedirectLocations
              (version2.VirtualServerConfig.Server vscfg) →
      version2.InternalRedirectLocation.Destination irl
        ∈ version2.Map.Variable_ <$> version2.VirtualServerConfig.Maps vscfg ∨
      version2.InternalRedirectLocation.Destination irl
        ∈ version2.SplitClient.Variable_ <$> version2.VirtualServerConfig.SplitClients vscfg.
Proof.
  destruct (GenerateVirtualServerConfig
              (newVirtualServerConfigurator example.cfgParams true false)
              example.plus_snapshot "")
    as [[[vscfg warns] vsc']|] eqn:Hgen; [|by vm_compute in Hgen].
  exists vscfg, warns, vsc'. split; [done|].
  exact (GenerateVirtualServerConfig_internal_redirects
           (newVirtualServerConfigurator example.cfgParams true false)
           example.plus_snapshot "" vscfg warns vsc' Hgen).
Defined.

(** X13, the witness: the three split-clients of the example, two of the
    matches route of the VirtualServer and one of a subroute of the
    VirtualServerRoute. *)
Lemma GenerateVirtualServerConfig_split_clients_witness :
  ∃ vscfg warns vsc',
    GenerateVirtualServerConfig (newVirtualServerConfigurator example.cfgParams true false)
      example.plus_snapshot ""
    = Some (vscfg, warns, vsc') ∧
    length (version2.VirtualServerConfig.SplitClients vscfg) = 3%nat ∧
    ∀ k sc, version2.VirtualServerConfig.SplitClients vscfg !! k = Some sc →
      version2.SplitClient.Variable_ sc
      = GetNameForSplitClientVariable
          (newVariableNamer (deref (VirtualServerEx.VirtualServer example.plus_snapshot)))
          (Z.of_nat k).
Proof.
  destruct (GenerateVirtualServerConfig
              (newVirtualServerConfigurator example.cfgParams true false)
              example.plus_snapshot "")
    as [[[vscfg warns] vsc']|] eqn:Hgen; [|by vm_compute in Hgen].
  exists vscfg, warns, vsc'. split; [done|].
  assert (length (version2.VirtualServerConfig.SplitClients vscfg) = 3%nat) as Hlen.
  { vm_compute in Hgen. by injection Hgen as <- _ _. }
  split; [done|].
  apply (GenerateVirtualServerConfig_split_clients
           (newVirtualServerConfigurator example.cfgParams true false)
           example.plus_snapshot "" vscfg warns vsc' Hgen).
  unfold len. rewrite Hlen. reflexivity.
Defined.

(** ** What the validator accepts *)

Section accepted_actions.
Context `{ValidatorEnv}.

(** An action that [validateAction] accepts has exactly one of a pass, a
    redirect and a return; its pass names a declared upstream, and its
    redirect or its return is accepted in turn. *)
Lemma validateAction_accepted (action : Action.t) (fieldPath : Path)
    (upstreamNames : gset string) :
  validateAction action fieldPath upstreamNames = Some [] →
  countActions action = 1%Z ∧
  (Action.Pass action ≠ "" → Action.Pass action ∈ upstreamNames) ∧
  (∀ redirect, Action.Redirect action = Some redirect →
     validateActionRedirect redirect (Child fieldPath "redirect") = Some []) ∧
  (∀ ret, Action.Return action = Some ret →
     validateActionReturn ret (Child fieldPath "return") = Some []).
Proof.
  unfold validateAction. destruct (Z.eqb_spec (countActions action) 1) as [Hcount|]; [|done].
  cbn [negb]. intros Haccepted. split; [done|].
  assert (∃ errs1 errs2 errs3,
    (Action.Pass action ≠ "" →
     errs1 = validateReferencedUpstream (Action.Pass action) (Child fieldPath "pass")
               upstreamNames) ∧
    (∀ redirect, Action.Redirect action = Some redirect →
       validateActionRedirect redirect (Child fieldPath "redirect") = Some errs2) ∧
    (∀ ret, Action.Return action = Some ret →
       validateActionReturn ret (Child fieldPath "return") = Some errs3) ∧
    (errs1 ++ errs2) ++ errs3 = []) as (errs1 & errs2 & errs3 & Hpass & Hredirect & Hreturn & Hnil).
  { destruct (String.eqb_spec (Action.Pass action) "") as [Hempty|Hpass]; cbn [negb] in Haccepted.
    - exists []. destruct (Action.Redirect action) as [redirect|].
      + destruct (validateActionRedirect _ _) as [errs2|] eqn:Hred; [|done].
        cbn [mbind option_bind] in Haccepted. exists errs2.
        destruct (Action.Return action) as [ret|].
        * destruct (validateActionReturn _ _) as [errs3|] eqn:Hret; [|done].
          cbn [mbind option_bind] in Haccepted. exists errs3. injection Haccepted as Hnil.
          repeat split; [done | by intros ? [= <-] | by intros ? [= <-] | done].
        * exists []. injection Haccepted as Hnil. rewrite app_nil_r.
          repeat split; [done | by intros ? [= <-] | done | done].
      + exists []. cbn [mbind option_bind] in Haccepted.
        destruct (Action.Return action) as [ret|].
        * destruct (validateActionReturn _ _) as [errs3|] eqn:Hret; [|done].
          cbn [mbind option_bind] in Haccepted. exists errs3. injection Haccepted as Hnil.
          repeat split; [done | done | by intros ? [= <-] | done].
        * by exists [].
    - exists (validateReferencedUpstream (Action.Pass action) (Child fieldPath "pass")
                upstreamNames).
      destruct (Action.Redirect action) as [redirect|].
      + destruct (validateActionRedirect _ _) as [errs2|] eqn:Hred; [|done].
        cbn [mbind option_bind] in Haccepted. exists errs2.
        destruct (Action.Return action) as [ret|].
        * destruct (validateActionReturn _ _) as [errs3|] eqn:Hret; [|done].
          cbn [mbind option_bind] in Haccepted. exists errs3. injection Haccepted as Hnil.
          repeat split; [by intros ? [= <-] | by intros ? [= <-] | done].
        * exists []. injection Haccepted as Hnil. rewrite app_nil_r.
          repeat split; [by intros ? [= <-] | done | done].
      + exists []. cbn [mbind option_bind] in Haccepted.
        destruct (Action.Return action) as [ret|].
        * destruct (validateActionReturn _ _) as [errs3|] eqn:Hret; [|done].
          cbn [mbind option_bind] in Haccepted. exists errs3. injection Haccepted as Hnil.
          rewrite app_nil_r. repeat split; [done | by intros ? [= <-] | done].
        * injection Haccepted as Hnil. exists []. rewrite !app_nil_r. by repeat split. }
  apply app_eq_nil in Hnil as [[-> ->]%app_eq_nil ->].
  split; [|by split].
  intros Hne. specialize (Hpass Hne). unfold validateReferencedUpstream in Hpass.
  destruct (0 <? len _)%Z eqn:Hlen.
  - cbn [app] in Hpass. rewrite <- Hpass in Hlen. done.
  - destruct (bool_decide_reflect (Action.Pass action ∈ upstreamNames)); [done|].
    cbn [negb app] in Hpass. done.
Qed.

(** A redirect that is accepted has a URL, and its code is 0 (none) or one
    of the four redirect codes. *)
Lemma validateActionRedirect_accepted (redirect : ActionRedirect.t) (fieldPath : Path) :
  validateActionRedirect redirect fieldPath = Some [] →
  ActionRedirect.URL redirect ≠ "" ∧
  (ActionRedirect.Code redirect = 0%Z ∨
   ActionRedirect.Code redirect ∈ [301; 302; 307; 308]%Z).
Proof.
  unfold validateActionRedirect, validateRedirectURL.
  destruct (String.eqb_spec (ActionRedirect.URL redirect) "") as [|Hurl].
  { cbn [mbind option_bind app]. by destruct (negb _). }
  destruct (negb (escapedStringsFmtRegexp_MatchString _)).
  { cbn [mbind option_bind app]. by destruct (negb _). }
  destruct (validateStringWithVariables _ _ _ _) as [errs|]; [|done].
  cbn [mbind option_bind app].
  destruct (Z.eqb_spec (ActionRedirect.Code redirect) 0) as [|Hcode]; cbn [negb].
  - intros _. split; [done | by left].
  - intros [= [_ Hstatus]%app_eq_nil]. split; [done|]. right.
    unfold validateRedirectStatusCode, validRedirectStatusCodes in Hstatus.
    by destruct (bool_decide_reflect
                   (ActionRedirect.Code redirect ∈ [301; 302; 307; 308]%Z)).
Qed.

(** A return that is accepted has a body, and its code is 0 (none) or a code
    of the classes 2XX, 4XX and 5XX. *)
Lemma validateActionReturn_accepted (ret : ActionReturn.t) (fieldPath : Path) :
  validateActionReturn ret fieldPath = Some [] →
  ActionReturn.Body ret ≠ "" ∧
  (ActionReturn.Code ret = 0 ∨ 200 ≤ ActionReturn.Code ret ≤ 299 ∨
   400 ≤ ActionReturn.Code ret ≤ 599)%Z.
Proof.
  unfold validateActionReturn.
  destruct (String.eqb_spec (ActionReturn.Body ret) "") as [|Hbody]; [done|].
  destruct (validateActionReturnBody _ _) as [errs|]; [|done]. cbn [mbind option_bind app].
  destruct (Z.eqb_spec (ActionReturn.Code ret) 0) as [|Hcode]; cbn [negb].
  - intros _. split; [done | by left].
  - intros [= [_ Hstatus]%app_eq_nil]. split; [done|]. right.
    unfold validateActionReturnCode in Hstatus.
    destruct (Z.leb_spec 200 (ActionReturn.Code ret)), (Z.leb_spec (ActionReturn.Code ret) 299),
      (Z.leb_spec 400 (ActionReturn.Code ret)), (Z.leb_spec (ActionReturn.Code ret) 599);
      cbn [andb orb app] in Hstatus; try done; lia.
Qed.

(** X14. What the generator makes of an action that the validator accepts.
    The action has exactly one of a pass, a redirect and a return, and
    [generateLocation] returns a location for it: for a pass, the proxying
    location, and the upstream that it names is a declared one; for a
    redirect, a return of the URL with one of the codes 301, 302, 307 and 308
    (301 when the action names none); for a return, a return of the body with
    a code of the classes 2XX, 4XX and 5XX (200 when the action names none)
    and a default type that is not empty. *)
Theorem validateAction_generateLocation (action : Action.t) (fieldPath : Path)
    (upstreamNames : gset string) (path upstreamName : string) (upstream : Upstream.t)
    (cfgParams : ConfigParams.t) :
  validateAction action fieldPath upstreamNames = Some [] →
  countActions action = 1%Z ∧
  ∃ loc,
    generateLocation path upstreamName upstream (Some action) cfgParams = Some loc ∧
    (Action.Pass action ≠ "" →
     Action.Pass action ∈ upstreamNames ∧
     loc = generateLocationForProxying path upstreamName upstream cfgParams) ∧
    (∀ redirect, Action.Redirect action = Some redirect →
       ∃ code,
         version2.Location.Return loc
         = Some {| version2.Return.Code := code;
                   version2.Return.Text := ActionRedirect.URL redirect |} ∧
         code ∈ [301; 302; 307; 308]%Z) ∧
    (∀ ret, Action.Return action = Some ret →
       ∃ code,
         version2.Location.Return loc
         = Some {| version2.Return.Code := code;
                   version2.Return.Text := ActionReturn.Body ret |} ∧
         (200 ≤ code ≤ 299 ∨ 400 ≤ code ≤ 599)%Z ∧
         version2.Location.DefaultType loc ≠ "").
Proof.
  intros (Hcount & Hpass & Hredirect & Hreturn)%validateAction_accepted.
  split; [done|]. unfold countActions in Hcount. unfold generateLocation.
  cbn [mbind option_bind].
  destruct (String.eqb_spec (Action.Pass action) "") as [Hempty|Hne];
    destruct (Action.Redirect action) as [redirect|] eqn:Hred;
    destruct (Action.Return action) as [ret|] eqn:Hret; cbn in Hcount; try lia.
  - eexists. split; [done|]. split; [done|]. split; [|done].
    intros ? [= <-]. eexists. split; [done|].
    destruct (validateActionRedirect_accepted redirect _ (Hredirect _ eq_refl))
      as [_ [->|Hcode]]; [by left|].
    cbn [version2.Return.Code generateReturnBlock].
    destruct (Z.eqb_spec (ActionRedirect.Code redirect) 0); [by left | done].
  - eexists. split; [done|]. split; [done|]. split; [done|].
    intros ? [= <-]. eexists. split; [done|].
    cbn [generateLocationForReturnBlock version2.Location.DefaultType].
    split; [|by destruct (String.eqb_spec (ActionReturn.Type_ ret) "")].
    destruct (validateActionReturn_accepted ret _ (Hreturn _ eq_refl))
      as [_ [->|Hcode]]; [cbn; lia|].
    destruct (Z.eqb_spec (ActionReturn.Code ret) 0); lia.
  - eexists. split; [done|]. split; [|done]. intros _. split; [by apply Hpass | done].
Qed.

End accepted_actions.

(** X14, the witness: a redirect without a code, which the validator of the
    example accepts, becomes a return with the code 301. *)
Lemma validateAction_generateLocation_witness :
  ∃ loc,
    generateLocation "/old" "" Upstream.zero
      (Some (Action.mk "" (Some (ActionRedirect.mk "http://www.nginx.com" 0)) None))
      example.cfgParams = Some loc ∧
    version2.Return.Code <$> version2.Location.Return loc = Some 301%Z.
Proof.
  destruct (validateAction_generateLocation
              (Action.mk "" (Some (ActionRedirect.mk "http://www.nginx.com" 0)) None)
              (Child (Index (Child (NewPath "spec") "routes") 0) "action") ∅
              "/old" "" Upstream.zero example.cfgParams)
    as (_ & loc & Hgen & _ & Hredirect & _); [by vm_compute|].
  exists loc. split; [done|].
  destruct (Hredirect _ eq_refl) as (code & Hreturn & Hcode).
  rewrite Hreturn. vm_compute in Hgen. injection Hgen as <-. by injection Hreturn as <-.
Defined.

(** ** The names of the upstreams *)

Section upstream_names.
Context `{ValidatorEnv}.

(** [validateDNS1035Label] has no errors exactly for a valid label, and its
    errors are errors of the field that it is given. *)
Lemma validateDNS1035Label_valid (name : string) (fieldPath : Path) :
  validateDNS1035Label name fieldPath = [] ↔ spec.valid_label name.
Proof.
  unfold validateDNS1035Label, spec.valid_label.
  destruct (String.eqb_spec name "") as [->|Hne]; [by split; [|intros []]|].
  rewrite append_each_app. cbn [app]. split.
  - by intros ?%fmap_nil_inv.
  - by intros [_ ->].
Qed.

Lemma validateDNS1035Label_field (name : string) (fieldPath : Path) (e : Error) :
  e ∈ validateDNS1035Label name fieldPath → Field e = Path_String fieldPath.
Proof.
  unfold validateDNS1035Label. destruct (String.eqb _ _).
  - by intros ->%list_elem_of_singleton.
  - rewrite append_each_app. cbn [app]. by intros (msg & -> & _)%list_elem_of_fmap_1.
Qed.

(** One round of the loop of [validateUpstreams]: what it appends to the
    errors begins with the errors of the name or, for a valid name that is
    already in the set, with the error of the duplicate; a valid name that is
    not in the set is added to it. *)
Lemma validateUpstreams_upstream_names (fieldPath : Path) (isPlus : bool) (i : Z)
    (u : Upstream.t) (allErrs : ErrorList) (upstreamNames : gset string) :
  ∃ rest,
    validateUpstreams_upstream fieldPath isPlus i u (allErrs, upstreamNames)
    = if (0 <? len (validateUpstreamName (Upstream.Name u) (Child (Index fieldPath i) "name")))%Z
      then (allErrs
              ++ validateUpstreamName (Upstream.Name u) (Child (Index fieldPath i) "name")
              ++ rest,
            upstreamNames)
      else if bool_decide (Upstream.Name u ∈ upstreamNames)
      then (allErrs
              ++ [Duplicate (Child (Index fieldPath i) "name") (StringValue (Upstream.Name u))]
              ++ rest,
            upstreamNames)
      else (allErrs ++ rest, {[Upstream.Name u]} ∪ upstreamNames).
Proof.
  unfold validateUpstreams_upstream. cbv zeta. eexists.
  destruct (0 <? len (validateUpstreamName _ _))%Z; [|destruct (bool_decide _)];
    rewrite append_each_app, <- !app_assoc; reflexivity.
Qed.

Lemma len_positive {A} (l : list A) : (0 <? len l)%Z = false ↔ l = [].
Proof. unfold len. by destruct l. Qed.

(** The loop of [validateUpstreams]. The set that it leaves holds what it
    found and the valid names of the upstreams; an upstream whose name is not
    valid, or was in the set, or is the name of an upstream before it, gets an
    error at its name. *)
Lemma validateUpstreams_loop_names (fieldPath : Path) (isPlus : bool)
    (upstreams : list Upstream.t) :
  ∀ i allErrs upstreamNames,
    ∃ errs upstreamNames',
      for_range (validateUpstreams_upstream fieldPath isPlus) i upstreams
        (allErrs, upstreamNames)
      = (allErrs ++ errs, upstreamNames') ∧
      (∀ name, name ∈ upstreamNames' ↔
         name ∈ upstreamNames ∨ (name ∈ Upstream.Name <$> upstreams ∧ spec.valid_label name)) ∧
      (∀ k u, upstreams !! k = Some u →
         ¬ spec.valid_label (Upstream.Name u) ∨ Upstream.Name u ∈ upstreamNames ∨
         Upstream.Name u ∈ Upstream.Name <$> take k upstreams →
         ∃ e, e ∈ errs ∧
           Field e = Path_String (Child (Index fieldPath (i + Z.of_nat k)) "name")).
Proof.
  induction upstreams as [|u upstreams IH]; intros i allErrs upstreamNames.
  - exists [], upstreamNames. rewrite app_nil_r. split; [done|]. split; [|done].
    intros name. split; [by left|]. by intros [?|[?%elem_of_nil _]].
  - destruct (validateUpstreams_upstream_names fieldPath isPlus i u allErrs upstreamNames)
      as [rest Hround].
    cbn [for_range]. rewrite Hround. clear Hround.
    pose proof (validateDNS1035Label_valid (Upstream.Name u) (Child (Index fieldPath i) "name"))
      as Hvalid.
    fold (validateUpstreamName (Upstream.Name u) (Child (Index fieldPath i) "name")) in Hvalid.
    destruct (0 <? len (validateUpstreamName _ _))%Z eqn:Hlen;
      [|destruct (bool_decide_reflect (Upstream.Name u ∈ upstreamNames)) as [Hin|Hnin]].
    + assert (¬ spec.valid_label (Upstream.Name u)) as Hinvalid.
      { intros Hv%Hvalid. by rewrite Hv in Hlen. }
      destruct (validateUpstreamName (Upstream.Name u) (Child (Index fieldPath i) "name"))
        as [|e errs0] eqn:Herrs; [done|].
      destruct (IH (i + 1)%Z (allErrs ++ (e :: errs0) ++ rest) upstreamNames)
        as (errs & names' & -> & Hnames & Herr).
      exists (((e :: errs0) ++ rest) ++ errs), names'. split; [by rewrite <- !app_assoc|]. split.
      * intros name. rewrite Hnames, fmap_cons, elem_of_cons. split.
        -- intros [?|[? ?]]; [by left | right; split; [by right | done]].
        -- intros [?|[[->|?] ?]]; [by left | done | by right].
      * intros [|k] u' Hk Hbad.
        -- exists e. split; [by left|]. rewrite Z.add_0_r.
           eapply validateDNS1035Label_field. unfold validateUpstreamName in Herrs.
           rewrite Herrs. by left.
        -- destruct (Herr k u' Hk) as (e' & He' & Hfield).
           { destruct Hbad as [?|[?|Hbefore]]; [by left | by right; left |].
             cbn [take fmap list_fmap] in Hbefore. apply elem_of_cons in Hbefore as [Heq|?].
             - left. by rewrite Heq.
             - by right; right. }
           exists e'. split; [apply elem_of_app; by right|].
           by replace (i + Z.of_nat (S k))%Z with (i + 1 + Z.of_nat k)%Z by lia.
    + apply len_positive, Hvalid in Hlen.
      destruct (IH (i + 1)%Z
                  (allErrs ++ [Duplicate (Child (Index fieldPath i) "name")
                                 (StringValue (Upstream.Name u))] ++ rest) upstreamNames)
        as (errs & names' & -> & Hnames & Herr).
      eexists (([_] ++ rest) ++ errs), names'. split; [by rewrite <- !app_assoc|]. split.
      * intros name. rewrite Hnames, fmap_cons, elem_of_cons. split.
        -- intros [?|[? ?]]; [by left | right; split; [by right | done]].
        -- intros [?|[[->|?] ?]]; [by left | by left | by right].
      * intros [|k] u' Hk Hbad.
        -- eexists. split; [by left|]. by rewrite Z.add_0_r.
        -- destruct (Herr k u' Hk) as (e' & He' & Hfield).
           { destruct Hbad as [?|[?|Hbefore]]; [by left | by right; left |].
             cbn [take fmap list_fmap] in Hbefore. apply elem_of_cons in Hbefore as [Heq|?].
             - right. left. by rewrite Heq.
             - by right; right. }
           exists e'. split; [apply elem_of_app; by right|].
           by replace (i + Z.of_nat (S k))%Z with (i + 1 + Z.of_nat k)%Z by lia.
    + apply len_positive, Hvalid in Hlen.
      destruct (IH (i + 1)%Z (allErrs ++ rest) ({[Upstream.Name u]} ∪ upstreamNames))
        as (errs & names' & -> & Hnames & Herr).
      exists (rest ++ errs), names'. split; [by rewrite <- !app_assoc|]. split.
      * intros name. rewrite Hnames, fmap_cons, elem_of_cons, elem_of_union, elem_of_singleton.
        split.
        -- intros [[->|?]|[? ?]];
             [right; split; [by left | done] | by left | right; split; [by right | done]].
        -- intros [?|[[->|?] ?]]; [by left; right | by left; left | by right].
      * intros [|k] u' Hk Hbad.
        -- injection Hk as <-. destruct Hbad as [?|[?|?%elem_of_nil]]; done.
        -- destruct (Herr k u' Hk) as (e' & He' & Hfield).
           { destruct Hbad as [?|[?|Hbefore]];
               [by left | right; left; apply elem_of_union; by right |].
             cbn [take fmap list_fmap] in Hbefore. apply elem_of_cons in Hbefore as [Heq|?].
             - right. left. rewrite Heq. apply elem_of_union. left. by apply elem_of_singleton.
             - by right; right. }
           exists e'. split; [apply elem_of_app; by right|].
           by replace (i + Z.of_nat (S k))%Z with (i + 1 + Z.of_nat k)%Z by lia.
Qed.

(** X15. The set of names that [validateUpstreams] returns, against which
    the actions of the routes are checked, holds exactly the valid names of
    the upstreams. An upstream that has the name of an upstream before it
    gets an error at its name. So when [validateUpstreams] has no errors,
    the names of the upstreams are valid and differ from each other. *)
Theorem validateUpstreams_names (upstreams : list Upstream.t) (fieldPath : Path)
    (isPlus : bool) :
  (∀ name,
     name ∈ (validateUpstreams upstreams fieldPath isPlus).2
     ↔ name ∈ Upstream.Name <$> upstreams ∧ spec.valid_label name) ∧
  (∀ j k u u',
     (j < k)%nat → upstreams !! j = Some u → upstreams !! k = Some u' →
     Upstream.Name u = Upstream.Name u' →
     ∃ e, e ∈ (validateUpstreams upstreams fieldPath isPlus).1 ∧
       Field e = Path_String (Child (Index fieldPath (Z.of_nat k)) "name")) ∧
  ((validateUpstreams upstreams fieldPath isPlus).1 = [] →
   NoDup (Upstream.Name <$> upstreams) ∧
   Forall (λ u, spec.valid_label (Upstream.Name u)) upstreams).
Proof.
  unfold validateUpstreams.
  destruct (validateUpstreams_loop_names fieldPath isPlus upstreams 0 [] ∅)
    as (errs & names & -> & Hnames & Herr).
  cbn [fst snd app]. setoid_rewrite Z.add_0_l in Herr.
  split; [|split].
  - intros name. rewrite Hnames. split; [by intros [?%elem_of_empty|?] | by right].
  - intros j k u u' Hjk Hj Hk Hname. apply (Herr k u' Hk). right. right.
    rewrite <- Hname. apply list_elem_of_fmap_2, list_elem_of_lookup. exists j.
    by rewrite lookup_take_lt.
  - intros ->. split.
    + apply NoDup_alt. intros j k name Hj Hk.
      apply list_lookup_fmap_Some_1 in Hj as (u & -> & Hj).
      apply list_lookup_fmap_Some_1 in Hk as (u' & Hname & Hk).
      destruct (Nat.lt_trichotomy j k) as [Hlt|[->|Hlt]]; [|done|].
      * by destruct (Herr k u' Hk) as (e & ?%elem_of_nil & _);
          [right; right; rewrite <- Hname;
           apply list_elem_of_fmap_2, list_elem_of_lookup; exists j; by rewrite lookup_take_lt|].
      * by destruct (Herr j u Hj) as (e & ?%elem_of_nil & _);
          [right; right; rewrite Hname;
           apply list_elem_of_fmap_2, list_elem_of_lookup; exists k; by rewrite lookup_take_lt|].
    + apply Forall_lookup. intros k u Hk.
      destruct (decide (spec.valid_label (Upstream.Name u))) as [|Hinvalid]; [done|].
      by destruct (Herr k u Hk) as (e & ?%elem_of_nil & _); [left|].
Qed.

End upstream_names.

(** X15, the witness: of two upstreams with the name tea, the second gets an
    error at [spec.upstreams[1].name]. *)
Lemma validateUpstreams_names_witness :
  ∃ e,
    e ∈ (validateUpstreams
           [example.upstream "tea" "tea-svc" 80; example.upstream "tea" "tea-svc-2" 80]
           (Child (NewPath "spec") "upstreams") true).1 ∧
    Field e = "spec.upstreams[1].name".
Proof.
  exact (proj1 (proj2 (validateUpstreams_names
                         [example.upstream "tea" "tea-svc" 80;
                          example.upstream "tea" "tea-svc-2" 80]
                         (Child (NewPath "spec") "upstreams") true))
           0%nat 1%nat _ _ (le_n 1) eq_refl eq_refl eq_refl).
Defined.

(** ** Accepted routes *)

(** A loop that appends to a list the lists that a function, which can fail,
    makes of the elements: when nothing is appended, the function has made
    the empty list of each element. *)
Lemma for_range_opt_append_list {A B} (g : Z → A → option (list B))
    (body : Z → A → list B → option (list B)) :
  (∀ i x acc, body i x acc = ys ← g i x; Some (acc ++ ys)) →
  ∀ l i acc res,
    for_range_opt body i l acc = Some res →
    ∃ rest, res = acc ++ rest ∧
      (rest = [] → ∀ k x, l !! k = Some x → g (i + Z.of_nat k)%Z x = Some []).
Proof.
  intros Hbody l. induction l as [|x l IH]; intros i acc res; simpl.
  - intros [= <-]. exists []. by rewrite app_nil_r.
  - rewrite Hbody. destruct (g i x) as [ys|] eqn:Hys; [|done]. simpl.
    intros (rest & -> & Hrest)%IH. exists (ys ++ rest). rewrite <- app_assoc.
    split; [done|]. intros [-> ->]%app_eq_nil [|k] x' Hk; simpl in Hk.
    + injection Hk as <-. by rewrite Z.add_0_r.
    + replace (i + Z.of_nat (S k))%Z with (i + 1 + Z.of_nat k)%Z by lia. by apply Hrest.
Qed.

(** An empty list that is made by appending has empty parts. *)
Ltac nil_parts :=
  repeat match goal with
         | H : Some _ = Some _ |- _ => injection H as H
         | H : _ ++ _ = [] |- _ => apply app_eq_nil in H as [? ?]
         end;
  subst.

Section accepted_routes.
Context `{ValidatorEnv}.

(** A block of splits that is accepted has at least two splits, and each of
    them has a weight from 1 to 99 and an action that is accepted. *)
Lemma validateSplits_accepted (splits : list Split.t) (fieldPath : Path)
    (upstreamNames : gset string) :
  validateSplits splits fieldPath upstreamNames = Some [] →
  (2 ≤ len splits)%Z ∧
  ∀ k s, splits !! k = Some s →
    (1 ≤ Split.Weight s ≤ 99)%Z ∧
    ∃ action, Split.Action s = Some action ∧
      validateAction action (Child (Index fieldPath (Z.of_nat k)) "action") upstreamNames
      = Some [].
Proof.
  destruct (validateSplits_loop fieldPath upstreamNames splits 0 [] 0)
    as (errs & Hloop & Hiff).
  setoid_rewrite Z.add_0_l in Hiff.
  unfold validateSplits. rewrite Hloop. cbn [mbind option_bind app].
  destruct (Z.ltb_spec (len splits) 2) as [|Hlen]; [done|].
  destruct (negb _); [by intros [= [_ ?]%app_eq_nil]|].
  intros [= ->]. split; [done|]. by apply Hiff.
Qed.

(** A match that is accepted has conditions, which are accepted, and either
    an accepted action and no splits, or no action and an accepted block of
    splits. *)
Lemma validateMatch_accepted (match_ : Match.t) (fieldPath : Path)
    (upstreamNames : gset string) :
  validateMatch match_ fieldPath upstreamNames = Some [] →
  Match.Conditions match_ ≠ [] ∧
  (∀ j c, Match.Conditions match_ !! j = Some c →
     validateCondition c (Index (Child fieldPath "conditions") (Z.of_nat j)) = []) ∧
  ((∃ action, Match.Action match_ = Some action ∧ Match.Splits match_ = [] ∧
      validateAction action (Child fieldPath "action") upstreamNames = Some []) ∨
   (Match.Action match_ = None ∧ Match.Splits match_ ≠ [] ∧
    validateSplits (Match.Splits match_) (Child fieldPath "splits") upstreamNames = Some [])).
Proof.
  unfold validateMatch.
  assert (∃ cerrs,
    (if (len (Match.Conditions match_) =? 0)%Z
     then [] ++ [Required (Child fieldPath "conditions") "must specify at least one condition"]
     else for_range
            (λ i c allErrs,
               allErrs ++ validateCondition c (Index (Child fieldPath "conditions") i))
            0 (Match.Conditions match_) []) = cerrs ∧
    (cerrs = [] →
     Match.Conditions match_ ≠ [] ∧
     ∀ j c, Match.Conditions match_ !! j = Some c →
       validateCondition c (Index (Child fieldPath "conditions") (Z.of_nat j)) = []))
    as (cerrs & -> & Hconditions).
  { eexists. split; [done|]. destruct (Match.Conditions match_) as [|c0 cs]; [done|].
    replace (len (c0 :: cs) =? 0)%Z with false by done.
    rewrite (for_range_append_list
               (λ i c, validateCondition c (Index (Child fieldPath "conditions") i)))
      by done.
    cbn [app]. intros Hnil%concat_nil_Forall. split; [done|]. intros j c Hj.
    pose proof (imap_from_lookup
                  (λ i c, validateCondition c (Index (Child fieldPath "conditions") i))
                  0 _ j c Hj) as Hc.
    rewrite Z.add_0_l in Hc. exact (proj1 (Forall_lookup _ _) Hnil j _ Hc). }
  destruct (Match.Action match_) as [action|];
    [destruct (validateAction _ _ _) as [aerrs|] eqn:Haction; [|done]|];
    cbn [mbind option_bind];
    (destruct (Match.Splits match_) as [|s0 ss] eqn:Hsplits;
     [replace (0 <? len (@nil Split.t))%Z with false by done
     |replace (0 <? len (s0 :: ss))%Z with true by done;
      destruct (validateSplits _ _ _) as [serrs|] eqn:Hserrs; [|done]]);
    cbn [mbind option_bind negb Z.add Z.eqb Pos.add Pos.eqb Pos.succ];
    try by (intros [= [_ ?]%app_eq_nil]).
  - intros [= [[Hne Hall]%Hconditions ->]%app_eq_nil]. split_and!; [done..|]. left. by exists action.
  - intros [= [[Hne Hall]%Hconditions ->]%app_eq_nil]. split_and!; [done..|]. by right.
Qed.

(** A route that is accepted has an accepted path, accepted matches, and
    exactly one of an action, a block of splits and, where the route field is
    allowed, a reference to a VirtualServerRoute. *)
Lemma validateRoute_accepted (route : Route.t) (fieldPath : Path)
    (upstreamNames : gset string) (isRouteFieldForbidden : bool) :
  validateRoute route fieldPath upstreamNames isRouteFieldForbidden = Some [] →
  validateRoutePath (Route.Path route) (Child fieldPath "path") = [] ∧
  (∀ i m, Route.Matches route !! i = Some m →
     validateMatch m (Index (Child fieldPath "matches") (Z.of_nat i)) upstreamNames = Some []) ∧
  ((∃ action, Route.Action route = Some action ∧ Route.Splits route = [] ∧
      Route.Route route = "" ∧
      validateAction action (Child fieldPath "action") upstreamNames = Some []) ∨
   (Route.Action route = None ∧ Route.Splits route ≠ [] ∧ Route.Route route = "" ∧
    validateSplits (Route.Splits route) (Child fieldPath "splits") upstreamNames = Some []) ∨
   (Route.Action route = None ∧ Route.Splits route = [] ∧ Route.Route route ≠ "" ∧
    isRouteFieldForbidden = false ∧
    validateRouteField (Route.Route route) (Child fieldPath "route") = [])).
Proof.
  unfold validateRoute.
  assert (Hmatches : ∀ allErrs merrs,
    (if (0 <? len (Route.Matches route))%Z
     then
       for_range_opt
         (λ i m allErrs,
            errs ← validateMatch m (Index (Child fieldPath "matches") i) upstreamNames;
            Some (allErrs ++ errs))
         0 (Route.Matches route) allErrs
     else Some allErrs) = Some merrs →
    ∃ rest, merrs = allErrs ++ rest ∧
      (rest = [] →
       ∀ i m, Route.Matches route !! i = Some m →
         validateMatch m (Index (Child fieldPath "matches") (Z.of_nat i)) upstreamNames
         = Some [])).
  { intros allErrs merrs. destruct (Route.Matches route) as [|m0 ms].
    - intros [= <-]. exists []. by rewrite app_nil_r.
    - replace (0 <? len (m0 :: ms))%Z with true by done.
      intros (rest & -> & Hrest)%(for_range_opt_append_list
        (λ i m, validateMatch m (Index (Child fieldPath "matches") i) upstreamNames));
        [|done].
      exists rest. split; [done|]. intros Hnil i m Hi.
      by rewrite <- (Hrest Hnil i m Hi), Z.add_0_l. }
  destruct (Route.Action route) as [action|];
    [destruct (validateAction _ _ _) as [aerrs|] eqn:Haction; [|done]|];
    cbn [mbind option_bind];
    (destruct (Route.Splits route) as [|s0 ss] eqn:Hsplits;
     [replace (0 <? len (@nil Split.t))%Z with false by done
     |replace (0 <? len (s0 :: ss))%Z with true by done;
      destruct (validateSplits _ _ _) as [serrs|] eqn:Hserrs; [|done]]);
    cbn [mbind option_bind];
    (match goal with
     | |- context [if (0 <? len (Route.Matches route))%Z then ?loop else Some ?allErrs] =>
         destruct (if (0 <? len (Route.Matches route))%Z then loop else Some allErrs)
           as [merrs|] eqn:Hloop; [|done];
         apply Hmatches in Hloop as (rest & -> & Hrest)
     end);
    cbn [mbind option_bind];
    destruct (String.eqb_spec (Route.Route route) "") as [Hroute|Hroute];
    try destruct isRouteFieldForbidden;
    intros Hnil; simpl in Hnil; nil_parts; try done;
    (split_and!; [done | by apply Hrest |]).
  - left. by exists action.
  - left. by exists action.
  - by right; right.
  - by right; left.
  - by right; left.
Qed.

End accepted_routes.

(** A loop that checks each element and keeps the set of the keys of those
    that pass, reporting a key that it has seen: when it reports nothing,
    every element has passed its check and the keys differ from each other
    and from those that were in the set. *)
Lemma for_range_opt_unique {A} (check : Z → A → option ErrorList) (key : A → string)
    (duplicate : Z → A → Error)
    (body : Z → A → ErrorList * gset string → option (ErrorList * gset string)) :
  (∀ i x allErrs seen,
     body i x (allErrs, seen)
     = errs ← check i x;
       if (0 <? len errs)%Z then Some (allErrs ++ errs, seen)
       else if bool_decide (key x ∈ seen) then Some (allErrs ++ [duplicate i x], seen)
       else Some (allErrs, {[key x]} ∪ seen)) →
  ∀ l i allErrs seen st,
    for_range_opt body i l (allErrs, seen) = Some st →
    ∃ rest, st.1 = allErrs ++ rest ∧
      (rest = [] →
       (∀ k x, l !! k = Some x → check (i + Z.of_nat k)%Z x = Some []) ∧
       NoDup (key <$> l) ∧ ∀ x, x ∈ l → key x ∉ seen).
Proof.
  intros Hbody l. induction l as [|x l IH]; intros i allErrs seen st.
  - intros [= <-]. exists []. rewrite app_nil_r. split; [done|]. intros _.
    split_and!; [done | constructor | by intros x ?%elem_of_nil].
  - cbn [for_range_opt]. rewrite Hbody. destruct (check i x) as [errs|] eqn:Hcheck; [|done].
    cbn [mbind option_bind].
    destruct (0 <? len errs)%Z eqn:Hlen;
      [|destruct (bool_decide_reflect (key x ∈ seen)) as [Hseen|Hnew]].
    + intros (rest & -> & _)%IH. exists (errs ++ rest). rewrite <- app_assoc.
      split; [done|]. intros [-> _]%app_eq_nil. done.
    + intros (rest & -> & _)%IH. eexists ([_] ++ rest). rewrite <- app_assoc.
      split; [done|]. by intros [? _]%app_eq_nil.
    + apply len_positive in Hlen as ->.
      intros (rest & -> & Hrest)%IH. exists rest. split; [done|].
      intros (Hchecks & Hnodup & Hseen)%Hrest. split_and!.
      * intros [|k] x' Hk; simpl in Hk.
        -- injection Hk as <-. by rewrite Z.add_0_r.
        -- replace (i + Z.of_nat (S k))%Z with (i + 1 + Z.of_nat k)%Z by lia.
           by apply Hchecks.
      * rewrite fmap_cons. apply NoDup_cons. split; [|done].
        intros (x' & Hkey & Hx')%list_elem_of_fmap_1. apply (Hseen x' Hx').
        apply elem_of_union. left. by apply elem_of_singleton.
      * intros x' [<-|Hx']%elem_of_cons; [done|]. intros Hin. apply (Hseen x' Hx').
        apply elem_of_union. by right.
Qed.

Section unique_paths.
Context `{ValidatorEnv}.

(** The routes of a VirtualServer that are accepted are accepted one by one,
    each at its index, and their paths differ from each other. *)
Lemma validateVirtualServerRoutes_accepted (routes : list Route.t) (fieldPath : Path)
    (upstreamNames : gset string) :
  validateVirtualServerRoutes routes fieldPath upstreamNames = Some [] →
  (∀ k r, routes !! k = Some r →
     validateRoute r (Index fieldPath (Z.of_nat k)) upstreamNames false = Some []) ∧
  NoDup (Route.Path <$> routes).
Proof.
  unfold validateVirtualServerRoutes.
  destruct (for_range_opt _ _ _ _) as [st|] eqn:Hloop; [|done].
  apply (for_range_opt_unique
           (λ i r, validateRoute r (Index fieldPath i) upstreamNames false) Route.Path
           (λ i r, Duplicate (Child (Index fieldPath i) "path") (StringValue (Route.Path r))))
    in Hloop as (rest & Hst & Hrest); [|done].
  cbn [fmap option_fmap option_map]. intros [= Hnil]. rewrite Hst in Hnil. cbn [app] in Hnil.
  destruct (Hrest Hnil) as (Hchecks & Hnodup & _). split; [|done].
  intros k r Hk. by rewrite <- (Hchecks k r Hk), Z.add_0_l.
Qed.

(** The subroutes of a VirtualServerRoute that are accepted are accepted one
    by one, with the route field forbidden; under a parent path that is
    neither a regex nor an exact match, their paths differ from each other. *)
Lemma validateVirtualServerRouteSubroutes_accepted (routes : list Route.t) (fieldPath : Path)
    (upstreamNames : gset string) (vsPath : string) :
  validateVirtualServerRouteSubroutes routes fieldPath upstreamNames vsPath = Some [] →
  (∀ k r, routes !! k = Some r →
     validateRoute r (Index fieldPath (Z.of_nat k)) upstreamNames true = Some []) ∧
  NoDup (Route.Path <$> routes).
Proof.
  unfold validateVirtualServerRouteSubroutes. destruct (isRegexOrExactMatch vsPath).
  - destruct routes as [|r [|r' routes]]; [done| |done].
    destruct (negb _); [done|]. intros Hroute. split.
    + by intros [|k] r' [= <-].
    + apply NoDup_singleton.
  - destruct (for_range_opt _ _ _ _) as [st|] eqn:Hloop; [|done].
    apply (for_range_opt_unique
             (λ i r,
                routeErrs ← validateRoute r (Index fieldPath i) upstreamNames true;
                Some (if negb (String.eqb vsPath "")
                         && negb (go_strings.HasPrefix (Route.Path r) vsPath)
                         && negb (isRegexOrExactMatch (Route.Path r))
                      then routeErrs ++
                           [Invalid (Index fieldPath i) (StringValue (Route.Path r))
                              ("must start with '" +:+ vsPath +:+ "'")]
                      else routeErrs))
             Route.Path
             (λ i r, Duplicate (Child (Index fieldPath i) "path") (StringValue (Route.Path r))))
      in Hloop as (rest & Hst & Hrest).
    2:{ intros i r allErrs seen. unfold validateVirtualServerRouteSubroutes_route.
        by destruct (validateRoute _ _ _ _). }
    cbn [fmap option_fmap option_map]. intros [= Hnil]. rewrite Hst in Hnil. cbn [app] in Hnil.
    destruct (Hrest Hnil) as (Hchecks & Hnodup & _). split; [|done].
    intros k r Hk. specialize (Hchecks k r Hk). rewrite Z.add_0_l in Hchecks.
    destruct (validateRoute _ _ _ _) as [routeErrs|]; [|done].
    cbn [mbind option_bind] in Hchecks. destruct (_ && _); [|done].
    by injection Hchecks as [_ ?]%app_eq_nil.
Qed.

(** X16. When the validator has no errors for a VirtualServer, the paths of
    its routes differ from each other; and when it has none for a
    VirtualServerRoute (alone, or for a VirtualServer route with its host and
    path), the paths of its subroutes differ from each other. *)
Theorem accepted_paths_differ (isPlus : bool) :
  (∀ virtualServer,
     ValidateVirtualServer virtualServer isPlus = Some [] →
     NoDup (Route.Path <$> VirtualServerSpec.Routes (VirtualServer.Spec virtualServer))) ∧
  (∀ virtualServerRoute virtualServerHost vsPath,
     ValidateVirtualServerRouteForVirtualServer virtualServerRoute virtualServerHost vsPath
       isPlus = Some [] →
     NoDup (Route.Path
              <$> VirtualServerRouteSpec.Subroutes
                    (VirtualServerRoute.Spec virtualServerRoute))) ∧
  (∀ virtualServerRoute,
     ValidateVirtualServerRoute virtualServerRoute isPlus = Some [] →
     NoDup (Route.Path
              <$> VirtualServerRouteSpec.Subroutes
                    (VirtualServerRoute.Spec virtualServerRoute))).
Proof.
  assert (Hvsr : ∀ virtualServerRoute virtualServerHost vsPath,
    ValidateVirtualServerRouteForVirtualServer virtualServerRoute virtualServerHost vsPath
      isPlus = Some [] →
    NoDup (Route.Path
             <$> VirtualServerRouteSpec.Subroutes
                   (VirtualServerRoute.Spec virtualServerRoute))).
  { intros vsr host vsPath.
    unfold ValidateVirtualServerRouteForVirtualServer, validateVirtualServerRouteSpec.
    destruct (validateUpstreams _ _ _) as [upstreamErrs upstreamNames].
    destruct (validateVirtualServerRouteSubroutes _ _ _ _) as [errs|] eqn:Hsub; [|done].
    cbn [mbind option_bind]. intros [= [_ ->]%app_eq_nil].
    by apply validateVirtualServerRouteSubroutes_accepted in Hsub as [_ ?]. }
  split; [|split; [done|]].
  - intros vs. unfold ValidateVirtualServer, validateVirtualServerSpec.
    destruct (validateUpstreams _ _ _) as [upstreamErrs upstreamNames].
    destruct (validateVirtualServerRoutes _ _ _) as [errs|] eqn:Hroutes; [|done].
    cbn [mbind option_bind]. intros [= [_ ->]%app_eq_nil].
    by apply validateVirtualServerRoutes_accepted in Hroutes as [_ ?].
  - intros vsr. apply Hvsr.
Qed.

End unique_paths.

(** X16, the witness: the two routes of the VirtualServer of the example. *)
Lemma accepted_paths_differ_witness :
  NoDup (Route.Path
           <$> VirtualServerSpec.Routes
                 (VirtualServer.Spec
                    (deref (VirtualServerEx.VirtualServer example.oss_snapshot)))).
Proof.
  apply (proj1 (accepted_paths_differ false)
           (deref (VirtualServerEx.VirtualServer example.oss_snapshot))).
  by vm_compute.
Defined.

(** ** Resources that the validator accepts do not stop the generator *)

Section accepted_resources.
Context `{ValidatorEnv}.

Lemma validateSplits_accepted_actions (splits : list Split.t) (fieldPath : Path)
    (upstreamNames : gset string) :
  validateSplits splits fieldPath upstreamNames = Some [] → spec.splits_have_actions splits.
Proof.
  intros [_ Hall]%validateSplits_accepted. apply Forall_lookup. intros k s Hk.
  destruct (Hall k s Hk) as (_ & action & -> & _). by eexists.
Qed.

Lemma validateMatch_accepted_actions (match_ : Match.t) (fieldPath : Path)
    (upstreamNames : gset string) :
  validateMatch match_ fieldPath upstreamNames = Some [] → spec.match_has_actions match_.
Proof.
  intros (_ & _ & [(action & Haction & Hsplits & _)|(_ & Hsplits & Haccepted)])
           %validateMatch_accepted;
    unfold spec.match_has_actions, spec.has_splits.
  - rewrite Hsplits, Haction. by eexists.
  - destruct (Match.Splits match_) as [|s0 ss] eqn:Heq; [done|].
    replace (0 <? len (s0 :: ss))%Z with true by done.
    by eapply validateSplits_accepted_actions.
Qed.

(** A route that is accepted and does not refer to a VirtualServerRoute has
    every action that the generator dereferences. *)
Lemma validateRoute_accepted_actions (route : Route.t) (fieldPath : Path)
    (upstreamNames : gset string) (isRouteFieldForbidden : bool) :
  validateRoute route fieldPath upstreamNames isRouteFieldForbidden = Some [] →
  (isRouteFieldForbidden = true → Route.Route route = "") ∧
  (Route.Route route = "" → spec.route_has_actions route).
Proof.
  intros (_ & Hmatches & Hone)%validateRoute_accepted. split.
  - intros ->. by destruct Hone as [(? & _ & _ & ? & _)|[(_ & _ & ? & _)|(_ & _ & _ & ? & _)]].
  - intros Hroute. split.
    + apply Forall_lookup. intros i m Hi. eapply validateMatch_accepted_actions.
      by apply Hmatches.
    + destruct Hone as [(action & -> & -> & _)|[(_ & Hsplits & _ & Haccepted)|(_ & _ & ? & _)]];
        [by eexists | | done].
      destruct (Route.Splits route) as [|s0 ss] eqn:Heq; [done|].
      replace (0 <? len (s0 :: ss))%Z with true by done.
      by eapply validateSplits_accepted_actions.
Qed.

End accepted_resources.

Lemma GenerateVirtualServerConfig_route_is_Some (crUpstreams : gmap string Upstream.t)
    (variableNamer : variableNamer) (cfgParams : ConfigParams.t)
    (upstreamNamer : upstreamNamer) (r : Route.t) st :
  spec.route_has_actions r →
  is_Some (GenerateVirtualServerConfig_route crUpstreams variableNamer cfgParams upstreamNamer
             r st).
Proof.
  intros Hactions. destruct st as [[[[locations irls] splitClients] maps] matchesRoutes].
  unfold GenerateVirtualServerConfig_route.
  destruct (0 <? len (Route.Matches r))%Z.
  - by destruct (generateMatchesConfig_is_Some r upstreamNamer crUpstreams variableNamer
                   matchesRoutes (len splitClients) cfgParams Hactions) as [cfg ->].
  - destruct Hactions as [_ Hdefault]. destruct (0 <? len (Route.Splits r))%Z.
    + unfold generateDefaultSplitsConfig.
      by destruct (generateSplits_is_Some (Route.Splits r) upstreamNamer crUpstreams
                     variableNamer (len splitClients) cfgParams Hdefault) as [[sc locs] ->].
    + destruct Hdefault as [action ->]. cbn [mbind option_bind].
      by destruct (generateLocation_is_Some (Route.Path r)
                     (GetNameForUpstream upstreamNamer (Action.Pass action))
                     (crUpstreams_get crUpstreams
                        (GetNameForUpstream upstreamNamer (Action.Pass action)))
                     action cfgParams) as [loc ->].
Qed.

Section generator_returns.
Context `{GeneratorEnv}.

(** [GenerateVirtualServerConfig] returns when every route that it turns into
    configuration has the actions that it dereferences. *)
Lemma GenerateVirtualServerConfig_is_Some (vsc : virtualServerConfigurator)
    (virtualServerEx : VirtualServerEx.t) (tlsPemFileName : string) :
  (∀ r,
     r ∈ VirtualServerSpec.Routes
           (VirtualServer.Spec (deref (VirtualServerEx.VirtualServer virtualServerEx))) →
     Route.Route r = "" → spec.route_has_actions r) →
  (∀ vsr r,
     vsr ∈ VirtualServerEx.VirtualServerRoutes virtualServerEx →
     r ∈ VirtualServerRouteSpec.Subroutes (VirtualServerRoute.Spec (deref vsr)) →
     spec.route_has_actions r) →
  is_Some (GenerateVirtualServerConfig vsc virtualServerEx tlsPemFileName).
Proof.
  intros Hroutes Hsubroutes. unfold GenerateVirtualServerConfig.
  destruct (foldl _ (foldl _ _ _) _)
    as [[[[upstreams statusMatches] healthChecks] crUpstreams] vscf].
  match goal with |- context [for_range_opt ?body 0 ?l ?st0] =>
    destruct (for_range_opt_is_Some body l) with (i := 0%Z) (st := st0) as [st ->]
  end.
  { intros i r st Hr. destruct (String.eqb_spec (Route.Route r) "") as [Hroute|]; [|done].
    cbn [negb]. by apply GenerateVirtualServerConfig_route_is_Some, Hroutes. }
  cbn [mbind option_bind].
  match goal with |- context [for_range_opt ?body 0 ?l st] =>
    destruct (for_range_opt_is_Some body l) with (i := 0%Z) (st := st)
      as [[[[[locations irls] splitClients] maps] n] ->]
  end; [|done].
  intros i vsr st' Hvsr. apply for_range_opt_is_Some. intros j r st'' Hr.
  by eapply GenerateVirtualServerConfig_route_is_Some, Hsubroutes.
Qed.

(** X17. Resources that the validator accepts do not stop the generator.
    When the validator has no errors for the VirtualServer of a snapshot, and
    none for each of its VirtualServerRoutes (validated alone or for some
    route of a VirtualServer), [GenerateVirtualServerConfig] returns a
    configuration, in both tiers: no action that it dereferences is missing. *)
Theorem accepted_resources_generate `{ValidatorEnv} (vsc : virtualServerConfigurator)
    (virtualServerEx : VirtualServerEx.t) (tlsPemFileName : string) (validatedForPlus : bool) :
  ValidateVirtualServer (deref (VirtualServerEx.VirtualServer virtualServerEx))
    validatedForPlus = Some [] →
  (∀ vsr, vsr ∈ VirtualServerEx.VirtualServerRoutes virtualServerEx →
     ∃ virtualServerHost vsPath isPlus,
       ValidateVirtualServerRouteForVirtualServer (deref vsr) virtualServerHost vsPath isPlus
       = Some []) →
  is_Some (GenerateVirtualServerConfig vsc virtualServerEx tlsPemFileName).
Proof.
  intros Hvs Hvsrs. apply GenerateVirtualServerConfig_is_Some.
  - unfold ValidateVirtualServer, validateVirtualServerSpec in Hvs.
    destruct (validateUpstreams _ _ _) as [upstreamErrs upstreamNames].
    destruct (validateVirtualServerRoutes _ _ _) as [errs|] eqn:Hroutes; [|done].
    cbn [mbind option_bind] in Hvs. injection Hvs as [_ ->]%app_eq_nil.
    apply validateVirtualServerRoutes_accepted in Hroutes as [Hroutes _].
    intros r (k & Hk)%list_elem_of_lookup_1 Hroute.
    by apply (validateRoute_accepted_actions _ _ _ _ (Hroutes k r Hk)).
  - intros vsr r (host & vsPath & isPlus' & Hvsr)%Hvsrs (k & Hk)%list_elem_of_lookup_1.
    unfold ValidateVirtualServerRouteForVirtualServer, validateVirtualServerRouteSpec in Hvsr.
    destruct (validateUpstreams _ _ _) as [upstreamErrs upstreamNames].
    destruct (validateVirtualServerRouteSubroutes _ _ _ _) as [errs|] eqn:Hsub; [|done].
    cbn [mbind option_bind] in Hvsr. injection Hvsr as [_ ->]%app_eq_nil.
    apply validateVirtualServerRouteSubroutes_accepted in Hsub as [Hsub _].
    destruct (validateRoute_accepted_actions _ _ _ _ (Hsub k r Hk)) as [Hroute Hactions].
    by apply Hactions, Hroute.
Qed.

End generator_returns.

(** X17, the witness: the VirtualServer and the VirtualServerRoute of the
    example, which the validator accepts in the OSS tier. *)
Lemma accepted_resources_generate_witness :
  is_Some (GenerateVirtualServerConfig example.oss_without_resolver example.oss_snapshot "").
Proof.
  apply (accepted_resources_generate example.oss_without_resolver example.oss_snapshot ""
           false).
  - by vm_compute.
  - intros vsr ->%list_elem_of_singleton. exists "cafe.example.com", "/coffee", false.
    by vm_compute.
Defined.

(** ** Conditions *)

Section conditions.
Context `{ValidatorEnv}.

(** X18. A condition that the validator accepts names exactly one of a
    header, a cookie, an argument and a variable, and the source of the map
    that the generator writes for the condition is made of that one: no field
    of an accepted condition is passed over. A variable that is accepted
    starts with a dollar sign and is one of the variables that the validator
    lists. *)
Theorem validateCondition_source (condition : Condition.t) (fieldPath : Path) :
  validateCondition condition fieldPath = [] →
  (Condition.Header condition ≠ "" ∧ Condition.Cookie condition = "" ∧
   Condition.Argument condition = "" ∧ Condition.Variable_ condition = "" ∧
   getNameForSourceForMatchesRouteMapFromCondition condition
   = "$http_" +:+ go_strings.ReplaceAll (Condition.Header condition) "-" "_") ∨
  (Condition.Header condition = "" ∧ Condition.Cookie condition ≠ "" ∧
   Condition.Argument condition = "" ∧ Condition.Variable_ condition = "" ∧
   getNameForSourceForMatchesRouteMapFromCondition condition
   = "$cookie_" +:+ Condition.Cookie condition) ∨
  (Condition.Header condition = "" ∧ Condition.Cookie condition = "" ∧
   Condition.Argument condition ≠ "" ∧ Condition.Variable_ condition = "" ∧
   getNameForSourceForMatchesRouteMapFromCondition condition
   = "$arg_" +:+ Condition.Argument condition) ∨
  (Condition.Header condition = "" ∧ Condition.Cookie condition = "" ∧
   Condition.Argument condition = "" ∧ Condition.Variable_ condition ≠ "" ∧
   getNameForSourceForMatchesRouteMapFromCondition condition = Condition.Variable_ condition ∧
   go_strings.HasPrefix (Condition.Variable_ condition) "$" = true ∧
   is_Some (validVariableNames !! Condition.Variable_ condition)).
Proof.
  unfold validateCondition, getNameForSourceForMatchesRouteMapFromCondition.
  destruct (String.eqb_spec (Condition.Header condition) "") as [Hheader|Hheader];
    destruct (String.eqb_spec (Condition.Cookie condition) "") as [Hcookie|Hcookie];
    destruct (String.eqb_spec (Condition.Argument condition) "") as [Hargument|Hargument];
    destruct (String.eqb_spec (Condition.Variable_ condition) "") as [Hvariable|Hvariable];
    intros Hnil; simpl in Hnil; rewrite ?append_each_app in Hnil; nil_parts; try done.
  - right. right. right. split_and!; try done.
    + unfold validateVariableName in *. by destruct (go_strings.HasPrefix _ _).
    + unfold validateVariableName, has_key in *. destruct (negb _); [done|].
      by destruct (validVariableNames !! _).
  - right. right. left. by split_and!.
  - right. left. by split_and!.
  - left. by split_and!.
Qed.

End conditions.

(** X18, the witness: a condition on the header x-version. *)
Lemma validateCondition_source_witness :
  getNameForSourceForMatchesRouteMapFromCondition (Condition.mk "x-version" "" "" "" "v2")
  = "$http_x_version".
Proof.
  assert (validateCondition (Condition.mk "x-version" "" "" "" "v2")
            (Index (Child (NewPath "spec") "conditions") 0) = []) as Haccepted
    by by vm_compute.
  destruct (validateCondition_source _ _ Haccepted)
    as [(_ & _ & _ & _ & Hsource)|[(Hheader & _)|[(Hheader & _)|(Hheader & _)]]];
    [exact Hsource | discriminate Hheader..].
Defined.

(** ** The parameters of next-upstream *)

Lemma bool_map_get_validNextUpstreamParams (para : string) :
  bool_map_get validNextUpstreamParams para
  = bool_decide
      (para ∈ [ "error"; "timeout"; "invalid_header"; "http_500"; "http_502"; "http_503";
                 "http_504"; "http_403"; "http_404"; "http_429"; "non_idempotent"; "off"; "" ]).
Proof.
  unfold bool_map_get, validNextUpstreamParams.
  match goal with |- _ = bool_decide ?P => destruct (decide P) as [Hin|Hnin] end.
  - rewrite (bool_decide_eq_true_2 _ Hin).
    repeat (apply elem_of_cons in Hin as [->|Hin]; [done|]). by apply elem_of_nil in Hin.
  - rewrite (bool_decide_eq_false_2 _ Hnin). simpl.
    rewrite !lookup_insert_ne; [done|..]; intros <-; apply Hnin; set_solver.
Qed.

Section next_upstream.
Context `{ValidatorEnv}.

(** The loop of [validateNextUpstream]: it only appends to the errors, and
    appends nothing exactly when the parameters are valid ones, differ from
    each other and are not in the set of those that were seen. *)
Lemma validateNextUpstream_loop (fieldPath : Path) (params : list string) :
  ∀ allErrs (allParams : gset string),
    ∃ rest,
      (foldl
         (λ '(allErrs, allParams) para,
            let allErrs :=
              if negb (bool_map_get validNextUpstreamParams para)
              then allErrs ++ [Invalid fieldPath (StringValue para) "not a valid parameter"]
              else allErrs in
            if bool_decide (para ∈ allParams)
            then
              (allErrs ++
                 [Invalid fieldPath (StringValue para) "can not have duplicate parameters"],
               allParams)
            else (allErrs, {[para]} ∪ allParams))
         (allErrs, allParams) params).1
      = allErrs ++ rest ∧
      (rest = [] ↔
         Forall (λ para, bool_map_get validNextUpstreamParams para = true) params ∧
         NoDup params ∧ ∀ para, para ∈ params → para ∉ allParams).
Proof.
  intros allErrs allParams.
  match goal with |- context [foldl ?f _ params] => set (body := f) end.
  assert (Hbody : ∀ allErrs allParams para,
    body (allErrs, allParams) para
    = if bool_decide (para ∈ allParams)
      then
        ((if negb (bool_map_get validNextUpstreamParams para)
          then allErrs ++ [Invalid fieldPath (StringValue para) "not a valid parameter"]
          else allErrs) ++
         [Invalid fieldPath (StringValue para) "can not have duplicate parameters"],
         allParams)
      else
        (if negb (bool_map_get validNextUpstreamParams para)
         then allErrs ++ [Invalid fieldPath (StringValue para) "not a valid parameter"]
         else allErrs,
         {[para]} ∪ allParams)) by done.
  clearbody body. revert allErrs allParams.
  induction params as [|para params IH]; intros allErrs allParams.
  - exists []. rewrite app_nil_r. split; [done|]. split; [|done]. intros _.
    split_and!; [done | constructor | by intros para ?%elem_of_nil].
  - cbn [foldl]. rewrite Hbody.
    destruct (bool_map_get validNextUpstreamParams para) eqn:Hvalid;
      destruct (bool_decide_reflect (para ∈ allParams)) as [Hseen|Hnew]; cbn [negb].
    + destruct (IH (allErrs ++ [Invalid fieldPath (StringValue para)
                                  "can not have duplicate parameters"]) allParams)
        as (rest & -> & _).
      eexists ([_] ++ rest). rewrite <- app_assoc. split; [done|]. split; [done|].
      intros (_ & _ & Hnot). destruct (Hnot para); [by left | done].
    + destruct (IH allErrs ({[para]} ∪ allParams)) as (rest & -> & Hrest).
      exists rest. split; [done|]. rewrite Hrest, Forall_cons, NoDup_cons. split.
      * intros (Hall & Hnodup & Hnot). split_and!; [done|done| |done|].
        -- intros Hin. apply (Hnot para Hin), elem_of_union. left. by apply elem_of_singleton.
        -- intros para' [->|Hin]%elem_of_cons; [done|]. intros Hseen.
           apply (Hnot para' Hin), elem_of_union. by right.
      * intros ([_ Hall] & [Hpara Hnodup] & Hnot). split_and!; [done..|].
        intros para' Hin [->%elem_of_singleton|Hseen]%elem_of_union; [done|].
        apply (Hnot para'); [by right | done].
    + destruct (IH ((allErrs ++ [Invalid fieldPath (StringValue para) "not a valid parameter"])
                      ++ [Invalid fieldPath (StringValue para)
                            "can not have duplicate parameters"]) allParams)
        as (rest & -> & _).
      eexists ([_; _] ++ rest). rewrite <- !app_assoc. split; [done|]. split; [done|].
      intros ([Hv _]%Forall_cons & _). congruence.
    + destruct (IH (allErrs ++ [Invalid fieldPath (StringValue para) "not a valid parameter"])
                  ({[para]} ∪ allParams)) as (rest & -> & _).
      eexists ([_] ++ rest). rewrite <- !app_assoc. split; [done|]. split; [done|].
      intros ([Hv _]%Forall_cons & _). congruence.
Qed.

(** X19. [validateNextUpstream] has no errors for a value that is not empty
    exactly when the parameters of the value (its fields between white
    space) are all among the parameters that the validator lists and no
    parameter is repeated. *)
Theorem validateNextUpstream_accepted (nextUpstream : string) (fieldPath : Path) :
  nextUpstream ≠ "" →
  validateNextUpstream nextUpstream fieldPath = []
  ↔ Forall
      (λ para,
         para ∈ [ "error"; "timeout"; "invalid_header"; "http_500"; "http_502"; "http_503";
                   "http_504"; "http_403"; "http_404"; "http_429"; "non_idempotent"; "off";
                   "" ])
      (strings_Fields nextUpstream) ∧
    NoDup (strings_Fields nextUpstream).
Proof.
  intros Hne. unfold validateNextUpstream.
  destruct (String.eqb_spec nextUpstream "") as [|_]; [done|].
  destruct (validateNextUpstream_loop fieldPath (strings_Fields nextUpstream) [] ∅)
    as (rest & Hloop & Hrest).
  cbv zeta in Hloop |- *. rewrite Hloop. cbn [app]. rewrite Hrest. split.
  - intros (Hall & Hnodup & _). split; [|done]. eapply Forall_impl; [exact Hall|].
    intros para. cbv beta. rewrite bool_map_get_validNextUpstreamParams.
    apply bool_decide_eq_true_1.
  - intros (Hall & Hnodup). split_and!; [|done|by intros ? _ ?%elem_of_empty].
    eapply Forall_impl; [exact Hall|]. intros para. cbv beta.
    rewrite bool_map_get_validNextUpstreamParams. apply bool_decide_eq_true_2.
Qed.

End next_upstream.

(** X19, the witness: the one parameter that the text splitter of the
    example makes of the value. *)
Lemma validateNextUpstream_accepted_witness :
  validateNextUpstream "timeout" (Child (NewPath "spec") "next-upstream") = [].
Proof.
  apply (validateNextUpstream_accepted "timeout" (Child (NewPath "spec") "next-upstream"));
    [discriminate|].
  split; [|apply NoDup_singleton]. apply Forall_singleton. right. by left.
Defined.

(** ** Status codes *)

Section status_codes.
Context `{ValidatorEnv}.

Lemma append_nonempty (s1 s2 : string) : s2 ≠ "" → s1 +:+ s2 ≠ "".
Proof. intros Hs2. destruct s1; [done|]. discriminate. Qed.

(** [validateStatusCode] has no message exactly for a string that reads as
    an integer from 100 to 999. *)
Lemma validateStatusCode_accepted (status : string) :
  validateStatusCode status = ""
  ↔ ∃ code, strconv_ParseInt status = Some code ∧ (100 ≤ code ≤ 999)%Z.
Proof.
  unfold validateStatusCode, validateIntFromString.
  destruct (strconv_ParseInt status) as [code|].
  - cbn [String.eqb negb].
    destruct (Z.ltb_spec code 100), (Z.ltb_spec 999 code); cbn [orb]; split;
      try done; try (intros (? & [= <-] & ?); lia).
    intros _. exists code. split; [done | lia].
  - destruct (String.eqb_spec (status +:+ " must be a valid integer") "") as [Heq|Hne].
    + by apply append_nonempty in Heq.
    + cbn [negb]. split; [done | by intros (? & ? & _)].
Qed.

(** X20. [validateStatusCodeRange] has no message for a range exactly when
    the text has two parts around one hyphen, both parts read as integers,
    both integers are status codes (from 100 to 999), and the first is less
    than the second. *)
Theorem validateStatusCodeRange_accepted (statusRangeStr : string) :
  validateStatusCodeRange statusRangeStr = ""
  ↔ ∃ lo hi min max,
      strings_Split statusRangeStr "-" = [lo; hi] ∧
      strconv_ParseInt lo = Some min ∧ strconv_ParseInt hi = Some max ∧
      (100 ≤ min)%Z ∧ (min < max)%Z ∧ (max ≤ 999)%Z.
Proof.
  unfold validateStatusCodeRange.
  destruct (strings_Split statusRangeStr "-") as [|lo [|hi [|third parts]]];
    try by (split; [done | intros (? & ? & ? & ? & ? & _)]).
  pose proof (validateStatusCode_accepted lo) as Hlo.
  pose proof (validateStatusCode_accepted hi) as Hhi.
  unfold validateIntFromString.
  destruct (strconv_ParseInt lo) as [min|] eqn:Hmin.
  2:{ destruct (String.eqb_spec (lo +:+ " must be a valid integer") "") as [Heq|Hne];
        [by apply append_nonempty in Heq|].
      cbn [negb]. split; [done|]. intros (? & ? & ? & ? & [= <- <-] & ? & _). congruence. }
  cbn [String.eqb negb].
  destruct (strconv_ParseInt hi) as [max|] eqn:Hmax.
  2:{ destruct (String.eqb_spec (hi +:+ " must be a valid integer") "") as [Heq|Hne];
        [by apply append_nonempty in Heq|].
      cbn [negb]. split; [done|]. intros (? & ? & ? & ? & [= <- <-] & ? & ? & _). congruence. }
  assert (Hex :
    (∃ lo' hi' min' max',
       [lo; hi] = [lo'; hi'] ∧ strconv_ParseInt lo' = Some min' ∧
       strconv_ParseInt hi' = Some max' ∧ (100 ≤ min')%Z ∧ (min' < max')%Z ∧ (max' ≤ 999)%Z)
    ↔ (100 ≤ min)%Z ∧ (min < max)%Z ∧ (max ≤ 999)%Z).
  { split.
    - intros (? & ? & min' & max' & [= <- <-] & Hmin' & Hmax' & ?).
      rewrite Hmin in Hmin'. rewrite Hmax in Hmax'. by injection Hmin' as <-; injection Hmax' as <-.
    - intros ?. by exists lo, hi, min, max. }
  rewrite Hex. clear Hex.
  cbn [String.eqb negb fmap list_fmap list_find].
  destruct (decide (validateStatusCode lo ≠ "")) as [Hbad|Hgood%dec_stable].
  { cbn [fmap option_fmap option_map]. split; [done|]. intros (? & ? & ?).
    destruct Hbad. apply Hlo. exists min. split; [done | lia]. }
  destruct (decide (validateStatusCode hi ≠ "")) as [Hbad|Hgood'%dec_stable].
  { cbn [fmap option_fmap option_map prod_map]. split; [done|]. intros (? & ? & ?).
    destruct Hbad. apply Hhi. exists max. split; [done | lia]. }
  cbn [fmap option_fmap option_map].
  apply Hlo in Hgood as (? & [= <-] & ?). apply Hhi in Hgood' as (? & [= <-] & ?).
  destruct (Z.leb_spec max min).
  - split; [|lia]. intros Heq. by apply append_nonempty in Heq.
  - split; [lia | done].
Qed.

End status_codes.

(** ** Strings without variables *)

Lemma HasSuffix_dollar_no_dollar (s : string) :
  go_strings.Contains s "$" = false → go_strings.HasSuffix s "$" = false.
Proof.
  induction s as [|c s IH]; [done|]. rewrite Contains_char_cons.
  destruct (ascii_dec "$" c) as [|Hc]; [done|]. intros Hs.
  destruct s as [|c' s'].
  - unfold go_strings.HasSuffix. cbn. destruct (Ascii.eqb_spec c "$"); [congruence | done].
  - rewrite HasSuffix_dollar_cons by done. by apply IH.
Qed.

Lemma slice_from_no_dollar (n : nat) (s : string) :
  go_strings.Contains s "$" = false →
  go_strings.Contains (go_strings.slice_from n s) "$" = false.
Proof.
  revert n. induction s as [|c s IH]; intros n; [by destruct n|].
  destruct n as [|n]; [done|]. rewrite Contains_char_cons.
  destruct (ascii_dec "$" c); [done|]. apply IH.
Qed.

Lemma validateStringWithVariables_range_no_dollar (str : string) (fieldPath : field.Path)
    (rest : string) (i skip : nat) :
  go_strings.Contains rest "$" = false →
  validateStringWithVariables_range str fieldPath i skip rest = Some None.
Proof.
  revert i skip. induction rest as [|b rest IH]; intros i skip; [done|].
  rewrite Contains_char_cons. destruct (ascii_dec "$" b) as [|Hb]; [done|]. intros Hrest.
  cbn [validateStringWithVariables_range]. destruct skip as [|skip]; [|by apply IH].
  destruct (decoderune (String b rest)) as [c width] eqn:Hrune.
  destruct (Z.eqb_spec c 36) as [Hc|_]; [|by apply IH].
  destruct (decoderune_dollar (String b rest)) as [s' Heq]; [by rewrite Hrune|].
  congruence.
Qed.

Lemma captureVariables_from_no_dollar (s : string) (skip : nat) :
  go_strings.Contains s "$" = false → captureVariables_from skip s = [].
Proof.
  revert skip. induction s as [|b s IH]; intros skip; [done|].
  rewrite Contains_char_cons. destruct (ascii_dec "$" b) as [|Hb]; [done|]. intros Hs.
  cbn [captureVariables_from]. destruct skip as [|skip]; [|by apply IH].
  unfold go_strings.HasPrefix.
  change (String.prefix "${" (String b s))
    with (if ascii_dec "$" b then String.prefix "{" s else false).
  destruct (ascii_dec "$" b); [done|]. by apply IH.
Qed.

Section strings_without_variables.
Context `{ValidatorEnv}.

(** X21. A string without a dollar sign passes [validateStringWithVariables]:
    the function returns, and its list of errors is empty, whatever the sets
    of allowed variables are. *)
Theorem validateStringWithVariables_no_dollar (str : string) (fieldPath : field.Path)
    (validVars : gmap string bool) (specialVars : list string) :
  go_strings.Contains str "$" = false →
  validateStringWithVariables str fieldPath validVars specialVars = Some [].
Proof.
  intros Hstr. unfold validateStringWithVariables.
  rewrite HasSuffix_dollar_no_dollar by done.
  rewrite validateStringWithVariables_range_no_dollar by done.
  cbn [mbind option_bind]. unfold captureVariables.
  by rewrite captureVariables_from_no_dollar.
Qed.

End strings_without_variables.

(** X21, the witness: the URL of a redirect without variables. *)
Lemma validateStringWithVariables_no_dollar_witness :
  go_strings.Contains "/coffee?size=large" "$" = false ∧
  validateStringWithVariables (H := example.validator_env) "/coffee?size=large"
    (field.NewPath "url") validRedirectVariableNames [] = Some [].
Proof.
  split; [done|].
  by apply (validateStringWithVariables_no_dollar (H := example.validator_env)).
Defined.

(** ** The commercial tier's fields in the OSS tier *)

Section oss_upstreams.
Context `{ValidatorEnv}.

Lemma rejectPlusResourcesInOSS_accepted (upstream : Upstream.t) (idxPath : Path) :
  rejectPlusResourcesInOSS upstream idxPath false = [] →
  Upstream.HealthCheck upstream = None ∧ Upstream.SlowStart upstream = "" ∧
  Upstream.SessionCookie upstream = None ∧ Upstream.Queue upstream = None.
Proof.
  unfold rejectPlusResourcesInOSS.
  destruct (Upstream.HealthCheck upstream), (String.eqb_spec (Upstream.SlowStart upstream) ""),
    (Upstream.SessionCookie upstream), (Upstream.Queue upstream); by cbn.
Qed.

(** A round of the loop of [validateUpstreams] that leaves no errors found
    none, and [rejectPlusResourcesInOSS] has none for the upstream. *)
Lemma validateUpstreams_upstream_rejected (fieldPath : Path) (isPlus : bool) (i : Z)
    (u : Upstream.t) (allErrs : ErrorList) (upstreamNames : gset string) :
  (validateUpstreams_upstream fieldPath isPlus i u (allErrs, upstreamNames)).1 = [] →
  allErrs = [] ∧ rejectPlusResourcesInOSS u (Index fieldPath i) isPlus = [].
Proof.
  unfold validateUpstreams_upstream. cbv zeta.
  destruct (0 <? len (validateUpstreamName _ _))%Z; [|destruct (bool_decide _)];
    rewrite append_each_app; cbn [fst]; intros Hnil;
    repeat match goal with
           | Happ : _ ++ _ = [] |- _ => apply app_eq_nil in Happ as [? ?]
           end;
    done.
Qed.

Lemma validateUpstreams_loop_rejected (fieldPath : Path) (isPlus : bool)
    (upstreams : list Upstream.t) :
  ∀ i allErrs upstreamNames,
    (for_range (validateUpstreams_upstream fieldPath isPlus) i upstreams
       (allErrs, upstreamNames)).1 = [] →
    allErrs = [] ∧
    ∀ k u, upstreams !! k = Some u →
      rejectPlusResourcesInOSS u (Index fieldPath (i + Z.of_nat k)) isPlus = [].
Proof.
  induction upstreams as [|u upstreams IH]; intros i allErrs upstreamNames; [done|].
  cbn [for_range].
  pose proof (validateUpstreams_upstream_rejected fieldPath isPlus i u allErrs upstreamNames)
    as Hround.
  destruct (validateUpstreams_upstream _ _ _ _ _) as [allErrs' upstreamNames'].
  cbn [fst] in Hround.
  intros [[-> Hrejected]%Hround Hrest]%IH. split; [done|].
  intros [|k] u' Hk.
  - injection Hk as <-. by rewrite Z.add_0_r.
  - replace (i + Z.of_nat (S k))%Z with (i + 1 + Z.of_nat k)%Z by lia. by apply Hrest.
Qed.

End oss_upstreams.

Lemma foldl_invariant_Forall {A St} (Q : A → Prop) (P : St → Prop) (f : St → A → St)
    (l : list A) :
  (∀ st x, Q x → P st → P (f st x)) → Forall Q l → ∀ st, P st → P (foldl f st l).
Proof.
  intros Hf Hl. induction Hl as [|x l Hx Hl IH]; intros st Hst; simpl; [done|].
  by apply IH, Hf.
Qed.

(** In the OSS tier upstreams that [validateUpstreams] has no errors for
    have no health check. *)
Lemma validateUpstreams_no_health_checks `{ValidatorEnv} (upstreams : list Upstream.t)
    (fieldPath : Path) :
  (validateUpstreams upstreams fieldPath false).1 = [] →
  Forall (λ u, Upstream.HealthCheck u = None) upstreams.
Proof.
  unfold validateUpstreams. intros [_ Hrejected]%validateUpstreams_loop_rejected.
  apply Forall_lookup. intros k u Hk.
  by destruct (rejectPlusResourcesInOSS_accepted _ _ (Hrejected k u Hk)) as [? _].
Qed.

Section oss_health_checks.
Context `{GeneratorEnv}.

(** The generator makes health checks and status matches from the health
    checks of the upstreams only: when no upstream of the VirtualServer and of
    the VirtualServerRoutes has one, the configuration has neither. *)
Lemma GenerateVirtualServerConfig_no_health_checks (vsc : virtualServerConfigurator)
    (virtualServerEx : VirtualServerEx.t) (tlsPemFileName : string) vscfg warns vsc' :
  Forall (λ u, Upstream.HealthCheck u = None)
    (VirtualServerSpec.Upstreams
       (VirtualServer.Spec (deref (VirtualServerEx.VirtualServer virtualServerEx)))) →
  Forall
    (λ vsr,
       Forall (λ u, Upstream.HealthCheck u = None)
         (VirtualServerRouteSpec.Upstreams (VirtualServerRoute.Spec (deref vsr))))
    (VirtualServerEx.VirtualServerRoutes virtualServerEx) →
  GenerateVirtualServerConfig vsc virtualServerEx tlsPemFileName = Some (vscfg, warns, vsc') →
  version2.Server.HealthChecks (version2.VirtualServerConfig.Server vscfg) = [] ∧
  version2.VirtualServerConfig.StatusMatches vscfg = [].
Proof.
  intros Hvs Hvsrs Hgen. unfold GenerateVirtualServerConfig in Hgen.
  set (Inv := λ st : list version2.Upstream.t * list version2.StatusMatch.t
                     * list version2.HealthCheck.t * gmap string Upstream.t
                     * virtualServerConfigurator,
                st.1.1.2 = [] ∧ st.1.1.1.2 = []).
  assert (Hstep : ∀ owner upstreamNamer upstreamNamespace st u,
    Upstream.HealthCheck u = None → Inv st →
    Inv (GenerateVirtualServerConfig_upstream virtualServerEx owner upstreamNamer
           upstreamNamespace st u)).
  { intros owner upstreamNamer upstreamNamespace
      [[[[upstreams statusMatches] healthChecks] crUpstreams] vsc0] u Hu Hst.
    unfold GenerateVirtualServerConfig_upstream.
    destruct (generateEndpointsForUpstream _ _ _ _ _) as [endpoints vsc1].
    destruct (generateUpstream _ _ _ _ _ _) as [ups vsc2].
    unfold generateHealthCheck. by rewrite Hu. }
  match type of Hgen with
  | context [foldl ?f (foldl ?g ?st0 ?us) ?vsrs] =>
      assert (Inv (foldl f (foldl g st0 us) vsrs)) as Hinv;
      [|destruct (foldl f (foldl g st0 us) vsrs)
          as [[[[upstreams statusMatches] healthChecks] crUpstreams] vscf]]
  end.
  { apply (foldl_invariant_Forall _ Inv _ _ (λ st vsr Hvsr Hst,
             foldl_invariant_Forall _ Inv _ _ (λ st' u, Hstep _ _ _ st' u) Hvsr st Hst) Hvsrs).
    by apply (foldl_invariant_Forall _ Inv _ _ (λ st u, Hstep _ _ _ st u) Hvs). }
  destruct Hinv as [Hhc Hsm]. cbn [fst snd] in Hhc, Hsm. subst healthChecks statusMatches.
  destruct (for_range_opt _ _ _ _) as [st|]; [|done]. cbn [mbind option_bind] in Hgen.
  destruct (for_range_opt _ _ _ _) as [[[[[locations irls] splitClients] maps] n]|]; [|done].
  cbn [mbind option_bind] in Hgen. by injection Hgen as <- <- <-.
Qed.

(** X22. The generator does not look at the tier when it makes health
    checks; it is the validator that keeps them out of the OSS tier. When
    the validator has no errors, for the OSS tier, for the VirtualServer of a
    snapshot and for each of its VirtualServerRoutes, the configuration that
    [GenerateVirtualServerConfig] returns has no health check and no status
    match, whatever the tier of the configurator is. *)
Theorem accepted_oss_resources_health_checks `{ValidatorEnv}
    (vsc : virtualServerConfigurator) (virtualServerEx : VirtualServerEx.t)
    (tlsPemFileName : string) vscfg warns vsc' :
  ValidateVirtualServer (deref (VirtualServerEx.VirtualServer virtualServerEx)) false
  = Some [] →
  (∀ vsr, vsr ∈ VirtualServerEx.VirtualServerRoutes virtualServerEx →
     ∃ virtualServerHost vsPath,
       ValidateVirtualServerRouteForVirtualServer (deref vsr) virtualServerHost vsPath false
       = Some []) →
  GenerateVirtualServerConfig vsc virtualServerEx tlsPemFileName = Some (vscfg, warns, vsc') →
  version2.Server.HealthChecks (version2.VirtualServerConfig.Server vscfg) = [] ∧
  version2.VirtualServerConfig.StatusMatches vscfg = [].
Proof.
  intros Hvs Hvsrs. apply GenerateVirtualServerConfig_no_health_checks.
  - unfold ValidateVirtualServer, validateVirtualServerSpec in Hvs.
    pose proof (validateUpstreams_no_health_checks
                  (VirtualServerSpec.Upstreams
                     (VirtualServer.Spec
                        (deref (VirtualServerEx.VirtualServer virtualServerEx))))
                  (Child (NewPath "spec") "upstreams")) as Hoss.
    destruct (validateUpstreams _ _ _) as [upstreamErrs upstreamNames].
    destruct (validateVirtualServerRoutes _ _ _) as [errs|]; [|done].
    cbn [mbind option_bind] in Hvs. injection Hvs as [[_ ->]%app_eq_nil _]%app_eq_nil.
    by apply Hoss.
  - apply Forall_forall. intros vsr (host & vsPath & Hvsr)%Hvsrs.
    unfold ValidateVirtualServerRouteForVirtualServer, validateVirtualServerRouteSpec in Hvsr.
    pose proof (validateUpstreams_no_health_checks
                  (VirtualServerRouteSpec.Upstreams (VirtualServerRoute.Spec (deref vsr)))
                  (Child (NewPath "spec") "upstreams")) as Hoss.
    destruct (validateUpstreams _ _ _) as [upstreamErrs upstreamNames].
    destruct (validateVirtualServerRouteSubroutes _ _ _ _) as [errs|]; [|done].
    cbn [mbind option_bind] in Hvsr. injection Hvsr as [[_ ->]%app_eq_nil _]%app_eq_nil.
    by apply Hoss.
Qed.

End oss_health_checks.

(** X22, the witness: the VirtualServer and the VirtualServerRoute of the
    example, which the validator accepts in the OSS tier, under a
    configurator of the commercial tier. *)
Lemma accepted_oss_resources_health_checks_witness :
  ∃ vscfg warns vsc',
    GenerateVirtualServerConfig (newVirtualServerConfigurator example.cfgParams true false)
      example.oss_snapshot ""
    = Some (vscfg, warns, vsc') ∧
    version2.Server.HealthChecks (version2.VirtualServerConfig.Server vscfg) = [] ∧
    version2.VirtualServerConfig.StatusMatches vscfg = [].
Proof.
  destruct (GenerateVirtualServerConfig
              (newVirtualServerConfigurator example.cfgParams true false)
              example.oss_snapshot "")
    as [[[vscfg warns] vsc']|] eqn:Hgen; [|by vm_compute in Hgen].
  exists vscfg, warns, vsc'. split; [done|].
  apply (accepted_oss_resources_health_checks
           (newVirtualServerConfigurator example.cfgParams true false)
           example.oss_snapshot "" vscfg warns vsc'); [by vm_compute | | done].
  intros vsr ->%list_elem_of_singleton. exists "cafe.example.com", "/coffee". by vm_compute.
Defined.

(** ** The redirect to HTTPS *)

Section tls_redirects.
Context `{ValidatorEnv}.

(** X23. The redirect to HTTPS of an accepted VirtualServer is well formed.
    When [validateTLS] has no errors and [generateTLSRedirectConfig] returns a
    redirect, the redirect of the resource is enabled, the code of the
    generated redirect is 301, 302, 307 or 308 (301 when the resource gives
    none), and it is based on the header of the forwarded protocol when the
    resource asks for it and on the scheme when the resource asks for the
    scheme or for nothing: the resource asks for nothing else. *)
Theorem validateTLS_generateTLSRedirectConfig (tls : option TLS.t) (fieldPath : Path)
    (redirect : version2.TLSRedirect.t) :
  validateTLS tls fieldPath = [] →
  generateTLSRedirectConfig tls = Some redirect →
  ∃ tls' r,
    tls = Some tls' ∧ TLS.Redirect tls' = Some r ∧ TLSRedirect.Enable r = true ∧
    version2.TLSRedirect.Code redirect ∈ [301; 302; 307; 308]%Z ∧
    (TLSRedirect.Code r = None → version2.TLSRedirect.Code redirect = 301%Z) ∧
    ((TLSRedirect.BasedOn r = "x-forwarded-proto" ∧
      version2.TLSRedirect.BasedOn redirect = "$http_x_forwarded_proto") ∨
     (TLSRedirect.BasedOn r ∈ [""; "scheme"] ∧
      version2.TLSRedirect.BasedOn redirect = "$scheme")).
Proof.
  unfold validateTLS, generateTLSRedirectConfig. destruct tls as [tls'|]; [|done].
  intros [_ Hredirect]%app_eq_nil. unfold validateTLSRedirect in Hredirect.
  destruct (TLS.Redirect tls') as [r|] eqn:Hr; [|done].
  destruct (TLSRedirect.Enable r) eqn:Henable; [|done]. cbn [negb].
  intros [= <-]. exists tls', r. split_and!; try done.
  - cbn [version2.TLSRedirect.Code]. destruct (TLSRedirect.Code r) as [code|].
    + unfold validateRedirectStatusCode in Hredirect.
      destruct (bool_decide_reflect (code ∈ validRedirectStatusCodes)) as [Hcode|]; [exact Hcode|].
      by destruct (_ && _); apply app_eq_nil in Hredirect as [? ?].
    + by left.
  - by intros ->.
  - cbn [version2.TLSRedirect.BasedOn]. unfold generateTLSRedirectBasedOn.
    assert (negb (String.eqb (TLSRedirect.BasedOn r) "")
            && negb (String.eqb (TLSRedirect.BasedOn r) "scheme")
            && negb (String.eqb (TLSRedirect.BasedOn r) "x-forwarded-proto") = false)
      as Hbased.
    { destruct (_ && _); [|done]. by apply app_eq_nil in Hredirect as [_ ?]. }
    destruct (String.eqb_spec (TLSRedirect.BasedOn r) "x-forwarded-proto") as [->|_];
      [by left|].
    right. split; [|done].
    destruct (String.eqb_spec (TLSRedirect.BasedOn r) "") as [->|_]; [by left|].
    destruct (String.eqb_spec (TLSRedirect.BasedOn r) "scheme") as [->|_]; [|done].
    right. by left.
Qed.

End tls_redirects.

(** X23, the witness: a redirect with the code 302 that is based on the
    header of the forwarded protocol. *)
Lemma validateTLS_generateTLSRedirectConfig_witness :
  ∃ tls' r,
    Some (TLS.mk "cafe-secret" (Some (TLSRedirect.mk true (Some 302%Z) "x-forwarded-proto")))
    = Some tls' ∧ TLS.Redirect tls' = Some r ∧ TLSRedirect.Enable r = true ∧
    302%Z ∈ [301; 302; 307; 308]%Z ∧
    (TLSRedirect.Code r = None → 302%Z = 301%Z) ∧
    ((TLSRedirect.BasedOn r = "x-forwarded-proto" ∧
      "$http_x_forwarded_proto" = "$http_x_forwarded_proto") ∨
     (TLSRedirect.BasedOn r ∈ [""; "scheme"] ∧ "$http_x_forwarded_proto" = "$scheme")).
Proof.
  exact (validateTLS_generateTLSRedirectConfig (H := example.validator_env)
           (Some (TLS.mk "cafe-secret"
                    (Some (TLSRedirect.mk true (Some 302%Z) "x-forwarded-proto"))))
           (NewPath "tls") (version2.TLSRedirect.mk 302 "$http_x_forwarded_proto")
           eq_refl eq_refl).
Defined.
